(* ===== verification/_CoqProject ===== *)
-Q . S2P
Prelude.v
PyStr.v
Exceptions.v
FileSystem.v
FsFacts.v
Realpath.v
FsOps.v
Storage.v
StorageFacts.v
Attempts.v
StorageProps.v
StorageSpec.v
StoragePaths.v
StorageRefine.v
Schemas.v
Database.v
DatabaseFacts.v
Repository.v
Regex.v
ArgValidator.v
Scad.v
PolicyValidator.v
Retry.v
World.v
JobService.v
Executor.v
ExecutorFacts.v
JobFacts.v
Gate.v
ToolGate.v
Orchestrator.v
OrchestratorFacts.v
Sse.v
SseFacts.v
Streams.v
Detached.v
Runner.v
RunnerFacts.v
Json.v
SseJson.v
Parser.v
Client.v
Tokens.v
Api.v
ApiFacts.v
Config.v
App.v
System.v
