(* ===== verification/Prelude.v ===== *)
(** * CLI Execution Platform: verification library

    The program takes a request in natural language, asks a language model for
    an action plan, checks the plan against a security policy, executes it in a
    workspace of its own (directories, files, the OpenSCAD tool, artifacts),
    stores what happened in a database and streams the events to the client.
    This library models its Python code as Rocq functions and proves what makes
    it correct.  Source files are named relative to src/.

    ** How the parts interact

    main.py starts the application (App) and dispatches requests to the routes
    (Api), which use the job and artifact services (JobService) and schedule
    the orchestrator.  The orchestrator (Orchestrator) waits at the gate
    (Gate), claims the job through the repository (Repository), and lets the
    retry executor (Retry) ask the client (Client, Parser), check the plan
    (PolicyValidator, Scad) and execute it (Executor), which uses the storage
    (Storage) and the tool runner (Runner, Streams), which has a semaphore of
    its own (ToolGate).  Everybody talks to the database through sessions
    (Database).  The event stream (Sse) polls the database and is opened by
    the route with a token (Tokens).  System puts the parts together the way
    the startup in main.py does.

    ** Which file models what

    - Prelude: outcomes, the state and exception monad [eff] with its notation
      and the tactic [run], [steps] (a computation is a step of a preorder),
      shared lemmas on lists and the hint database [eff].
    - PyStr: Python's str and bytes as lists of code points, the string
      methods the sources use, UTF-8, str of an int and of a UUID; the parts of
      the Unicode database are the class [UnicodeData].
    - Exceptions: every exception class the sources raise or catch.
    - FileSystem, FsFacts, Realpath, FsOps: directories, files and symbolic
      links as a finite map from paths, the kernel's path walk, Path.resolve,
      mkdir, rmtree, copyfile and their lemmas.
    - Storage (storage/interface.py: class [StorageService]; storage/local.py:
      Module [Local]), StorageFacts, Attempts, StorageProps; StorageSpec (the
      interface's promise as a reference store over finite maps), StoragePaths
      and StorageRefine (the local storage implements it).
    - Schemas (llm/schemas.py), Regex (the part of re that is used), Scad
      (llm/scad_validator.py), ArgValidator (runner/validator.py,
      runner/diagnostics.py; runner/exceptions.py is in Exceptions), Parser
      (llm/parser.py), Json (json.loads), Client (llm/client.py), Retry
      (llm/retry.py), PolicyValidator (llm/validator.py).
    - Database (jobs/models.py), DatabaseFacts, Repository
      (orchestrator/repository.py, orchestrator/recovery.py).
    - World: the state the services share (files, database, UUIDs to be drawn,
      whatever else a component acts on) and the liftings to it.
    - JobService, JobFacts (jobs/service.py); Executor, ExecutorFacts
      (orchestrator/actions.py); Runner, Streams, Detached, RunnerFacts
      (runner/service.py; Detached is the drain that outlives a failed run);
      Gate (orchestrator/concurrency.py); ToolGate (the runner's
      _CLI_SEMAPHORE inside the gate); Orchestrator, OrchestratorFacts
      (orchestrator/service.py); Config (orchestrator/config.py).
    - Sse, SseFacts, SseJson (sse/connection_registry.py, sse/encoder.py,
      sse/repository.py, sse/service.py); Tokens (sse/security.py).
    - Api, ApiFacts (jobs/router.py, jobs/schemas.py, sse/router.py, the
      exception handlers of main.py); App (the startup in main.py and the
      runner's settings); System (the orchestrator with its real client,
      runner and storage, behind the routes).

    Operations keep the names of the source.  A method that works on files,
    on the database, on a session or on all of them is an [eff] on that state:
    it returns the new state and an outcome, a value or the exception.

    ** What the theorems show

    - Files: storage_refines (no client can tell the local storage from the
      reference store), requests_confined, jobs_isolated, write_then_read,
      rollback_restores (Storage, links included); attempt_all_or_nothing
      (Executor, against any runner that stays in the job's trees),
      tool_run_confined (the real runner stays there) and attempt_with_tools
      (the two together); downloads_confined, registered_artifact_downloads
      (services, routes).
    - Jobs: transition_atomic, jobs_move_forward, started_once (Repository),
      claimed_job_ends (the whole orchestration), refinement_exact, startup.
    - The whole system: posted_job_observed follows a posted job through the
      route, the orchestrator with the real client, runner and storage, and
      the event stream: the job ends, and the client sees its events, in
      order, and then the end of the stream. posted_job_streams is the same
      for the routes alone.
    - The gate: gate_bounded, gate_drains; tools_never_wait (nobody ever
      queues at the runner's semaphore, so [run_tool] needs no waiting).
    - Plans: accepted_plan_is_safe, refusal_is_audited, scad_validate_outcome,
      argument_allowlist, stored_plan_validates, parse_outcome,
      fenced_plan_parsed; asking for them: accepted_reply, retryable_exactly,
      returned_plan_was_executed, bounded_requests, refusal_is_final,
      accepted_configuration.
    - Events: output_is_logged (the tool's output reaches the event log),
      other_pipe_is_kept (what becomes of the other pipe when storing the
      output of one has failed); stream_exact, reconnect_exact, stream_ends,
      slots_conserved, event_is_one_frame, event_data_decodes, token_exact,
      stream_access.

    Components meet at interfaces: Storage's class (two instances, related by
    storage_refines), the callbacks of the retry
    executor, the runner parameter of the executor (what it must keep is the
    hypothesis of attempt_all_or_nothing, discharged in attempt_with_tools),
    the repository's [db_step], which every caller of the database preserves,
    and [calm_w] (the statuses of jobs stay, the event log only grows), which
    posted_job_observed asks of the network, the timer and the gate.

    ** The database and concurrency

    The database answers each statement from a script of ticks: it may fail,
    and before it answers other sessions may have committed any steps the
    program's own sessions can make, except on rows this session has locked
    (READ COMMITTED). COMMIT and ROLLBACK are statements too and may fail:
    [db.rollback()] raises then, which attempt_all_or_nothing accounts for.
    Theorems state which scripts they allow: any ([db_ok]), no interference
    ([isolated]), no interference and no failure ([healthy]). A text that the
    driver cannot send (a NUL character, a lone surrogate) is a statement that
    fails, so theorems about a database that answers are about texts that can
    be sent. Events of other sessions get their numbers in the order of their
    commits. The event loop is explicit where it matters: Gate has the steps
    of tasks in any order, Streams the reads of two pipes in any order, Sse a
    client that goes away at any suspension of the generator.

    ** Bounds and fuel

    Path.resolve has fuel: the length of the path plus the weight of all
    links, and Realpath proves that it never runs out. json.loads has fuel:
    the length of the text; Json proves that it is enough (loads_total). The
    loop of a stream has fuel: 1201 polls and one per event there can be to
    deliver ([capacity]) are enough by stream_ends. gate_drains bounds the
    steps of the gate by [work_left]. The regular expression matcher lists all
    ways to match and agrees with a declarative meaning (Regex). Every other
    recursion is structural. Integers are unbounded, as in Python; times are
    in milliseconds in Sse and Retry and in seconds elsewhere.

    ** Parameters

    What is not in the repository is an argument: the HTTP exchange with the
    model, what the tool does and when its pipes deliver what, HMAC-SHA-256
    (32 octets), mimetypes.guess_type, isoformat, str of an OSError, of an
    exception and of a dictionary, pydantic's wording, the decisions of
    slowapi, SQLAlchemy's create_all, Unicode's tables and normalization, and
    how deep json.loads may nest (the class [RecursionLimit]).
    Hypotheses on them are named where they are used and hold for the
    instances in the witnesses.

    ** Not modelled

    The cancellation of a task other than by the gate's deadline or, for a
    stream, by a client that goes away; a stream whose generator is never
    started; the interpreter's recursion limit outside json.loads; an error of
    Session.close; a tool that still writes while its temporary directory is
    removed (which the code allows when storing its output failed); log lines;
    the CORS and rate limiting middleware; the construction of the database
    engine, the limiter and the HTTP client; the migrations.
    posted_job_observed is about new jobs on a database that answers and that
    no other session writes to; for refinements and for other sessions there
    are the theorems on the parts. storage_refines leaves symbolic links below
    the base directory to the theorems of StorageProps. *)
From stdpp Require Export base list numbers option tactics relations.
From Stdlib Require Export Lia.

(** ** Outcomes

    A Python call either returns or raises.  The state it was working on
    survives an exception, so effectful code maps a state to a new state
    {e and} an outcome. *)
Inductive outcome (E A : Type) : Type :=
  | Ret (a : A)
  | Exc (e : E).
Arguments Ret {E A} a.
Arguments Exc {E A} e.

#[export] Instance outcome_eq_dec {E A} `{!EqDecision E, !EqDecision A} :
  EqDecision (outcome E A).
Proof. solve_decision. Defined.

Definition is_ret {E A} (o : outcome E A) : bool :=
  match o with Ret _ => true | Exc _ => false end.

(** ** Effectful computations: state passing with exceptions *)
Definition eff (E S A : Type) : Type := S → S * outcome E A.

Declare Scope eff_scope.
Delimit Scope eff_scope with eff.

Section combinators.
Context {E S : Type}.

Definition ret {A} (a : A) : eff E S A := λ s, (s, Ret a).

Definition raise {A} (e : E) : eff E S A := λ s, (s, Exc e).

Definition ebind {A B} (m : eff E S A) (k : A → eff E S B) : eff E S B :=
  λ s, match m s with
       | (s', Ret a) => k a s'
       | (s', Exc e) => (s', Exc e)
       end.

Definition gets {A} (f : S → A) : eff E S A := λ s, (s, Ret (f s)).

Definition modify (f : S → S) : eff E S unit := λ s, (f s, Ret tt).

(** [try: m except e: h e]; a handler that does not want [e] re-raises. *)
Definition try_catch {A} (m : eff E S A) (h : E → eff E S A) : eff E S A :=
  λ s, match m s with
       | (s', Ret a) => (s', Ret a)
       | (s', Exc e) => h e s'
       end.

(** [try: m finally: f]; an exception of [f] replaces the pending outcome. *)
Definition try_finally {A} (m : eff E S A) (f : eff E S unit) : eff E S A :=
  λ s, match m s with
       | (s', o) =>
           match f s' with
           | (s'', Ret _) => (s'', o)
           | (s'', Exc e) => (s'', Exc e)
           end
       end.

Definition of_outcome {A} (o : outcome E A) : eff E S A := λ s, (s, o).

Fixpoint for_each {A} (l : list A) (body : A → eff E S unit) : eff E S unit :=
  match l with
  | [] => ret tt
  | x :: l' => ebind (body x) (λ _, for_each l' body)
  end.
End combinators.

(** A computation on a part of a larger state. *)
Definition zoom {E S W A} (get : W → S) (set : S → W → W) (m : eff E S A) : eff E W A :=
  λ w, match m (get w) with (s', o) => (set s' w, o) end.

Notation "x <- m ;; k" := (ebind m (λ x, k))
  (at level 100, m at next level, right associativity) : eff_scope.
Notation "m ;;; k" := (ebind m (λ _, k))
  (at level 100, k at level 200, right associativity) : eff_scope.
Notation "'when' b 'do' m" := (if b then m else ret tt)
  (at level 90, b at level 80, m at level 90) : eff_scope.

(** ** What a computation does to the state

    [steps R m]: whatever [m] returns or raises, it moves the state along
    [R].  With [R] reflexive and transitive the combinators preserve it, so a
    component's lemma is one [eauto with eff] from its primitives' lemmas. *)
Definition steps {E S A} (R : relation S) (m : eff E S A) : Prop :=
  ∀ s, R s (m s).1.

Create HintDb eff.

Section steps.
Context {E S : Type} (R : relation S) `{!PreOrder R}.

Lemma steps_ret {A} (a : A) : steps R (ret (E := E) a).
Proof. intros s; simpl; reflexivity. Qed.

Lemma steps_raise {A} (e : E) : steps (A := A) R (raise e).
Proof. intros s; simpl; reflexivity. Qed.

Lemma steps_gets {A} (f : S → A) : steps R (gets (E := E) f).
Proof. intros s; simpl; reflexivity. Qed.

Lemma steps_of_outcome {A} (o : outcome E A) : steps R (of_outcome o).
Proof. intros s; simpl; reflexivity. Qed.

Lemma steps_modify (f : S → S) :
  (∀ s, R s (f s)) → steps (E := E) R (modify f).
Proof. intros H s; simpl; apply H. Qed.

Lemma steps_ebind {A B} (m : eff E S A) (k : A → eff E S B) :
  steps R m → (∀ a, steps R (k a)) → steps R (ebind m k).
Proof.
  intros Hm Hk s. unfold ebind. specialize (Hm s).
  destruct (m s) as [s' [a|e]]; simpl in *; [|done].
  transitivity s'; [done|apply Hk].
Qed.

Lemma steps_catch {A} (m : eff E S A) (h : E → eff E S A) :
  steps R m → (∀ e, steps R (h e)) → steps R (try_catch m h).
Proof.
  intros Hm Hh s. unfold try_catch. specialize (Hm s).
  destruct (m s) as [s' [a|e]]; simpl in *; [done|].
  transitivity s'; [done|apply Hh].
Qed.

Lemma steps_finally {A} (m : eff E S A) (f : eff E S unit) :
  steps R m → steps R f → steps R (try_finally m f).
Proof.
  intros Hm Hf s. unfold try_finally. specialize (Hm s).
  destruct (m s) as [s' o]; simpl in *. specialize (Hf s').
  destruct (f s') as [s'' [?|e]]; simpl in *; by transitivity s'.
Qed.

Lemma steps_if {A} (b : bool) (m1 m2 : eff E S A) :
  steps R m1 → steps R m2 → steps R (if b then m1 else m2).
Proof. by destruct b. Qed.

Lemma steps_for_each_in {A} (l : list A) (body : A → eff E S unit) :
  (∀ x, x ∈ l → steps R (body x)) → steps R (for_each l body).
Proof.
  intros Hb. induction l as [|x l IH]; simpl.
  - apply steps_ret.
  - apply steps_ebind; [apply Hb; by left|intros; apply IH; intros; apply Hb; by right].
Qed.

Lemma steps_for_each {A} (l : list A) (body : A → eff E S unit) :
  (∀ x, steps R (body x)) → steps R (for_each l body).
Proof. intros Hb. by apply steps_for_each_in. Qed.
End steps.

Lemma steps_zoom {E S W A} (R : relation W) (get : W → S) (set : S → W → W)
    (m : eff E S A) (Q : relation S) :
  steps Q m → (∀ s' w, Q (get w) s' → R w (set s' w)) → steps R (zoom get set m).
Proof.
  intros Hm H w. unfold zoom. specialize (Hm (get w)).
  destruct (m (get w)) as [s' o]; simpl in *. by apply H.
Qed.

#[export] Hint Resolve steps_ret steps_raise steps_gets steps_of_outcome
  steps_ebind steps_catch steps_finally steps_if steps_for_each : eff.
#[export] Hint Extern 0 (PreOrder _) => exact _ : eff.

(** ** Running a computation *)
Lemma ebind_ret_run {E S A B} (m : eff E S A) (k : A → eff E S B) s s' a :
  m s = (s', Ret a) → ebind m k s = k a s'.
Proof. unfold ebind. by intros ->. Qed.

Lemma ebind_exc_run {E S A B} (m : eff E S A) (k : A → eff E S B) s s' e :
  m s = (s', Exc e) → ebind m k s = (s', Exc e).
Proof. unfold ebind. by intros ->. Qed.

Section run.
Context {E S A B : Type}.
Implicit Types (k : A → eff E S B) (s : S).

Lemma run_ret k a s : ebind (ret a) k s = k a s.
Proof. done. Qed.
Lemma run_gets (f : S → A) k s : ebind (gets f) k s = k (f s) s.
Proof. done. Qed.
Lemma run_raise k e s : ebind (raise e) k s = (s, Exc e).
Proof. done. Qed.
Lemma run_Ret k a s : ebind (of_outcome (Ret a)) k s = k a s.
Proof. done. Qed.
Lemma run_Exc k e s : ebind (of_outcome (Exc e)) k s = (s, Exc e).
Proof. done. Qed.
Lemma run_modify f (k : unit → eff E S B) s : ebind (modify f) k s = k tt (f s).
Proof. done. Qed.
(** A computation that does not change the state only selects an outcome. *)
Lemma run_pure (m : eff E S A) k s :
  (m s).1 = s →
  ebind m k s = match (m s).2 with Ret a => k a s | Exc e => (s, Exc e) end.
Proof. unfold ebind. destruct (m s) as [s' o]. simpl. by intros ->. Qed.
Lemma run_assoc {C} (m : eff E S C) (k1 : C → eff E S A) k s :
  ebind (ebind m k1) k s = ebind m (λ c, ebind (k1 c) k) s.
Proof. unfold ebind. by destruct (m s) as [s' [c|e]]. Qed.
End run.

(** Symbolic execution: [run] advances a computation by its primitives. *)
#[export] Hint Rewrite @run_ret @run_gets @run_raise @run_Ret @run_Exc @run_modify : eff.
Ltac run := autorewrite with eff; cbv beta; unfold id.
Tactic Notation "run" "in" hyp(H) := autorewrite with eff in H; cbv beta in H; unfold id in H.

Lemma ebind_inv {E S A B} (m : eff E S A) (k : A → eff E S B) s s' o :
  ebind m k s = (s', o) →
  (∃ s1 a, m s = (s1, Ret a) ∧ k a s1 = (s', o)) ∨
  (∃ e, m s = (s', Exc e) ∧ o = Exc e).
Proof.
  unfold ebind. destruct (m s) as [s1 [a|e]] eqn:Em; intros H; [left|right]; naive_solver.
Qed.

Lemma catch_inv {E S A} (m : eff E S A) (h : E → eff E S A) s s' o :
  try_catch m h s = (s', o) →
  (∃ a, m s = (s', Ret a) ∧ o = Ret a) ∨
  (∃ s1 e, m s = (s1, Exc e) ∧ h e s1 = (s', o)).
Proof.
  unfold try_catch. destruct (m s) as [s1 [a|e]] eqn:Em; intros H; [left|right]; naive_solver.
Qed.

(** Case analysis on every [match] of a hypothesis or of the goal. *)
Ltac destruct_matches :=
  repeat match goal with
  | H : context [match ?x with _ => _ end] |- _ => destruct x eqn:?; simplify_eq/=
  | |- context [match ?x with _ => _ end] => destruct x eqn:?; simplify_eq/=
  end.

(** Splits [ebind] hypotheses into the runs of their parts. *)
Ltac eff_inv :=
  repeat match goal with
  | H : ebind _ _ _ = (_, _) |- _ =>
      apply ebind_inv in H as [(? & ? & ? & H)|(? & ? & ?)]; simplify_eq/=
  | H : ret _ _ = (_, _) |- _ => unfold ret in H; simplify_eq/=
  | H : raise _ _ = (_, _) |- _ => unfold raise in H; simplify_eq/=
  | H : of_outcome _ _ = (_, _) |- _ => unfold of_outcome in H; simplify_eq/=
  | H : gets _ _ = (_, _) |- _ => unfold gets in H; simplify_eq/=
  | H : modify _ _ = (_, _) |- _ => unfold modify in H; simplify_eq/=
  end.
