(* ===== verification/PyStr.v ===== *)
(** * Python strings and bytes

    A [str] is its sequence of Unicode code points, a [bytes] its sequence of
    octets.  The file gives the string methods the sources call, with the
    meaning the Python 3.13 documentation gives them, the UTF-8 codec, the
    decimal and UUID renderings, and the lemmas the components share. *)
From S2P Require Import Prelude.
From stdpp Require Export strings pretty.
From Stdlib Require Import Ascii.

Local Open Scope N_scope.

Abbreviation pystr := (list N).
Abbreviation bytes := (list N).

(** ** Unicode tables

    The parts of the Unicode database the sources reach through [str.lower],
    [repr] and the regular-expression class of word characters.  Below 128 the model
    is exact; above it the tables are a parameter. *)
Class UnicodeData := {
  uni_lower : N → pystr;
  uni_alnum : N → bool;
  uni_repr : N → pystr
}.

(** A concrete table, without non-ASCII letters. *)
Definition plain_unicode : UnicodeData :=
  {| uni_lower := λ c, [c]; uni_alnum := λ _, false; uni_repr := λ c, [c] |}.

(** ** UTF-8 *)
Section utf8.
Definition is_surrogate (c : N) : bool := (0xD800 <=? c) && (c <=? 0xDFFF).

Definition utf8_encode_char (c : N) : option bytes :=
  if c <? 0x80 then Some [c]
  else if c <? 0x800 then Some [0xC0 + c / 64; 0x80 + c mod 64]
  else if is_surrogate c then None
  else if c <? 0x10000 then
    Some [0xE0 + c / 4096; 0x80 + c / 64 mod 64; 0x80 + c mod 64]
  else if c <? 0x110000 then
    Some [0xF0 + c / 262144; 0x80 + c / 4096 mod 64;
          0x80 + c / 64 mod 64; 0x80 + c mod 64]
  else None.

(** [s.encode("utf-8")]; [None] is [UnicodeEncodeError]. *)
Fixpoint utf8_encode (s : pystr) : option bytes :=
  match s with
  | [] => Some []
  | c :: s' =>
      match utf8_encode_char c, utf8_encode s' with
      | Some bs, Some r => Some (bs ++ r)
      | _, _ => None
      end
  end.

Definition is_cont (b : N) : bool := (0x80 <=? b) && (b <=? 0xBF).

(** [b.decode("utf-8")]; [None] is [UnicodeDecodeError]. *)
Fixpoint utf8_decode (bs : bytes) : option pystr :=
  match bs with
  | [] => Some []
  | b0 :: r0 =>
      if b0 <? 0x80 then cons b0 <$> utf8_decode r0
      else if b0 <? 0xC2 then None
      else if b0 <? 0xE0 then
        match r0 with
        | b1 :: r1 =>
            if is_cont b1
            then cons ((b0 - 0xC0) * 64 + (b1 - 0x80)) <$> utf8_decode r1
            else None
        | _ => None
        end
      else if b0 <? 0xF0 then
        match r0 with
        | b1 :: b2 :: r2 =>
            let c := (b0 - 0xE0) * 4096 + (b1 - 0x80) * 64 + (b2 - 0x80) in
            if is_cont b1 && is_cont b2 && (0x800 <=? c) && negb (is_surrogate c)
            then cons c <$> utf8_decode r2
            else None
        | _ => None
        end
      else if b0 <? 0xF5 then
        match r0 with
        | b1 :: b2 :: b3 :: r3 =>
            let c := (b0 - 0xF0) * 262144 + (b1 - 0x80) * 4096
                     + (b2 - 0x80) * 64 + (b3 - 0x80) in
            if is_cont b1 && is_cont b2 && is_cont b3
               && (0x10000 <=? c) && (c <? 0x110000)
            then cons c <$> utf8_decode r3
            else None
        | _ => None
        end
      else None
  end.
End utf8.

(** Literals: [py "..."] is the Python string a UTF-8 source literal denotes. *)
Fixpoint ascii_codes (s : string) : bytes :=
  match s with
  | EmptyString => []
  | String a s' => N_of_ascii a :: ascii_codes s'
  end.

Definition py (s : string) : pystr := default [] (utf8_decode (ascii_codes s)).
#[global] Arguments py s%_string.

(** ** Character classes *)
Definition is_space (c : N) : bool :=
  ((0x9 <=? c) && (c <=? 0xD)) || ((0x1C <=? c) && (c <=? 0x20))
  || (c =? 0x85) || (c =? 0xA0) || (c =? 0x1680)
  || ((0x2000 <=? c) && (c <=? 0x200A))
  || (c =? 0x2028) || (c =? 0x2029) || (c =? 0x202F) || (c =? 0x205F)
  || (c =? 0x3000).

Definition is_linebreak (c : N) : bool :=
  ((0xA <=? c) && (c <=? 0xD)) || ((0x1C <=? c) && (c <=? 0x1E))
  || (c =? 0x85) || (c =? 0x2028) || (c =? 0x2029).

Definition is_upper_ascii (c : N) : bool := (65 <=? c) && (c <=? 90).
Definition is_lower_ascii (c : N) : bool := (97 <=? c) && (c <=? 122).
Definition is_digit_ascii (c : N) : bool := (48 <=? c) && (c <=? 57).

(** ** Searching *)
Fixpoint startswith (s p : pystr) {struct p} : bool :=
  match p, s with
  | [], _ => true
  | c :: p', d :: s' => (c =? d) && startswith s' p'
  | _ :: _, [] => false
  end.

(** [needle in s] *)
Fixpoint contains (needle s : pystr) : bool :=
  startswith s needle
  || match s with [] => false | _ :: s' => contains needle s' end.

Definition endswith (s suf : pystr) : bool := startswith (rev s) (rev suf).

(** [s.find(c)], [s.rfind(c)] for a single character; [None] is -1. *)
Fixpoint find_char (c : N) (s : pystr) : option nat :=
  match s with
  | [] => None
  | d :: s' => if c =? d then Some O else S <$> find_char c s'
  end.

Fixpoint rfind_char (c : N) (s : pystr) : option nat :=
  match s with
  | [] => None
  | d :: s' =>
      match rfind_char c s' with
      | Some i => Some (S i)
      | None => if c =? d then Some O else None
      end
  end.

(** ** Stripping, splitting and joining *)
Fixpoint lstrip_by (f : N → bool) (s : pystr) : pystr :=
  match s with
  | [] => []
  | c :: s' => if f c then lstrip_by f s' else s
  end.

Definition rstrip_by (f : N → bool) (s : pystr) : pystr := rev (lstrip_by f (rev s)).

Definition rstrip (s : pystr) : pystr := rstrip_by is_space s.
Definition strip (s : pystr) : pystr := rstrip (lstrip_by is_space s).

(** [s.split(sep)] for a one-character separator *)
Fixpoint split_on (sep : N) (s : pystr) : list pystr :=
  match s with
  | [] => [[]]
  | c :: s' =>
      if c =? sep then [] :: split_on sep s'
      else match split_on sep s' with
           | [] => [[c]]
           | w :: ws => (c :: w) :: ws
           end
  end.

(** [sep.join(l)] *)
Fixpoint str_join (sep : pystr) (l : list pystr) : pystr :=
  match l with
  | [] => []
  | [w] => w
  | w :: ws => w ++ sep ++ str_join sep ws
  end.

(** [s.splitlines()] *)
Fixpoint splitlines (s : pystr) : list pystr :=
  match s with
  | [] => []
  | c :: s' =>
      if is_linebreak c then
        [] :: match s' with
              | d :: s'' => if (c =? 13) && (d =? 10) then splitlines s'' else splitlines s'
              | [] => []
              end
      else match splitlines s' with
           | [] => [[c]]
           | l :: ls => (c :: l) :: ls
           end
  end.

(** [s.replace(c, "")] for one character *)
Definition remove_char (c : N) (s : pystr) : pystr := filter (λ d, d ≠ c) s.

Section lower.
Context `{UnicodeData}.

Definition lower_char (c : N) : pystr :=
  if is_upper_ascii c then [c + 32]
  else if c <? 128 then [c]
  else uni_lower c.

(** [s.lower()].  The context rule for the Greek final sigma, which never
    produces an ASCII character, is part of the table. *)
Definition lower (s : pystr) : pystr := concat (map lower_char s).

(** [\w] of a [str] pattern *)
Definition is_word (c : N) : bool :=
  if c <? 128
  then is_upper_ascii c || is_lower_ascii c || is_digit_ascii c || (c =? 95)
  else uni_alnum c.
End lower.

(** ** Rendering numbers and UUIDs *)
Definition str_of_Z (z : Z) : pystr := ascii_codes (pretty z).
Definition str_of_nat (n : nat) : pystr := ascii_codes (pretty n).

Abbreviation uuid := N.

Definition hex_digit (d : N) : N := if d <? 10 then 48 + d else 87 + d.

(** The [k] low hexadecimal digits of [n], most significant first. *)
Fixpoint hex_digits (k : nat) (n : N) : pystr :=
  match k with
  | O => []
  | S k' => hex_digits k' (n / 16) ++ [hex_digit (n mod 16)]
  end.

(** [str(uuid)]: 8-4-4-4-12 lower-case hexadecimal digits *)
Definition uuid_str (u : uuid) : pystr :=
  let h := hex_digits 32 u in
  take 8 h ++ [45] ++ take 4 (drop 8 h) ++ [45] ++ take 4 (drop 12 h) ++ [45]
  ++ take 4 (drop 16 h) ++ [45] ++ drop 20 h.

Definition is_uuid (u : uuid) : bool := u <? 2 ^ 128.

(** [repr(s)] *)
Section repr.
Context `{UnicodeData}.

Definition repr_char (quote c : N) : pystr :=
  if (c =? quote) || (c =? 92) then [92; c]
  else if c =? 9 then [92; 116]
  else if c =? 10 then [92; 110]
  else if c =? 13 then [92; 114]
  else if (c <? 32) || (c =? 127) then [92; 120] ++ hex_digits 2 c
  else if c <? 128 then [c]
  else uni_repr c.

Definition repr (s : pystr) : pystr :=
  let quote := if contains [39] s && negb (contains [34] s) then 34 else 39 in
  quote :: concat (map (repr_char quote) s) ++ [quote].
End repr.

(** ** Checks against the interpreter's behaviour *)
Example py_ascii : py "ab/" = [97; 98; 47].
Proof. reflexivity. Qed.
Example py_korean : py "는" = [0xB294].
Proof. reflexivity. Qed.
Example splitlines_ex : map length (splitlines [97; 13; 10; 10; 98]) = [1; 0; 1]%nat.
Proof. reflexivity. Qed.
Example split_on_ex : split_on 47 (py "/a//b") = [[]; [97]; []; [98]].
Proof. reflexivity. Qed.
Example uuid_str_ex :
  uuid_str 0x0190163d8694739baea5966c26f8ad91 = py "0190163d-8694-739b-aea5-966c26f8ad91".
Proof. vm_compute. reflexivity. Qed.

(** ** Lemmas *)
Lemma startswith_spec s p : startswith s p = true ↔ ∃ t, s = p ++ t.
Proof.
  revert s. induction p as [|c p IH]; intros s; simpl.
  { split; [eauto|done]. }
  destruct s as [|d s]; simpl; [split; [done|intros [t [=]]]|].
  rewrite andb_true_iff, N.eqb_eq, IH. split.
  - intros [-> [t ->]]. by exists t.
  - intros [t [= -> ->]]. eauto.
Qed.

Lemma contains_spec needle s :
  contains needle s = true ↔ ∃ a b, s = a ++ needle ++ b.
Proof.
  induction s as [|c s IH]; simpl.
  - rewrite orb_false_r, startswith_spec. split.
    + intros [t ->]. by exists [], t.
    + intros (a & b & H). symmetry in H. apply app_nil in H as [-> H]. simpl in H. eauto.
  - rewrite orb_true_iff, startswith_spec, IH. split.
    + intros [[t ->]|(a & b & ->)]; [by exists [], t|by exists (c :: a), b].
    + intros ([|d a] & b & H); simplify_eq/=; [left; eauto|right; eauto].
Qed.

Lemma contains_char_spec c s : contains [c] s = true ↔ c ∈ s.
Proof.
  rewrite contains_spec. split.
  - intros (a & b & ->). set_solver.
  - intros (a & b & ->)%list_elem_of_split. eauto.
Qed.

Lemma startswith_false_app s p t : startswith (p ++ t) s = false → startswith p s = false.
Proof.
  intros H. apply not_true_iff_false. intros (u & ->)%startswith_spec.
  rewrite <- app_assoc in H. apply not_true_iff_false in H. apply H.
  apply startswith_spec. eauto.
Qed.

(** *** Splitting and joining *)
Lemma split_on_cons sep s : ∃ w ws, split_on sep s = w :: ws.
Proof. induction s as [|c s (w & ws & IH)]; simpl; [eauto|]. rewrite IH. case_match; eauto. Qed.

Lemma join_split sep s : str_join [sep] (split_on sep s) = s.
Proof.
  induction s as [|c s IH]; [done|]. simpl.
  destruct (split_on_cons sep s) as (w & ws & E). rewrite E in *.
  destruct (N.eqb_spec c sep) as [->|]; simpl in *; rewrite <- IH; by destruct ws.
Qed.

Lemma split_on_no_sep sep s w : w ∈ split_on sep s → sep ∉ w.
Proof.
  revert w. induction s as [|c s IH]; intros w; simpl.
  { intros ->%list_elem_of_singleton. apply not_elem_of_nil. }
  destruct (split_on_cons sep s) as (v & vs & E). rewrite E in *.
  destruct (N.eqb_spec c sep) as [->|Hne].
  - rewrite elem_of_cons. intros [->|Hw]; [apply not_elem_of_nil|by apply IH].
  - rewrite elem_of_cons. intros [->|Hw]; [|apply IH; by right].
    rewrite not_elem_of_cons. split; [done|apply IH; by left].
Qed.

Lemma split_on_elem_of sep s w c : w ∈ split_on sep s → c ∈ w → c ∈ s.
Proof.
  revert w. induction s as [|d s IH]; intros w; simpl.
  { intros ->%list_elem_of_singleton. by intros ?%not_elem_of_nil. }
  destruct (split_on_cons sep s) as (v & vs & E). rewrite E in *.
  destruct (N.eqb_spec d sep) as [->|Hne]; rewrite elem_of_cons; intros [->|Hw] Hc.
  - by apply not_elem_of_nil in Hc.
  - right. by eapply IH.
  - apply elem_of_cons in Hc as [->|Hc]; [by left|right].
    eapply IH; [by left|done].
  - right. eapply IH; [by right|done].
Qed.

Lemma split_on_single sep s : sep ∉ s → split_on sep s = [s].
Proof.
  induction s as [|c s IH]; [done|]. rewrite not_elem_of_cons. intros [Hc Hs]. simpl.
  rewrite IH by done. by destruct (N.eqb_spec c sep).
Qed.

(** *** Stripping *)
Lemma lstrip_by_suffix f s : ∃ t, s = t ++ lstrip_by f s ∧ Forall (λ c, f c = true) t.
Proof.
  induction s as [|c s (t & IH & Ht)]; simpl; [by exists []|].
  destruct (f c) eqn:E; [|by exists []].
  exists (c :: t). simpl. by rewrite <- IH, Forall_cons.
Qed.

Lemma rstrip_by_prefix f s : ∃ t, s = rstrip_by f s ++ t ∧ Forall (λ c, f c = true) t.
Proof.
  destruct (lstrip_by_suffix f (rev s)) as (t & E & Ht). exists (rev t). split.
  - rewrite <- (rev_involutive s) at 1. rewrite E at 1. unfold rstrip_by.
    by rewrite rev_app_distr.
  - by apply List.Forall_rev.
Qed.

Lemma strip_infix s : ∃ a b, s = a ++ strip s ++ b.
Proof.
  destruct (lstrip_by_suffix is_space s) as (a & E & _).
  destruct (rstrip_by_prefix is_space (lstrip_by is_space s)) as (b & E' & _).
  exists a, b. unfold strip, rstrip. by rewrite <- E', <- E.
Qed.

Lemma length_rstrip_le s : (length (rstrip s) ≤ length s)%nat.
Proof.
  destruct (rstrip_by_prefix is_space s) as (b & E & _). unfold rstrip.
  rewrite E at 2. rewrite length_app. lia.
Qed.

Lemma length_strip_le s : (length (strip s) ≤ length s)%nat.
Proof. destruct (strip_infix s) as (a & b & E). rewrite E at 2. rewrite !length_app. lia. Qed.

(** *** UTF-8 round trip *)
Ltac Zify.zify_post_hook ::= Z.to_euclidean_division_equations.

Ltac bool_to_prop :=
  repeat match goal with
  | H : (_ && _) = true |- _ => apply andb_true_iff in H as [? ?]
  | H : (_ || _) = false |- _ => apply orb_false_iff in H as [? ?]
  | H : (_ <? _) = true |- _ => apply N.ltb_lt in H
  | H : (_ <? _) = false |- _ => apply N.ltb_ge in H
  | H : (_ <=? _) = true |- _ => apply N.leb_le in H
  | H : (_ <=? _) = false |- _ => apply N.leb_gt in H
  | H : (_ =? _) = true |- _ => apply N.eqb_eq in H
  | H : (_ =? _) = false |- _ => apply N.eqb_neq in H
  end.

(** Decides a comparison of the goal whose answer [lia] knows. *)
Ltac decide_ltb :=
  repeat match goal with
  | |- context [?a <? ?b] =>
      first [ rewrite (proj2 (N.ltb_lt a b)) by lia
            | rewrite (proj2 (N.ltb_ge a b)) by lia ]
  | |- context [?a <=? ?b] =>
      first [ rewrite (proj2 (N.leb_le a b)) by lia
            | rewrite (proj2 (N.leb_gt a b)) by lia ]
  end.

Lemma utf8_decode_encode_char c bs r :
  utf8_encode_char c = Some bs → utf8_decode (bs ++ r) = cons c <$> utf8_decode r.
Proof.
  unfold utf8_encode_char.
  destruct (c <? 0x80) eqn:E1; bool_to_prop.
  { intros [= <-]. simpl. by decide_ltb. }
  destruct (c <? 0x800) eqn:E2; bool_to_prop.
  { intros [= <-]. cbn -[N.div N.modulo N.mul N.add N.sub]. unfold is_cont. decide_ltb.
    simpl. do 2 f_equal. lia. }
  destruct (is_surrogate c) eqn:Es; [done|]. unfold is_surrogate in Es.
  destruct (c <? 0x10000) eqn:E3; bool_to_prop.
  { intros [= <-]. cbn -[N.div N.modulo N.mul N.add N.sub]. unfold is_cont.
    match goal with |- context [is_surrogate ?x] => replace x with c by lia end.
    unfold is_surrogate. decide_ltb. by rewrite Es. }
  destruct (c <? 0x110000) eqn:E4; bool_to_prop; [|done].
  intros [= <-]. cbn -[N.div N.modulo N.mul N.add N.sub]. unfold is_cont.
  match goal with |- context [0x10000 <=? ?x] => replace x with c by lia end.
  by decide_ltb.
Qed.

Lemma utf8_roundtrip s bs : utf8_encode s = Some bs → utf8_decode bs = Some s.
Proof.
  revert bs. induction s as [|c s IH]; simpl; [by intros ? [= <-]|].
  intros bs. destruct (utf8_encode_char c) as [b|] eqn:Ec; [|done].
  destruct (utf8_encode s) as [r|]; [|done]. intros [= <-].
  erewrite utf8_decode_encode_char by done. by rewrite IH.
Qed.

(** *** UUID text *)
Lemma hex_digits_length k n : length (hex_digits k n) = k.
Proof. revert n. induction k as [|k IH]; intros n; simpl; [done|]. rewrite length_app, IH. simpl. lia. Qed.

Definition is_uuid_char (c : N) : bool :=
  is_digit_ascii c || ((97 <=? c) && (c <=? 102)) || (c =? 45).

Lemma hex_digits_chars k n : Forall (λ c, is_uuid_char c = true) (hex_digits k n).
Proof.
  revert n. induction k as [|k IH]; intros n; simpl; [constructor|].
  apply Forall_app; split; [apply IH|]. constructor; [|constructor].
  unfold is_uuid_char, is_digit_ascii, hex_digit.
  assert (n mod 16 < 16) by lia. generalize dependent (n mod 16). intros m Hm.
  destruct (m <? 10) eqn:E; bool_to_prop; decide_ltb; done.
Qed.

Lemma uuid_str_chars u : Forall (λ c, is_uuid_char c = true) (uuid_str u).
Proof.
  pose proof (hex_digits_chars 32 u) as H. unfold uuid_str.
  rewrite !Forall_app. repeat split; auto using Forall_take, Forall_drop.
Qed.

Lemma uuid_str_length u : length (uuid_str u) = 36%nat.
Proof.
  unfold uuid_str. rewrite !length_app, !length_take, !length_drop, !hex_digits_length. done.
Qed.

Lemma hex_digits_inj k n m :
  n < 16 ^ N.of_nat k → m < 16 ^ N.of_nat k → hex_digits k n = hex_digits k m → n = m.
Proof.
  revert n m. induction k as [|k IH]; intros n m Hn Hm; [simpl in *; lia|].
  rewrite Nat2N.inj_succ, N.pow_succ_r' in Hn, Hm. cbn [hex_digits].
  intros [H1 H2]%app_inj_2; [|done].
  assert (n / 16 = m / 16) by (apply IH; [lia|lia|done]).
  assert (n mod 16 = m mod 16).
  { injection H2 as H2. unfold hex_digit in H2.
    destruct (n mod 16 <? 10) eqn:?, (m mod 16 <? 10) eqn:?; bool_to_prop; lia. }
  lia.
Qed.

Lemma uuid_groups (h : pystr) :
  h = take 8 h ++ take 4 (drop 8 h) ++ take 4 (drop 12 h) ++ take 4 (drop 16 h) ++ drop 20 h.
Proof.
  change 20%nat with (16 + 4)%nat. rewrite <- (drop_drop h 4 16), take_drop.
  change 16%nat with (12 + 4)%nat. rewrite <- (drop_drop h 4 12), take_drop.
  change 12%nat with (8 + 4)%nat. rewrite <- (drop_drop h 4 8), take_drop.
  by rewrite take_drop.
Qed.

Lemma uuid_str_inj u v : is_uuid u = true → is_uuid v = true → uuid_str u = uuid_str v → u = v.
Proof.
  unfold is_uuid. intros Hu%N.ltb_lt Hv%N.ltb_lt H. apply (hex_digits_inj 32); [done|done|].
  unfold uuid_str in H.
  repeat match goal with
  | H : _ ++ _ = _ ++ _ |- _ =>
      apply app_inj_1 in H as [? H];
      [|rewrite ?length_take, ?length_drop, ?hex_digits_length; done]
  end.
  rewrite (uuid_groups (hex_digits 32 u)), (uuid_groups (hex_digits 32 v)). congruence.
Qed.

#[global] Arguments uuid_str : simpl never.
#[global] Arguments hex_digits : simpl never.
#[global] Arguments py : simpl never.
#[global] Arguments utf8_encode : simpl never.
#[global] Arguments utf8_decode : simpl never.
#[global] Arguments str_of_Z : simpl never.
#[global] Arguments str_of_nat : simpl never.
