(* ===== verification/Exceptions.v ===== *)
(** * The exceptions of the program

    One constructor per exception class the sources raise or catch, carrying
    the attributes its handlers read; the subclass tests of the [except]
    clauses are boolean functions.  The constructors of [runner/exceptions.py]
    are built by functions that mirror its [__init__] methods. *)
From S2P Require Import Prelude PyStr.

(** Kinds of the [OSError]s the operating system raises on path operations. *)
Inductive oskind := ENOENT | EEXIST | ENOTDIR | EISDIR | ELOOP | ESAME | EISLNK.
#[export] Instance oskind_eq_dec : EqDecision oskind.
Proof. solve_decision. Defined.

(** [CLIExecutionError] and its two subclasses *)
Inductive cli_class :=
  | CLIExecution
  | CLIExecutionLaunch (target_path : pystr) (attempts : Z)
  | CLIExecutionTimeout (timeout_limit : Z).
#[export] Instance cli_class_eq_dec : EqDecision cli_class.
Proof. solve_decision. Defined.

Record cli_error := CliError {
  ce_class : cli_class;
  ce_message : pystr;
  ce_exit_code : option Z;
  ce_stdout : pystr;
  ce_stderr : pystr
}.
#[export] Instance cli_error_eq_dec : EqDecision cli_error.
Proof. solve_decision. Defined.

Inductive exn :=
  (* the interpreter's *)
  | PermissionError (msg : pystr)
  | FileNotFoundError (msg : pystr)
  | OSError (k : oskind)
  | ValueError (msg : pystr)
  | UnicodeDecodeError
  | UnicodeEncodeError
  | TypeError
  | KeyError
  | RuntimeError (msg : pystr)
  | RecursionError
  (* httpx *)
  | HttpxTimeoutException
  | HttpxNetworkError
  | OtherHttpxError
  (* llm/client.py *)
  | LLMClientError (msg : pystr) (retryable : bool)
  | LLMResponseTooLargeError
  (* llm/parser.py *)
  | LLMPlanRetryableException (message raw_content : pystr) (error_position : option pystr)
  | LLMPlanValidationError (message : pystr) (status_code : Z) (error_code : pystr)
  (* runner/exceptions.py *)
  | CLIError (e : cli_error)
  | CLIArgumentValidationError (offending_arg : pystr)
  (* jobs/service.py *)
  | RefinementNotFoundError (msg : pystr)
  | RefinementConflictError (msg : pystr)
  | RefinementContextTooLargeError (msg : pystr)
  | ArtifactNotFoundError (msg : pystr)
  | ArtifactPermissionError (msg : pystr)
  (* orchestrator *)
  | OrchestrationQueueTimeoutError
  | OrchestratorConfigurationError (msg : pystr)
  (* sse/security.py *)
  | StreamTokenConfigurationError
  (* SQLAlchemy *)
  | OperationalError
  | DBAPIError (connection_invalidated : bool)
  | OtherSQLAlchemyError
  (* asyncio: [CancelledError], or [GeneratorExit] in a generator; no
     [except Exception] catches it *)
  | CancelledError
  (* FastAPI *)
  | HTTPException (status_code : Z) (code message : pystr).

#[export] Instance exn_eq_dec : EqDecision exn.
Proof. solve_decision. Defined.

(** ** [isinstance] *)
Definition is_llm_client_error (e : exn) : option bool :=
  match e with
  | LLMClientError _ r => Some r
  | LLMResponseTooLargeError => Some false
  | _ => None
  end.

Definition is_dbapi_error (e : exn) : bool :=
  match e with OperationalError | DBAPIError _ => true | _ => false end.

Definition is_sqlalchemy_error (e : exn) : bool :=
  match e with OperationalError | DBAPIError _ | OtherSQLAlchemyError => true | _ => false end.

Definition is_os_error (e : exn) : bool :=
  match e with
  | PermissionError _ | FileNotFoundError _ | OSError _ => true
  | _ => false
  end.

(** ** runner/exceptions.py *)
Definition MAX_STREAM_TAIL_CHARS : nat := 4000.

Definition truncated_mark : pystr := Eval vm_compute in py "...[truncated]" ++ [10%N].

Definition _bounded_stream_tail (value : pystr) : pystr :=
  if bool_decide (length value ≤ MAX_STREAM_TAIL_CHARS)%nat then value
  else truncated_mark ++ drop (length value - MAX_STREAM_TAIL_CHARS) value.

Definition CLIExecutionError (message : pystr) (exit_code : option Z)
    (stdout stderr : pystr) : cli_error :=
  {| ce_class := CLIExecution; ce_message := message; ce_exit_code := exit_code;
     ce_stdout := _bounded_stream_tail stdout;
     ce_stderr := _bounded_stream_tail stderr |}.

Definition CLIExecutionLaunchError (message target_path : pystr) (attempts : Z) : cli_error :=
  {| ce_class := CLIExecutionLaunch target_path attempts; ce_message := message;
     ce_exit_code := None;
     ce_stdout := _bounded_stream_tail []; ce_stderr := _bounded_stream_tail [] |}.

Definition CLIExecutionTimeoutError (message : pystr) (timeout_limit : Z) : cli_error :=
  {| ce_class := CLIExecutionTimeout timeout_limit; ce_message := message;
     ce_exit_code := None;
     ce_stdout := _bounded_stream_tail []; ce_stderr := _bounded_stream_tail [] |}.

Definition cli_str (e : cli_error) : pystr :=
  str_join [10%N]
    ([ce_message e]
     ++ (if decide (ce_stdout e = []) then []
         else [py "stdout (bounded tail):" ++ [10%N] ++ ce_stdout e])
     ++ (if decide (ce_stderr e = []) then []
         else [py "stderr (bounded tail):" ++ [10%N] ++ ce_stderr e])).

Section strings.
Context `{UnicodeData}.

Definition argument_validation_message (offending_arg : pystr) : pystr :=
  py "Argument validation failed: unsafe characters detected in argument: "
  ++ repr offending_arg ++ py ". "
  ++ py "Only alphanumerics, '.', '/', ':', '_', '-', '=', ',' are permitted.".

Definition optional_int (o : option Z) : pystr :=
  match o with Some z => str_of_Z z | None => py "None" end.

Definition cli_repr (e : cli_error) : pystr :=
  match ce_class e with
  | CLIExecution =>
      py "CLIExecutionError(message=" ++ repr (ce_message e)
      ++ py ", exit_code=" ++ optional_int (ce_exit_code e)
      ++ py ", stdout_chars=" ++ str_of_nat (length (ce_stdout e))
      ++ py ", stderr_chars=" ++ str_of_nat (length (ce_stderr e)) ++ py ")"
  | CLIExecutionLaunch target attempts =>
      py "CLIExecutionLaunchError(message=" ++ repr (ce_message e)
      ++ py ", target_path=" ++ repr target
      ++ py ", attempts=" ++ str_of_Z attempts ++ py ")"
  | CLIExecutionTimeout limit =>
      py "CLIExecutionTimeoutError(message=" ++ repr (ce_message e)
      ++ py ", timeout_limit=" ++ str_of_Z limit ++ py ".0)"
  end.
End strings.

(** ** Properties *)
Lemma bounded_stream_tail_length v :
  (length (_bounded_stream_tail v) ≤ MAX_STREAM_TAIL_CHARS + 15)%nat.
Proof.
  unfold _bounded_stream_tail. case_bool_decide; [lia|].
  rewrite length_app, length_drop. change (length truncated_mark) with 15%nat. lia.
Qed.

(** What the bound drops is a prefix: the kept text ends the stream. *)
Lemma bounded_stream_tail_suffix v :
  ∃ pre kept, v = pre ++ kept ∧
    (_bounded_stream_tail v = kept ∨ _bounded_stream_tail v = truncated_mark ++ kept) ∧
    length kept = Nat.min (length v) MAX_STREAM_TAIL_CHARS.
Proof.
  unfold _bounded_stream_tail. case_bool_decide as Hl.
  - exists [], v. split; [done|]. split; [by left|lia].
  - exists (take (length v - MAX_STREAM_TAIL_CHARS) v),
      (drop (length v - MAX_STREAM_TAIL_CHARS) v).
    rewrite take_drop, length_drop. split; [done|]. split; [by right|lia].
Qed.
