(* ===== verification/FileSystem.v ===== *)
(** * Paths and the file system

    The part of [pathlib], [os] and [shutil] the storage, the validators and
    the runner call, over a file system with directories, regular files and
    symbolic links.  An absolute path is its list of components; [resolve] is
    [Path.resolve()] (non-strict [os.path.realpath] of Python 3.13) and
    [kwalk] the kernel's own path walk, which every system call performs.
    Permission bits, space and name-length limits of the operating system are
    not modelled. *)
From S2P Require Import Prelude PyStr Exceptions.
From stdpp Require Export gmap.
Local Open Scope N_scope.
Local Open Scope eff_scope.

(** ** Pure paths *)
Abbreviation apath := (list pystr).

Definition SLASH : N := 47.
Definition DOT : pystr := Eval vm_compute in py ".".
Definition DOTDOT : pystr := Eval vm_compute in py "..".

(** The components of a path string: empty ones and ["."] disappear. *)
Definition path_parts (s : pystr) : list pystr :=
  filter (λ w, w ≠ [] ∧ w ≠ DOT) (split_on SLASH s).

(** [PurePosixPath(s).is_absolute()] *)
Definition is_absolute (s : pystr) : bool := startswith s [SLASH].

(** [base / s] for an absolute [base] *)
Definition join_path (base : apath) (s : pystr) : apath :=
  if is_absolute s then path_parts s else base ++ path_parts s.

(** [PurePosixPath(s).name] *)
Definition path_name (s : pystr) : pystr := default [] (last (path_parts s)).

Definition parent (p : apath) : apath := removelast p.

(** [p.is_relative_to(base)] *)
Definition is_relative_to (p base : apath) : bool := bool_decide (base `prefix_of` p).

(** [str(p)] *)
Definition path_str (p : apath) : pystr := SLASH :: str_join [SLASH] p.

Definition normal_name (w : pystr) : Prop :=
  w ≠ [] ∧ w ≠ DOT ∧ w ≠ DOTDOT ∧ SLASH ∉ w.

(** ** Nodes *)
Inductive node :=
  | NDir
  | NFile (data : bytes)
  | NLink (target : pystr).
#[export] Instance node_eq_dec : EqDecision node.
Proof. solve_decision. Defined.

Abbreviation fs := (gmap apath node).

Definition is_link_at (m : fs) (p : apath) : bool :=
  match m !! p with Some (NLink _) => true | _ => false end.

Definition is_dir_at (m : fs) (p : apath) : bool :=
  match m !! p with Some NDir => true | _ => false end.

(** ** The kernel's path walk

    Follows symbolic links in every component, the last one included, at most
    [links] of them; every component but the last has to be a directory. *)
Fixpoint kwalk_from (links : nat) (m : fs) : list pystr → apath → outcome exn apath :=
  fix go (rest : list pystr) (path : apath) {struct rest} : outcome exn apath :=
    match rest with
    | [] => Ret path
    | name :: rest' =>
        match m !! path with
        | None => Exc (FileNotFoundError [])
        | Some NDir =>
            if decide (name = [] ∨ name = DOT) then go rest' path
            else if decide (name = DOTDOT) then go rest' (removelast path)
            else
              match m !! (path ++ [name]) with
              | Some (NLink target) =>
                  match links with
                  | O => Exc (OSError ELOOP)
                  | S links' =>
                      kwalk_from links' m (split_on SLASH target ++ rest')
                        (if is_absolute target then [] else path)
                  end
              | _ => go rest' (path ++ [name])
              end
        | Some _ => Exc (OSError ENOTDIR)
        end
    end.

(** Linux follows at most 40 links. *)
Definition MAXSYMLINKS : nat := 40.
Definition kwalk (m : fs) (p : apath) : outcome exn apath := kwalk_from MAXSYMLINKS m p [].

(** ** [Path.resolve()] *)
Inductive todo := Part (name : pystr) | Resolved (link : apath).

Fixpoint realpath_loop (fuel : nat) (m : fs) (rest : list todo)
    (seen : gmap apath (option apath)) (path : apath) : option apath :=
  match rest with
  | [] => Some path
  | t :: rest' =>
      match fuel with
      | O => None
      | S fuel' =>
          match t with
          | Resolved l => realpath_loop fuel' m rest' (<[l := Some path]> seen) path
          | Part name =>
              if decide (name = [] ∨ name = DOT) then realpath_loop fuel' m rest' seen path
              else if decide (name = DOTDOT)
              then realpath_loop fuel' m rest' seen (removelast path)
              else
                let newpath := path ++ [name] in
                match m !! newpath with
                | Some (NLink target) =>
                    match seen !! newpath with
                    | Some (Some p) => realpath_loop fuel' m rest' seen p
                    | Some None => realpath_loop fuel' m rest' seen newpath
                    | None =>
                        realpath_loop fuel' m
                          ((Part <$> split_on SLASH target) ++ Resolved newpath :: rest')
                          (<[newpath := None]> seen)
                          (if is_absolute target then [] else path)
                    end
                | _ => realpath_loop fuel' m rest' seen newpath
                end
          end
      end
  end.

(** What the links not yet seen can still push on the work list. *)
Definition entry_weight (seen : gmap apath (option apath)) (e : apath * node) : nat :=
  match e with
  | (p, NLink t) => if decide (seen !! p = None) then S (length (split_on SLASH t)) else O
  | _ => O
  end.
Definition link_weight (m : fs) (seen : gmap apath (option apath)) : nat :=
  sum_list_with (entry_weight seen) (map_to_list m).

Definition realpath (m : fs) (p : apath) : apath :=
  default p (realpath_loop (length p + link_weight m ∅) m (Part <$> p) ∅ []).

(** The OS path encoding refuses NUL and most lone surrogates. *)
Definition encodable_char (c : N) : bool :=
  negb (c =? 0) && (negb (is_surrogate c) || ((0xDC80 <=? c) && (c <=? 0xDCFF))).
Definition encodable (p : apath) : bool := forallb (forallb encodable_char) p.

Definition resolve (m : fs) (p : apath) : outcome exn apath :=
  if encodable p then Ret (realpath m p) else Exc (ValueError (py "embedded null byte")).

(** ** Queries *)
Definition stat (m : fs) (p : apath) : option node :=
  match kwalk m p with Ret r => m !! r | Exc _ => None end.

Definition path_exists (m : fs) (p : apath) : bool := bool_decide (is_Some (stat m p)).
Definition is_file (m : fs) (p : apath) : bool :=
  match stat m p with Some (NFile _) => true | _ => false end.
Definition is_dir (m : fs) (p : apath) : bool :=
  match stat m p with Some NDir => true | _ => false end.

(** [p.is_symlink()]: the last component is not followed. *)
Definition is_symlink (m : fs) (p : apath) : bool :=
  match last p with
  | None => false
  | Some name =>
      if decide (name = DOTDOT) then false
      else match kwalk m (removelast p) with
           | Ret r => is_dir_at m r && is_link_at m (r ++ [name])
           | Exc _ => false
           end
  end.

(** ** Operations *)
Section operations.
Abbreviation IO A := (eff exn fs A).

(** Where a system call that does not follow the last component acts. *)
Definition parent_walk (p : apath) : IO apath :=
  m <- gets id;;
  match last p with
  | None => raise (OSError EEXIST)
  | Some name =>
      r <- of_outcome (kwalk m (removelast p));;
      match m !! r with
      | None => raise (FileNotFoundError [])
      | Some NDir => ret (r ++ [name])
      | Some _ => raise (OSError ENOTDIR)
      end
  end.

Definition os_mkdir (p : apath) : IO unit :=
  q <- parent_walk p;;
  m <- gets id;;
  match m !! q with
  | Some _ => raise (OSError EEXIST)
  | None => modify (insert q NDir)
  end.

(** The [except OSError] branch of [Path.mkdir(exist_ok=True)] *)
Definition accept_existing_dir (p : apath) (e : exn) : IO unit :=
  m <- gets id;;
  if is_dir m p then ret tt else raise e.

(** [p.mkdir(parents=True, exist_ok=True)], on the reversed path *)
Fixpoint mkdir_rev (rp : list pystr) : IO unit :=
  match rp with
  | [] => ret tt
  | _ :: rparent =>
      try_catch (os_mkdir (rev rp)) (λ e,
        match e with
        | FileNotFoundError _ =>
            mkdir_rev rparent ;;;
            try_catch (os_mkdir (rev rp)) (λ e',
              match e' with
              | FileNotFoundError _ => raise e'
              | _ => accept_existing_dir (rev rp) e'
              end)
        | _ => accept_existing_dir (rev rp) e
        end)
  end.

Definition mkdir_p (p : apath) : IO unit := mkdir_rev (rev p).

Definition read_bytes (p : apath) : IO bytes :=
  m <- gets id;;
  r <- of_outcome (kwalk m p);;
  match m !! r with
  | Some (NFile d) => ret d
  | Some _ => raise (OSError EISDIR)
  | None => raise (FileNotFoundError [])
  end.

Definition write_bytes (p : apath) (d : bytes) : IO unit :=
  m <- gets id;;
  r <- of_outcome (kwalk m p);;
  match m !! r with
  | Some NDir => raise (OSError EISDIR)
  | Some (NLink _) => raise (OSError ELOOP)
  | Some (NFile _) | None => modify (insert r (NFile d))
  end.

(** [shutil.copyfile(src, dst)] *)
Definition copyfile (src dst : apath) : IO unit :=
  m <- gets id;;
  if bool_decide (is_Some (stat m src) ∧ is_Some (stat m dst) ∧ kwalk m src = kwalk m dst)
  then raise (OSError ESAME)
  else (d <- read_bytes src;; write_bytes dst d).

(** [shutil.rmtree(p)] *)
Definition rmtree (p : apath) : IO unit :=
  q <- parent_walk p;;
  m <- gets id;;
  match m !! q with
  | None => raise (FileNotFoundError [])
  | Some (NLink _) => raise (OSError EISLNK)
  | Some (NFile _) => raise (OSError ENOTDIR)
  | Some NDir => modify (filter (λ kv, ¬ q `prefix_of` kv.1))
  end.

(** [os.remove(p)] *)
Definition os_remove (p : apath) : IO unit :=
  q <- parent_walk p;;
  m <- gets id;;
  match m !! q with
  | None => raise (FileNotFoundError [])
  | Some NDir => raise (OSError EISDIR)
  | Some _ => modify (delete q)
  end.
End operations.

(** [p.rglob("*")], as paths relative to [p]; links are listed, not entered. *)
Definition strip_prefix (p q : apath) : option apath :=
  if decide (p `prefix_of` q) then Some (drop (length p) q) else None.

Definition rglob (m : fs) (p : apath) : list apath :=
  match kwalk m p with
  | Exc _ => []
  | Ret r =>
      filter (λ rel, rel ≠ [])
        (omap (λ e, strip_prefix r e.1) (map_to_list m))
  end.

#[global] Arguments kwalk : simpl never.
#[global] Arguments realpath : simpl never.
#[global] Arguments resolve : simpl never.
#[global] Arguments join_path : simpl never.
#[global] Arguments path_parts : simpl never.
#[global] Arguments rglob : simpl never.
#[global] Arguments is_relative_to : simpl never.
