(* ===== verification/FsFacts.v ===== *)
(** * Facts about the file system

    Well-formedness and its preservation, termination of [Path.resolve],
    walking paths that meet no symbolic link, and where an operation can
    change the file system. *)
From S2P Require Import Prelude PyStr Exceptions FileSystem.
Local Open Scope eff_scope.

(** ** Well-formedness *)
Definition fs_wf (m : fs) : Prop :=
  m !! [] = Some NDir ∧
  ∀ p name n, m !! (p ++ [name]) = Some n → m !! p = Some NDir.

Lemma fs_wf_prefix m p q n :
  fs_wf m → m !! (p ++ q) = Some n → q ≠ [] → m !! p = Some NDir.
Proof.
  intros [_ Hwf]. revert n. induction q as [|x q IH] using rev_ind; [done|].
  intros n. rewrite app_assoc. intros H _. apply Hwf in H.
  destruct q as [|y q]; [by rewrite app_nil_r in H|]. by eapply IH.
Qed.

Lemma fs_wf_dir_prefix m p q : fs_wf m → m !! (p ++ q) = Some NDir → m !! p = Some NDir.
Proof.
  intros Hwf H. destruct q as [|x q]; [by rewrite app_nil_r in H|]. by eapply fs_wf_prefix.
Qed.

Lemma snoc_ne {A} (p : list A) x : p ≠ p ++ [x].
Proof. intros H%(f_equal length). rewrite length_app in H. simpl in H. lia. Qed.

Lemma fs_wf_insert_file m p d :
  fs_wf m → m !! p ≠ Some NDir → (∃ r name, p = r ++ [name] ∧ m !! r = Some NDir) →
  fs_wf (<[p := NFile d]> m).
Proof.
  intros [Hr Hwf] Hp (r & name & -> & Hdir). split.
  - rewrite lookup_insert_ne; [done|]. by destruct r.
  - intros q x n H. destruct (decide (r ++ [name] = q)) as [<-|Hq].
    + rewrite lookup_insert_ne in H by apply snoc_ne. by destruct Hp; eapply Hwf.
    + rewrite lookup_insert_ne by done. apply lookup_insert_Some in H as [[H _]|[_ H]].
      * by apply app_inj_2 in H as [-> _].
      * by eapply Hwf.
Qed.

Lemma fs_wf_insert_dir m r name :
  fs_wf m → m !! r = Some NDir → m !! (r ++ [name]) = None →
  fs_wf (<[r ++ [name] := NDir]> m).
Proof.
  intros [Hr Hwf] Hdir Hnone. split.
  - rewrite lookup_insert_ne; [done|]. by destruct r.
  - intros q x n H. destruct (decide (r ++ [name] = q)) as [<-|Hq].
    + by rewrite lookup_insert_eq.
    + rewrite lookup_insert_ne by done. apply lookup_insert_Some in H as [[H _]|[_ H]].
      * by apply app_inj_2 in H as [-> _].
      * by eapply Hwf.
Qed.

Lemma fs_wf_delete m p :
  fs_wf m → p ≠ [] → m !! p ≠ Some NDir → fs_wf (delete p m).
Proof.
  intros [Hr Hwf] Hp Hn. split.
  - by rewrite lookup_delete_ne.
  - intros q x n [_ H]%lookup_delete_Some. apply Hwf in H.
    apply lookup_delete_Some. split; [|done]. by intros ->.
Qed.

Lemma fs_wf_rmtree m p :
  fs_wf m → p ≠ [] → fs_wf (filter (λ kv, ¬ p `prefix_of` kv.1) m).
Proof.
  intros [Hr Hwf] Hp. split.
  - apply map_lookup_filter_Some. split; [done|]. simpl. by intros ->%prefix_nil_inv.
  - intros q x n [H Hnp]%map_lookup_filter_Some. apply Hwf in H.
    apply map_lookup_filter_Some. split; [done|]. simpl in *. intros Hpre. apply Hnp.
    by apply prefix_app_r.
Qed.

(** ** Walking without links *)
Lemma kwalk_from_cons links m name rest path :
  kwalk_from links m (name :: rest) path =
  match m !! path with
  | None => Exc (FileNotFoundError [])
  | Some NDir =>
      if decide (name = [] ∨ name = DOT) then kwalk_from links m rest path
      else if decide (name = DOTDOT) then kwalk_from links m rest (removelast path)
      else
        match m !! (path ++ [name]) with
        | Some (NLink target) =>
            match links with
            | O => Exc (OSError ELOOP)
            | S links' =>
                kwalk_from links' m (split_on SLASH target ++ rest)
                  (if is_absolute target then [] else path)
            end
        | _ => kwalk_from links m rest (path ++ [name])
        end
  | Some _ => Exc (OSError ENOTDIR)
  end.
Proof. by destruct links. Qed.

Lemma kwalk_from_nil links m path : kwalk_from links m [] path = Ret path.
Proof. by destruct links. Qed.

(** No prefix of [p] is a symbolic link. *)
Definition link_free (m : fs) (p : apath) : Prop :=
  ∀ q, q `prefix_of` p → is_link_at m q = false.

Abbreviation normal p := (Forall normal_name p).

Lemma link_free_prefix m p q : link_free m (p ++ q) → link_free m p.
Proof. intros H r Hr. apply H. by apply prefix_app_r. Qed.

Lemma link_free_snoc m p x :
  link_free m (p ++ [x]) ↔ link_free m p ∧ is_link_at m (p ++ [x]) = false.
Proof.
  split.
  - intros H. split; [by eapply link_free_prefix|]. by apply H.
  - intros [Hp Hx] q [k Hk]. destruct k as [|y k] using rev_ind.
    + rewrite app_nil_r in Hk. by subst.
    + rewrite app_assoc in Hk. apply app_inj_2 in Hk as [-> _]; [|done].
      apply Hp. by apply prefix_app_r.
Qed.

Lemma not_link_lookup m p {A} (f : pystr → A) (d : A) :
  is_link_at m p = false →
  match m !! p with Some (NLink t) => f t | _ => d end = d.
Proof. unfold is_link_at. by destruct (m !! p) as [[]|]. Qed.

Lemma normal_name_test {A} w (a b c : A) :
  normal_name w →
  (if decide (w = [] ∨ w = DOT) then a else if decide (w = DOTDOT) then b else c) = c.
Proof. intros (H1 & H2 & H3 & _). repeat case_decide; tauto. Qed.

(** A walk over link-free components either arrives where it was told to go or
    fails because something on the way is not a directory. *)
Lemma kwalk_from_link_free links m rest path :
  normal rest → link_free m (path ++ rest) →
  kwalk_from links m rest path = Ret (path ++ rest) ∨
  (∃ q, q `prefix_of` rest ∧ q ≠ rest ∧ m !! (path ++ q) ≠ Some NDir ∧
     kwalk_from links m rest path =
       Exc (match m !! (path ++ q) with
            | None => FileNotFoundError [] | Some _ => OSError ENOTDIR end)).
Proof.
  revert path. induction rest as [|w rest IH]; intros path Hn Hl.
  { left. by rewrite kwalk_from_nil, app_nil_r. }
  apply Forall_cons in Hn as [Hw Hn]. rewrite kwalk_from_cons.
  assert (is_link_at m (path ++ [w]) = false) as Hx.
  { apply Hl. exists rest. by rewrite <- app_assoc. }
  destruct (m !! path) as [[| |]|] eqn:Ep.
  2,3,4: right; exists []; rewrite app_nil_r, Ep; (split; [apply prefix_nil|done]).
  rewrite normal_name_test by done.
  rewrite (not_link_lookup m (path ++ [w])) by done.
  destruct (IH (path ++ [w])) as [->|(q & Hq & Hne & Hdir & ->)]; [done| | |].
  - by rewrite <- app_assoc.
  - left. by rewrite <- app_assoc.
  - right. exists (w :: q). rewrite <- app_assoc in Hdir |- *.
    split; [by apply prefix_cons|]. split; [congruence|done].
Qed.

Lemma kwalk_link_free m p :
  normal p → link_free m p →
  kwalk m p = Ret p ∨
  (∃ q, q `prefix_of` p ∧ q ≠ p ∧ m !! q ≠ Some NDir ∧
     kwalk m p = Exc (match m !! q with
                      | None => FileNotFoundError [] | Some _ => OSError ENOTDIR end)).
Proof. exact (kwalk_from_link_free _ m p []). Qed.

(** An existing link-free path is where it says. *)
Lemma kwalk_existing m p n :
  fs_wf m → normal p → link_free m p → m !! p = Some n → kwalk m p = Ret p.
Proof.
  intros Hwf Hn Hl Hp. destruct (kwalk_link_free m p Hn Hl) as [H|(q & [k ->] & Hne & Hd & _)]; [done|].
  destruct Hd. eapply fs_wf_prefix; [done..|]. intros ->. by rewrite app_nil_r in Hne.
Qed.

Lemma kwalk_parent_dir m p x :
  fs_wf m → normal (p ++ [x]) → link_free m (p ++ [x]) → m !! p = Some NDir →
  kwalk m (p ++ [x]) = Ret (p ++ [x]).
Proof.
  intros Hwf Hn Hl Hp.
  destruct (kwalk_link_free m _ Hn Hl) as [H|(q & [k Hk] & Hne & Hd & _)]; [done|].
  destruct Hd. destruct k as [|y k] using rev_ind.
  - by rewrite app_nil_r in Hk.
  - rewrite app_assoc in Hk. apply app_inj_2 in Hk as [-> _]; [|done].
    by eapply fs_wf_dir_prefix.
Qed.

Lemma stat_link_free m p :
  fs_wf m → normal p → link_free m p → stat m p = m !! p.
Proof.
  intros Hwf Hn Hl. unfold stat. destruct (m !! p) as [n|] eqn:Ep.
  - by erewrite kwalk_existing.
  - destruct (kwalk_link_free m p Hn Hl) as [->|(q & _ & _ & _ & ->)]; done.
Qed.
