(* ===== verification/Realpath.v ===== *)
(** * [Path.resolve] terminates and is final

    Two facts about the model of [os.path.realpath] that the path checks of
    the program rest on.  The loop ends: every symbolic link is expanded at
    most once.  And the result is final: if the kernel can walk the resolved
    path at all, it arrives exactly there, so a check of the resolved path is a
    check of the file that will be touched.  Links that form a loop are the
    hard case: [resolve] leaves them in its result, and the kernel refuses
    them. *)
From S2P Require Import Prelude PyStr Exceptions FileSystem FsFacts.

(** ** Termination *)
Section termination.
Context (m : fs).

Implicit Types seen : gmap apath (option apath).

Lemma entry_weight_mono seen l o e :
  entry_weight (<[l := o]> seen) e ≤ entry_weight seen e.
Proof.
  destruct e as [p [| |t]]; simpl; [done..|].
  destruct (decide (l = p)) as [->|].
  - rewrite lookup_insert_eq. case_decide; [done|lia].
  - rewrite lookup_insert_ne by done. done.
Qed.

Lemma sum_list_with_mono {A} (f g : A → nat) (l : list A) :
  (∀ x, f x ≤ g x) → sum_list_with f l ≤ sum_list_with g l.
Proof. intros H. induction l as [|x l IH]; simpl; [done|]. specialize (H x). lia. Qed.

Lemma link_weight_mono seen l o : link_weight m (<[l := o]> seen) ≤ link_weight m seen.
Proof. apply sum_list_with_mono. intros e. apply entry_weight_mono. Qed.

Lemma link_weight_expand seen l t o :
  m !! l = Some (NLink t) → seen !! l = None →
  link_weight m (<[l := o]> seen) + S (length (split_on SLASH t)) ≤ link_weight m seen.
Proof.
  intros Hl Hs. unfold link_weight.
  rewrite <- (map_to_list_delete m l (NLink t)) by done. simpl.
  rewrite lookup_insert_eq, Hs. simpl.
  pose proof (sum_list_with_mono (entry_weight (<[l:=o]> seen)) (entry_weight seen)
    (map_to_list (delete l m)) (entry_weight_mono seen l o)). lia.
Qed.

Lemma realpath_loop_total fuel rest seen path :
  length rest + link_weight m seen ≤ fuel →
  is_Some (realpath_loop fuel m rest seen path).
Proof.
  revert rest seen path. induction fuel as [|fuel IH]; intros [|t rest] seen path Hf;
    simpl in *; [done|lia|done|].
  destruct t as [name|l].
  - repeat case_decide; [apply IH; lia..|].
    destruct (m !! (path ++ [name])) as [[| |t]|] eqn:El; try (apply IH; lia).
    destruct (seen !! (path ++ [name])) as [[p|]|] eqn:Es; try (apply IH; lia).
    apply IH. rewrite length_app, length_fmap. simpl.
    pose proof (link_weight_expand seen _ _ None El Es). lia.
  - apply IH. pose proof (link_weight_mono seen l (Some path)). lia.
Qed.
End termination.

(** [realpath] always returns the loop's own answer, never the default. *)
Lemma realpath_spec m p :
  realpath_loop (length p + link_weight m ∅) m (Part <$> p) ∅ [] = Some (realpath m p).
Proof.
  unfold realpath.
  destruct (realpath_loop_total m (length p + link_weight m ∅) (Part <$> p) ∅ []) as [q ->];
    [by rewrite length_fmap|done].
Qed.

(** ** Finality *)
Section finality.
Context (m : fs) (Hwf : fs_wf m).

(** A kernel walk from the first configuration that succeeds goes through the
    second one, with at least [k] links followed on the way. *)
Definition leads (k : nat) (c0 c1 : apath * list pystr) : Prop :=
  ∀ links rest x,
    kwalk_from links m (c0.2 ++ rest) c0.1 = Ret x →
    ∃ links', links' + k ≤ links ∧ kwalk_from links' m (c1.2 ++ rest) c1.1 = Ret x.

(** The kernel never gets past this link. *)
Definition stuck (par : apath) (w : pystr) : Prop :=
  ∀ links rest x, kwalk_from links m (w :: rest) par ≠ Ret x.

Lemma leads_trans k1 k2 c0 c1 c2 :
  leads k1 c0 c1 → leads k2 c1 c2 → leads (k1 + k2) c0 c2.
Proof.
  intros H1 H2 links rest x H. apply H1 in H as (l1 & ? & H).
  apply H2 in H as (l2 & ? & H). exists l2. split; [lia|done].
Qed.

Lemma leads_weaken c0 c1 : leads 1 c0 c1 → leads 0 c0 c1.
Proof. intros H l r x Hx. apply H in Hx as (l' & ? & ?). exists l'. split; [lia|done]. Qed.

Lemma leads_weaken1 c0 c1 c2 : leads 1 c0 c1 → leads 1 c1 c2 → leads 1 c0 c2.
Proof. intros H1 H2. exact (leads_trans 1 0 _ _ _ H1 (leads_weaken _ _ H2)). Qed.

Lemma leads_self_stuck par w rest' :
  leads 1 (par, [w]) (par, w :: rest') → stuck par w.
Proof.
  intros H links. induction links as [links IH] using lt_wf_ind. intros rest x Hx.
  apply H in Hx as (l' & Hl & Hx). by apply (IH l' ltac:(lia) (rest' ++ rest) x).
Qed.

Lemma leads_stuck par w X c k : stuck par w → leads k (par, w :: X) c.
Proof. intros H links rest x Hx. by apply H in Hx. Qed.

Lemma leads_frame k par w p X : leads k (par, [w]) (p, []) → leads k (par, w :: X) (p, X).
Proof. intros H links rest x Hx. by apply (H links (X ++ rest) x) in Hx. Qed.

(** One component of a walk *)
Lemma leads_skip path name X :
  name = [] ∨ name = DOT → leads 0 (path, name :: X) (path, X).
Proof.
  intros Hn links rest x. simpl. rewrite kwalk_from_cons.
  destruct (m !! path) as [[]|]; try done. rewrite decide_True by done. intros Hx.
  exists links. split; [lia|done].
Qed.

Lemma leads_up path X : leads 0 (path, DOTDOT :: X) (removelast path, X).
Proof.
  intros links rest x. simpl. rewrite kwalk_from_cons.
  destruct (m !! path) as [[]|]; try done.
  rewrite decide_False by (intros [|]; done). rewrite decide_True by done. intros Hx.
  exists links. split; [lia|done].
Qed.

Section name.
Context (path : apath) (name : pystr) (X : list pystr).
Hypotheses (Hn : ¬ (name = [] ∨ name = DOT)) (Hn' : name ≠ DOTDOT).

Lemma leads_down :
  is_link_at m (path ++ [name]) = false → leads 0 (path, name :: X) (path ++ [name], X).
Proof using Hn Hn'.
  intros Hl links rest x. simpl. rewrite kwalk_from_cons.
  destruct (m !! path) as [[]|]; try done.
  rewrite !decide_False by done. rewrite not_link_lookup by done. intros Hx.
exists links. split; [lia|done].
Qed.

Lemma leads_link t :
  m !! (path ++ [name]) = Some (NLink t) →
  leads 1 (path, name :: X)
    (if is_absolute t then [] else path, split_on SLASH t ++ X).
Proof using Hn Hn'.
  intros Hl links rest x. simpl. rewrite kwalk_from_cons.
  destruct (m !! path) as [[]|]; try done.
  rewrite !decide_False by done. rewrite Hl.
  destruct links as [|links]; [done|]. intros Hx. exists links. split; [lia|].
  by rewrite <- app_assoc.
Qed.
End name.

(** *** The invariant of the loop *)
Definition parts (A : list todo) : list pystr :=
  omap (λ t, match t with Part n => Some n | Resolved _ => None end) A.

Lemma parts_Part l : parts (Part <$> l) = l.
Proof. unfold parts. induction l as [|x l IH]; [done|]. simpl. f_equal. exact IH. Qed.

Lemma parts_app A B : parts (A ++ B) = parts A ++ parts B.
Proof. apply omap_app. Qed.

Lemma mark_split (l : list pystr) N rest A L B :
  (Part <$> l) ++ Resolved N :: rest = A ++ Resolved L :: B →
  (A = Part <$> l ∧ L = N ∧ B = rest) ∨
  (∃ A', A = (Part <$> l) ++ Resolved N :: A' ∧ rest = A' ++ Resolved L :: B).
Proof.
  revert A. induction l as [|x l IH]; intros [|y A] H; simplify_eq/=; eauto.
  destruct (IH A) as [(-> & -> & ->)|(A' & -> & ->)]; eauto.
Qed.

(** Every link left in a resolved path is one the kernel refuses. *)
Definition good (p : apath) : Prop :=
  normal p ∧
  ∀ q w, q ++ [w] `prefix_of` p → is_link_at m (q ++ [w]) = true → stuck q w.

Record inv (rest : list todo) (seen : gmap apath (option apath)) (path : apath) : Prop := {
  inv_path : good path;
  inv_rest : ∀ n, Part n ∈ rest → SLASH ∉ n;
  inv_mark : ∀ A L B, rest = A ++ Resolved L :: B →
    ∃ q w, L = q ++ [w] ∧ leads 1 (q, [w]) (path, parts A);
  inv_open : ∀ L, seen !! L = Some None → Resolved L ∈ rest;
  inv_done : ∀ q w p, seen !! (q ++ [w]) = Some (Some p) →
    good p ∧ leads 1 (q, [w]) (p, [])
}.

Lemma good_snoc p w :
  good p → normal_name w →
  (is_link_at m (p ++ [w]) = true → stuck p w) → good (p ++ [w]).
Proof using Hwf.
  intros [Hn Hg] Hw Hl. split; [by apply Forall_app; split; [|constructor]|].
  intros q v [k Hk] Hlink. destruct k as [|y k] using rev_ind.
  - rewrite app_nil_r in Hk. apply app_inj_2 in Hk as [-> [= ->]]; auto.
  - rewrite app_assoc in Hk. apply app_inj_2 in Hk as [-> _]; [|done].
    apply Hg; [by eexists|done].
Qed.

Lemma good_prefix p q : good (p ++ q) → good p.
Proof using Hwf.
  intros [Hn Hg]. split; [by apply Forall_app in Hn as [? _]|].
  intros r w Hr. apply Hg. by apply prefix_app_r.
Qed.

Lemma good_removelast p : good p → good (removelast p).
Proof using Hwf.
  intros H. destruct p as [|x p] using rev_ind; [done|].
  rewrite removelast_last. by eapply good_prefix.
Qed.

Lemma good_nil : good [].
Proof using Hwf.
  split; [constructor|]. intros q w H%prefix_nil_inv. by destruct q.
Qed.

Lemma inv_next rest seen path path' name :
  inv (Part name :: rest) seen path → good path' →
  (∀ X, leads 0 (path, name :: X) (path', X)) →
  inv rest seen path'.
Proof using Hwf.
  intros [Hp Hr Hm Ho Hd] Hg Hl. split; [done| | | |done].
  - intros n Hn. apply Hr. by right.
  - intros A L B ->. destruct (Hm (Part name :: A) L B) as (q & w & -> & H); [done|].
    exists q, w. split; [done|]. exact (leads_trans 1 0 _ _ _ H (Hl (parts A))).
  - intros L HL. apply Ho in HL. by apply elem_of_cons in HL as [|].
Qed.

Lemma inv_resolved rest seen path L :
  inv (Resolved L :: rest) seen path → inv rest (<[L := Some path]> seen) path.
Proof using Hwf.
  intros [Hp Hr Hm Ho Hd]. split; [done| | | |].
  - intros n Hn. apply Hr. by right.
  - intros A L' B ->. destruct (Hm (Resolved L :: A) L' B) as (q & w & -> & H); [done|].
    by exists q, w.
  - intros L' [[_ ?]|[Hne HL]]%lookup_insert_Some; [done|].
    apply Ho in HL. apply elem_of_cons in HL as [[= ->]|]; done.
  - intros q w p [[-> [= <-]]|[_ H]]%lookup_insert_Some; [|by apply Hd].
    split; [done|]. destruct (Hm [] (q ++ [w]) rest) as (q' & w' & E & H); [done|].
    apply app_inj_2 in E as [-> [= ->]]; done.
Qed.

Lemma inv_expand rest seen path name t :
  inv (Part name :: rest) seen path →
  ¬ (name = [] ∨ name = DOT) → name ≠ DOTDOT →
  m !! (path ++ [name]) = Some (NLink t) → seen !! (path ++ [name]) = None →
  inv ((Part <$> split_on SLASH t) ++ Resolved (path ++ [name]) :: rest)
    (<[path ++ [name] := None]> seen) (if is_absolute t then [] else path).
Proof using Hwf.
  intros [Hp Hr Hm Ho Hd] Hn Hn' Hl Hs. split.
  - case_match; [apply good_nil|done].
  - intros n. rewrite elem_of_app, list_elem_of_fmap, elem_of_cons.
    intros [(? & [= ->] & ?)|[?|?]]; [by eapply split_on_no_sep|done|apply Hr; by right].
  - intros A L B HA. apply mark_split in HA as [(-> & -> & ->)|(A' & -> & ->)].
    + exists path, name. split; [done|]. rewrite parts_Part.
      rewrite <- (app_nil_r (split_on _ _)). by apply leads_link.
    + destruct (Hm (Part name :: A') L B) as (q & w & -> & H); [done|].
      exists q, w. split; [done|]. rewrite parts_app, parts_Part.
      exact (leads_weaken1 _ _ _ H (leads_link path name (parts A') Hn Hn' t Hl)).
  - intros L [[<- _]|[_ HL]]%lookup_insert_Some; [set_solver|].
    apply Ho in HL. apply elem_of_app. right. right.
    by apply elem_of_cons in HL as [|].
  - intros q w p [[_ ?]|[_ H]]%lookup_insert_Some; [done|by apply Hd].
Qed.

Lemma loop_good fuel rest seen path q :
  inv rest seen path → realpath_loop fuel m rest seen path = Some q → good q.
Proof using Hwf.
  revert rest seen path. induction fuel as [|fuel IH]; intros [|t rest] seen path Hinv H;
    simplify_eq/=; try (by destruct Hinv).
  destruct t as [name|L]; [|by eapply IH, H; apply inv_resolved].
  case_decide as Hn.
  { eapply IH, H. eapply inv_next; [done|by destruct Hinv|]. intros X. by apply leads_skip. }
  case_decide as Hn'.
  { subst. eapply IH, H. eapply inv_next; [done|by apply good_removelast; destruct Hinv|].
    intros X. apply leads_up. }
  assert (normal_name name) as Hname.
  { repeat split; [tauto..|]. apply (inv_rest _ _ _ Hinv). by left. }
  assert (good path) as Hg by (by destruct Hinv).
  destruct (is_link_at m (path ++ [name])) eqn:El; cycle 1.
  { rewrite not_link_lookup in H by done. eapply IH, H.
    eapply inv_next; [done|by apply good_snoc; [..|congruence]|]. intros X. by apply leads_down. }
  unfold is_link_at in El. destruct (m !! (path ++ [name])) as [[| |t]|] eqn:Et; try done.
  destruct (seen !! (path ++ [name])) as [[p|]|] eqn:Es.
  - destruct (inv_done _ _ _ Hinv _ _ _ Es) as [Hp Hl]. eapply IH, H.
    eapply inv_next; [done..|]. intros X. by apply leads_frame, leads_weaken.
  - assert (stuck path name) as Hst.
    { pose proof (inv_open _ _ _ Hinv _ Es) as (A & B & Hin)%list_elem_of_split.
      destruct (inv_mark _ _ _ Hinv _ _ _ Hin) as (q' & w & E & Hl).
      apply app_inj_2 in E as [<- [= <-]]; [|done].
      destruct A as [|y A]; simplify_eq/=. by eapply leads_self_stuck. }
    eapply IH, H. eapply inv_next; [done|by apply good_snoc|].
    intros X. by apply leads_stuck.
  - eapply IH, H. by apply inv_expand.
Qed.

Lemma inv_init p : (∀ n, n ∈ p → SLASH ∉ n) → inv (Part <$> p) ∅ [].
Proof using Hwf.
  intros Hp. split; [apply good_nil| | |done|done].
  - intros n (? & [= ->] & ?)%list_elem_of_fmap. by apply Hp.
  - intros A L B HA.
    assert (Resolved L ∈ Part <$> p) as (? & ? & ?)%list_elem_of_fmap by (rewrite HA; set_solver).
    done.
Qed.

Lemma walk_good links rest path r :
  good (path ++ rest) → kwalk_from links m rest path = Ret r → r = path ++ rest.
Proof using Hwf.
  revert path. induction rest as [|w rest IH]; intros path Hg.
  { rewrite kwalk_from_nil, app_nil_r. by intros [= ->]. }
  intros H. rewrite cons_middle, app_assoc in Hg |- *. apply IH; [done|].
  pose proof (good_prefix _ _ Hg) as [Hn Hst].
  apply Forall_app in Hn as [_ [Hw _]%Forall_cons].
  rewrite kwalk_from_cons in H. destruct (m !! path) as [[]|] eqn:Ep; try done.
  rewrite normal_name_test in H by done.
  destruct (is_link_at m (path ++ [w])) eqn:El; [|by rewrite not_link_lookup in H].
  exfalso. eapply (Hst path w); [done..|]. rewrite kwalk_from_cons, Ep.
  rewrite normal_name_test by done. exact H.
Qed.
End finality.

(** ** The two facts the clients use *)
Lemma realpath_normal m p :
  fs_wf m → (∀ n, n ∈ p → SLASH ∉ n) → normal (realpath m p).
Proof.
  intros Hwf Hp. apply (loop_good m Hwf _ _ _ _ _ (inv_init m Hwf p Hp) (realpath_spec m p)).
Qed.

(** The kernel arrives at a resolved path or nowhere. *)
Lemma realpath_final m p r :
  fs_wf m → (∀ n, n ∈ p → SLASH ∉ n) →
  kwalk m (realpath m p) = Ret r → r = realpath m p.
Proof.
  intros Hwf Hp H. apply (walk_good m Hwf MAXSYMLINKS (realpath m p) []); [|done].
  apply (loop_good m Hwf _ _ _ _ _ (inv_init m Hwf p Hp) (realpath_spec m p)).
Qed.

(** A path without special components or links resolves to itself. *)
Lemma realpath_loop_link_free m fuel seen path rest q :
  normal rest → link_free m (path ++ rest) →
  realpath_loop fuel m (Part <$> rest) seen path = Some q → q = path ++ rest.
Proof.
  revert fuel path. induction rest as [|w rest IH]; intros fuel path Hn Hl H.
  { rewrite app_nil_r. destruct fuel; simpl in H; congruence. }
  apply Forall_cons in Hn as [Hw Hn]. rewrite cons_middle, app_assoc in Hl |- *.
  destruct fuel as [|fuel]; [done|]. simpl in H.
  rewrite normal_name_test, not_link_lookup in H; [by eapply IH|..|done].
  apply Hl. by eexists.
Qed.

Lemma realpath_link_free m p : normal p → link_free m p → realpath m p = p.
Proof.
  intros Hn Hl. exact (realpath_loop_link_free m _ _ [] p _ Hn Hl (realpath_spec m p)).
Qed.
