(* ===== verification/FsOps.v ===== *)
(** * What the file operations change

    Every operation keeps the file system well formed; the ones the storage
    performs on a resolved path touch that path only, apart from missing
    parent directories; and on link-free paths they do what they say. *)
From S2P Require Import Prelude PyStr Exceptions FileSystem FsFacts Realpath.
Local Open Scope eff_scope.

(** ** Only links matter to [resolve] *)
Definition same_links (m m' : fs) : Prop :=
  ∀ p t, m !! p = Some (NLink t) ↔ m' !! p = Some (NLink t).

#[export] Instance same_links_preorder : PreOrder same_links.
Proof.
  split; [intros m p t; done|].
  intros m1 m2 m3 H1 H2 p t. by rewrite (H1 p t), (H2 p t).
Qed.

Lemma same_links_sym m m' : same_links m m' → same_links m' m.
Proof. intros H p t. by rewrite (H p t). Qed.

Lemma same_links_match m m' p {A} (f : pystr → A) (d : A) :
  same_links m m' →
  match m !! p with Some (NLink t) => f t | _ => d end =
  match m' !! p with Some (NLink t) => f t | _ => d end.
Proof.
  intros H. pose proof (H p) as Hp.
  destruct (m !! p) as [[| |t]|] eqn:E.
  3: by rewrite (proj1 (Hp t) eq_refl).
  all: destruct (m' !! p) as [[| |t']|]; try done;
    by pose proof (proj2 (Hp t') eq_refl).
Qed.

Lemma realpath_loop_same_links m m' fuel fuel' rest seen path q q' :
  same_links m m' →
  realpath_loop fuel m rest seen path = Some q →
  realpath_loop fuel' m' rest seen path = Some q' → q = q'.
Proof.
  intros Hs. revert fuel' rest seen path.
  induction fuel as [|fuel IH]; intros [|fuel'] [|t rest] seen path H H'; simplify_eq/=; try done.
  destruct t as [name|L]; [|by eapply IH].
  repeat case_decide; [by eapply IH..|].
  rewrite (same_links_match m m' (path ++ [name]) _ _ Hs) in H.
  destruct (m' !! (path ++ [name])) as [[| |t]|]; try (by eapply IH).
  destruct (seen !! (path ++ [name])) as [[p|]|]; by eapply IH.
Qed.

Lemma realpath_same_links m m' p : same_links m m' → realpath m p = realpath m' p.
Proof.
  intros Hs. eapply realpath_loop_same_links; [done|apply realpath_spec..].
Qed.

(** [p] is the result of resolving a path. *)
Definition resolved (m : fs) (p : apath) : Prop :=
  ∃ p0, (∀ n, n ∈ p0 → SLASH ∉ n) ∧ realpath m p0 = p.

Lemma resolved_same_links m m' p : same_links m m' → resolved m p → resolved m' p.
Proof. intros Hs (p0 & ? & <-). exists p0. split; [done|]. symmetry. by apply realpath_same_links. Qed.

Lemma resolved_normal m p : fs_wf m → resolved m p → normal p.
Proof. intros Hwf (p0 & ? & <-). by apply realpath_normal. Qed.

Lemma resolved_final m p q r :
  fs_wf m → resolved m p → q `prefix_of` p → kwalk m q = Ret r → r = q.
Proof.
  intros Hwf (p0 & Hp & <-) [k Hk] H.
  apply (walk_good m Hwf MAXSYMLINKS q []); [|done].
  apply (good_prefix m Hwf q k). rewrite <- Hk.
  apply (loop_good m Hwf _ _ _ _ _ (inv_init m Hwf p0 Hp) (realpath_spec m p0)).
Qed.

Lemma link_free_resolved m p : normal p → link_free m p → resolved m p.
Proof.
  intros Hn Hl. exists p. split; [|by apply realpath_link_free].
  intros n Hin. rewrite Forall_forall in Hn. by apply Hn.
Qed.

(** ** Where a walk can end *)
Definition at_dir (m : fs) (r : apath) : Prop :=
  m !! r = Some NDir ∨
  ∃ q w, r = q ++ [w] ∧ m !! q = Some NDir ∧ is_link_at m r = false.

Lemma kwalk_from_at_dir links m rest path r :
  fs_wf m → at_dir m path → kwalk_from links m rest path = Ret r → at_dir m r.
Proof.
  intros Hwf. revert rest path. induction links as [links IHl] using lt_wf_ind.
  induction rest as [|w rest IH]; intros path Hp.
  { rewrite kwalk_from_nil. by intros [= <-]. }
  rewrite kwalk_from_cons. destruct (m !! path) as [[]|] eqn:Ed; try done.
  repeat case_decide.
  - by apply IH.
  - apply IH. left. destruct path as [|x path] using rev_ind; [done|].
    rewrite removelast_last. by eapply fs_wf_dir_prefix.
  - destruct (is_link_at m (path ++ [w])) eqn:El.
    + unfold is_link_at in El. destruct (m !! (path ++ [w])) as [[| |t]|]; try done.
      destruct links as [|links]; [done|]. apply IHl; [lia|].
      destruct (is_absolute t); left; [by destruct Hwf|done].
    + rewrite not_link_lookup by done. apply IH. right. eauto.
Qed.

Lemma kwalk_at_dir m p r : fs_wf m → kwalk m p = Ret r → at_dir m r.
Proof. intros Hwf. apply kwalk_from_at_dir; [done|]. left. by destruct Hwf. Qed.

(** ** Every operation keeps the file system well formed *)
Definition keeps_wf (m m' : fs) : Prop := fs_wf m → fs_wf m'.

#[export] Instance keeps_wf_preorder : PreOrder keeps_wf.
Proof. split; [intros m H; done|intros m1 m2 m3 H1 H2 H; auto]. Qed.

Lemma parent_walk_inv p m m' q :
  parent_walk p m = (m', Ret q) →
  m' = m ∧ ∃ r w, last p = Some w ∧ kwalk m (removelast p) = Ret r ∧
    m !! r = Some NDir ∧ q = r ++ [w].
Proof.
  unfold parent_walk, ebind, gets, of_outcome, ret, raise. simpl.
  destruct (last p) as [w|]; simpl; [|done].
  destruct (kwalk m (removelast p)) as [r|]; simpl; [|done].
  destruct (m !! r) as [[]|] eqn:Er; intros [= <- <-]. eauto 10.
Qed.

Lemma parent_walk_pure p m : (parent_walk p m).1 = m.
Proof.
  unfold parent_walk, ebind, gets, of_outcome, ret, raise. simpl.
  destruct (last p); simpl; [|done]. destruct (kwalk m (removelast p)); simpl; [|done].
  by destruct (m !! _) as [[]|].
Qed.

(** The shape of [os_mkdir], [rmtree] and [os_remove]: find the entry, look at
    it, then either fail or change the map there. *)
Lemma entry_op_inv {A : Type} (p : apath) (k : apath → eff exn fs A) (m m' : fs) o :
  ebind (parent_walk p) k m = (m', o) →
  (∃ e, m' = m ∧ o = Exc e) ∨
  (∃ r w, last p = Some w ∧ kwalk m (removelast p) = Ret r ∧
     m !! r = Some NDir ∧ k (r ++ [w]) m = (m', o)).
Proof.
  intros [(m1 & q & Hp & Hk)|(e & He & ->)]%ebind_inv.
  - apply parent_walk_inv in Hp as [-> (r & w & Hl & Hr & Hd & ->)]. right. eauto 10.
  - left. exists e. split; [|done]. pose proof (parent_walk_pure p m) as H. by rewrite He in H.
Qed.

Lemma os_mkdir_inv p m m' o :
  os_mkdir p m = (m', o) →
  (∃ e, m' = m ∧ o = Exc e) ∨
  (∃ r w, last p = Some w ∧ kwalk m (removelast p) = Ret r ∧ m !! r = Some NDir ∧
     m !! (r ++ [w]) = None ∧ m' = <[r ++ [w] := NDir]> m ∧ o = Ret tt).
Proof.
  intros [?|(r & w & Hl & Hr & Hd & H)]%entry_op_inv; [by left|].
  unfold ebind, gets, raise, modify in H. simpl in H.
  destruct (m !! (r ++ [w])) eqn:E; simplify_eq; [left; eauto|right; eauto 10].
Qed.

Lemma rmtree_inv p m m' o :
  rmtree p m = (m', o) →
  (∃ e, m' = m ∧ o = Exc e) ∨
  (∃ r w, last p = Some w ∧ kwalk m (removelast p) = Ret r ∧ m !! r = Some NDir ∧
     m !! (r ++ [w]) = Some NDir ∧
     m' = filter (λ kv, ¬ (r ++ [w]) `prefix_of` kv.1) m ∧ o = Ret tt).
Proof.
  intros [?|(r & w & Hl & Hr & Hd & H)]%entry_op_inv; [by left|].
  unfold ebind, gets, raise, modify in H. simpl in H.
  destruct (m !! (r ++ [w])) as [[]|] eqn:E; simplify_eq; [right; eauto 10|left; eauto..].
Qed.

Lemma os_remove_inv p m m' o :
  os_remove p m = (m', o) →
  (∃ e, m' = m ∧ o = Exc e) ∨
  (∃ r w, last p = Some w ∧ kwalk m (removelast p) = Ret r ∧ m !! r = Some NDir ∧
     m !! (r ++ [w]) ≠ Some NDir ∧ m' = delete (r ++ [w]) m ∧ o = Ret tt).
Proof.
  intros [?|(r & w & Hl & Hr & Hd & H)]%entry_op_inv; [by left|].
  unfold ebind, gets, raise, modify in H. simpl in H.
  destruct (m !! (r ++ [w])) as [[]|] eqn:E; simplify_eq;
    [left; eauto|right; exists r, w; rewrite E; eauto 10..|left; eauto].
Qed.

Lemma write_bytes_inv p d m m' o :
  write_bytes p d m = (m', o) →
  (∃ e, m' = m ∧ o = Exc e) ∨
  (∃ r, kwalk m p = Ret r ∧ m !! r ≠ Some NDir ∧ is_link_at m r = false ∧
     m' = <[r := NFile d]> m ∧ o = Ret tt).
Proof.
  unfold write_bytes, ebind, gets, of_outcome, raise, modify. simpl.
  destruct (kwalk m p) as [r|e]; simpl; [|intros [= <- <-]; left; eauto].
  unfold is_link_at.
  destruct (m !! r) as [[]|] eqn:Er; intros [= <- <-];
    [left; eauto| right| left; eauto |right];
    exists r; rewrite Er; naive_solver.
Qed.

Lemma read_bytes_pure p m : (read_bytes p m).1 = m.
Proof.
  unfold read_bytes, ebind, gets, of_outcome, ret, raise. simpl.
  destruct (kwalk m p); simpl; [|done]. by destruct (m !! _) as [[]|].
Qed.

Lemma copyfile_inv src dst m m' o :
  copyfile src dst m = (m', o) →
  (∃ e, m' = m ∧ o = Exc e) ∨
  (∃ d, read_bytes src m = (m, Ret d) ∧ write_bytes dst d m = (m', o)).
Proof.
  unfold copyfile. rewrite (ebind_ret_run _ _ _ m m) by done.
  case_bool_decide; [intros [= <- <-]; left; eauto|].
  intros [(m1 & d & Hr & Hw)|(e & He & ->)]%ebind_inv.
  - pose proof (read_bytes_pure src m) as H'. rewrite Hr in H'. simpl in H'. subst. right. eauto.
  - pose proof (read_bytes_pure src m) as H'. rewrite He in H'. simpl in H'. left. eauto.
Qed.

Lemma os_mkdir_wf p : steps keeps_wf (os_mkdir p).
Proof.
  intros m Hwf. destruct (os_mkdir p m) as [m' o] eqn:E.
  apply os_mkdir_inv in E as [(e & -> & _)|(r & w & _ & _ & Hd & Hn & -> & _)]; [done|].
  by apply fs_wf_insert_dir.
Qed.

Lemma accept_existing_dir_pure p e m : (accept_existing_dir p e m).1 = m.
Proof. unfold accept_existing_dir, ebind, gets, ret, raise. simpl. by case_match. Qed.

Lemma steps_pure {A : Type} (R : relation fs) `{!PreOrder R} (c : eff exn fs A) :
  (∀ m, (c m).1 = m) → steps R c.
Proof. intros H m. rewrite H. reflexivity. Qed.

(** [Path.mkdir(parents=True)] is a sequence of [os.mkdir] calls. *)
Lemma mkdir_p_steps (R : relation fs) `{!PreOrder R} p :
  (∀ q, q `prefix_of` p → steps R (os_mkdir q)) → steps R (mkdir_p p).
Proof.
  intros H. unfold mkdir_p. rewrite <- (rev_involutive p) in H.
  induction (rev p) as [|w rp IH]; simpl; [apply steps_ret; apply _|].
  assert (steps R (os_mkdir (rev (w :: rp)))) as Hd by (apply H; done).
  assert (∀ e, steps R (accept_existing_dir (rev (w :: rp)) e)) as Ha
    by (intros e; apply steps_pure, accept_existing_dir_pure; apply _).
  assert (steps R (mkdir_rev rp)) as Hrec.
  { apply IH. intros q Hq. apply H. simpl. by apply prefix_app_r. }
  simpl in Hd, Ha.
  repeat first [ exact Hd | exact Hrec | apply Ha | apply steps_raise; apply _
    | apply steps_catch; [apply _| |intros []] | apply steps_ebind; [apply _| |intros ?] ].
Qed.

Lemma mkdir_p_wf p : steps keeps_wf (mkdir_p p).
Proof. apply mkdir_p_steps; [apply _|]. intros q _. apply os_mkdir_wf. Qed.

Lemma write_bytes_wf p d : steps keeps_wf (write_bytes p d).
Proof.
  intros m Hwf. destruct (write_bytes p d m) as [m' o] eqn:E.
  apply write_bytes_inv in E as [(e & -> & _)|(r & Hr & Hd & Hl & -> & _)]; [done|].
  apply fs_wf_insert_file; [done..|].
  destruct (kwalk_at_dir _ _ _ Hwf Hr) as [?|(q & w & -> & Hq & _)]; [done|eauto].
Qed.

Lemma copyfile_wf src dst : steps keeps_wf (copyfile src dst).
Proof.
  intros m. destruct (copyfile src dst m) as [m' o] eqn:E.
  apply copyfile_inv in E as [(e & -> & _)|(d & _ & Hw)]; [done|].
  intros Hwf. pose proof (write_bytes_wf dst d m Hwf) as H. by rewrite Hw in H.
Qed.

Lemma rmtree_wf p : steps keeps_wf (rmtree p).
Proof.
  intros m Hwf. destruct (rmtree p m) as [m' o] eqn:E.
  apply rmtree_inv in E as [(e & -> & _)|(r & w & _ & _ & _ & _ & -> & _)]; [done|].
  apply fs_wf_rmtree; [done|]. by destruct r.
Qed.

Lemma os_remove_wf p : steps keeps_wf (os_remove p).
Proof.
  intros m Hwf. destruct (os_remove p m) as [m' o] eqn:E.
  apply os_remove_inv in E as [(e & -> & _)|(r & w & _ & _ & _ & Hn & -> & _)]; [done|].
  apply fs_wf_delete; [done| |done]. by destruct r.
Qed.

#[export] Hint Resolve keeps_wf_preorder mkdir_p_wf write_bytes_wf copyfile_wf rmtree_wf
  os_remove_wf : eff.

(** ** Creating and writing keep the links *)
Lemma same_links_insert m p n :
  is_link_at m p = false → (∀ t, n ≠ NLink t) → same_links m (<[p := n]> m).
Proof.
  unfold is_link_at. intros Hl Hn q t. rewrite lookup_insert. case_decide as E; [|done].
  subst q. split; [by intros E; rewrite E in Hl|]. intros [= E]. by destruct (Hn t).
Qed.

Lemma os_mkdir_links p : steps same_links (os_mkdir p).
Proof.
  intros m. destruct (os_mkdir p m) as [m' o] eqn:E.
  apply os_mkdir_inv in E as [(e & -> & _)|(r & w & _ & _ & Hd & Hn & -> & _)]; [done|].
  apply same_links_insert; [|done]. unfold is_link_at. by rewrite Hn.
Qed.

Lemma mkdir_p_links p : steps same_links (mkdir_p p).
Proof. apply mkdir_p_steps; [apply _|]. intros q _. apply os_mkdir_links. Qed.

Lemma write_bytes_links p d : steps same_links (write_bytes p d).
Proof.
  intros m. destruct (write_bytes p d m) as [m' o] eqn:E.
  apply write_bytes_inv in E as [(e & -> & _)|(r & _ & _ & Hl & -> & _)]; [done|].
  by apply same_links_insert.
Qed.

Lemma copyfile_links src dst : steps same_links (copyfile src dst).
Proof.
  intros m. destruct (copyfile src dst m) as [m' o] eqn:E.
  apply copyfile_inv in E as [(e & -> & _)|(d & _ & Hw)]; [done|].
  pose proof (write_bytes_links dst d m) as H. by rewrite Hw in H.
Qed.

(** ** Confinement

    [confined b m m']: nothing changed outside [b], except that missing
    directories on the way to [b] may have appeared; no directory was lost and
    new entries have ordinary names. *)
Definition grows (m m' : fs) : Prop :=
  (∀ q, m !! q = Some NDir → m' !! q = Some NDir) ∧
  (∀ q, is_Some (m' !! q) → is_Some (m !! q) ∨ normal q).

#[export] Instance grows_preorder : PreOrder grows.
Proof.
  split; [by intros m; split; auto|]. intros m1 m2 m3 [Hd1 Hn1] [Hd2 Hn2]. split; [by auto|].
  intros q [H|H]%Hn2; [|by right]. by apply Hn1.
Qed.

Lemma grows_insert (m : fs) q n :
  normal q → n = NDir ∨ m !! q ≠ Some NDir → grows m (<[q := n]> m).
Proof.
  intros Hq Hn. split; intros r; rewrite lookup_insert; case_decide as E; subst; eauto.
  intros Hr. destruct Hn as [->|Hn]; [done|by destruct Hn].
Qed.

Definition confined (b : apath) (m m' : fs) : Prop :=
  (∀ q, m' !! q = m !! q ∨ b `prefix_of` q ∨
        (q `prefix_of` b ∧ m !! q = None ∧ m' !! q = Some NDir)) ∧
  grows m m'.

#[export] Instance confined_preorder b : PreOrder (confined b).
Proof.
  split; [intros m; split; [by left|done]|].
  intros m1 m2 m3 [H1 Hg1] [H2 Hg2]. split; [|by etransitivity].
  intros q. destruct (H1 q) as [E1|[?|(? & E1 & E1')]]; [|by eauto|].
  - destruct (H2 q) as [E2|[?|(? & E2 & E2')]]; [left; congruence|by eauto|].
    right; right. split; [done|]. split; congruence.
  - destruct (H2 q) as [E2|[?|(? & E2 & E2')]]; [|by eauto|congruence].
    right; right. split; [done|]. split; congruence.
Qed.

(** Along a resolved path [p] below [b], given as a relation so that sequences
    of operations compose. *)
Definition confined_at (p b : apath) (m m' : fs) : Prop :=
  fs_wf m → resolved m p → fs_wf m' ∧ same_links m m' ∧ confined b m m'.

#[export] Instance confined_at_preorder p b : PreOrder (confined_at p b).
Proof.
  split; [intros m ? ?; split; [done|split; reflexivity]|].
  intros m1 m2 m3 H1 H2 Hwf Hr. destruct (H1 Hwf Hr) as (Hwf2 & Hl & Hc).
  destruct (H2 Hwf2) as (Hwf3 & Hl' & Hc'); [by eapply resolved_same_links|].
  split; [done|]. split; by etransitivity.
Qed.

Lemma os_mkdir_confined p b q :
  b `prefix_of` p → q `prefix_of` p → steps (confined_at p b) (os_mkdir q).
Proof.
  intros Hb Hq m Hwf Hr. split; [by apply os_mkdir_wf|]. split; [apply os_mkdir_links|].
  destruct (os_mkdir q m) as [m' o] eqn:E.
  apply os_mkdir_inv in E as [(e & -> & _)|(r & w & Hw & Hk & Hd & Hn & -> & _)]; [done|].
  destruct q as [|w' q _] using rev_ind; [done|].
  rewrite last_snoc in Hw. rewrite removelast_last in Hk. simplify_eq.
  assert (r = q) as -> by
    (eapply (resolved_final m p q); [done..| |exact Hk]; by eapply prefix_app_l).
  split.
  - intros x. simpl. rewrite lookup_insert. case_decide as E; [|by left]. subst x. right.
    destruct (prefix_weak_total b (q ++ [w]) p) as [?|?]; eauto.
  - apply grows_insert; [|by left].
    destruct Hq as [k ->]. by apply resolved_normal, Forall_app in Hr as [? _].
Qed.

Lemma mkdir_p_confined p b q :
  b `prefix_of` p → q `prefix_of` p → steps (confined_at p b) (mkdir_p q).
Proof.
  intros Hb Hq. apply mkdir_p_steps; [apply _|]. intros q' Hq'.
  apply os_mkdir_confined; [done|]. by etransitivity.
Qed.

Lemma write_bytes_confined p b d :
  b `prefix_of` p → steps (confined_at p b) (write_bytes p d).
Proof.
  intros Hb m Hwf Hr. split; [by apply write_bytes_wf|]. split; [apply write_bytes_links|].
  destruct (write_bytes p d m) as [m' o] eqn:E.
  apply write_bytes_inv in E as [(e & -> & _)|(r & Hk & Hnd & _ & -> & _)]; [done|].
  assert (r = p) as -> by (by eapply (resolved_final m p p)).
  split; [|by apply grows_insert; [eapply resolved_normal|right]].
  intros x. simpl. rewrite lookup_insert. case_decide; [subst; by eauto|by left].
Qed.

Lemma copyfile_confined p b src :
  b `prefix_of` p → steps (confined_at p b) (copyfile src p).
Proof.
  intros Hb m. destruct (copyfile src p m) as [m' o] eqn:E.
  apply copyfile_inv in E as [(e & -> & _)|(d & _ & Hw)]; [reflexivity|].
  pose proof (write_bytes_confined p b d Hb m) as H. by rewrite Hw in H.
Qed.

(** ** What the operations do on link-free paths *)

(** Every existing prefix of [p] is a directory. *)
Definition clear (m : fs) (p : apath) : Prop :=
  ∀ q, q `prefix_of` p → m !! q = None ∨ m !! q = Some NDir.

Lemma clear_link_free m p : clear m p → link_free m p.
Proof. intros H q Hq. unfold is_link_at. by destruct (H q Hq) as [->| ->]. Qed.

Lemma clear_prefix m p q : clear m (p ++ q) → clear m p.
Proof. intros H r Hr. apply H. by apply prefix_app_r. Qed.

Lemma wf_none_below m p q : fs_wf m → m !! p = None → m !! (p ++ q) = None.
Proof.
  intros Hwf Hp. destruct (m !! (p ++ q)) as [n|] eqn:E; [|done].
  destruct q as [|x q]; [by rewrite app_nil_r, Hp in E|].
  by apply fs_wf_prefix in E; [rewrite Hp in E|..].
Qed.

Lemma parent_walk_dir m p w :
  fs_wf m → normal p → link_free m p → m !! p = Some NDir →
  parent_walk (p ++ [w]) m = (m, Ret (p ++ [w])).
Proof.
  intros Hwf Hn Hl Hp. unfold parent_walk, ebind, gets, of_outcome, ret. simpl.
  rewrite last_snoc, removelast_last, (kwalk_existing m p NDir) by done. simpl. by rewrite Hp.
Qed.

Lemma parent_walk_missing m p w :
  normal p → clear m p → m !! p = None →
  parent_walk (p ++ [w]) m = (m, Exc (FileNotFoundError [])).
Proof.
  intros Hn Hc Hp. unfold parent_walk, ebind, gets, of_outcome, raise. simpl.
  rewrite last_snoc, removelast_last.
  destruct (kwalk_link_free m p Hn (clear_link_free m p Hc)) as [->|(q & Hq & _ & Hd & ->)];
    simpl; [by rewrite Hp|]. by destruct (Hc q Hq) as [E|E]; rewrite E in *.
Qed.

Lemma is_dir_link_free m p :
  fs_wf m → normal p → link_free m p → is_dir m p = is_dir_at m p.
Proof. intros. unfold is_dir, is_dir_at. by rewrite stat_link_free. Qed.

Definition with_dirs (p : apath) (m m' : fs) : Prop :=
  ∀ q, m' !! q = if decide (q `prefix_of` p) then Some NDir else m !! q.

Lemma prefix_snoc_inv {A} (q p : list A) w :
  q `prefix_of` p ++ [w] → q = p ++ [w] ∨ q `prefix_of` p.
Proof.
  intros [k Hk]. destruct k as [|y k _] using rev_ind.
  - left. by rewrite app_nil_r in Hk.
  - right. rewrite app_assoc in Hk. apply app_inj_2 in Hk as [-> _]; [|done].
    by apply prefix_app_r.
Qed.

Lemma prefix_snoc_not {A} (p : list A) w : ¬ p ++ [w] `prefix_of` p.
Proof. intros H%prefix_length. rewrite length_app in H. simpl in H. lia. Qed.

Lemma os_mkdir_ok m p w :
  fs_wf m → normal p → clear m p → m !! p = Some NDir →
  os_mkdir (p ++ [w]) m =
    match m !! (p ++ [w]) with
    | Some _ => (m, Exc (OSError EEXIST))
    | None => (<[p ++ [w] := NDir]> m, Ret tt)
    end.
Proof.
  intros Hwf Hn Hc Hp. unfold os_mkdir.
  rewrite (ebind_ret_run _ _ _ m (p ++ [w]))
    by (apply parent_walk_dir; auto using clear_link_free).
  unfold ebind, gets, raise, modify. simpl. by destruct (m !! (p ++ [w])).
Qed.

Lemma os_mkdir_missing m p w :
  normal p → clear m p → m !! p = None →
  os_mkdir (p ++ [w]) m = (m, Exc (FileNotFoundError [])).
Proof. intros. unfold os_mkdir. apply ebind_exc_run. by apply parent_walk_missing. Qed.

Lemma with_dirs_snoc p w m m1 :
  with_dirs p m m1 → with_dirs (p ++ [w]) m (<[p ++ [w] := NDir]> m1).
Proof.
  intros H q. destruct (decide (p ++ [w] = q)) as [<-|Hne].
  { rewrite lookup_insert_eq. by rewrite decide_True. }
  rewrite lookup_insert_ne, (H q) by done.
  destruct (decide (q `prefix_of` p)) as [Hq|Hq].
  - by rewrite decide_True by (by apply prefix_app_r).
  - rewrite decide_False; [done|]. by intros [->|]%prefix_snoc_inv.
Qed.

Lemma with_dirs_id p m : fs_wf m → clear m p → m !! p = Some NDir → with_dirs p m m.
Proof.
  intros Hwf Hc Hp q. case_decide as Hq; [|done]. destruct Hq as [k ->].
  by eapply fs_wf_dir_prefix.
Qed.

Lemma mkdir_p_ok m p :
  fs_wf m → normal p → clear m p →
  ∃ m', mkdir_p p m = (m', Ret tt) ∧ with_dirs p m m'.
Proof.
  intros Hwf. unfold mkdir_p. rewrite <- (rev_involutive p).
  rewrite (rev_involutive (rev p)). induction (rev p) as [|w rp IH].
  { intros _ _. exists m. split; [done|]. apply with_dirs_id; [done| |by destruct Hwf].
    intros q ->%prefix_nil_inv. right. by destruct Hwf. }
  cbn [rev mkdir_rev]. intros Hn Hc.
  pose proof Hn as [Hn' _]%Forall_app. pose proof (clear_prefix _ _ _ Hc) as Hc'.
  destruct (Hc' (rev rp)) as [Hp|Hp]; [done| |].
  - destruct (IH Hn' Hc') as (m1 & Hm1 & Hd). unfold try_catch at 1.
    rewrite os_mkdir_missing by done. rewrite (ebind_ret_run _ _ _ m1 tt) by done.
    pose proof (mkdir_p_wf (rev rp) m Hwf) as Hwf1.
    unfold mkdir_p in Hwf1. rewrite rev_involutive, Hm1 in Hwf1. simpl in Hwf1.
    unfold try_catch. rewrite os_mkdir_ok; [|done..| |].
    + rewrite (Hd (rev rp ++ [w])), decide_False by (intros ?%prefix_snoc_not; done).
      rewrite (wf_none_below m (rev rp)) by done.
      eexists. split; [done|]. by apply with_dirs_snoc.
    + intros q Hq. right. rewrite (Hd q). by rewrite decide_True.
    + rewrite (Hd _). by rewrite decide_True.
  - unfold try_catch. rewrite os_mkdir_ok by done.
    destruct (Hc (rev rp ++ [w])) as [Hx|Hx]; [done|rewrite Hx..].
    + eexists. split; [done|]. apply with_dirs_snoc. by apply with_dirs_id.
    + exists m. unfold accept_existing_dir, ebind, gets. simpl.
      rewrite is_dir_link_free by auto using clear_link_free.
      unfold is_dir_at. rewrite Hx. split; [done|]. by apply with_dirs_id.
Qed.
