(* ===== verification/Storage.v ===== *)
(** * The workspace storage (storage/interface.py, storage/local.py)

    [StorageService] is the abstract class of [storage/interface.py];
    [LocalStorageService] its implementation over the file system, with the
    path check every operation goes through and the snapshots that make an
    execution attempt undoable. *)
From S2P Require Import Prelude PyStr Exceptions FileSystem FsFacts Realpath FsOps.
Local Open Scope eff_scope.

(** [str | bytes] *)
Inductive content := Text (s : pystr) | Raw (b : bytes).

(** ** storage/interface.py

    The operations a client may call, on a storage state [St].
    [begin_attempt] takes the value [uuid.uuid4()] returns. *)
Class StorageService (St : Type) := {
  create_directory : uuid → pystr → eff exn St unit;
  create_workspace : uuid → eff exn St unit;
  clean_workspace : uuid → eff exn St unit;
  write_file : uuid → pystr → content → eff exn St unit;
  read_file : uuid → pystr → eff exn St bytes;
  workspace_file_exists : uuid → pystr → eff exn St bool;
  workspace_file_size : uuid → pystr → eff exn St Z;
  copy_workspace_file : uuid → uuid → pystr → eff exn St unit;
  save_artifact : uuid → pystr → eff exn St unit;
  check_artifact_exists : uuid → pystr → eff exn St bool;
  get_artifact_path : uuid → pystr → eff exn St apath;
  begin_attempt : uuid → uuid → eff exn St pystr;
  rollback_attempt : uuid → pystr → eff exn St unit;
  complete_attempt : uuid → pystr → eff exn St unit
}.

(** ** storage/local.py *)
Module Local.
Section local.
(** [self.base_dir], resolved by [__init__] *)
Context (base_dir : apath).

Definition JOBS : pystr := Eval vm_compute in py "jobs".
Definition ARTIFACTS : pystr := Eval vm_compute in py "artifacts".
Definition SNAPSHOTS : pystr := Eval vm_compute in py ".attempt-snapshots".
Definition TRAVERSAL : pystr := Eval vm_compute in py "../".
Definition TRAVERSAL_WIN : pystr := Eval vm_compute in py "..\".
Definition BACKSLASH : N := 92.

Definition denied : exn :=
  PermissionError (py "Access Denied: Path traversal attempt detected.").

(** [self.base_dir / dir_type / str(job_id)] *)
Definition job_root (dir_type : pystr) (job_id : uuid) : apath :=
  join_path (join_path base_dir dir_type) (uuid_str job_id).

Definition unsafe_string (relative_path : pystr) : bool :=
  contains TRAVERSAL relative_path || contains TRAVERSAL_WIN relative_path
  || startswith relative_path [SLASH] || startswith relative_path [BACKSLASH].

Definition _validate_safe_path (job_id : uuid) (relative_path dir_type : pystr)
    : eff exn fs apath :=
  if unsafe_string relative_path then raise denied
  else
    m <- gets id;;
    base_job_dir <- of_outcome (resolve m (job_root dir_type job_id));;
    target_path <- of_outcome (resolve m (join_path base_job_dir relative_path));;
    if is_relative_to target_path base_job_dir then ret target_path
    else raise denied.

Definition create_workspace (job_id : uuid) : eff exn fs unit :=
  mkdir_p (job_root JOBS job_id) ;;;
  mkdir_p (job_root ARTIFACTS job_id).

Definition create_directory (job_id : uuid) (relative_path : pystr) : eff exn fs unit :=
  p <- _validate_safe_path job_id relative_path JOBS;;
  mkdir_p p.

Definition clean_workspace (job_id : uuid) : eff exn fs unit :=
  m <- gets id;;
  if path_exists m (job_root JOBS job_id) && is_dir m (job_root JOBS job_id)
  then rmtree (job_root JOBS job_id)
  else ret tt.

(** [write_text] opens (and truncates) the file before it encodes. *)
Definition write_content (p : apath) (c : content) : eff exn fs unit :=
  match c with
  | Raw b => write_bytes p b
  | Text s =>
      match utf8_encode s with
      | Some b => write_bytes p b
      | None => write_bytes p [] ;;; raise UnicodeEncodeError
      end
  end.

Definition write_file (job_id : uuid) (relative_path : pystr) (c : content)
    : eff exn fs unit :=
  target_path <- _validate_safe_path job_id relative_path JOBS;;
  mkdir_p (parent target_path) ;;;
  write_content target_path c.

Definition not_found (what relative_path : pystr) (where_ : pystr) (job_id : uuid) : exn :=
  FileNotFoundError (what ++ relative_path ++ where_ ++ uuid_str job_id).

Definition read_file (job_id : uuid) (relative_path : pystr) : eff exn fs bytes :=
  target_path <- _validate_safe_path job_id relative_path JOBS;;
  m <- gets id;;
  if negb (path_exists m target_path) || negb (is_file m target_path)
  then raise (not_found (py "File not found: ") relative_path (py " in workspace of job ") job_id)
  else read_bytes target_path.

Definition workspace_file_exists (job_id : uuid) (relative_path : pystr)
    : eff exn fs bool :=
  try_catch
    (target_path <- _validate_safe_path job_id relative_path JOBS;;
     gets (λ m, is_file m target_path))
    (λ e, match e with PermissionError _ => ret false | _ => raise e end).

Definition workspace_file_size (job_id : uuid) (relative_path : pystr) : eff exn fs Z :=
  target_path <- _validate_safe_path job_id relative_path JOBS;;
  m <- gets id;;
  match stat m target_path with
  | Some (NFile d) => ret (Z.of_nat (length d))
  | _ =>
      raise (not_found (py "File not found: ") relative_path (py " in workspace of job ") job_id)
  end.

Definition copy_workspace_file (source_job_id target_job_id : uuid) (relative_path : pystr)
    : eff exn fs unit :=
  source <- _validate_safe_path source_job_id relative_path JOBS;;
  m <- gets id;;
  if negb (is_file m source)
  then raise (not_found (py "File not found: ") relative_path (py " in workspace of job ")
                source_job_id)
  else
    target <- _validate_safe_path target_job_id relative_path JOBS;;
    mkdir_p (parent target) ;;;
    copyfile source target.

Definition save_artifact (job_id : uuid) (relative_path : pystr) : eff exn fs unit :=
  src_path <- _validate_safe_path job_id relative_path JOBS;;
  m <- gets id;;
  if negb (path_exists m src_path) || negb (is_file m src_path)
  then raise (not_found (py "Source file not found for artifact: ") relative_path
                (py " in job ") job_id)
  else
    dest_path <- _validate_safe_path job_id relative_path ARTIFACTS;;
    mkdir_p (parent dest_path) ;;;
    copyfile src_path dest_path.

Definition check_artifact_exists (job_id : uuid) (filename : pystr) : eff exn fs bool :=
  try_catch
    (target_path <- _validate_safe_path job_id filename ARTIFACTS;;
     gets (λ m, path_exists m target_path && is_file m target_path))
    (λ e, match e with PermissionError _ => ret false | _ => raise e end).

Definition get_artifact_path (job_id : uuid) (filename : pystr) : eff exn fs apath :=
  target_path <- _validate_safe_path job_id filename ARTIFACTS;;
  m <- gets id;;
  if negb (path_exists m target_path) || negb (is_file m target_path)
  then raise (not_found (py "Artifact not found: ") filename (py " for job ") job_id)
  else ret target_path.

(** *** Attempt snapshots *)
Definition copy_entry (source target rel : apath) : eff exn fs unit :=
  m <- gets id;;
  if is_dir m (source ++ rel) then mkdir_p (target ++ rel)
  else if is_file m (source ++ rel) then
    mkdir_p (parent (target ++ rel)) ;;;
    copyfile (source ++ rel) (target ++ rel)
  else ret tt.

Definition _copy_tree_with_copyfile (source target : apath) : eff exn fs unit :=
  mkdir_p target ;;;
  m <- gets id;;
  if negb (path_exists m source) then ret tt
  else for_each (rglob m source) (copy_entry source target).

Definition _attempt_path (job_id : uuid) (token : pystr) : eff exn fs apath :=
  m <- gets id;;
  snapshots_root <- of_outcome
    (resolve m (join_path (join_path base_dir SNAPSHOTS) (uuid_str job_id)));;
  snapshot <- of_outcome (resolve m (join_path snapshots_root token));;
  if is_relative_to snapshot snapshots_root then ret snapshot
  else raise (PermissionError (py "Access Denied: Invalid attempt snapshot token.")).

Definition begin_attempt (job_id : uuid) (uuid4 : uuid) : eff exn fs pystr :=
  let token := uuid_str uuid4 in
  snapshot <- _attempt_path job_id token;;
  _copy_tree_with_copyfile (job_root JOBS job_id) (join_path snapshot JOBS) ;;;
  _copy_tree_with_copyfile (job_root ARTIFACTS job_id) (join_path snapshot ARTIFACTS) ;;;
  ret token.

Definition complete_attempt (job_id : uuid) (token : pystr) : eff exn fs unit :=
  snapshot <- _attempt_path job_id token;;
  m <- gets id;;
  if path_exists m snapshot then rmtree snapshot else ret tt.

(** One iteration of the loop of [rollback_attempt] *)
Definition restore_dir (snapshot : apath) (job_id : uuid) (dir_type : pystr)
    : eff exn fs unit :=
  let destination := job_root dir_type job_id in
  m <- gets id;;
  (if path_exists m destination then rmtree destination else ret tt) ;;;
  _copy_tree_with_copyfile (join_path snapshot dir_type) destination.

Definition rollback_attempt (job_id : uuid) (token : pystr) : eff exn fs unit :=
  snapshot <- _attempt_path job_id token;;
  m <- gets id;;
  if negb (is_dir m snapshot)
  then raise (FileNotFoundError (py "Attempt snapshot not found: " ++ token))
  else
    for_each [JOBS; ARTIFACTS] (restore_dir snapshot job_id) ;;;
    complete_attempt job_id token.
End local.
End Local.

(** The implementation, at a base directory *)
Definition LocalStorageService (base_dir : apath) : StorageService fs := {|
  create_directory := Local.create_directory base_dir;
  create_workspace := Local.create_workspace base_dir;
  clean_workspace := Local.clean_workspace base_dir;
  write_file := Local.write_file base_dir;
  read_file := Local.read_file base_dir;
  workspace_file_exists := Local.workspace_file_exists base_dir;
  workspace_file_size := Local.workspace_file_size base_dir;
  copy_workspace_file := Local.copy_workspace_file base_dir;
  save_artifact := Local.save_artifact base_dir;
  check_artifact_exists := Local.check_artifact_exists base_dir;
  get_artifact_path := Local.get_artifact_path base_dir;
  begin_attempt := Local.begin_attempt base_dir;
  rollback_attempt := Local.rollback_attempt base_dir;
  complete_attempt := Local.complete_attempt base_dir
|}.

(** ** A run on a concrete file system *)
Module Demo.
Definition base : apath := [py "srv"].
Definition job : uuid := 0x0190163d8694739baea5966c26f8ad91.
Definition fs0 : fs := {[ [] := NDir; [py "srv"] := NDir ]}.

Definition run {A} (c : eff exn fs A) : fs * outcome exn A := c fs0.

Example demo_write_read :
  (run (Local.create_workspace base job ;;;
        Local.write_file base job (py "a/model.scad") (Text (py "cube(1);")) ;;;
        Local.read_file base job (py "a/model.scad"))).2 = Ret (py "cube(1);").
Proof. vm_compute. reflexivity. Qed.

Example dotdot_refused :
  (run (Local.create_workspace base job ;;;
        Local.write_file base job (py "..") (Text (py "x")))).2 = Exc Local.denied.
Proof. vm_compute. reflexivity. Qed.

Example attempt_round_trip :
  let '(m0, _) := run (Local.create_workspace base job ;;;
                       Local.write_file base job (py "model.scad") (Text (py "cube(1);"))) in
  let '(m1, t) := Local.begin_attempt base job 7 m0 in
  let '(m2, _) := Local.write_file base job (py "model.scad") (Text (py "oops")) m1 in
  let '(m3, o) := Local.rollback_attempt base job (uuid_str 7) m2 in
  o = Ret tt ∧ m3 !! (base ++ [py "jobs"; uuid_str job; py "model.scad"])
               = Some (NFile (py "cube(1);")).
Proof. vm_compute. split; reflexivity. Qed.
End Demo.
