(* ===== verification/StorageFacts.v ===== *)
(** * The storage keeps its promises: paths

    The path check is sound for every file system, symbolic links and link
    loops included: what an operation of a job changes lies below that job's
    own directory.  Files read back what was written, and the operations of
    one job do not disturb the files of another. *)
From S2P Require Import Prelude PyStr Exceptions FileSystem FsFacts Realpath FsOps Storage.
Local Open Scope eff_scope.
Import Local.

(** ** Path strings *)
Lemma path_parts_no_slash s n : n ∈ path_parts s → SLASH ∉ n.
Proof. intros [_ H]%list_elem_of_filter. by eapply split_on_no_sep. Qed.

Lemma path_parts_word s :
  SLASH ∉ s → s ≠ [] → s ≠ DOT → path_parts s = [s].
Proof.
  intros H1 H2 H3. unfold path_parts. rewrite split_on_single by done.
  rewrite filter_cons_True by done. by rewrite filter_nil.
Qed.

Lemma is_absolute_word s : SLASH ∉ s → is_absolute s = false.
Proof.
  intros H. apply not_true_iff_false. intros [t ->]%startswith_spec. apply H. by left.
Qed.

Lemma uuid_str_normal u : normal_name (uuid_str u).
Proof.
  pose proof (uuid_str_length u) as Hl. repeat split; [intros E; by rewrite E in Hl..|].
  intros Hin. pose proof (uuid_str_chars u) as H. rewrite Forall_forall in H.
  by specialize (H _ Hin).
Qed.

Lemma normal_join_path b w : normal_name w → join_path b w = b ++ [w].
Proof.
  intros (H1 & H2 & H3 & H4). unfold join_path.
  by rewrite is_absolute_word, path_parts_word.
Qed.

Lemma normal_no_slash p n : normal p → n ∈ p → SLASH ∉ n.
Proof. rewrite Forall_forall. intros H Hn. by apply H. Qed.

Section paths.
Context (base_dir : apath) (Hbase : normal base_dir).

(** The directory names the service uses *)
Definition dir_name (d : pystr) : Prop := d = JOBS ∨ d = ARTIFACTS ∨ d = SNAPSHOTS.

Lemma dir_name_normal d : dir_name d → normal_name d.
Proof.
  intros [->|[->| ->]]; repeat split; try done;
    by intros Hin%list_elem_of_In; repeat destruct Hin as [Hin|Hin].
Qed.

Lemma job_root_eq d j : dir_name d → job_root base_dir d j = base_dir ++ [d; uuid_str j].
Proof using.
  intros Hd. unfold job_root.
  rewrite !normal_join_path by auto using dir_name_normal, uuid_str_normal.
  by rewrite <- app_assoc.
Qed.

Lemma job_root_normal d j : dir_name d → normal (job_root base_dir d j).
Proof using Hbase.
  intros Hd. rewrite job_root_eq by done. apply Forall_app; split; [done|].
  repeat constructor; try apply (dir_name_normal d Hd); apply uuid_str_normal.
Qed.

Lemma resolve_inv m p q : resolve m p = Ret q → q = realpath m p.
Proof. unfold resolve. case_match; congruence. Qed.

(** The directory a job's paths are checked against *)
Definition job_base (m : fs) (d : pystr) (j : uuid) : apath :=
  realpath m (job_root base_dir d j).

Lemma job_base_same_links m m' d j : same_links m m' → job_base m d j = job_base m' d j.
Proof. apply realpath_same_links. Qed.

Lemma job_base_link_free m d j :
  dir_name d → link_free m (job_root base_dir d j) → job_base m d j = base_dir ++ [d; uuid_str j].
Proof using Hbase.
  intros Hd Hl. unfold job_base. rewrite <- job_root_eq by done.
  apply realpath_link_free; [by apply job_root_normal|done].
Qed.

Definition target_of (m : fs) (d : pystr) (j : uuid) (rel : pystr) : apath :=
  realpath m (join_path (job_base m d j) rel).

Lemma target_of_same_links m m' d j rel :
  same_links m m' → target_of m d j rel = target_of m' d j rel.
Proof.
  intros H. unfold target_of. rewrite (job_base_same_links m m') by done.
  by apply realpath_same_links.
Qed.

Lemma unsafe_string_not_absolute rel : unsafe_string rel = false → is_absolute rel = false.
Proof. unfold unsafe_string, is_absolute. intros [[_ H]%orb_false_iff _]%orb_false_iff. done. Qed.

Lemma target_of_resolved m d j rel :
  fs_wf m → dir_name d → unsafe_string rel = false → resolved m (target_of m d j rel).
Proof using Hbase.
  intros Hwf Hd Hu. eexists. split; [|done].
  unfold join_path. rewrite unsafe_string_not_absolute by done.
  intros n [Hn|Hn]%elem_of_app; [|by eapply path_parts_no_slash].
  eapply normal_no_slash; [|done]. apply realpath_normal; [done|].
  intros x. apply normal_no_slash. by apply job_root_normal.
Qed.

(** What a successful path check establishes *)
Lemma validate_safe_path_inv j rel d m m' p :
  _validate_safe_path base_dir j rel d m = (m', Ret p) →
  m' = m ∧ p = target_of m d j rel ∧ job_base m d j `prefix_of` p ∧
  unsafe_string rel = false.
Proof.
  unfold _validate_safe_path. destruct (unsafe_string rel); [done|]. run.
  destruct (resolve m (job_root base_dir d j)) as [b|] eqn:Eb; run; [|done].
  destruct (resolve m (join_path b rel)) as [t|] eqn:Et; run; [|done].
  apply resolve_inv in Eb, Et. subst. unfold is_relative_to.
  case_bool_decide; intros [= <- <-]. done.
Qed.

Lemma validate_safe_path_pure j rel d m : (_validate_safe_path base_dir j rel d m).1 = m.
Proof.
  unfold _validate_safe_path. destruct (unsafe_string rel); [done|]. run.
  destruct (resolve m (job_root base_dir d j)) as [b|]; run; [|done].
  destruct (resolve m (join_path b rel)) as [t|]; run; [|done]. by case_match.
Qed.

(** The check depends on the links only. *)
Lemma validate_safe_path_links j rel d m m' p :
  same_links m m' → _validate_safe_path base_dir j rel d m = (m, Ret p) →
  _validate_safe_path base_dir j rel d m' = (m', Ret p).
Proof.
  intros Hs. unfold _validate_safe_path. destruct (unsafe_string rel); [done|]. run.
  unfold resolve. rewrite !(realpath_same_links m m') by done.
  destruct (encodable (job_root base_dir d j)); run; [|done].
  rewrite !(realpath_same_links m m') by done.
  destruct (encodable _); run; [|done]. case_match; [|done].
  unfold ret. intros ?. by simplify_eq.
Qed.

(** A computation that starts with the path check *)
Lemma validated {A : Type} (j : uuid) (rel d : pystr) (k : apath → eff exn fs A) (m : fs) :
  fs_wf m → dir_name d →
  (∀ p, p = target_of m d j rel → job_base m d j `prefix_of` p → resolved m p →
     steps (confined_at p (job_base m d j)) (k p)) →
  let m' := (ebind (_validate_safe_path base_dir j rel d) k m).1 in
  fs_wf m' ∧ same_links m m' ∧ confined (job_base m d j) m m'.
Proof using Hbase.
  intros Hwf Hd Hk m'. unfold m'. rewrite run_pure by apply validate_safe_path_pure.
  pose proof (validate_safe_path_pure j rel d m) as Hp.
  destruct (_validate_safe_path base_dir j rel d m) as [m1 [p|e]] eqn:Ev; simpl in Hp; subst m1.
  - apply validate_safe_path_inv in Ev as (_ & Ep & Hpre & Hu).
    assert (resolved m p) as Hr by (subst p; by apply target_of_resolved).
    by apply (Hk p Ep Hpre Hr).
  - simpl. split; [done|]. split; reflexivity.
Qed.
End paths.

Lemma parent_prefix (p : apath) : parent p `prefix_of` p.
Proof.
  unfold parent. destruct p as [|x p _] using rev_ind; [done|].
  rewrite removelast_last. by apply prefix_app_r.
Qed.

Lemma write_content_confined p b c :
  b `prefix_of` p → steps (confined_at p b) (write_content p c).
Proof.
  intros Hb. destruct c as [s|d]; simpl; [|by apply write_bytes_confined].
  destruct (utf8_encode s); [by apply write_bytes_confined|].
  apply steps_ebind; [apply _|by apply write_bytes_confined|].
  intros _. apply steps_raise. apply _.
Qed.

Section safety.
Context (base_dir : apath) (Hbase : normal base_dir).

Lemma write_file_confined j rel c m :
  fs_wf m →
  let b := job_base base_dir m JOBS j in
  let m' := (Local.write_file base_dir j rel c m).1 in
  fs_wf m' ∧ same_links m m' ∧ confined b m m'.
Proof using Hbase.
  intros Hwf. apply validated; [done..|by left|]. intros p _ Hb _.
  apply steps_ebind; [apply _|by apply mkdir_p_confined, parent_prefix|].
  intros _. by apply write_content_confined.
Qed.

Lemma create_directory_confined j rel m :
  fs_wf m →
  let b := job_base base_dir m JOBS j in
  let m' := (Local.create_directory base_dir j rel m).1 in
  fs_wf m' ∧ same_links m m' ∧ confined b m m'.
Proof using Hbase.
  intros Hwf. apply validated; [done..|by left|]. intros p _ Hb _.
  by apply mkdir_p_confined.
Qed.

(** Checks a source first, then writes to a checked target. *)
Lemma copy_between_confined (j1 j2 : uuid) (rel d1 d2 : pystr) (test : fs → apath → bool)
    (e : exn) (m : fs) :
  fs_wf m → dir_name d1 → dir_name d2 →
  let c :=
    source <- _validate_safe_path base_dir j1 rel d1;;
    m0 <- gets id;;
    if test m0 source then raise e
    else
      target <- _validate_safe_path base_dir j2 rel d2;;
      mkdir_p (parent target) ;;;
      copyfile source target in
  let b := job_base base_dir m d2 j2 in
  let m' := (c m).1 in
  fs_wf m' ∧ same_links m m' ∧ confined b m m'.
Proof using Hbase.
  intros Hwf Hd1 Hd2 c b m'.
  assert (m' = m ∨ ∃ source, m' = (ebind (_validate_safe_path base_dir j2 rel d2)
    (λ target, mkdir_p (parent target) ;;; copyfile source target) m).1) as [->|[source ->]].
  { unfold m', c. rewrite run_pure by apply validate_safe_path_pure.
    destruct (_validate_safe_path base_dir j1 rel d1 m).2 as [p|x]; [|by left]. run.
    destruct (test m p); [by left|]. right. by exists p. }
  - split; [done|split; reflexivity].
  - apply validated; [done..|]. intros q _ Hb _.
    apply steps_ebind; [apply _|by apply mkdir_p_confined, parent_prefix|].
    intros _. by apply copyfile_confined.
Qed.

Lemma copy_workspace_file_confined j1 j2 rel m :
  fs_wf m →
  let b := job_base base_dir m JOBS j2 in
  let m' := (Local.copy_workspace_file base_dir j1 j2 rel m).1 in
  fs_wf m' ∧ same_links m m' ∧ confined b m m'.
Proof using Hbase.
  intros Hwf. exact (copy_between_confined j1 j2 rel JOBS JOBS (λ m p, negb (is_file m p))
    _ m Hwf (or_introl eq_refl) (or_introl eq_refl)).
Qed.

Lemma save_artifact_confined j rel m :
  fs_wf m →
  let b := job_base base_dir m ARTIFACTS j in
  let m' := (Local.save_artifact base_dir j rel m).1 in
  fs_wf m' ∧ same_links m m' ∧ confined b m m'.
Proof using Hbase.
  intros Hwf. exact (copy_between_confined j j rel JOBS ARTIFACTS
    (λ m p, negb (path_exists m p) || negb (is_file m p))
    _ m Hwf (or_introl eq_refl) (or_intror (or_introl eq_refl))).
Qed.
End safety.

(** ** Reading back *)
Lemma kwalk_from_mono links m m' rest path r :
  same_links m m' → (∀ q, m !! q = Some NDir → m' !! q = Some NDir) →
  kwalk_from links m rest path = Ret r → kwalk_from links m' rest path = Ret r.
Proof.
  intros Hs Hd. revert rest path. induction links as [links IHl] using lt_wf_ind.
  induction rest as [|w rest IH]; intros path; [by rewrite !kwalk_from_nil|].
  rewrite !kwalk_from_cons. destruct (m !! path) as [[]|] eqn:Ep; try done.
  rewrite (Hd _ Ep). repeat case_decide; [apply IH..|].
  rewrite <- (same_links_match m m') by done.
  destruct (m !! (path ++ [w])) as [[| |t]|]; try apply IH.
  destruct links as [|links]; [done|]. apply IHl. lia.
Qed.

Lemma write_bytes_then_stat p d m m' :
  fs_wf m → resolved m p → write_bytes p d m = (m', Ret tt) →
  stat m' p = Some (NFile d) ∧ kwalk m' p = Ret p ∧ m' !! p = Some (NFile d).
Proof.
  intros Hwf Hr H. pose proof (write_bytes_links p d m) as Hs. rewrite H in Hs. simpl in Hs.
  apply write_bytes_inv in H as [(e & _ & ?)|(r & Hk & Hd & _ & -> & _)]; [done|].
  assert (r = p) as -> by (by eapply (resolved_final m p p)).
  assert (kwalk (<[p:=NFile d]> m) p = Ret p) as Hk'.
  { apply (kwalk_from_mono _ m); [done| |done]. intros q Hq.
    rewrite lookup_insert_ne; [done|]. by intros ->. }
  unfold stat. by rewrite Hk', lookup_insert_eq.
Qed.

Section round_trip.
Context (base_dir : apath) (Hbase : normal base_dir).

Lemma write_content_inv p c m m' :
  write_content p c m = (m', Ret tt) →
  ∃ d, write_bytes p d m = (m', Ret tt) ∧
    match c with Text s => utf8_encode s = Some d | Raw b => d = b end.
Proof.
  destruct c as [s|b]; simpl; [|by eauto].
  destruct (utf8_encode s) as [d|]; [by eauto|]. intros H. by eff_inv.
Qed.

Lemma write_file_inv j rel c m m' :
  fs_wf m → Local.write_file base_dir j rel c m = (m', Ret tt) →
  ∃ m1 p d, p = target_of base_dir m JOBS j rel ∧
    _validate_safe_path base_dir j rel JOBS m = (m, Ret p) ∧
    fs_wf m1 ∧ same_links m m1 ∧ resolved m1 p ∧
    write_bytes p d m1 = (m', Ret tt) ∧
    match c with Text s => utf8_encode s = Some d | Raw b => d = b end.
Proof using Hbase.
  intros Hwf H. unfold Local.write_file in H.
  apply ebind_inv in H as [(m0 & p & Hv & H)|(e & _ & ?)]; [|done].
  apply ebind_inv in H as [(m1 & [] & Hm & H)|(e & _ & ?)]; [|done].
  pose proof (validate_safe_path_inv _ _ _ _ _ _ _ Hv) as (-> & Hp & _ & Hu).
  pose proof (mkdir_p_wf (parent p) m Hwf) as Hwf1. rewrite Hm in Hwf1.
  pose proof (mkdir_p_links (parent p) m) as Hs1. rewrite Hm in Hs1. simpl in *.
  apply write_content_inv in H as (d & Hw & Hd).
  exists m1, p, d. repeat (split; [done|]). split; [|done].
  eapply resolved_same_links; [done|]. subst p. apply target_of_resolved; [done..|by left|done].
Qed.

(** [read_file] after [write_file] returns the encoded text. *)
Lemma write_read_file j rel s m m' :
  fs_wf m → Local.write_file base_dir j rel (Text s) m = (m', Ret tt) →
  ∃ d, utf8_encode s = Some d ∧ Local.read_file base_dir j rel m' = (m', Ret d).
Proof using Hbase.
  intros Hwf H. apply write_file_inv in H as (m1 & p & d & _ & Hv & Hwf1 & Hs1 & Hr & Hw & Hd);
    [|done].
  exists d. split; [done|].
  pose proof (write_bytes_links p d m1) as Hs2. rewrite Hw in Hs2. simpl in Hs2.
  destruct (write_bytes_then_stat p d m1 m') as (Hst & Hk & Hl); [done..|].
  unfold Local.read_file.
  rewrite (ebind_ret_run _ _ _ m' p)
    by (eapply validate_safe_path_links; [|done]; by etransitivity).
  run. unfold path_exists, is_file. rewrite Hst. simpl.
  unfold read_bytes. run. rewrite Hk. run. by rewrite Hl.
Qed.
End round_trip.

(** ** Downloads by name *)
Lemma check_then_get base_dir j f m m' :
  Local.check_artifact_exists base_dir j f m = (m', Ret true) →
  ∃ p, Local.get_artifact_path base_dir j f m = (m, Ret p) ∧
    job_base base_dir m ARTIFACTS j `prefix_of` p ∧ is_file m p = true.
Proof.
  unfold Local.check_artifact_exists, Local.get_artifact_path.
  intros [(b & H & [= <-])|(m1 & e & _ & H)]%catch_inv; cycle 1.
  { destruct e; unfold raise, ret in H; simplify_eq. }
  apply ebind_inv in H as [(m1 & p & Hv & H)|(e & _ & ?)]; [|done].
  pose proof (validate_safe_path_inv _ _ _ _ _ _ _ Hv) as (-> & Hp & Hpre & _).
  unfold gets in H. injection H as <- Hb. apply andb_true_iff in Hb as [He Hf].
  exists p. split; [|done]. rewrite (ebind_ret_run _ _ _ m p) by done. run.
  by rewrite He, Hf.
Qed.

(** ** Isolation between jobs *)
Section isolation.
Context (base_dir : apath) (Hbase : normal base_dir).

Lemma roots_disjoint d1 d2 j1 j2 q :
  is_uuid j1 = true → is_uuid j2 = true → (d1, j1) ≠ (d2, j2) →
  base_dir ++ [d1; uuid_str j1] `prefix_of` q →
  ¬ base_dir ++ [d2; uuid_str j2] `prefix_of` q.
Proof using.
  intros H1 H2 Hne [k1 ->] [k2 E]. rewrite <- !app_assoc in E. simpl in E.
  apply app_inv_head in E.
  assert (d1 = d2 ∧ uuid_str j1 = uuid_str j2) as [-> E2].
  { revert E. generalize (uuid_str j1), (uuid_str j2). intros u1 u2 E. by injection E. }
  apply uuid_str_inj in E2; [|done..]. congruence.
Qed.

Lemma confined_other d1 d2 j1 j2 m m' q :
  is_uuid j1 = true → is_uuid j2 = true → (d1, j1) ≠ (d2, j2) →
  confined (base_dir ++ [d1; uuid_str j1]) m m' →
  base_dir ++ [d2; uuid_str j2] `prefix_of` q → m' !! q = m !! q.
Proof using.
  intros H1 H2 Hne [Hc _] Hq. destruct (Hc q) as [?|[Hp|(Hp & _)]]; [done|..].
  - by destruct (roots_disjoint d1 d2 j1 j2 q).
  - destruct (roots_disjoint d1 d2 j1 j2 (base_dir ++ [d1; uuid_str j1])); try done.
    by etransitivity.
Qed.
End isolation.
