(* ===== verification/Attempts.v ===== *)
(** * The storage keeps its promises: attempts

    [_copy_tree_with_copyfile] copies a tree exactly, whatever order
    [rglob] lists it in; so [rollback_attempt] puts workspace and artifacts
    back to what [begin_attempt] saw, whatever the attempt did to them. *)
From S2P Require Import Prelude PyStr Exceptions FileSystem FsFacts Realpath FsOps Storage StorageFacts.
Local Open Scope eff_scope.
Import Local.

Section tree.
Context (base : apath).

(** Below the base directory there are only directories and regular files. *)
Record tidy (m : fs) : Prop := {
  tidy_wf : fs_wf m;
  tidy_base : m !! base = Some NDir;
  tidy_links : ∀ q, base `prefix_of` q → is_link_at m q = false;
  tidy_names : ∀ q, is_Some (m !! q) → normal q
}.

Lemma tidy_link_free m q : tidy m → base `prefix_of` q → link_free m q.
Proof using.
  intros Ht Hq r Hr. destruct (prefix_weak_total base r q) as [?|[k Hk]]; [done..| |].
  - by apply (tidy_links m Ht).
  - unfold is_link_at. rewrite (fs_wf_dir_prefix m r k); [done|by apply tidy_wf|].
    rewrite <- Hk. by apply tidy_base.
Qed.

Lemma tidy_stat m q : tidy m → base `prefix_of` q → normal q → stat m q = m !! q.
Proof using.
  intros Ht Hq Hn. apply stat_link_free; [by apply tidy_wf|done|by apply tidy_link_free].
Qed.

(** Every existing prefix of a path below the base is a directory unless it
    is a regular file. *)
Lemma tidy_clear m q :
  tidy m → base `prefix_of` q →
  (∀ r, r `prefix_of` q → ∀ d, m !! r ≠ Some (NFile d)) → clear m q.
Proof using.
  intros Ht Hq Hf r Hr. pose proof (tidy_link_free m q Ht Hq r Hr) as Hl.
  unfold is_link_at in Hl. specialize (Hf r Hr).
  destruct (m !! r) as [[|d|]|]; [by right|by destruct (Hf d)|done|by left].
Qed.

Section copy.
Context (m : fs) (src dst : apath).
Hypotheses (Ht : tidy m) (Hsrc : base `prefix_of` src) (Hdst : base `prefix_of` dst)
  (Hnsrc : normal src) (Hndst : normal dst).
Hypotheses (Hsd : ¬ src `prefix_of` dst) (Hds : ¬ dst `prefix_of` src).
Hypothesis (Hdst_dir : m !! dst = Some NDir).
Hypothesis (Hempty : ∀ x rel, m !! (dst ++ x :: rel) = None).

Lemma not_under q : src `prefix_of` q → ¬ dst `prefix_of` q.
Proof using Hsd Hds.
  intros H1 H2. by destruct (prefix_weak_total src dst q).
Qed.

(** What the loop has established after the entries [done]. *)
Record copying (l : list apath) (m' : fs) : Prop := {
  cp_wf : fs_wf m';
  cp_frame : ∀ q, ¬ dst `prefix_of` q → m' !! q = m !! q;
  cp_dst : m' !! dst = Some NDir;
  cp_sub : ∀ x rel n, m' !! (dst ++ x :: rel) = Some n → m !! (src ++ x :: rel) = Some n;
  cp_done : ∀ rel, rel ∈ l → rel ≠ [] → m' !! (dst ++ rel) = m !! (src ++ rel)
}.

Lemma copying_src l m' rel : copying l m' → m' !! (src ++ rel) = m !! (src ++ rel).
Proof using Hsd Hds.
  intros Hc. apply (cp_frame _ _ Hc). apply not_under. by apply prefix_app_r.
Qed.

Lemma copying_tidy l m' : copying l m' → tidy m'.
Proof using All.
  intros Hc. split; [by apply (cp_wf _ _ Hc)|..].
  - rewrite (cp_frame _ _ Hc); [by apply tidy_base|]. intros H.
    destruct Hds. by etransitivity.
  - intros q Hq. destruct (decide (dst `prefix_of` q)) as [[[|x k] ->]|Hnp].
    + unfold is_link_at. rewrite app_nil_r, (cp_dst _ _ Hc). done.
    + unfold is_link_at. destruct (m' !! (dst ++ x :: k)) as [n|] eqn:E; [|done].
      apply (cp_sub _ _ Hc) in E.
      pose proof (tidy_links m Ht (src ++ x :: k)) as Hl. unfold is_link_at in Hl.
      rewrite E in Hl. apply Hl. by apply prefix_app_r.
    + unfold is_link_at. rewrite (cp_frame _ _ Hc) by done. by apply (tidy_links m Ht).
  - intros q [n Hn]. destruct (decide (dst `prefix_of` q)) as [[[|x k] ->]|Hnp].
    + by rewrite app_nil_r.
    + apply (cp_sub _ _ Hc) in Hn.
      pose proof (tidy_names m Ht (src ++ x :: k) (ex_intro _ _ Hn)) as H'.
      apply Forall_app in H' as [_ H']. by apply Forall_app.
    + rewrite (cp_frame _ _ Hc) in Hn by done. by apply (tidy_names m Ht).
Qed.

Lemma copying_clear l m' rel :
  copying l m' → m !! (src ++ rel) = Some NDir → clear m' (dst ++ rel).
Proof using All.
  intros Hc Hd. pose proof (copying_tidy _ _ Hc) as Ht'. apply tidy_clear; [done|..].
  { by apply prefix_app_r. }
  intros r Hr d Hfile.
  destruct (prefix_weak_total dst r (dst ++ rel)) as [[k ->]|[k Hk]];
    [by apply prefix_app_r|done| |].
  - destruct k as [|x k]; [by rewrite app_nil_r, (cp_dst _ _ Hc) in Hfile|].
    apply (cp_sub _ _ Hc) in Hfile.
    apply prefix_app_inv in Hr as [k' ->]. rewrite app_assoc in Hd.
    apply fs_wf_dir_prefix in Hd; [|by apply tidy_wf]. congruence.
  - pose proof (cp_dst _ _ Hc) as Hdd. rewrite Hk in Hdd.
    apply fs_wf_dir_prefix in Hdd; [|by apply (cp_wf _ _ Hc)]. congruence.
Qed.

(** Creating a directory that the source has keeps the invariant. *)
Lemma copying_mkdir l m' rel :
  copying l m' → m !! (src ++ rel) = Some NDir → normal rel →
  ∃ m'', mkdir_p (dst ++ rel) m' = (m'', Ret tt) ∧ copying (rel :: l) m''.
Proof using All.
  intros Hc Hd Hn.
  destruct (mkdir_p_ok m' (dst ++ rel)) as (m'' & Hm & Hw).
  { by apply (cp_wf _ _ Hc). } { by apply Forall_app. } { by eapply copying_clear. }
  exists m''. split; [done|].
  pose proof (mkdir_p_wf (dst ++ rel) m' (cp_wf _ _ Hc)) as Hwf. rewrite Hm in Hwf.
  assert (∀ k, k `prefix_of` rel → m !! (src ++ k) = Some NDir) as Hpre.
  { intros k [k' ->]. rewrite app_assoc in Hd. by eapply fs_wf_dir_prefix; [by apply tidy_wf|]. }
  split; [done|..].
  - intros q Hq. rewrite (Hw q). case_decide as Hqp; [|by apply (cp_frame _ _ Hc)].
    destruct (prefix_weak_total dst q (dst ++ rel)) as [?|[k Hk]];
      [by apply prefix_app_r|done|done|].
    symmetry. rewrite Hk in Hdst_dir. by eapply fs_wf_dir_prefix; [by apply tidy_wf|].
  - rewrite (Hw dst), decide_True by (by apply prefix_app_r). done.
  - intros x k n. rewrite (Hw _). case_decide as Hp; [|by apply (cp_sub _ _ Hc)].
    apply prefix_app_inv in Hp. intros [= <-]. by apply Hpre.
  - intros k [->|Hk]%elem_of_cons Hne; rewrite (Hw _).
    + by rewrite decide_True, Hd.
    + case_decide as Hp; [|by apply (cp_done _ _ Hc)].
      apply prefix_app_inv in Hp. by rewrite Hpre.
Qed.

(** Writing a file that the source has keeps the invariant. *)
Lemma copying_file l m' k w d :
  copying l m' → m !! (src ++ k ++ [w]) = Some (NFile d) → normal (k ++ [w]) →
  m' !! (dst ++ k) = Some NDir →
  ∃ m'', copyfile (src ++ k ++ [w]) (dst ++ k ++ [w]) m' = (m'', Ret tt) ∧
    copying ((k ++ [w]) :: l) m''.
Proof using All.
  intros Hc Hf Hn Hk. pose proof (copying_tidy _ _ Hc) as Ht'.
  assert (normal (src ++ k ++ [w])) as Hns by (by apply Forall_app).
  assert (normal (dst ++ k ++ [w])) as Hnd by (by apply Forall_app).
  assert (kwalk m' (src ++ k ++ [w]) = Ret (src ++ k ++ [w])) as Hks.
  { eapply kwalk_existing; [by apply tidy_wf|done|..].
    - apply tidy_link_free; [done|by apply prefix_app_r].
    - by rewrite (copying_src l). }
  assert (kwalk m' (dst ++ k ++ [w]) = Ret (dst ++ k ++ [w])) as Hkd.
  { rewrite app_assoc in Hnd |- *. apply kwalk_parent_dir; [by apply tidy_wf|done| |done].
    apply tidy_link_free; [done|]. by do 2 apply prefix_app_r. }
  assert (∀ n, m' !! (dst ++ k ++ [w]) = Some n → n = NFile d) as Hold.
  { intros n. destruct k as [|x k]; intros E; apply (cp_sub _ _ Hc) in E;
      by pose proof (eq_trans (eq_sym E) Hf) as [= ->]. }
  assert (copyfile (src ++ k ++ [w]) (dst ++ k ++ [w]) m' =
          (<[dst ++ k ++ [w] := NFile d]> m', Ret tt)) as Hcp.
  { unfold copyfile. run. rewrite bool_decide_eq_false_2.
    2: { intros (_ & _ & E). rewrite Hks, Hkd in E. injection E as E.
         apply (not_under (src ++ k ++ [w])); [by apply prefix_app_r|].
         rewrite E. by apply prefix_app_r. }
    unfold read_bytes, write_bytes. rewrite run_assoc. run. rewrite Hks. rewrite run_assoc. run.
    rewrite (copying_src l), Hf by done. run. rewrite Hkd. run.
    destruct (m' !! (dst ++ k ++ [w])) as [n|] eqn:E; [|done].
    by rewrite (Hold n eq_refl). }
  exists (<[dst ++ k ++ [w] := NFile d]> m'). split; [done|].
  pose proof (copyfile_wf (src ++ k ++ [w]) (dst ++ k ++ [w]) m' (cp_wf _ _ Hc)) as Hwf.
  rewrite Hcp in Hwf. split; [done|..].
  - intros q Hq. rewrite lookup_insert_ne; [by apply (cp_frame _ _ Hc)|].
    intros <-. apply Hq. by apply prefix_app_r.
  - rewrite lookup_insert_ne; [by apply (cp_dst _ _ Hc)|].
    rewrite <- (app_nil_r dst) at 2. intros E%app_inv_head. by destruct k.
  - intros x rel n. rewrite lookup_insert. case_decide as E; [|by apply (cp_sub _ _ Hc)].
    apply app_inv_head in E. intros [= <-]. by rewrite <- E.
  - intros rel [->|Hrel]%elem_of_cons Hne; [by rewrite lookup_insert_eq|].
    rewrite lookup_insert. case_decide as E; [|by apply (cp_done _ _ Hc)].
    apply app_inv_head in E. by subst rel.
Qed.

Lemma copying_entry l m' rel n :
  copying l m' → m !! (src ++ rel) = Some n → rel ≠ [] →
  ∃ m'', copy_entry src dst rel m' = (m'', Ret tt) ∧ copying (rel :: l) m''.
Proof using All.
  intros Hc Hn Hne. pose proof (copying_tidy _ _ Hc) as Ht'.
  pose proof (tidy_names m Ht _ (ex_intro _ _ Hn)) as Hnorm.
  assert (normal rel) as Hnr by (by apply Forall_app in Hnorm as [_ ?]).
  assert (base `prefix_of` src ++ rel) as Hb by (by apply prefix_app_r).
  assert (stat m' (src ++ rel) = Some n) as Hst.
  { rewrite tidy_stat by done. by rewrite (copying_src l). }
  unfold copy_entry. run. unfold is_dir, is_file. rewrite Hst. destruct n as [|d|t].
  - by apply copying_mkdir.
  - destruct rel as [|w k _] using rev_ind; [done|].
    rewrite (app_assoc dst). unfold parent. rewrite removelast_last.
    destruct (copying_mkdir l m' k Hc) as (m1 & Hm1 & Hc1).
    { rewrite app_assoc in Hn. eapply fs_wf_prefix; [by apply tidy_wf|done|done]. }
    { by apply Forall_app in Hnr as [? _]. }
    rewrite (ebind_ret_run _ _ _ m1 tt) by done. rewrite <- app_assoc.
    destruct (copying_file (k :: l) m1 k w d) as (m2 & Hm2 & Hc2); [done..| |].
    { destruct k as [|x k].
      - rewrite app_nil_r. by apply (cp_dst _ _ Hc1).
      - rewrite (cp_done _ _ Hc1 (x :: k)) by (done || by left).
        rewrite app_assoc in Hn. eapply fs_wf_prefix; [by apply tidy_wf|done|done]. }
    exists m2. split; [done|]. destruct Hc2 as [? ? ? ? Hdone]. split; [done..|].
    intros rel [->|Hrel]%elem_of_cons; apply Hdone; [by left|by right; right].
  - exfalso. pose proof (tidy_links m Ht _ Hb) as Hl. unfold is_link_at in Hl.
    by rewrite Hn in Hl.
Qed.

Lemma copying_all rels l m' :
  copying l m' → (∀ rel, rel ∈ rels → rel ≠ [] ∧ is_Some (m !! (src ++ rel))) →
  ∃ m'', for_each rels (copy_entry src dst) m' = (m'', Ret tt) ∧ copying (rels ++ l) m''.
Proof using All.
  revert l m'. induction rels as [|rel rels IH]; intros l m' Hc Hr; simpl; [by exists m'|].
  destruct (Hr rel) as [Hne [n Hn]]; [by left|].
  destruct (copying_entry l m' rel n) as (m1 & Hm1 & Hc1); [done..|].
  rewrite (ebind_ret_run _ _ _ m1 tt) by done.
  destruct (IH (rel :: l) m1 Hc1) as (m2 & Hm2 & Hc2); [intros; apply Hr; by right|].
  exists m2. split; [done|]. destruct Hc2 as [? ? ? ? Hdone]. split; [done..|].
  intros r Hin. apply Hdone. apply elem_of_cons in Hin as [->|[?|?]%elem_of_app];
    apply elem_of_app; [right; by left|by left|right; by right].
Qed.
End copy.

Lemma elem_of_rglob m p rel :
  kwalk m p = Ret p → rel ∈ rglob m p ↔ rel ≠ [] ∧ is_Some (m !! (p ++ rel)).
Proof using.
  intros Hk. unfold rglob. rewrite Hk, list_elem_of_filter. apply and_iff_compat_l.
  rewrite list_elem_of_omap. split.
  - intros ([q n] & Hin & Hs). simpl in Hs. unfold strip_prefix in Hs.
    apply elem_of_map_to_list in Hin. case_decide as Hp; [|done].
    destruct Hp as [k ->]. rewrite drop_app_length in Hs. simplify_eq. eauto.
  - intros [n Hn]. exists (p ++ rel, n). split; [by apply elem_of_map_to_list|].
    simpl. unfold strip_prefix. rewrite decide_True by (by apply prefix_app_r).
    by rewrite drop_app_length.
Qed.

(** The tree below [src] now also hangs below [dst]; nothing else changed but
    the directories on the way to [dst]. *)
Definition copied (src dst : apath) (m m' : fs) : Prop :=
  (∀ x rel, m' !! (dst ++ x :: rel) = m !! (src ++ x :: rel)) ∧
  (∀ q, q `prefix_of` dst → m' !! q = Some NDir) ∧
  (∀ q, ¬ q `prefix_of` dst → ¬ dst `prefix_of` q → m' !! q = m !! q).

Lemma tidy_with_dirs m m' p :
  tidy m → base `prefix_of` p → normal p → with_dirs p m m' → fs_wf m' → tidy m'.
Proof using.
  intros Ht Hb Hn Hw Hwf. split; [done|..].
  - by rewrite (Hw base), decide_True.
  - intros q Hq. unfold is_link_at. rewrite (Hw q). case_decide; [done|].
    by apply (tidy_links m Ht).
  - intros q. rewrite (Hw q). case_decide as Hp; [|by apply (tidy_names m Ht)].
    intros _. destruct Hp as [k ->]. by apply Forall_app in Hn as [? _].
Qed.

Lemma copy_tree_ok m src dst :
  tidy m → base `prefix_of` src → base `prefix_of` dst → normal src → normal dst →
  ¬ src `prefix_of` dst → ¬ dst `prefix_of` src →
  clear m dst → (∀ x rel, m !! (dst ++ x :: rel) = None) →
  ∃ m', _copy_tree_with_copyfile src dst m = (m', Ret tt) ∧ copied src dst m m' ∧ tidy m'.
Proof using.
  intros Ht Hs Hd Hns Hnd Hsd Hds Hc He. unfold _copy_tree_with_copyfile.
  destruct (mkdir_p_ok m dst (tidy_wf m Ht) Hnd Hc) as (m1 & Hm1 & Hw).
  rewrite (ebind_ret_run _ _ _ m1 tt) by done. run.
  pose proof (mkdir_p_wf dst m (tidy_wf m Ht)) as Hwf1. rewrite Hm1 in Hwf1. simpl in Hwf1.
  assert (tidy m1) as Ht1 by (by eapply tidy_with_dirs).
  assert (∀ rel, m1 !! (src ++ rel) = m !! (src ++ rel)) as Hsrc1.
  { intros rel. rewrite (Hw _), decide_False; [done|]. intros H. apply Hsd.
    etransitivity; [|done]. by apply prefix_app_r. }
  assert (∀ x rel, m1 !! (dst ++ x :: rel) = None) as He1.
  { intros x rel. rewrite (Hw _), decide_False; [done|].
    intros H%prefix_length. rewrite length_app in H. simpl in H. lia. }
  assert (m1 !! dst = Some NDir) as Hd1 by (by rewrite (Hw dst), decide_True).
  assert (∀ q, ¬ q `prefix_of` dst → m1 !! q = m !! q) as Hf1
    by (intros q Hq; by rewrite (Hw q), decide_False).
  unfold path_exists. rewrite tidy_stat by done. case_bool_decide as Hex; simpl; cycle 1.
  { exists m1. split; [done|]. split; [|done]. split; [|split].
    - intros x rel. rewrite He1, <- Hsrc1. symmetry. apply wf_none_below; [done|].
      by apply eq_None_not_Some.
    - intros q Hq. by rewrite (Hw q), decide_True.
    - intros q Hq _. by apply Hf1. }
  destruct Hex as [n Hn].
  assert (copying m1 src dst [] m1) as Hcp.
  { split; [done..| |]; [intros x rel k; by rewrite He1|by intros ? ?%not_elem_of_nil]. }
  destruct (copying_all m1 src dst Ht1 Hs Hd Hns Hnd Hsd Hds Hd1 He1 (rglob m1 src) [] m1 Hcp)
    as (m2 & Hm2 & Hc2).
  { intros rel. rewrite elem_of_rglob; [done|].
    eapply kwalk_existing; [done..|by apply tidy_link_free|done]. }
  exists m2. split; [done|]. split; [|by eapply (copying_tidy m1 src dst)].
  split; [|split].
  - intros x rel. rewrite <- Hsrc1.
    destruct (m1 !! (src ++ x :: rel)) as [k|] eqn:E.
    + rewrite <- E. apply (cp_done _ _ _ _ _ Hc2); [|done]. rewrite app_nil_r.
      apply elem_of_rglob; [|by eauto].
      eapply kwalk_existing; [done..|by apply tidy_link_free|done].
    + destruct (m2 !! (dst ++ x :: rel)) as [k|] eqn:E2; [|done].
      apply (cp_sub _ _ _ _ _ Hc2) in E2. congruence.
  - intros q [k Hk]. pose proof (cp_dst _ _ _ _ _ Hc2) as H. rewrite Hk in H.
    by eapply fs_wf_dir_prefix; [apply (cp_wf _ _ _ _ _ Hc2)|].
  - intros q Hq Hq'. rewrite (cp_frame _ _ _ _ _ Hc2) by done. by apply Hf1.
Qed.

Lemma rmtree_ok m p w :
  tidy m → base `prefix_of` p → normal p → m !! (p ++ [w]) = Some NDir →
  rmtree (p ++ [w]) m = (filter (λ kv, ¬ p ++ [w] `prefix_of` kv.1) m, Ret tt).
Proof using.
  intros Ht Hb Hn Hd. unfold rmtree.
  rewrite (ebind_ret_run _ _ _ m (p ++ [w])); [run; by rewrite Hd|].
  apply parent_walk_dir; [by apply tidy_wf|done|by apply tidy_link_free|].
  eapply fs_wf_prefix; [by apply tidy_wf|done|done].
Qed.

Lemma tidy_filter m p w :
  tidy m → base `prefix_of` p → tidy (filter (λ kv, ¬ p ++ [w] `prefix_of` kv.1) m).
Proof using.
  intros Ht Hb. split.
  - apply fs_wf_rmtree; [by apply tidy_wf|]. by destruct p.
  - apply map_lookup_filter_Some. split; [by apply tidy_base|]. simpl. intros H.
    apply (prefix_snoc_not p w). by etransitivity.
  - intros q Hq. pose proof (tidy_links m Ht q Hq) as Hl. unfold is_link_at in *.
    destruct (filter _ m !! q) as [n|] eqn:E; [|done].
    apply map_lookup_filter_Some in E as [E _]. by rewrite E in Hl.
  - intros q [n [E _]%map_lookup_filter_Some]. apply (tidy_names m Ht). eauto.
Qed.
End tree.

(** The lookup of a removed tree *)
Lemma lookup_rmtree (m : fs) p q :
  filter (λ kv, ¬ p `prefix_of` kv.1) m !! q =
  if decide (p `prefix_of` q) then None else m !! q.
Proof.
  case_decide as Hp.
  - apply map_lookup_filter_None. right. intros n _ H. by apply H.
  - destruct (m !! q) as [n|] eqn:E.
    + by apply map_lookup_filter_Some.
    + apply map_lookup_filter_None. by left.
Qed.

(** ** Snapshot and restore *)
#[local] Opaque uuid_str.

Section attempt.
Context (base : apath) (Henc : encodable base = true).
Context (job_id uuid4 : uuid).

Abbreviation u := (uuid_str job_id).
Definition root_of (d : pystr) : apath := base ++ [d; u].
Definition snapshot_root : apath := base ++ [SNAPSHOTS; u].
Definition snapshot_of : apath := snapshot_root ++ [uuid_str uuid4].

Lemma uuid_str_encodable v : forallb encodable_char (uuid_str v) = true.
Proof.
  apply forallb_forall. intros c Hc%list_elem_of_In.
  pose proof (uuid_str_chars v) as H. rewrite Forall_forall in H. specialize (H c Hc).
  unfold is_uuid_char, is_digit_ascii in H. unfold encodable_char, is_surrogate.
  assert (0 < c < 128)%N as [H0 H1].
  { repeat match goal with
      | H : (_ || _) = true |- _ => apply orb_true_iff in H as [H|H]
      end; PyStr.bool_to_prop; lia. }
  rewrite (proj2 (N.eqb_neq c 0)) by lia. rewrite (proj2 (N.leb_gt 0xD800 c)) by lia. done.
Qed.

Lemma below_normal (m : fs) l : tidy base m → Forall normal_name l → normal (base ++ l).
Proof using.
  intros Ht Hl. apply Forall_app. split; [|done]. apply (tidy_names base m Ht).
  rewrite (tidy_base base m Ht). eauto.
Qed.

Lemma resolve_below (m : fs) l :
  tidy base m → Forall normal_name l → forallb (forallb encodable_char) l = true →
  resolve m (base ++ l) = Ret (base ++ l).
Proof using Henc.
  intros Ht Hl He. unfold resolve, encodable. rewrite forallb_app. unfold encodable in Henc.
  rewrite Henc, He. simpl. rewrite realpath_link_free; [done|by eapply below_normal|].
  apply (tidy_link_free base); [done|]. by apply prefix_app_r.
Qed.

Lemma attempt_path_ok m :
  tidy base m → _attempt_path base job_id (uuid_str uuid4) m = (m, Ret snapshot_of).
Proof using Henc.
  intros Ht. unfold _attempt_path. run.
  rewrite !normal_join_path
    by (try apply uuid_str_normal; apply dir_name_normal; by right; right).
  rewrite <- app_assoc. simpl.
  assert (normal_name SNAPSHOTS) as Hn by (apply dir_name_normal; by right; right).
  rewrite (resolve_below m [SNAPSHOTS; u]); [|done|..].
  2: auto 10 using Forall_cons_2, Forall_nil_2, uuid_str_normal.
  2: by simpl; rewrite uuid_str_encodable.
  run. rewrite normal_join_path by apply uuid_str_normal.
  rewrite <- app_assoc. simpl.
  rewrite (resolve_below m [SNAPSHOTS; u; uuid_str uuid4]); [|done|..].
  2: auto 10 using Forall_cons_2, Forall_nil_2, uuid_str_normal.
  2: by simpl; rewrite !uuid_str_encodable.
  run. unfold is_relative_to, snapshot_of, snapshot_root. rewrite bool_decide_eq_true_2.
  - by rewrite <- app_assoc.
  - exists [uuid_str uuid4]. by rewrite <- app_assoc.
Qed.

(** [d] names one of the two trees of a job. *)
Definition tree_name (d : pystr) : Prop := d = JOBS ∨ d = ARTIFACTS.

Lemma tree_dir_name d : tree_name d → dir_name d.
Proof. intros [->| ->]; [by left|by right; left]. Qed.

Lemma tree_not_snapshots d : tree_name d → d ≠ SNAPSHOTS.
Proof. by intros [->| ->]. Qed.

Lemma root_of_eq d : tree_name d → job_root base d job_id = root_of d.
Proof using. intros Hd. by apply job_root_eq, tree_dir_name. Qed.

Lemma base_prefix_root d : base `prefix_of` root_of d.
Proof using. by apply prefix_app_r. Qed.

Lemma base_prefix_snapshot : base `prefix_of` snapshot_of.
Proof using. unfold snapshot_of, snapshot_root. by do 2 apply prefix_app_r. Qed.

Lemma root_normal m d : tidy base m → tree_name d → normal (root_of d).
Proof using.
  intros Ht Hd. apply (below_normal m); [done|].
  auto using Forall_cons_2, Forall_nil_2, uuid_str_normal, dir_name_normal, tree_dir_name.
Qed.

Lemma snapshot_normal m : tidy base m → normal snapshot_of.
Proof using.
  intros Ht. unfold snapshot_of, snapshot_root. rewrite <- app_assoc. simpl.
  apply (below_normal m); [done|].
  assert (normal_name SNAPSHOTS) by (apply dir_name_normal; by right; right).
  auto 10 using Forall_cons_2, Forall_nil_2, uuid_str_normal.
Qed.

(** The trees of a job and its snapshots do not overlap. *)
Lemma root_not_snapshot d l q :
  tree_name d → root_of d `prefix_of` q → ¬ snapshot_root ++ l `prefix_of` q.
Proof using.
  intros Hd H1 H2. apply (tree_not_snapshots d Hd).
  destruct H1 as [k1 ->], H2 as [k2 E]. unfold root_of, snapshot_root in E.
  rewrite <- !app_assoc in E. apply app_inv_head in E. by injection E.
Qed.

Lemma roots_apart d1 d2 q :
  d1 ≠ d2 → root_of d1 `prefix_of` q → ¬ root_of d2 `prefix_of` q.
Proof using.
  intros Hd [k1 ->] [k2 E]. unfold root_of in E.
  rewrite <- !app_assoc in E. apply app_inv_head in E. by injection E.
Qed.

Lemma root_prefix_snapshot d q :
  tree_name d → root_of d `prefix_of` q → ¬ q `prefix_of` snapshot_of.
Proof using.
  intros Hd H1 H2. apply (root_not_snapshot d [uuid_str uuid4] snapshot_of); [done| |done].
  by etransitivity.
Qed.

Lemma snapshot_not_root d k : tree_name d → ¬ snapshot_of ++ k `prefix_of` root_of d.
Proof using.
  intros Hd H. apply (root_not_snapshot d [uuid_str uuid4] (root_of d)); [done|done|].
  etransitivity; [|done]. by apply prefix_app_r.
Qed.

(** What a snapshot looks like *)
Record snapshot_taken (m0 m1 : fs) : Prop := {
  sn_tidy : tidy base m1;
  sn_dir : m1 !! snapshot_of = Some NDir;
  sn_copy : ∀ d, tree_name d → ∀ x rel,
    m1 !! (snapshot_of ++ d :: x :: rel) = m0 !! (root_of d ++ x :: rel);
  sn_frame : ∀ q, ¬ q `prefix_of` snapshot_root → ¬ snapshot_of `prefix_of` q →
    m1 !! q = m0 !! q
}.

Lemma copy_to_snapshot m d :
  tidy base m → tree_name d → clear m (snapshot_of ++ [d]) →
  m !! (snapshot_of ++ [d]) = None →
  ∃ m', _copy_tree_with_copyfile (job_root base d job_id) (join_path snapshot_of d) m
          = (m', Ret tt) ∧
    copied (root_of d) (snapshot_of ++ [d]) m m' ∧ tidy base m'.
Proof using.
  intros Ht Hd Hc Hnone. rewrite root_of_eq by done.
  rewrite normal_join_path by auto using dir_name_normal, tree_dir_name.
  apply copy_tree_ok; [done|apply base_prefix_root| | | | | |done|].
  - apply prefix_app_r, base_prefix_snapshot.
  - by eapply root_normal.
  - apply Forall_app. split; [by eapply snapshot_normal|].
    auto using Forall_cons_2, Forall_nil_2, dir_name_normal, tree_dir_name.
  - intros H. apply (root_not_snapshot d [uuid_str uuid4] (snapshot_of ++ [d])); [done..|].
    by apply prefix_app_r.
  - by apply snapshot_not_root.
  - intros x rel. apply wf_none_below; [by apply (tidy_wf base)|done].
Qed.

Lemma snapshot_root_prefix : snapshot_root `prefix_of` snapshot_of.
Proof using. by apply prefix_app_r. Qed.

(** [begin_attempt] with a fresh token succeeds and takes the snapshot. *)
Lemma begin_attempt_ok m0 :
  tidy base m0 → clear m0 snapshot_root → m0 !! snapshot_of = None →
  ∃ m1, Local.begin_attempt base job_id uuid4 m0 = (m1, Ret (uuid_str uuid4)) ∧
    snapshot_taken m0 m1.
Proof using Henc.
  intros Ht Hc Hf. unfold Local.begin_attempt.
  rewrite (ebind_ret_run _ _ _ m0 snapshot_of) by (by apply attempt_path_ok).
  assert (∀ k, m0 !! (snapshot_of ++ k) = None) as Hfresh
    by (intros k; apply wf_none_below; [by apply (tidy_wf base)|done]).
  destruct (copy_to_snapshot m0 JOBS) as (m1 & Hm1 & (Hj & Hp1 & Hf1) & Ht1);
    [done|by left| |apply Hfresh|].
  { intros q [->|[->|Hq]%prefix_snoc_inv]%prefix_snoc_inv; [left; apply Hfresh|by left|].
    by apply Hc. }
  rewrite (ebind_ret_run _ _ _ m1 tt) by done.
  assert (∀ k, m1 !! (snapshot_of ++ ARTIFACTS :: k) = None) as Hart.
  { intros k. rewrite Hf1; [apply Hfresh|..].
    - intros H%prefix_app_inv%prefix_cons_inv_1. done.
    - intros H%prefix_app_inv%prefix_cons_inv_1. done. }
  destruct (copy_to_snapshot m1 ARTIFACTS) as (m2 & Hm2 & (Ha & Hp2 & Hf2) & Ht2);
    [done|by right| |apply Hart|].
  { intros q [->|Hq]%prefix_snoc_inv; [left; apply Hart|right].
    apply Hp1. by apply prefix_app_r. }
  rewrite (ebind_ret_run _ _ _ m2 tt) by done. exists m2. split; [done|].
  split; [done|..].
  - apply Hp2. by apply prefix_app_r.
  - intros d [->| ->] x rel.
    + rewrite Hf2.
      * rewrite (cons_middle JOBS), app_assoc. apply Hj.
      * intros H%prefix_app_inv%prefix_cons_inv_1. done.
      * intros H%prefix_app_inv%prefix_cons_inv_1. done.
    + rewrite (cons_middle ARTIFACTS), app_assoc, Ha. apply Hf1.
      * intros H. apply prefix_snoc_inv in H as [H|H].
        -- apply (root_not_snapshot ARTIFACTS [uuid_str uuid4] (snapshot_of ++ [JOBS]));
             [by right|rewrite <- H; by apply prefix_app_r|by apply prefix_app_r].
        -- by eapply (root_prefix_snapshot ARTIFACTS); [by right| |done]; apply prefix_app_r.
      * intros H. apply (root_not_snapshot ARTIFACTS [uuid_str uuid4]
          (root_of ARTIFACTS ++ x :: rel)); [by right|by apply prefix_app_r|].
        etransitivity; [|done]. by apply prefix_app_r.
  - intros q Hq Hs. rewrite Hf2, Hf1; [done|..].
    + intros [->|[->|?]%prefix_snoc_inv]%prefix_snoc_inv; [|done..].
      apply Hs. by apply prefix_app_r.
    + intros H. apply Hs. etransitivity; [|done]. by apply prefix_app_r.
    + intros [->|[->|?]%prefix_snoc_inv]%prefix_snoc_inv; [|done..].
      apply Hs. by apply prefix_app_r.
    + intros H. apply Hs. etransitivity; [|done]. by apply prefix_app_r.
Qed.

(** [restore_dir] replaces a tree by the snapshot's copy of it. *)
Lemma restore_dir_ok m d :
  tidy base m → tree_name d →
  m !! root_of d = None ∨ m !! root_of d = Some NDir → m !! (base ++ [d]) = Some NDir →
  ∃ m', restore_dir base snapshot_of job_id d m = (m', Ret tt) ∧ tidy base m' ∧
    m' !! root_of d = Some NDir ∧
    (∀ x rel, m' !! (root_of d ++ x :: rel) = m !! (snapshot_of ++ d :: x :: rel)) ∧
    (∀ q, ¬ root_of d `prefix_of` q → m' !! q = m !! q).
Proof using.
  intros Ht Hd Hr Hbd. unfold restore_dir. run. rewrite root_of_eq by done.
  assert (root_of d = (base ++ [d]) ++ [u]) as Eroot by (unfold root_of; by rewrite <- app_assoc).
  assert (normal (base ++ [d])) as Hnd.
  { apply (tidy_names base m Ht). rewrite Hbd. eauto. }
  set (c := if path_exists m (root_of d) then rmtree (root_of d) else ret tt).
  assert (∃ m1, c m = (m1, Ret tt) ∧ tidy base m1 ∧
    ∀ q, m1 !! q = if decide (root_of d `prefix_of` q) then None else m !! q)
    as (m1 & Hc & Ht1 & Hl).
  { unfold c, path_exists. rewrite (tidy_stat base m) by
      (done || apply base_prefix_root || by eapply root_normal).
    destruct Hr as [Hr|Hr]; rewrite Hr.
    - rewrite bool_decide_eq_false_2 by (by intros [? ?]). exists m. split; [done|].
      split; [done|]. intros q. case_decide as Hp; [|done]. destruct Hp as [k ->].
      apply wf_none_below; [by apply (tidy_wf base)|done].
    - rewrite bool_decide_eq_true_2 by eauto. rewrite Eroot in *.
      rewrite (rmtree_ok base) by (done || by apply prefix_app_r).
      eexists. split; [done|]. split; [|intros q; apply lookup_rmtree].
      apply tidy_filter; [done|by apply prefix_app_r]. }
  rewrite (ebind_ret_run _ _ _ m1 tt) by done.
  rewrite normal_join_path by auto using dir_name_normal, tree_dir_name.
  destruct (copy_tree_ok base m1 (snapshot_of ++ [d]) (root_of d)) as
    (m2 & Hm2 & (Hcp & Hp & Hf) & Ht2).
  - done.
  - apply prefix_app_r, base_prefix_snapshot.
  - apply base_prefix_root.
  - apply Forall_app. split; [by eapply snapshot_normal|].
    auto using Forall_cons_2, Forall_nil_2, dir_name_normal, tree_dir_name.
  - by eapply root_normal.
  - by apply snapshot_not_root.
  - intros H. apply (root_not_snapshot d [uuid_str uuid4] (snapshot_of ++ [d])); [done..|].
    by apply prefix_app_r.
  - intros q Hq. rewrite Hl. case_decide as Hpre; [by left|]. right.
    rewrite Eroot in Hq. apply prefix_snoc_inv in Hq as [->|[k Hk]].
    + destruct Hpre. by rewrite Eroot.
    + rewrite Hk in Hbd. by eapply fs_wf_dir_prefix; [by apply (tidy_wf base)|].
  - intros x rel. rewrite Hl, decide_True by (by apply prefix_app_r). done.
  - exists m2. split; [done|]. split; [done|]. split; [by apply Hp|]. split.
    + intros x rel. rewrite Hcp, Hl, decide_False; [by rewrite <- app_assoc|].
      intros H. apply (root_not_snapshot d [uuid_str uuid4]
        ((snapshot_of ++ [d]) ++ x :: rel)); [done..|].
      rewrite <- app_assoc. by apply prefix_app_r.
    + intros q Hq. destruct (decide (q `prefix_of` root_of d)) as [Hqr|Hqr].
      * rewrite Hp by done. rewrite Eroot in Hqr.
        apply prefix_snoc_inv in Hqr as [->|[k Hk]]; [by rewrite <- Eroot in Hq|].
        rewrite Hk in Hbd. symmetry.
        by eapply fs_wf_dir_prefix; [by apply (tidy_wf base)|].
      * rewrite Hf, Hl by done. by rewrite decide_False.
Qed.

(** What an attempt may have done: anything below the job's two trees, as
    long as their roots did not become files. *)
Record attempt_change (m1 m2 : fs) : Prop := {
  ch_tidy : tidy base m2;
  ch_frame : ∀ q, (∀ d, tree_name d → ¬ root_of d `prefix_of` q) → m2 !! q = m1 !! q;
  ch_root : ∀ d, tree_name d → m2 !! root_of d = None ∨ m2 !! root_of d = Some NDir
}.

Lemma complete_attempt_ok m :
  tidy base m → m !! snapshot_of = Some NDir →
  Local.complete_attempt base job_id (uuid_str uuid4) m =
    (filter (λ kv, ¬ snapshot_of `prefix_of` kv.1) m, Ret tt).
Proof using Henc.
  intros Ht Hd. unfold Local.complete_attempt.
  rewrite (ebind_ret_run _ _ _ m snapshot_of) by (by apply attempt_path_ok). run.
  unfold path_exists. rewrite (tidy_stat base m), Hd; [|done|apply base_prefix_snapshot|
    by eapply snapshot_normal].
  rewrite bool_decide_eq_true_2 by eauto. apply (rmtree_ok base); [done|..|done].
  - unfold snapshot_root. by apply prefix_app_r.
  - apply (snapshot_normal m) in Ht. unfold snapshot_of in Ht.
    by apply Forall_app in Ht as [? _].
Qed.

Lemma snapshot_dir_kept m1 m2 : snapshot_taken m1 m2 → ∀ m3, attempt_change m2 m3 →
  ∀ k, m3 !! (snapshot_of ++ k) = m2 !! (snapshot_of ++ k).
Proof using.
  intros _ m3 Hc k. apply (ch_frame _ _ Hc). intros d Hd H.
  apply (root_not_snapshot d [uuid_str uuid4] (snapshot_of ++ k)); [done..|].
  by apply prefix_app_r.
Qed.

Lemma parent_dir_kept m0 m1 m2 d :
  snapshot_taken m0 m1 → attempt_change m1 m2 → tree_name d → tidy base m0 →
  m0 !! root_of d = Some NDir → m2 !! (base ++ [d]) = Some NDir.
Proof using.
  intros Hs Hc Hd Ht Hr.
  assert (m0 !! (base ++ [d]) = Some NDir) as H0.
  { unfold root_of in Hr. rewrite cons_middle, app_assoc in Hr.
    eapply fs_wf_prefix; [by apply (tidy_wf base)|done|done]. }
  rewrite (ch_frame _ _ Hc), (sn_frame _ _ Hs); [done|..].
  - unfold snapshot_root. intros H%prefix_app_inv%prefix_cons_inv_1.
    by apply (tree_not_snapshots d).
  - intros H%prefix_length. unfold snapshot_of, snapshot_root in H.
    rewrite !length_app in H. simpl in H. lia.
  - intros d' _ H%prefix_length. unfold root_of in H. rewrite !length_app in H.
    simpl in H. lia.
Qed.

Lemma rollback_attempt_ok m0 m1 m2 :
  tidy base m0 → m0 !! root_of JOBS = Some NDir → m0 !! root_of ARTIFACTS = Some NDir →
  m0 !! snapshot_of = None → snapshot_taken m0 m1 → attempt_change m1 m2 →
  ∃ m3, Local.rollback_attempt base job_id (uuid_str uuid4) m2 = (m3, Ret tt) ∧
    (∀ q, ¬ q `prefix_of` snapshot_root → m3 !! q = m0 !! q) ∧ tidy base m3.
Proof using Henc.
  intros Ht Hj Ha Hfresh Hs Hc. pose proof (ch_tidy _ _ Hc) as Ht2.
  assert (∀ k, m2 !! (snapshot_of ++ k) = m1 !! (snapshot_of ++ k)) as Hsn
    by (by apply (snapshot_dir_kept m0 m1)).
  assert (m2 !! snapshot_of = Some NDir) as Hsd.
  { specialize (Hsn []). rewrite app_nil_r in Hsn. rewrite Hsn. apply (sn_dir _ _ Hs). }
  unfold Local.rollback_attempt.
  rewrite (ebind_ret_run _ _ _ m2 snapshot_of) by (by apply attempt_path_ok). run.
  unfold is_dir. rewrite (tidy_stat base m2), Hsd; [|done|apply base_prefix_snapshot|
    by eapply snapshot_normal]. simpl.
  destruct (restore_dir_ok m2 JOBS) as (m3 & Hm3 & Ht3 & Hr3 & Hc3 & Hf3);
    [done|by left|by apply (ch_root _ _ Hc); left|by eapply parent_dir_kept; eauto; left|].
  assert (∀ q, root_of ARTIFACTS `prefix_of` q → m3 !! q = m2 !! q) as Hart.
  { intros q Hq. apply Hf3. by apply (roots_apart ARTIFACTS JOBS). }
  assert (∀ k, m3 !! (snapshot_of ++ k) = m2 !! (snapshot_of ++ k)) as Hsn3.
  { intros k. apply Hf3. intros H.
    by apply (root_not_snapshot JOBS [uuid_str uuid4] (snapshot_of ++ k));
      [left| |apply prefix_app_r]. }
  destruct (restore_dir_ok m3 ARTIFACTS) as (m4 & Hm4 & Ht4 & Hr4 & Hc4 & Hf4);
    [done|by right| | |].
  { rewrite Hart by done. apply (ch_root _ _ Hc). by right. }
  { rewrite Hf3; [by eapply parent_dir_kept; eauto; right|].
    intros H%prefix_length. unfold root_of in H. rewrite !length_app in H. simpl in H. lia. }
  assert (∀ k, m4 !! (snapshot_of ++ k) = m1 !! (snapshot_of ++ k)) as Hsn4.
  { intros k. rewrite <- Hsn, <- Hsn3. apply Hf4. intros H.
    by apply (root_not_snapshot ARTIFACTS [uuid_str uuid4] (snapshot_of ++ k));
      [right| |apply prefix_app_r]. }
  assert (m4 !! snapshot_of = Some NDir) as Hsd4.
  { specialize (Hsn4 []). rewrite app_nil_r in Hsn4. rewrite Hsn4. apply (sn_dir _ _ Hs). }
  rewrite run_assoc, (ebind_ret_run _ _ _ m3 tt) by done.
  rewrite run_assoc, (ebind_ret_run _ _ _ m4 tt) by done. run.
  rewrite complete_attempt_ok by done. eexists. split; [done|]. split; cycle 1.
  { unfold snapshot_of. apply tidy_filter; [done|]. unfold snapshot_root. by apply prefix_app_r. }
  intros q Hq. rewrite lookup_rmtree. case_decide as Hsq.
  { destruct Hsq as [k ->]. symmetry. apply wf_none_below; [by apply (tidy_wf base)|done]. }
  assert (m4 !! q = m0 !! q); [|done].
  destruct (decide (root_of ARTIFACTS `prefix_of` q)) as [[[|x k] ->]|Hna].
  { by rewrite app_nil_r, Hr4, Ha. }
  { rewrite Hc4, Hsn3, Hsn. apply (sn_copy _ _ Hs). by right. }
  rewrite Hf4 by done.
  destruct (decide (root_of JOBS `prefix_of` q)) as [[[|x k] ->]|Hnj].
  { by rewrite app_nil_r, Hr3, Hj. }
  { rewrite Hc3, Hsn. apply (sn_copy _ _ Hs). by left. }
  rewrite Hf3, (ch_frame _ _ Hc), (sn_frame _ _ Hs); [done..| |done].
  by intros d [->| ->].
Qed.
End attempt.

(** ** Deciding tidiness of a concrete file system *)
#[export] Instance normal_name_dec w : Decision (normal_name w).
Proof. unfold normal_name. apply _. Defined.

Definition entry_ok (m : fs) (e : apath * node) : bool :=
  bool_decide (normal e.1) &&
  match e.2 with NLink _ => false | _ => true end &&
  match last e.1 with None => true | Some _ => is_dir_at m (removelast e.1) end.

Definition is_tidy (base : apath) (m : fs) : bool :=
  is_dir_at m [] && is_dir_at m base && forallb (entry_ok m) (map_to_list m).

Lemma is_dir_at_true (m : fs) (p : apath) : is_dir_at m p = true → m !! p = Some NDir.
Proof. unfold is_dir_at. by destruct (m !! p) as [[]|]. Qed.

Lemma is_tidy_spec (base : apath) (m : fs) : is_tidy base m = true → tidy base m.
Proof.
  unfold is_tidy. rewrite !andb_true_iff, forallb_forall. intros [[Hr Hb] He].
  assert (∀ p n, m !! p = Some n → entry_ok m (p, n) = true) as Hen.
  { intros p n Hp. by apply He, list_elem_of_In, elem_of_map_to_list. }
  unfold entry_ok in Hen. split.
  - split; [by apply is_dir_at_true|]. intros p w n Hp. apply Hen in Hp. simpl in Hp.
    rewrite last_snoc, removelast_last, !andb_true_iff in Hp.
    destruct Hp as [_ Hp]. by apply is_dir_at_true.
  - by apply is_dir_at_true.
  - intros q _. unfold is_link_at. destruct (m !! q) as [[| |t]|] eqn:E; try done.
    apply Hen in E. simpl in E. by rewrite andb_false_r in E.
  - intros q [n Hn]. apply Hen in Hn. rewrite !andb_true_iff in Hn.
    destruct Hn as [[Hn _] _]. by apply bool_decide_eq_true in Hn.
Qed.
