(* ===== verification/StorageProps.v ===== *)
(** * What the storage promises

    The properties of [LocalStorageService], stated for its clients: requests
    stay inside their job, what is written is read back, a path that passed
    the check is the path the kernel reaches, and a rolled back attempt
    leaves no trace. *)
From S2P Require Import Prelude PyStr Exceptions FileSystem FsFacts Realpath FsOps Storage StorageFacts Attempts.
Local Open Scope eff_scope.
Import Local.

(** ** Requests that create or change files *)
Inductive file_request :=
  | WriteRequest (job_id : uuid) (relative_path : pystr) (c : content)
  | DirectoryRequest (job_id : uuid) (relative_path : pystr)
  | CopyRequest (source_job_id target_job_id : uuid) (relative_path : pystr)
  | ArtifactRequest (job_id : uuid) (relative_path : pystr).

Definition serve {St} (storage : StorageService St) (r : file_request) : eff exn St unit :=
  match r with
  | WriteRequest j rel c => Storage.write_file j rel c
  | DirectoryRequest j rel => Storage.create_directory j rel
  | CopyRequest j1 j2 rel => Storage.copy_workspace_file j1 j2 rel
  | ArtifactRequest j rel => Storage.save_artifact j rel
  end.

(** The tree a request may change *)
Definition request_tree (r : file_request) : pystr * uuid :=
  match r with
  | WriteRequest j _ _ | DirectoryRequest j _ | CopyRequest _ j _ => (JOBS, j)
  | ArtifactRequest j _ => (ARTIFACTS, j)
  end.

Lemma serve_confined base_dir r m :
  normal base_dir → fs_wf m →
  let m' := (serve (LocalStorageService base_dir) r m).1 in
  let '(d, j) := request_tree r in
  fs_wf m' ∧ same_links m m' ∧ confined (job_base base_dir m d j) m m'.
Proof.
  intros Hb Hwf. destruct r; simpl.
  - by apply write_file_confined.
  - by apply create_directory_confined.
  - by apply copy_workspace_file_confined.
  - by apply save_artifact_confined.
Qed.

(** ** Properties *)
Module Demo.
(** A workspace in which an earlier tool left a link out of it *)
Definition job2 : uuid := 5.
Definition root : apath := [py "srv"; py "jobs"; uuid_str Storage.Demo.job].
Definition escape : fs :=
  <[ root ++ [py "out"] := NLink (py "/srv") ]>
  (<[ root := NDir ]> (<[ [py "srv"; py "jobs"] := NDir ]> Storage.Demo.fs0)).

Lemma escape_wf : fs_wf escape.
Proof.
  split; [vm_compute; reflexivity|]. intros p w n H.
  assert (∀ q, is_Some (escape !! q) → bool_decide (q = [] ∨ escape !! removelast q = Some NDir) = true)
    as Hall.
  { intros q [x Hx]. apply elem_of_map_to_list in Hx.
    assert (forallb (λ e : apath * node, bool_decide (e.1 = [] ∨ escape !! removelast e.1 = Some NDir))
      (map_to_list escape) = true) as Hf by (vm_compute; reflexivity).
    rewrite forallb_forall in Hf. by apply list_elem_of_In, Hf in Hx. }
  specialize (Hall (p ++ [w]) ltac:(by eexists)). apply bool_decide_eq_true in Hall.
  destruct Hall as [?|Hd]; [by destruct p|]. by rewrite removelast_last in Hd.
Qed.

Lemma base_normal : normal Storage.Demo.base.
Proof. apply (bool_decide_unpack (normal Storage.Demo.base)). vm_compute. exact I. Qed.

Definition through_link : file_request :=
  WriteRequest Storage.Demo.job (py "out/x") (Text (py "x")).

Example link_refused :
  (serve (LocalStorageService Storage.Demo.base) through_link escape).2 = Exc denied.
Proof. vm_compute. reflexivity. Qed.
End Demo.

(** C2: No request leaves its job.  In a file system with arbitrary symbolic
    links, whatever relative path is asked for, a request that writes,
    creates, copies or publishes changes nothing outside the resolved
    directory of the job it is for (missing directories on the way to it
    apart), whether it succeeds or raises; it creates no link and keeps the
    tree well formed. *)
Theorem requests_confined base_dir r m :
  normal base_dir → fs_wf m →
  let m' := (serve (LocalStorageService base_dir) r m).1 in
  let b := job_base base_dir m (request_tree r).1 (request_tree r).2 in
  fs_wf m' ∧ same_links m m' ∧
  ∀ q, m' !! q = m !! q ∨ b `prefix_of` q ∨ (q `prefix_of` b ∧ m !! q = None ∧ m' !! q = Some NDir).
Proof.
  intros Hb Hwf. pose proof (serve_confined base_dir r m Hb Hwf) as Hc. simpl in *.
  destruct (request_tree r) as [d j]. destruct Hc as (? & ? & [Hq _]). done.
Qed.

Lemma requests_confined_witness :
  let m' := (serve (LocalStorageService Storage.Demo.base) Demo.through_link Demo.escape).1 in
  let b := job_base Storage.Demo.base Demo.escape (request_tree Demo.through_link).1
             (request_tree Demo.through_link).2 in
  fs_wf m' ∧ same_links Demo.escape m' ∧
  ∀ q, m' !! q = Demo.escape !! q ∨ b `prefix_of` q ∨
    (q `prefix_of` b ∧ Demo.escape !! q = None ∧ m' !! q = Some NDir).
Proof.
  exact (requests_confined Storage.Demo.base Demo.through_link Demo.escape Demo.base_normal
    Demo.escape_wf).
Defined.

(** Jobs are isolated.  When the directory of the job is not reached
    through symbolic links, a request for one job leaves every file of every
    other job, in the workspace and in the artifact tree alike, as it was. *)
Theorem jobs_isolated base_dir r m d2 j2 q :
  normal base_dir → fs_wf m →
  let '(d1, j1) := request_tree r in
  link_free m (base_dir ++ [d1; uuid_str j1]) →
  is_uuid j1 = true → is_uuid j2 = true → (d1, j1) ≠ (d2, j2) →
  base_dir ++ [d2; uuid_str j2] `prefix_of` q →
  (serve (LocalStorageService base_dir) r m).1 !! q = m !! q.
Proof.
  intros Hb Hwf. pose proof (serve_confined base_dir r m Hb Hwf) as Hc. simpl in Hc.
  assert (dir_name (request_tree r).1) as Hd by (destruct r; unfold dir_name; simpl; auto).
  destruct (request_tree r) as [d1 j1]. simpl in Hd. intros Hl H1 H2 Hne Hq.
  destruct Hc as (_ & _ & Hc). rewrite job_base_link_free in Hc by (done || by rewrite job_root_eq).
  by eapply (confined_other base_dir d1 d2 j1 j2).
Qed.

Lemma jobs_isolated_witness :
  (serve (LocalStorageService Storage.Demo.base) Demo.through_link Demo.escape).1 !!
    (Storage.Demo.base ++ [JOBS; uuid_str 5; py "model.scad"]) =
  Demo.escape !! (Storage.Demo.base ++ [JOBS; uuid_str 5; py "model.scad"]).
Proof.
  refine (jobs_isolated Storage.Demo.base Demo.through_link Demo.escape JOBS 5 _
    Demo.base_normal Demo.escape_wf _ _ _ _ _).
  - intros p Hp. apply prefix_snoc_inv with (p := Storage.Demo.base ++ [JOBS]) in Hp as [->|Hp];
      [vm_compute; reflexivity|].
    apply prefix_snoc_inv with (p := Storage.Demo.base) in Hp as [->|Hp]; [vm_compute; reflexivity|].
    apply prefix_snoc_inv with (p := []) in Hp as [->|Hp]; [vm_compute; reflexivity|].
    apply prefix_nil_inv in Hp as ->. vm_compute. reflexivity.
  - vm_compute. reflexivity.
  - reflexivity.
  - discriminate.
  - exists [py "model.scad"]. reflexivity.
Defined.

(** What is written is read back.  When [write_file] stored a text,
    [read_file] at the same path returns its UTF-8 encoding, which decodes to
    the text. *)
Theorem write_then_read base_dir j rel s m m' :
  normal base_dir → fs_wf m → Local.write_file base_dir j rel (Text s) m = (m', Ret tt) →
  ∃ d, Local.read_file base_dir j rel m' = (m', Ret d) ∧ utf8_decode d = Some s.
Proof.
  intros Hb Hwf Hw. apply write_read_file in Hw as (d & He & Hr); [|done..].
  exists d. split; [done|]. by apply utf8_roundtrip.
Qed.

Lemma write_then_read_witness :
  let m' := (Local.write_file Storage.Demo.base Storage.Demo.job (py "a/b.scad") (Text (py "sphere(2);"))
    Demo.escape).1 in
  ∃ d, Local.read_file Storage.Demo.base Storage.Demo.job (py "a/b.scad") m' = (m', Ret d) ∧
    utf8_decode d = Some (py "sphere(2);").
Proof.
  refine (write_then_read Storage.Demo.base Storage.Demo.job (py "a/b.scad") (py "sphere(2);")
    Demo.escape _ Demo.base_normal Demo.escape_wf _).
  etransitivity; [apply surjective_pairing|]. apply (f_equal (pair _)). vm_compute. reflexivity.
Defined.

(** A path that passed the check is final.  [_validate_safe_path] only
    reads; the path it returns lies in the resolved directory of the job, has
    no dot components, and a system call on it arrives exactly there or
    fails, so no symbolic link takes the access elsewhere afterwards. *)
Theorem checked_path_final base_dir j rel d m m' p :
  normal base_dir → fs_wf m → dir_name d →
  _validate_safe_path base_dir j rel d m = (m', Ret p) →
  m' = m ∧ job_base base_dir m d j `prefix_of` p ∧ normal p ∧
  ∀ r, kwalk m p = Ret r → r = p.
Proof.
  intros Hb Hwf Hd Hv. apply validate_safe_path_inv in Hv as (-> & -> & Hpre & Hu).
  assert (resolved m (target_of base_dir m d j rel)) as Hr by (by apply target_of_resolved).
  split_and!; [done|done|by eapply resolved_normal|]. intros r Hk. by eapply resolved_final.
Qed.

Lemma checked_path_final_witness :
  let p := [py "srv"; py "jobs"; uuid_str Storage.Demo.job; py "m.scad"] in
  Demo.escape = Demo.escape ∧
  job_base Storage.Demo.base Demo.escape JOBS Storage.Demo.job `prefix_of` p ∧ normal p ∧
  ∀ r, kwalk Demo.escape p = Ret r → r = p.
Proof.
  refine (checked_path_final Storage.Demo.base Storage.Demo.job (py "m.scad") JOBS Demo.escape Demo.escape
    _ Demo.base_normal Demo.escape_wf (or_introl eq_refl) _).
  etransitivity; [apply surjective_pairing|].
  apply (f_equal2 pair); [apply validate_safe_path_pure|]. vm_compute. reflexivity.
Defined.

(** C9: A rolled back attempt leaves no trace.  After [begin_attempt] with a
    fresh token, whatever happens below the job's two trees,
    [rollback_attempt] succeeds, removes the snapshot and restores every file
    and directory of the file system (the directories that hold snapshots
    apart). *)
Theorem rollback_restores base job_id uuid4 m0 :
  encodable base = true → tidy base m0 →
  m0 !! root_of base job_id JOBS = Some NDir → m0 !! root_of base job_id ARTIFACTS = Some NDir →
  clear m0 (snapshot_root base job_id) → m0 !! snapshot_of base job_id uuid4 = None →
  ∃ m1, Local.begin_attempt base job_id uuid4 m0 = (m1, Ret (uuid_str uuid4)) ∧
    ∀ m2, attempt_change base job_id m1 m2 →
    ∃ m3, Local.rollback_attempt base job_id (uuid_str uuid4) m2 = (m3, Ret tt) ∧
      ∀ q, ¬ q `prefix_of` snapshot_root base job_id → m3 !! q = m0 !! q.
Proof.
  intros He Ht Hj Ha Hc Hf.
  destruct (begin_attempt_ok base He job_id uuid4 m0) as (m1 & Hb & Hs); [done..|].
  exists m1. split; [done|]. intros m2 Hch.
  destruct (rollback_attempt_ok base He job_id uuid4 m0 m1 m2) as (m3 & Hr & Hq & _); [done..|].
  by exists m3.
Qed.

Lemma check_artifact_exists_pure base_dir j f m :
  (Local.check_artifact_exists base_dir j f m).1 = m.
Proof.
  unfold Local.check_artifact_exists, try_catch. rewrite run_pure by apply validate_safe_path_pure.
  destruct (_validate_safe_path _ _ _ _ m).2 as [p|e]; [done|]. by destruct e.
Qed.

Module Demo2.
Definition base := Storage.Demo.base.
Definition job := Storage.Demo.job.
Definition m0 : fs := Eval vm_compute in
  ((Local.create_workspace base job ;;;
    Local.write_file base job (py "model.scad") (Text (py "cube(1);")) ;;;
    Local.save_artifact base job (py "model.scad")) Storage.Demo.fs0).1.

Lemma demo2_tidy : tidy base m0.
Proof. apply is_tidy_spec. vm_compute. reflexivity. Qed.

Lemma demo2_clear : clear m0 (snapshot_root base job).
Proof.
  apply (tidy_clear base); [apply demo2_tidy|by apply prefix_app_r|].
  intros r Hr d. apply prefix_snoc_inv with (p := base ++ [SNAPSHOTS]) in Hr as [->|Hr];
    [vm_compute; discriminate|].
  apply prefix_snoc_inv in Hr as [->|Hr]; [vm_compute; discriminate|].
  apply prefix_snoc_inv with (p := []) in Hr as [->|Hr]; [vm_compute; discriminate|].
  apply prefix_nil_inv in Hr as ->. vm_compute. discriminate.
Qed.
End Demo2.

Lemma rollback_restores_witness :
  ∃ m1, Local.begin_attempt Demo2.base Demo2.job 7 Demo2.m0 = (m1, Ret (uuid_str 7)) ∧
    ∀ m2, attempt_change Demo2.base Demo2.job m1 m2 →
    ∃ m3, Local.rollback_attempt Demo2.base Demo2.job (uuid_str 7) m2 = (m3, Ret tt) ∧
      ∀ q, ¬ q `prefix_of` snapshot_root Demo2.base Demo2.job → m3 !! q = Demo2.m0 !! q.
Proof.
  apply (rollback_restores Demo2.base Demo2.job 7 Demo2.m0).
  - vm_compute. reflexivity.
  - exact Demo2.demo2_tidy.
  - vm_compute. reflexivity.
  - vm_compute. reflexivity.
  - exact Demo2.demo2_clear.
  - vm_compute. reflexivity.
Defined.
