(* ===== verification/StorageSpec.v ===== *)
(** * The contract of the storage, as a reference implementation

    [storage/interface.py] promises its clients a store of documents: every
    job has a workspace and an artifact tree, every tree maps relative paths
    to directories and documents, and an attempt remembers both trees of its
    job.  This file writes that promise down as another instance of
    [StorageService], over plain finite maps: no base directory is walked, no
    link is resolved, paths are checked on their text alone.  [storage_call]
    reifies the interface, so that a client's session with either
    implementation is a list of calls and a list of answers. *)
From S2P Require Import Prelude PyStr Exceptions FileSystem FsFacts Realpath FsOps Storage.
Local Open Scope eff_scope.
Import Local.

(** ** Trees *)
Inductive entry := Dir | Doc (data : bytes).

#[export] Instance entry_eq_dec : EqDecision entry.
Proof. solve_decision. Defined.

Abbreviation contents := (gmap apath entry).

(** The prefixes of a path, itself included *)
Definition prefixes (r : apath) : list apath := (λ k, take k r) <$> seq 0 (S (length r)).

Definition is_doc (c : contents) (r : apath) : bool :=
  match c !! r with Some (Doc _) => true | _ => false end.

Definition add_dirs (r : apath) (c : contents) : contents :=
  foldr (λ q c', <[q := Dir]> c') c (prefixes r).

(** A directory and its ancestors; a document is never replaced. *)
Definition mkdirs (r : apath) (c : contents) : outcome exn contents :=
  if is_doc c r then Exc (OSError EEXIST)
  else if existsb (is_doc c) (prefixes r) then Exc (OSError ENOTDIR)
  else Ret (add_dirs r c).

(** A document at an existing place *)
Definition put (r : apath) (b : bytes) (c : contents) : outcome exn contents :=
  match c !! r with
  | Some Dir => Exc (OSError EISDIR)
  | _ => Ret (<[r := Doc b]> c)
  end.

(** ** The store *)
Record store := Store {
  trees : gmap (pystr * uuid) contents;
  saved : gmap (uuid * pystr) (contents * contents)
}.

Definition tree (s : store) (d : pystr) (j : uuid) : contents :=
  default ∅ (trees s !! (d, j)).

Definition set_tree (d : pystr) (j : uuid) (c : contents) (s : store) : store :=
  Store (<[(d, j) := c]> (trees s)) (saved s).

(** The part of a remembered pair that belongs to a tree *)
Definition kept (d : pystr) (sn : contents * contents) : contents :=
  if decide (d = JOBS) then sn.1 else sn.2.

Abbreviation IO A := (eff exn store A).

Definition on_tree (d : pystr) (j : uuid) (f : contents → outcome exn contents) : IO unit :=
  s <- gets id;;
  c <- of_outcome (f (tree s d j));;
  modify (set_tree d j c).

(** ** Relative paths, by their text

    A final [".."] may cancel the component before it; everything else that
    could leave the job is refused. *)
Definition locate (relative_path : pystr) : outcome exn apath :=
  if unsafe_string relative_path then Exc denied
  else
    let r := path_parts relative_path in
    if negb (encodable r) then Exc (ValueError (py "embedded null byte"))
    else if decide (last r = Some DOTDOT) then
      match removelast r with
      | [] => Exc denied
      | r' => Ret (removelast r')
      end
    else Ret r.

(** ** The operations *)
Section reference.
(** Where [ref_get_artifact_path] says the artifacts are *)
Context (base_dir : apath).

Definition ref_create_directory (job_id : uuid) (relative_path : pystr) : IO unit :=
  r <- of_outcome (locate relative_path);;
  on_tree JOBS job_id (mkdirs r).

Definition ref_create_workspace (job_id : uuid) : IO unit :=
  on_tree JOBS job_id (mkdirs []) ;;;
  on_tree ARTIFACTS job_id (mkdirs []).

Definition ref_clean_workspace (job_id : uuid) : IO unit :=
  s <- gets id;;
  if decide (tree s JOBS job_id !! [] = Some Dir) then modify (set_tree JOBS job_id ∅)
  else ret tt.

(** Where a new document goes: the directory around it first *)
Definition ref_make_room (d : pystr) (job_id : uuid) (r : apath) : IO unit :=
  if decide (r = []) then ret tt else on_tree d job_id (mkdirs (removelast r)).

Definition ref_put_content (job_id : uuid) (r : apath) (c : content) : IO unit :=
  match c with
  | Raw b => on_tree JOBS job_id (put r b)
  | Text s =>
      match utf8_encode s with
      | Some b => on_tree JOBS job_id (put r b)
      | None => on_tree JOBS job_id (put r []) ;;; raise UnicodeEncodeError
      end
  end.

Definition ref_write_file (job_id : uuid) (relative_path : pystr) (c : content) : IO unit :=
  r <- of_outcome (locate relative_path);;
  ref_make_room JOBS job_id r ;;;
  ref_put_content job_id r c.

(** The document at a path of a tree, or [e] *)
Definition ref_fetch (d : pystr) (job_id : uuid) (r : apath) (e : exn) : IO bytes :=
  s <- gets id;;
  match tree s d job_id !! r with
  | Some (Doc b) => ret b
  | _ => raise e
  end.

Definition ref_no_file (relative_path : pystr) (job_id : uuid) : exn :=
  not_found (py "File not found: ") relative_path (py " in workspace of job ") job_id.

Definition ref_read_file (job_id : uuid) (relative_path : pystr) : IO bytes :=
  r <- of_outcome (locate relative_path);;
  ref_fetch JOBS job_id r (ref_no_file relative_path job_id).

(** Whether a path names a document; a refused path names none. *)
Definition ref_names_doc (d : pystr) (job_id : uuid) (relative_path : pystr) : IO bool :=
  match locate relative_path with
  | Ret r => gets (λ s, is_doc (tree s d job_id) r)
  | Exc (PermissionError _) => ret false
  | Exc e => raise e
  end.

Definition ref_workspace_file_size (job_id : uuid) (relative_path : pystr) : IO Z :=
  b <- ref_read_file job_id relative_path;;
  ret (Z.of_nat (length b)).

Definition ref_copy_workspace_file (source_job_id target_job_id : uuid) (relative_path : pystr)
    : IO unit :=
  r <- of_outcome (locate relative_path);;
  b <- ref_fetch JOBS source_job_id r (ref_no_file relative_path source_job_id);;
  ref_make_room JOBS target_job_id r ;;;
  if decide (source_job_id = target_job_id) then raise (OSError ESAME)
  else on_tree JOBS target_job_id (put r b).

Definition ref_save_artifact (job_id : uuid) (relative_path : pystr) : IO unit :=
  r <- of_outcome (locate relative_path);;
  b <- ref_fetch JOBS job_id r
    (not_found (py "Source file not found for artifact: ") relative_path (py " in job ") job_id);;
  ref_make_room ARTIFACTS job_id r ;;;
  on_tree ARTIFACTS job_id (put r b).

Definition ref_get_artifact_path (job_id : uuid) (filename : pystr) : IO apath :=
  r <- of_outcome (locate filename);;
  _ <- ref_fetch ARTIFACTS job_id r
    (not_found (py "Artifact not found: ") filename (py " for job ") job_id);;
  ret (base_dir ++ [ARTIFACTS; uuid_str job_id] ++ r).

Definition ref_begin_attempt (job_id : uuid) (uuid4 : uuid) : IO pystr :=
  modify (λ s, Store (trees s)
    (<[(job_id, uuid_str uuid4) := (tree s JOBS job_id, tree s ARTIFACTS job_id)]> (saved s))) ;;;
  ret (uuid_str uuid4).

Definition ref_complete_attempt (job_id : uuid) (token : pystr) : IO unit :=
  modify (λ s, Store (trees s) (delete (job_id, token) (saved s))).

(** A remembered tree replaces the present one; its root is a directory
    whatever it was. *)
Definition ref_restore (sn : contents * contents) (job_id : uuid) (d : pystr) : IO unit :=
  on_tree d job_id (λ c,
    if is_doc c [] then Exc (OSError ENOTDIR) else Ret (<[[] := Dir]> (kept d sn))).

Definition ref_rollback_attempt (job_id : uuid) (token : pystr) : IO unit :=
  s <- gets id;;
  match saved s !! (job_id, token) with
  | None => raise (FileNotFoundError (py "Attempt snapshot not found: " ++ token))
  | Some sn =>
      for_each [JOBS; ARTIFACTS] (ref_restore sn job_id) ;;;
      ref_complete_attempt job_id token
  end.
End reference.

Definition ReferenceStorage (base_dir : apath) : StorageService store := {|
  Storage.create_directory := ref_create_directory;
  Storage.create_workspace := ref_create_workspace;
  Storage.clean_workspace := ref_clean_workspace;
  Storage.write_file := ref_write_file;
  Storage.read_file := ref_read_file;
  Storage.workspace_file_exists := ref_names_doc JOBS;
  Storage.workspace_file_size := ref_workspace_file_size;
  Storage.copy_workspace_file := ref_copy_workspace_file;
  Storage.save_artifact := ref_save_artifact;
  Storage.check_artifact_exists := ref_names_doc ARTIFACTS;
  Storage.get_artifact_path := ref_get_artifact_path base_dir;
  Storage.begin_attempt := ref_begin_attempt;
  Storage.rollback_attempt := ref_rollback_attempt;
  Storage.complete_attempt := ref_complete_attempt
|}.

(** ** Sessions *)
Inductive storage_call :=
  | CreateDirectory (j : uuid) (rel : pystr)
  | CreateWorkspace (j : uuid)
  | CleanWorkspace (j : uuid)
  | WriteFile (j : uuid) (rel : pystr) (c : content)
  | ReadFile (j : uuid) (rel : pystr)
  | WorkspaceFileExists (j : uuid) (rel : pystr)
  | WorkspaceFileSize (j : uuid) (rel : pystr)
  | CopyWorkspaceFile (j1 j2 : uuid) (rel : pystr)
  | SaveArtifact (j : uuid) (rel : pystr)
  | CheckArtifactExists (j : uuid) (rel : pystr)
  | GetArtifactPath (j : uuid) (rel : pystr)
  | BeginAttempt (j uuid4 : uuid)
  | RollbackAttempt (j attempt : uuid)
  | CompleteAttempt (j attempt : uuid).

Inductive answer :=
  | Done
  | Bytes (b : bytes)
  | Answer (b : bool)
  | Size (n : Z)
  | At (p : apath)
  | Token (t : pystr).

Definition answered {St A : Type} (f : A → answer) (c : eff exn St A) : eff exn St answer :=
  a <- c;; ret (f a).

Definition perform {St} (storage : StorageService St) (c : storage_call)
    : eff exn St answer :=
  match c with
  | CreateDirectory j rel => answered (λ _, Done) (Storage.create_directory j rel)
  | CreateWorkspace j => answered (λ _, Done) (Storage.create_workspace j)
  | CleanWorkspace j => answered (λ _, Done) (Storage.clean_workspace j)
  | WriteFile j rel x => answered (λ _, Done) (Storage.write_file j rel x)
  | ReadFile j rel => answered Bytes (Storage.read_file j rel)
  | WorkspaceFileExists j rel => answered Answer (Storage.workspace_file_exists j rel)
  | WorkspaceFileSize j rel => answered Size (Storage.workspace_file_size j rel)
  | CopyWorkspaceFile j1 j2 rel =>
      answered (λ _, Done) (Storage.copy_workspace_file j1 j2 rel)
  | SaveArtifact j rel => answered (λ _, Done) (Storage.save_artifact j rel)
  | CheckArtifactExists j rel => answered Answer (Storage.check_artifact_exists j rel)
  | GetArtifactPath j rel => answered At (Storage.get_artifact_path j rel)
  | BeginAttempt j t => answered Token (Storage.begin_attempt j t)
  | RollbackAttempt j t => answered (λ _, Done) (Storage.rollback_attempt j (uuid_str t))
  | CompleteAttempt j t => answered (λ _, Done) (Storage.complete_attempt j (uuid_str t))
  end.

(** A client that goes on after an exception sees it as that call's answer. *)
Fixpoint session {St} (storage : StorageService St) (calls : list storage_call) (s : St)
    : St * list (outcome exn answer) :=
  match calls with
  | [] => (s, [])
  | c :: calls' =>
      let '(s1, o) := perform storage c s in
      let '(s2, os) := session storage calls' s1 in
      (s2, o :: os)
  end.

(** The identifiers a call names *)
Definition call_ids (c : storage_call) : list uuid :=
  match c with
  | CreateDirectory j _ | CreateWorkspace j | CleanWorkspace j | WriteFile j _ _
  | ReadFile j _ | WorkspaceFileExists j _ | WorkspaceFileSize j _ | SaveArtifact j _
  | CheckArtifactExists j _ | GetArtifactPath j _ => [j]
  | CopyWorkspaceFile j1 j2 _ => [j1; j2]
  | BeginAttempt j t | RollbackAttempt j t | CompleteAttempt j t => [j; t]
  end.

(** Identifiers have 128 bits, and [uuid.uuid4()] does not return the token
    of an attempt that is still open. *)
Definition call_ok (s : store) (c : storage_call) : bool :=
  forallb is_uuid (call_ids c) &&
  match c with
  | BeginAttempt j t => bool_decide (saved s !! (j, uuid_str t) = None)
  | _ => true
  end.

Fixpoint session_ok (base_dir : apath) (calls : list storage_call) (s : store) : bool :=
  match calls with
  | [] => true
  | c :: calls' =>
      call_ok s c && session_ok base_dir calls' (perform (ReferenceStorage base_dir) c s).1
  end.
