(* ===== verification/StoragePaths.v ===== *)
(** * The storage on a link-free base directory

    What the path check and the file operations do, to the last error, when
    only directories and regular files lie below the base directory: paths
    are resolved by their text, a file on the way stops [mkdir], and a write
    or a copy replaces one entry.  [StorageRefine] builds on these facts. *)
From S2P Require Import Prelude PyStr Exceptions FileSystem FsFacts Realpath FsOps Storage StorageFacts Attempts StorageSpec.
Local Open Scope eff_scope.
Import Local.

(** ** Path strings *)

(** A [".."] before the last component is an ["../"] in the text. *)
Lemma join_traversal (l1 l2 : list pystr) w :
  contains TRAVERSAL (str_join [SLASH] (l1 ++ DOTDOT :: w :: l2)) = true.
Proof.
  apply contains_spec. induction l1 as [|v l1 (a & b & IH)].
  - exists [], (str_join [SLASH] (w :: l2)). done.
  - exists (v ++ [SLASH] ++ a), b. destruct l1 as [|v' l1]; cbn [app str_join] in *; rewrite IH;
      by rewrite <- !app_assoc.
Qed.

Lemma filter_before_last {A} (P : A → Prop) `{∀ x, Decision (P x)} (l k : list A) x y z :
  filter P l = k ++ x :: y :: z → ∃ l1 w l2, l = l1 ++ x :: w :: l2.
Proof.
  revert k. induction l as [|v l IH]; intros k E; [by destruct k|].
  rewrite filter_cons in E. case_decide.
  - destruct k as [|v' k]; injection E as -> E.
    + destruct l as [|w l]; [done|]. by exists [], w, l.
    + apply IH in E as (l1 & w & l2 & ->). by exists (v' :: l1), w, l2.
  - apply IH in E as (l1 & w & l2 & ->). by exists (v :: l1), w, l2.
Qed.

Lemma safe_parts_dots rel k w z :
  unsafe_string rel = false → path_parts rel = k ++ w :: z → z ≠ [] → w ≠ DOTDOT.
Proof.
  intros Hu Hp Hz ->. destruct z as [|y z]; [done|].
  apply filter_before_last in Hp as (l1 & v & l2 & E).
  unfold unsafe_string in Hu. rewrite <- (join_split SLASH rel), E, join_traversal in Hu. done.
Qed.

Lemma path_parts_names s w : w ∈ path_parts s → w ≠ DOTDOT → normal_name w.
Proof.
  intros Hw Hd. pose proof (path_parts_no_slash s w Hw). unfold path_parts in Hw.
  apply list_elem_of_filter in Hw as [[? ?] _]. done.
Qed.

Lemma safe_init_normal rel k w :
  unsafe_string rel = false → path_parts rel = k ++ [w] → normal k.
Proof.
  intros Hu Hp. apply Forall_forall. intros v Hv.
  apply (path_parts_names rel); [rewrite Hp; apply elem_of_app; by left|].
  apply list_elem_of_split in Hv as (k1 & k2 & ->). rewrite <- app_assoc in Hp. simpl in Hp.
  eapply safe_parts_dots; [done..|]. by destruct k2.
Qed.

Lemma match_snoc {A B} (k : list A) v (b : B) (f : list A → B) :
  match k ++ [v] with [] => b | x :: l => f (x :: l) end = f (k ++ [v]).
Proof. by destruct k. Qed.

(** What [locate] returns *)
Lemma locate_inv rel r :
  locate rel = Ret r →
  normal r ∧ encodable r = true ∧ unsafe_string rel = false ∧
  (path_parts rel = r ∨ ∃ w, path_parts rel = r ++ [w; DOTDOT] ∧ normal_name w).
Proof.
  unfold locate. destruct (unsafe_string rel) eqn:Hu; [done|].
  destruct (encodable (path_parts rel)) eqn:He; [|done]. simpl.
  destruct (path_parts rel) as [|w k _] eqn:E using rev_ind.
  { intros [= <-]. simpl. auto. }
  pose proof (safe_init_normal rel k w Hu E) as Hk.
  unfold encodable in *. rewrite forallb_app in He. apply andb_true_iff in He as [He Hw].
  rewrite last_snoc, removelast_last. case_decide as Hd.
  - injection Hd as ->. destruct k as [|v k _] using rev_ind; [done|].
    rewrite (match_snoc k v _ (λ r, Ret (removelast r))), removelast_last. intros [= <-].
    apply Forall_app in Hk as [Hk Hv]. rewrite forallb_app in He.
    apply andb_true_iff in He as [He _]. split_and!; [done..|]. right. exists v.
    rewrite <- app_assoc. split; [done|]. by inversion Hv.
  - intros [= <-]. rewrite forallb_app, He, Hw. split_and!; [|done..|by left].
    apply Forall_app. split; [done|]. constructor; [|constructor].
    apply (path_parts_names rel); [rewrite E; apply elem_of_app; right; by left|congruence].
Qed.

(** ** Resolving *)
Lemma realpath_loop_dotdot m fuel seen path rest q :
  normal rest → link_free m (path ++ rest) →
  realpath_loop fuel m (Part <$> rest ++ [DOTDOT]) seen path = Some q →
  q = removelast (path ++ rest).
Proof.
  revert fuel path. induction rest as [|w rest IH]; intros fuel path Hn Hl H.
  { destruct fuel as [|[|fuel]]; simpl in H; [done|by rewrite app_nil_r; congruence..]. }
  inversion_clear Hn. destruct fuel as [|fuel]; [done|].
  rewrite cons_middle, app_assoc in Hl |- *. cbn [fmap list_fmap app realpath_loop] in H.
  rewrite normal_name_test, not_link_lookup in H by (done || by eapply link_free_prefix).
  by eapply IH.
Qed.

Lemma realpath_dotdot m p :
  normal p → link_free m p → realpath m (p ++ [DOTDOT]) = removelast p.
Proof.
  intros Hn Hl. exact (realpath_loop_dotdot m _ _ [] p _ Hn Hl (realpath_spec m _)).
Qed.

Section below.
Context (base : apath) (Henc : encodable base = true).
Context (m : fs) (Ht : tidy base m).

Lemma base_normal_name : normal base.
Proof using Ht. apply (tidy_names base m Ht). rewrite (tidy_base base m Ht). eauto. Qed.

Section check.
Context (d : pystr) (j : uuid) (Hd : tree_name d).

Lemma root_encodable r : encodable (root_of base j d ++ r) = encodable r.
Proof using Henc Hd.
  unfold root_of, encodable in *. rewrite !forallb_app, Henc. cbn [forallb].
  rewrite uuid_str_encodable. by destruct Hd as [->| ->].
Qed.

Lemma root_below r : base `prefix_of` root_of base j d ++ r.
Proof using. apply prefix_app_r, base_prefix_root. Qed.

Lemma root_app_normal r : normal r → normal (root_of base j d ++ r).
Proof using Ht Hd. intros Hr. apply Forall_app. split; [by eapply root_normal|done]. Qed.

Lemma resolve_root r :
  normal r → encodable r = true →
  resolve m (root_of base j d ++ r) = Ret (root_of base j d ++ r).
Proof using Henc Ht Hd.
  intros Hn He. unfold resolve. rewrite root_encodable, He.
  rewrite realpath_link_free; [done|by apply root_app_normal|].
  apply (tidy_link_free base); [done|apply root_below].
Qed.

(** The path check reads the text of the path and nothing else. *)
Lemma validate_locate rel :
  _validate_safe_path base j rel d m =
    (m, match locate rel with
        | Ret r => Ret (root_of base j d ++ r)
        | Exc e => Exc e
        end).
Proof using Henc Ht Hd.
  unfold _validate_safe_path, locate. destruct (unsafe_string rel) eqn:Hu; [done|]. run.
  rewrite root_of_eq by done. rewrite <- (app_nil_r (root_of base j d)).
  rewrite resolve_root by done. run. rewrite app_nil_r.
  unfold join_path. rewrite unsafe_string_not_absolute by done.
  unfold resolve. rewrite root_encodable.
  destruct (encodable (path_parts rel)) eqn:He; [|done]. run. cbn [negb].
  destruct (path_parts rel) as [|w k _] eqn:E using rev_ind.
  { rewrite app_nil_r, realpath_link_free;
      [|by eapply root_normal|apply (tidy_link_free base); [done|apply base_prefix_root]].
    unfold is_relative_to. rewrite bool_decide_eq_true_2 by done. simpl.
    by rewrite app_nil_r. }
  pose proof (safe_init_normal rel k w Hu E) as Hk.
  assert (link_free m (root_of base j d ++ k)) as Hl
    by (apply (tidy_link_free base); [done|apply root_below]).
  rewrite last_snoc, removelast_last, app_assoc. case_decide as Hdd.
  - injection Hdd as ->. rewrite realpath_dotdot by (done || by apply root_app_normal).
    unfold is_relative_to. destruct k as [|v k _] using rev_ind.
    + rewrite app_nil_r, bool_decide_eq_false_2; [done|]. unfold root_of.
      rewrite cons_middle, app_assoc, removelast_last. apply prefix_snoc_not.
    + rewrite app_assoc, removelast_last, bool_decide_eq_true_2 by (by apply prefix_app_r).
      by rewrite (match_snoc k v _ (λ r, Ret (removelast r))), removelast_last.
  - rewrite realpath_link_free.
    + unfold is_relative_to. rewrite <- app_assoc.
      by rewrite bool_decide_eq_true_2 by (by apply prefix_app_r).
    + rewrite <- app_assoc. apply root_app_normal, Forall_app. split; [done|].
      constructor; [|constructor].
      apply (path_parts_names rel); [rewrite E; apply elem_of_app; right; by left|congruence].
    + apply (tidy_link_free base); [done|]. rewrite <- app_assoc. apply root_below.
Qed.
End check.

(** ** Making directories *)
Lemma kwalk_from_through_file links rest path k x l b :
  rest = k ++ x :: l → normal rest → link_free m (path ++ rest) →
  m !! (path ++ k) = Some (NFile b) →
  kwalk_from links m rest path = Exc (OSError ENOTDIR).
Proof using Ht.
  intros ->. revert path. induction k as [|y k IH]; intros path Hn Hl Hf.
  { rewrite app_nil_r in Hf. cbn [app]. by rewrite kwalk_from_cons, Hf. }
  cbn [app] in *. inversion_clear Hn. rewrite kwalk_from_cons.
  rewrite (fs_wf_prefix m path (y :: k) (NFile b)) by (done || apply (tidy_wf base m Ht)).
  rewrite cons_middle, app_assoc in Hl, Hf.
  rewrite normal_name_test, not_link_lookup by (done || by eapply link_free_prefix).
  by apply IH.
Qed.

Lemma tidy_dir_clear p : m !! p = Some NDir → clear m p.
Proof using Ht.
  intros Hp q [k ->]. right. eapply fs_wf_dir_prefix; [apply (tidy_wf base m Ht)|done].
Qed.

Lemma os_mkdir_blocked p w q b :
  normal (p ++ [w]) → base `prefix_of` p → q `prefix_of` p → m !! q = Some (NFile b) →
  os_mkdir (p ++ [w]) m = (m, Exc (OSError ENOTDIR)).
Proof using Ht.
  intros Hn Hb Hq Hf. unfold os_mkdir, parent_walk. rewrite run_assoc. run.
  rewrite last_snoc, removelast_last, run_assoc. apply Forall_app in Hn as [Hn _].
  pose proof (tidy_link_free base m p Ht Hb) as Hl.
  destruct Hq as [[|x k] ->].
  - rewrite app_nil_r in *. rewrite (kwalk_existing m q (NFile b)) by (done || by eapply tidy_wf).
    run. rewrite Hf. by run.
  - unfold kwalk. erewrite kwalk_from_through_file; [|done..]. done.
Qed.

Lemma mkdir_p_blocked p q b :
  normal p → base `prefix_of` p → q `prefix_of` p → m !! q = Some (NFile b) →
  mkdir_p p m =
    (m, Exc (OSError (match m !! p with Some (NFile _) => EEXIST | _ => ENOTDIR end))).
Proof using Ht.
  intros Hn Hb Hq Hf.
  assert (is_dir m p = false) as Hnd.
  { unfold is_dir. rewrite (tidy_stat base m) by done.
    destruct (m !! p) as [[]|] eqn:E; try done. destruct Hq as [k ->].
    apply fs_wf_dir_prefix in E; [congruence|by eapply tidy_wf]. }
  destruct p as [|w p _] using rev_ind.
  { apply prefix_nil_inv in Hq as ->. pose proof (tidy_wf base m Ht) as [? _]. congruence. }
  assert (m !! p = Some NDir ∧ m !! (p ++ [w]) = Some (NFile b) ∨
    q `prefix_of` p ∧ (∀ b', m !! (p ++ [w]) ≠ Some (NFile b'))) as Hcase.
  { apply prefix_snoc_inv in Hq as [->|Hq].
    - left. split; [|done]. eapply fs_wf_prefix; [by eapply tidy_wf|done|done].
    - right. split; [done|]. intros b' E. destruct Hq as [k ->].
      rewrite <- app_assoc in E. apply fs_wf_prefix in E; [congruence|by eapply tidy_wf|].
      by destruct k. }
  unfold mkdir_p. rewrite rev_app_distr. cbn [rev app mkdir_rev]. rewrite rev_involutive.
  unfold try_catch at 1.
  destruct Hcase as [[Hp Hx]|[Hq' Hx]].
  - apply Forall_app in Hn as [Hn _].
    rewrite os_mkdir_ok, Hx by (done || by apply tidy_dir_clear || by eapply tidy_wf).
    unfold accept_existing_dir. run. by rewrite Hnd.
  - assert (base `prefix_of` p) as Hb'.
    { apply prefix_snoc_inv in Hb as [Eb|]; [|done]. exfalso.
      pose proof (tidy_base base m Ht) as Hd. rewrite Eb in Hd. destruct Hq' as [k ->].
      rewrite <- app_assoc in Hd. apply fs_wf_dir_prefix in Hd; [congruence|by eapply tidy_wf]. }
    rewrite (os_mkdir_blocked p w q b) by done.
    unfold accept_existing_dir. run. rewrite Hnd.
    destruct (m !! (p ++ [w])) as [[| |]|]; try done. by destruct (Hx data).
Qed.

(** ** Writing and copying *)
Section write.
Context (p : apath) (w : pystr).
Context (Hp : m !! p = Some NDir) (Hb : base `prefix_of` p ++ [w]) (Hn : normal (p ++ [w])).

Lemma kwalk_entry : kwalk m (p ++ [w]) = Ret (p ++ [w]).
Proof using Ht Hp Hb Hn.
  apply kwalk_parent_dir; [by eapply tidy_wf|done|by apply (tidy_link_free base)|done].
Qed.

Lemma write_bytes_below b :
  write_bytes (p ++ [w]) b m =
    match m !! (p ++ [w]) with
    | Some NDir => (m, Exc (OSError EISDIR))
    | _ => (<[p ++ [w] := NFile b]> m, Ret tt)
    end.
Proof using Ht Hp Hb Hn.
  unfold write_bytes. run. rewrite kwalk_entry. run.
  pose proof (tidy_links base m Ht _ Hb) as Hl. unfold is_link_at in Hl.
  by destruct (m !! (p ++ [w])) as [[]|].
Qed.

Lemma tidy_insert_file b :
  m !! (p ++ [w]) ≠ Some NDir → tidy base (<[p ++ [w] := NFile b]> m).
Proof using Ht Hp Hb Hn.
  intros Hnd. split.
  - apply fs_wf_insert_file; [by eapply tidy_wf|done|eauto].
  - rewrite lookup_insert_ne; [by apply tidy_base|]. intros E. rewrite E in Hnd.
    by rewrite (tidy_base base m Ht) in Hnd.
  - intros q Hq. unfold is_link_at. rewrite lookup_insert. case_decide; [done|].
    by apply (tidy_links base m Ht).
  - intros q. rewrite lookup_insert. case_decide as E; [by subst|]. apply (tidy_names base m Ht).
Qed.

Lemma copyfile_below src b :
  base `prefix_of` src → m !! src = Some (NFile b) → src ≠ p ++ [w] →
  copyfile src (p ++ [w]) m = write_bytes (p ++ [w]) b m.
Proof using Ht Hp Hb Hn.
  intros Hbs Hs Hne.
  assert (normal src) as Hns by (apply (tidy_names base m Ht); eauto).
  assert (kwalk m src = Ret src) as Hk by
    (eapply kwalk_existing; [by eapply tidy_wf|done|by apply (tidy_link_free base)|done]).
  unfold copyfile. run. rewrite bool_decide_eq_false_2.
  2: { intros (_ & _ & E). rewrite kwalk_entry, Hk in E. congruence. }
  unfold read_bytes. rewrite run_assoc. run. rewrite Hk, run_assoc. run. by rewrite Hs.
Qed.

Lemma copyfile_same b :
  m !! (p ++ [w]) = Some (NFile b) →
  copyfile (p ++ [w]) (p ++ [w]) m = (m, Exc (OSError ESAME)).
Proof using Ht Hp Hb Hn.
  intros Hs. unfold copyfile. run. rewrite bool_decide_eq_true_2; [done|].
  rewrite (tidy_stat base m), Hs by done. eauto.
Qed.
End write.
End below.
