(* ===== verification/StorageRefine.v ===== *)
(** * The local storage implements the contract

    [models] relates a file system below a base directory to a store of
    [StorageSpec]; every operation of [LocalStorageService] is simulated by
    the operation of [ReferenceStorage] with the same name, exceptions
    included, so no client can tell the two apart through the interface. *)
From S2P Require Import Prelude PyStr Exceptions FileSystem FsFacts Realpath FsOps Storage StorageFacts Attempts StorageSpec StoragePaths.
Local Open Scope eff_scope.
Import Local.
#[local] Opaque uuid_str.

(** ** Facts of the reference trees *)
Lemma elem_of_prefixes (q r : apath) : q ∈ prefixes r ↔ q `prefix_of` r.
Proof.
  unfold prefixes. rewrite list_elem_of_fmap. split.
  - intros (k & -> & _). apply prefix_take.
  - intros [l ->]. exists (length q). rewrite take_app_length. split; [done|].
    apply elem_of_seq. rewrite length_app. lia.
Qed.

Lemma lookup_add_dirs r c q :
  add_dirs r c !! q = if decide (q `prefix_of` r) then Some Dir else c !! q.
Proof.
  unfold add_dirs. transitivity (if decide (q ∈ prefixes r) then Some Dir else c !! q);
    [|apply decide_ext, elem_of_prefixes].
  induction (prefixes r) as [|p l IH]; cbn [foldr]; [done|].
  destruct (decide (p = q)) as [->|E].
  - rewrite lookup_insert_eq, decide_True; [done|by left].
  - rewrite lookup_insert_ne, IH by done. apply decide_ext. rewrite elem_of_cons.
    intuition congruence.
Qed.

Lemma is_doc_true c r : is_doc c r = true ↔ ∃ b, c !! r = Some (Doc b).
Proof. unfold is_doc. destruct (c !! r) as [[|b]|]; split; [done|by intros [? ?]|eauto|done..|by intros [? ?]]. Qed.

Lemma mkdirs_inv r c c' :
  mkdirs r c = Ret c' →
  c' = add_dirs r c ∧ ∀ q, q `prefix_of` r → is_doc c q = false.
Proof.
  unfold mkdirs. destruct (is_doc c r); [done|].
  destruct (existsb (is_doc c) (prefixes r)) eqn:E; [done|]. intros [= <-]. split; [done|].
  intros q Hq. apply not_true_iff_false. intros Hd. apply not_true_iff_false in E. apply E.
  apply existsb_exists. exists q. by rewrite <- list_elem_of_In, elem_of_prefixes.
Qed.

Lemma tree_set_tree s d j c d' j' :
  tree (set_tree d j c s) d' j' = if decide ((d, j) = (d', j')) then c else tree s d' j'.
Proof. unfold tree, set_tree. simpl. rewrite lookup_insert. by case_decide. Qed.

Lemma on_tree_inv d j f s s' :
  on_tree d j f s = (s', Ret tt) → ∃ c, f (tree s d j) = Ret c ∧ s' = set_tree d j c s.
Proof.
  unfold on_tree. run. destruct (f (tree s d j)) as [c|e]; run; [|done].
  intros [= <-]. eauto.
Qed.

(** Making room does not touch documents. *)
Lemma make_room_keeps d j r s s' d' j' q b :
  ref_make_room d j r s = (s', Ret tt) → tree s d' j' !! q = Some (Doc b) →
  tree s' d' j' !! q = Some (Doc b).
Proof.
  unfold ref_make_room. case_decide; [by intros [= <-]|].
  intros (c & (-> & Hc)%mkdirs_inv & ->)%on_tree_inv Hq. rewrite tree_set_tree.
  case_decide as E; [|done]. injection E as <- <-. rewrite lookup_add_dirs.
  case_decide as Hp; [|done]. apply Hc in Hp. unfold is_doc in Hp. by rewrite Hq in Hp.
Qed.

(** ** The relation *)
Definition as_node (e : entry) : node :=
  match e with Dir => NDir | Doc b => NFile b end.

Section models.
Context (base : apath).

Record models (m : fs) (s : store) : Prop := {
  rep_tidy : tidy base m;
  rep_top : ∀ d, tree_name d → clear m (base ++ [d]);
  rep_tree : ∀ d j r, tree_name d → is_uuid j = true →
    m !! (root_of base j d ++ r) = as_node <$> tree s d j !! r;
  rep_snapshots : ∀ j, is_uuid j = true → clear m (snapshot_root base j);
  rep_saved : ∀ j t, is_uuid j = true → is_uuid t = true →
    match saved s !! (j, uuid_str t) with
    | None => m !! snapshot_of base j t = None
    | Some sn => m !! snapshot_of base j t = Some NDir ∧
        ∀ d x rel, tree_name d →
          m !! (snapshot_of base j t ++ d :: x :: rel) = as_node <$> kept d sn !! (x :: rel)
    end
}.

(** Paths below the base with different names do not meet. *)
Lemma below_names d1 d2 k1 k2 q :
  base ++ d1 :: k1 `prefix_of` q → base ++ d2 :: k2 `prefix_of` q → d1 = d2.
Proof using.
  intros [l1 ->] [l2 E]. rewrite <- !app_assoc in E. apply app_inv_head in E. by injection E.
Qed.

Lemma tree_below_top d j q :
  q `prefix_of` root_of base j d → ¬ root_of base j d `prefix_of` q → q `prefix_of` base ++ [d].
Proof using.
  unfold root_of. rewrite cons_middle, app_assoc. by intros [->|?]%prefix_snoc_inv Hn.
Qed.

(** ** Changing one tree *)
Definition tree_change (d : pystr) (j : uuid) (m m' : fs) : Prop :=
  ∀ q, ¬ root_of base j d `prefix_of` q →
    m' !! q = m !! q ∨ q `prefix_of` base ++ [d] ∧ m' !! q = Some NDir.

Lemma top_not_below d k q : q `prefix_of` base ++ [d] → ¬ base ++ d :: k `prefix_of` q ∨ k = [].
Proof using.
  intros Hq. destruct k as [|x k]; [by right|left]. intros Hk.
  pose proof (prefix_length _ _ (transitivity Hk Hq)) as Hlen.
  rewrite !length_app in Hlen. simpl in Hlen. lia.
Qed.

Section change.
Context (m m' : fs) (s : store) (d : pystr) (j : uuid) (c : contents).
Hypotheses (Hm : models m s) (Hd : tree_name d) (Hj : is_uuid j = true).
Hypotheses (Ht : tidy base m') (Hf : tree_change d j m m').
Hypothesis (Hc : ∀ r, m' !! (root_of base j d ++ r) = as_node <$> c !! r).

Lemma change_clear p :
  clear m p → ¬ root_of base j d `prefix_of` p → clear m' p.
Proof using Hf.
  intros Hp Hn q Hq.
  destruct (Hf q) as [->|[_ ->]]; [|by apply Hp|by right].
  intros H. apply Hn. by etransitivity.
Qed.

Lemma change_elsewhere d' k q :
  base ++ d' :: k `prefix_of` q → k ≠ [] → ¬ root_of base j d `prefix_of` q → m' !! q = m !! q.
Proof using Hf.
  intros Hq Hk Hn. destruct (Hf q Hn) as [?|[Hp _]]; [done|].
  destruct (top_not_below d k q Hp) as [Hn'|?]; [|done].
  assert (base ++ d' :: k `prefix_of` base ++ [d]) as Hl by (by etransitivity).
  apply prefix_length in Hl. rewrite !length_app in Hl. destruct k; [done|]. simpl in Hl. lia.
Qed.

Lemma models_set_tree : models m' (set_tree d j c s).
Proof using All.
  split.
  - done.
  - intros d' Hd'. apply change_clear; [by apply (rep_top m s)|].
    intros H%prefix_length. unfold root_of in H. rewrite !length_app in H. simpl in H. lia.
  - intros d' j' r Hd' Hj'. rewrite tree_set_tree. case_decide as E.
    + injection E as <- <-. apply Hc.
    + rewrite <- (rep_tree m s Hm) by done. unfold root_of at 1 2.
      apply (change_elsewhere d' [uuid_str j']); [by apply prefix_app_r|done|].
      apply (roots_disjoint base d' d j' j); [done..|congruence|]. by apply prefix_app_r.
  - intros j' Hj'. apply change_clear; [by apply (rep_snapshots m s)|]. intros H.
    apply (tree_not_snapshots d Hd).
    by apply (below_names d SNAPSHOTS [uuid_str j] [uuid_str j'] (snapshot_root base j')).
  - assert (∀ j' t k, m' !! (snapshot_of base j' t ++ k) = m !! (snapshot_of base j' t ++ k)) as Hs.
    { intros j' t k. apply (change_elsewhere SNAPSHOTS [uuid_str j'; uuid_str t]); [|done|].
      - unfold snapshot_of, snapshot_root. rewrite <- !app_assoc. simpl. apply prefix_app.
        by exists k.
      - intros H. apply (tree_not_snapshots d Hd).
        apply (below_names d SNAPSHOTS [uuid_str j] [uuid_str j'] (snapshot_of base j' t ++ k));
          [done|]. unfold snapshot_of, snapshot_root. rewrite <- app_assoc. by apply prefix_app_r. }
    intros j' t Hj' Ht'. pose proof (rep_saved m s Hm j' t Hj' Ht') as H. simpl.
    pose proof (Hs j' t []) as Hs0. rewrite app_nil_r in Hs0.
    destruct (saved s !! _) as [sn|]; [|by rewrite Hs0].
    destruct H as [H1 H2]. split; [by rewrite Hs0|]. intros. rewrite Hs. by apply H2.
Qed.
End change.

(** Only what can be observed of a store matters. *)
Lemma models_ext m s s' :
  (∀ d j, tree s d j = tree s' d j) → saved s = saved s' → models m s → models m s'.
Proof using.
  intros Ht Hs [H1 H2 H3 H4 H5]. split; [done..| |done|].
  - intros d j r. rewrite <- Ht. apply H3.
  - intros j t. rewrite <- Hs. apply H5.
Qed.

Lemma set_tree_same s d j d' j' : tree (set_tree d j (tree s d j) s) d' j' = tree s d' j'.
Proof using. rewrite tree_set_tree. case_decide as E; [by injection E as <- <-|done]. Qed.

(** ** Simulation *)
Definition sim {A B : Type} (Q : A → B → Prop) (c : eff exn fs A) (c' : eff exn store B)
    (m : fs) (s : store) : Prop :=
  models (c m).1 (c' s).1 ∧
  match (c m).2, (c' s).2 with
  | Ret a, Ret b => Q a b
  | Exc e, Exc e' => e = e'
  | _, _ => False
  end.

Lemma sim_ret {A B} (Q : A → B → Prop) a b m s :
  models m s → Q a b → sim Q (ret a) (ret b) m s.
Proof. by split. Qed.

Lemma sim_raise {A B} (Q : A → B → Prop) e m s :
  models m s → sim Q (raise e) (raise e) m s.
Proof. by split. Qed.

Lemma sim_bind {A B A' B'} (Q : A → B → Prop) (Q' : A' → B' → Prop) c c' k k' m s :
  sim Q c c' m s →
  (∀ m' s' a b, models m' s' → c m = (m', Ret a) → c' s = (s', Ret b) → Q a b →
     sim Q' (k a) (k' b) m' s') →
  sim Q' (ebind c k) (ebind c' k') m s.
Proof.
  unfold sim, ebind. intros [H1 H2] Hk.
  destruct (c m) as [m' [a|e]], (c' s) as [s' [b|e']]; simpl in *; try done. by apply Hk.
Qed.

Lemma sim_run {A B} (Q : A → B → Prop) c c' d d' m s m' s' :
  d m' = c m → d' s' = c' s → sim Q d d' m' s' → sim Q c c' m s.
Proof. unfold sim. by intros -> ->. Qed.
End models.

#[local] Arguments sim_bind {base A B A' B'} Q Q' c c' k k' m s.

(** ** The primitive steps *)
Section steps.
Context (base : apath) (Henc : encodable base = true).
Abbreviation models := (models base).
Abbreviation sim := (sim base).
Abbreviation root := (root_of base).

Lemma sim_locate d j rel m s :
  models m s → tree_name d →
  sim (λ p r, p = root j d ++ r ∧ normal r)
    (_validate_safe_path base j rel d) (of_outcome (locate rel)) m s.
Proof using Henc.
  intros Hm Hd. unfold sim.
  rewrite validate_locate by (done || by apply (rep_tidy base m s)).
  split; [done|]. simpl. destruct (locate rel) as [r|e] eqn:E; [|done].
  apply locate_inv in E as (Hn & _). done.
Qed.

(** What is stored at a path of a tree *)
Lemma rep_stat d j r m s :
  models m s → tree_name d → is_uuid j = true → normal r →
  stat m (root j d ++ r) = as_node <$> tree s d j !! r.
Proof using.
  intros Hm Hd Hj Hr. rewrite <- (rep_tree base m s Hm) by done.
  pose proof (rep_tidy base m s Hm) as Ht.
  apply (tidy_stat base); [done|apply root_below|by eapply root_app_normal].
Qed.

Lemma rep_is_file d j r m s :
  models m s → tree_name d → is_uuid j = true → normal r →
  is_file m (root j d ++ r) = is_doc (tree s d j) r.
Proof using.
  intros. unfold is_file, is_doc. erewrite rep_stat by done.
  by destruct (tree s d j !! r) as [[]|].
Qed.

Lemma is_file_exists m p : is_file m p = true → path_exists m p = true.
Proof using.
  unfold is_file, path_exists. destruct (stat m p) as [[]|]; try done.
Qed.

(** The guard [not exists() or not is_file()] *)
Lemma file_guard m p : negb (path_exists m p) || negb (is_file m p) = negb (is_file m p).
Proof using.
  destruct (is_file m p) eqn:E; [by rewrite is_file_exists|by rewrite orb_true_r].
Qed.

Lemma models_clear d j r m s :
  models m s → tree_name d → is_uuid j = true →
  (∀ q, q `prefix_of` r → is_doc (tree s d j) q = false) → clear m (root j d ++ r).
Proof using.
  intros Hm Hd Hj Hr. apply (tidy_clear base); [by apply (rep_tidy base m s)|apply root_below|].
  intros q Hq b Hb.
  destruct (decide (root j d `prefix_of` q)) as [[k ->]|Hn].
  - rewrite (rep_tree base m s Hm) in Hb by done. apply prefix_app_inv in Hq.
    specialize (Hr k Hq). unfold is_doc in Hr.
    by destruct (tree s d j !! k) as [[]|].
  - assert (q `prefix_of` root j d) as Hp.
    { destruct (prefix_weak_total q (root j d) (root j d ++ r)); [done|by apply prefix_app_r|done..]. }
    apply tree_below_top in Hp; [|done].
    destruct (rep_top base m s Hm d Hd q Hp); congruence.
Qed.

Lemma sim_mkdirs d j r m s :
  models m s → tree_name d → is_uuid j = true → normal r →
  sim eq (mkdir_p (root j d ++ r)) (on_tree d j (mkdirs r)) m s.
Proof using.
  intros Hm Hd Hj Hn. pose proof (rep_tidy base m s Hm) as Ht.
  assert (normal (root j d ++ r)) as Hnr by (by eapply root_app_normal).
  destruct (existsb (is_doc (tree s d j)) (prefixes r)) eqn:E.
  - apply existsb_exists in E as (q & Hq & [b Hb]%is_doc_true).
    apply list_elem_of_In, elem_of_prefixes in Hq.
    unfold sim. rewrite (mkdir_p_blocked base m Ht (root j d ++ r) (root j d ++ q) b);
      [|done|apply root_below|by apply prefix_app|by rewrite (rep_tree base m s Hm), Hb].
    rewrite (rep_tree base m s Hm) by done. unfold on_tree. run. unfold mkdirs.
    replace (existsb _ _) with true
      by (symmetry; apply existsb_exists; exists q; rewrite <- list_elem_of_In, elem_of_prefixes, is_doc_true; eauto).
    unfold is_doc. by destruct (tree s d j !! r) as [[]|].
  - assert (∀ q, q `prefix_of` r → is_doc (tree s d j) q = false) as Hclear.
    { intros q Hq. apply not_true_iff_false. intros Hdoc. apply not_true_iff_false in E.
      apply E, existsb_exists. exists q. by rewrite <- list_elem_of_In, elem_of_prefixes. }
    destruct (mkdir_p_ok m (root j d ++ r)) as (m' & Hm' & Hw);
      [by eapply tidy_wf|done|by eapply models_clear|].
    unfold sim, on_tree. run. unfold mkdirs. rewrite Hclear, E, Hm' by done. split; [|done].
    simpl. pose proof (mkdir_p_wf (root j d ++ r) m (tidy_wf _ _ Ht)) as Hwf.
    rewrite Hm' in Hwf. apply (models_set_tree base m); [done..| | |].
    + by eapply tidy_with_dirs; [|apply root_below| |done|].
    + intros q Hq. rewrite (Hw q). case_decide as Hp; [right|by left]. split; [|done].
      apply (tree_below_top base d j); [|done].
      destruct (prefix_weak_total q (root j d) (root j d ++ r)); [done|by apply prefix_app_r|done..].
    + intros k. rewrite (Hw _), lookup_add_dirs.
      destruct (decide (k `prefix_of` r)).
      * by rewrite decide_True by (by apply prefix_app).
      * rewrite decide_False by (by intros ?%prefix_app_inv). by apply (rep_tree base m s).
Qed.

(** The parent of a path of a tree *)
Lemma parent_in_tree d j r w : parent (root j d ++ r ++ [w]) = root j d ++ r.
Proof using. unfold parent. by rewrite app_assoc, removelast_last. Qed.

Lemma sim_make_room d j r m s :
  models m s → tree_name d → is_uuid j = true → normal r →
  sim eq (mkdir_p (parent (root j d ++ r))) (ref_make_room d j r) m s.
Proof using.
  intros Hm Hd Hj Hn. pose proof (rep_tidy base m s Hm) as Ht. unfold ref_make_room.
  destruct r as [|w r _] using rev_ind.
  - rewrite app_nil_r. simpl.
    assert (parent (root j d) = base ++ [d]) as ->.
    { unfold parent, root_of. by rewrite cons_middle, app_assoc, removelast_last. }
    assert (normal (base ++ [d])) as Hnd.
    { apply (below_normal base m); [done|]. repeat constructor; apply dir_name_normal; by apply tree_dir_name. }
    destruct (mkdir_p_ok m (base ++ [d])) as (m' & Hm' & Hw);
      [by eapply tidy_wf|done|by apply (rep_top base m s)|].
    unfold sim. rewrite Hm'. split; [|done]. simpl.
    pose proof (mkdir_p_wf (base ++ [d]) m (tidy_wf _ _ Ht)) as Hwf. rewrite Hm' in Hwf.
    eapply models_ext; [apply (set_tree_same s d j)|done|].
    apply (models_set_tree base m); [done..| | |].
    + by eapply tidy_with_dirs; [|apply prefix_app_r| |done|].
    + intros q _. rewrite (Hw q). case_decide; [by right|by left].
    + intros r. rewrite (Hw _), decide_False; [by apply (rep_tree base m s)|].
      intros Hl%prefix_length. unfold root_of in Hl. rewrite !length_app in Hl. simpl in Hl. lia.
  - rewrite decide_False by (by destruct r). rewrite parent_in_tree, removelast_last.
    apply Forall_app in Hn as [Hn _]. by apply sim_mkdirs.
Qed.

Lemma mkdir_p_dir p m m' :
  tidy base m → base `prefix_of` p → normal p → mkdir_p p m = (m', Ret tt) →
  m' !! p = Some NDir.
Proof using.
  intros Ht Hb Hn H.
  destruct (decide (Exists (λ q, is_file m q = true) (prefixes p))) as [He|He].
  - apply Exists_exists in He as (q & Hq & Hf). apply elem_of_prefixes in Hq.
    unfold is_file in Hf. pose proof Hq as [k Ek].
    destruct (stat m q) as [[|b|]|] eqn:E; try done.
    assert (m !! q = Some (NFile b)) as Hqb.
    { rewrite stat_link_free in E; [done|by eapply tidy_wf| |].
      - rewrite Ek in Hn. by apply Forall_app in Hn as [? _].
      - apply (link_free_prefix m q k). rewrite <- Ek. by apply (tidy_link_free base). }
    by rewrite (mkdir_p_blocked base m Ht p q b) in H.
  - destruct (mkdir_p_ok m p) as (m1 & Hm1 & Hw); [by eapply tidy_wf|done| |].
    + apply (tidy_clear base); [done..|]. intros q Hq b Hf. apply He, Exists_exists.
      exists q. split; [by apply elem_of_prefixes|]. pose proof Hq as [k Ek].
      unfold is_file. rewrite stat_link_free, Hf; [done|by eapply tidy_wf| |].
      * rewrite Ek in Hn. by apply Forall_app in Hn as [? _].
      * apply (link_free_prefix m q k). rewrite <- Ek. by apply (tidy_link_free base).
    + rewrite H in Hm1. injection Hm1 as <-. by rewrite (Hw p), decide_True.
Qed.

(** A path of a tree splits into its directory and its name. *)
Lemma tree_path_snoc d j r : ∃ p w, root j d ++ r = p ++ [w] ∧ parent (root j d ++ r) = p.
Proof using.
  destruct r as [|w r _] using rev_ind.
  - exists (base ++ [d]), (uuid_str j). unfold parent, root_of.
    by rewrite app_nil_r, cons_middle, app_assoc, removelast_last.
  - exists (root j d ++ r), w. rewrite parent_in_tree. by rewrite app_assoc.
Qed.

Lemma parent_below d j r : tree_name d → base `prefix_of` parent (root j d ++ r).
Proof using.
  intros Hd. unfold parent. destruct r as [|w r _] using rev_ind.
  - unfold root_of. rewrite app_nil_r, cons_middle, app_assoc, removelast_last.
    by apply prefix_app_r.
  - rewrite app_assoc, removelast_last. apply root_below.
Qed.

(** After [make_room] the directory of the document exists. *)
Lemma room_made d j r m s m' :
  models m s → tree_name d → normal r →
  mkdir_p (parent (root j d ++ r)) m = (m', Ret tt) →
  m' !! parent (root j d ++ r) = Some NDir.
Proof using.
  intros Hm Hd Hn. pose proof (rep_tidy base m s Hm) as Ht.
  apply mkdir_p_dir; [done|by apply parent_below|].
  assert (normal (root j d ++ r)) as Hnr by (by eapply root_app_normal).
  destruct (tree_path_snoc d j r) as (p & w & E & ->). rewrite E in Hnr.
  by apply Forall_app in Hnr as [? _].
Qed.

Lemma sim_put d j r b m s :
  models m s → tree_name d → is_uuid j = true → normal r →
  m !! parent (root j d ++ r) = Some NDir →
  sim eq (write_bytes (root j d ++ r) b) (on_tree d j (put r b)) m s.
Proof using.
  intros Hm Hd Hj Hn Hp. pose proof (rep_tidy base m s Hm) as Ht.
  assert (normal (root j d ++ r)) as Hnr by (by eapply root_app_normal).
  pose proof (root_below base d j r) as Hb.
  pose proof (rep_tree base m s Hm d j r Hd Hj) as Hr.
  destruct (tree_path_snoc d j r) as (p & w & E & Ep).
  assert (write_bytes (root j d ++ r) b m =
    match m !! (root j d ++ r) with
    | Some NDir => (m, Exc (OSError EISDIR))
    | _ => (<[root j d ++ r := NFile b]> m, Ret tt)
    end) as Hwr.
  { rewrite Ep in Hp. rewrite E in *. by apply (write_bytes_below base m Ht). }
  assert (tree s d j !! r ≠ Some Dir →
    models (<[root j d ++ r := NFile b]> m) (set_tree d j (<[r := Doc b]> (tree s d j)) s)) as Hset.
  { intros Hne. apply (models_set_tree base m); [done..| | |].
    - rewrite Ep in Hp. rewrite E in *. apply (tidy_insert_file base m Ht); [done..|].
      rewrite Hr. by destruct (tree s d j !! r) as [[]|].
    - intros q Hq. left. rewrite lookup_insert_ne; [done|]. intros <-. apply Hq.
      by apply prefix_app_r.
    - intros k. rewrite !lookup_insert.
      destruct (decide (r = k)) as [->|Hne']; [by rewrite decide_True|].
      rewrite decide_False by (by intros ?%app_inv_head). by apply (rep_tree base m s). }
  unfold sim, on_tree. run. rewrite Hwr, Hr. unfold put.
  destruct (tree s d j !! r) as [[|b']|] eqn:Et; [done|split; [by apply Hset|done]..].
Qed.

Lemma sim_put_content j r c m s :
  models m s → is_uuid j = true → normal r →
  m !! parent (root j JOBS ++ r) = Some NDir →
  sim eq (write_content (root j JOBS ++ r) c) (ref_put_content j r c) m s.
Proof using.
  intros Hm Hj Hn Hp. assert (tree_name JOBS) as Hd by (by left).
  destruct c as [x|b]; simpl; [|by apply sim_put].
  destruct (utf8_encode x) as [b|]; [by apply sim_put|].
  apply (sim_bind eq eq); [by apply sim_put|]. intros. by apply sim_raise.
Qed.

Lemma sim_copy d1 j1 d2 j2 r b m s :
  models m s → tree_name d1 → tree_name d2 → is_uuid j1 = true → is_uuid j2 = true →
  normal r → m !! parent (root j2 d2 ++ r) = Some NDir → tree s d1 j1 !! r = Some (Doc b) →
  sim eq (copyfile (root j1 d1 ++ r) (root j2 d2 ++ r))
    (if decide ((d1, j1) = (d2, j2)) then raise (OSError ESAME) else on_tree d2 j2 (put r b)) m s.
Proof using.
  intros Hm Hd1 Hd2 Hj1 Hj2 Hn Hp Hs. pose proof (rep_tidy base m s Hm) as Ht.
  assert (normal (root j2 d2 ++ r)) as Hnr by (by eapply root_app_normal).
  pose proof (root_below base d2 j2 r) as Hb.
  assert (m !! (root j1 d1 ++ r) = Some (NFile b)) as Hsrc
    by (by rewrite (rep_tree base m s Hm), Hs).
  pose proof (sim_put d2 j2 r b m s Hm Hd2 Hj2 Hn Hp) as Hput.
  destruct (tree_path_snoc d2 j2 r) as (p & w & E & Ep). rewrite Ep in Hp.
  case_decide as Heq.
  - injection Heq as -> ->. unfold sim. rewrite E in *.
    by rewrite (copyfile_same base m Ht p w Hp Hb Hnr b).
  - unfold sim in *. rewrite E in *.
    rewrite (copyfile_below base m Ht p w Hp Hb Hnr (root j1 d1 ++ r) b);
      [done|apply root_below|done|].
    rewrite <- E. intros Ee. apply (roots_disjoint base d1 d2 j1 j2 (root j1 d1 ++ r));
      [done..|by apply prefix_app_r|]. rewrite Ee. by apply prefix_app_r.
Qed.
End steps.

(** ** The operations *)
Section operations.
Context (base : apath) (Henc : encodable base = true).
Abbreviation models := (models base).
Abbreviation sim := (sim base).
Abbreviation root := (root_of base).

Lemma jobs_tree : tree_name JOBS.
Proof using. by left. Qed.
Lemma artifacts_tree : tree_name ARTIFACTS.
Proof using. by right. Qed.
#[local] Hint Resolve jobs_tree artifacts_tree : core.

Lemma sim_create_directory j rel m s :
  models m s → is_uuid j = true →
  sim eq (Local.create_directory base j rel) (ref_create_directory j rel) m s.
Proof using Henc.
  intros Hm Hj. eapply sim_bind; [by apply sim_locate|].
  intros m1 s1 p r Hm1 _ _ [-> Hn]. by apply sim_mkdirs.
Qed.

Lemma sim_create_workspace j m s :
  models m s → is_uuid j = true →
  sim eq (Local.create_workspace base j) (ref_create_workspace j) m s.
Proof using.
  intros Hm Hj. unfold Local.create_workspace. rewrite !root_of_eq by auto.
  rewrite <- (app_nil_r (root j JOBS)), <- (app_nil_r (root j ARTIFACTS)).
  apply (sim_bind eq eq); [by apply sim_mkdirs; auto|].
  intros m1 s1 [] [] Hm1 _ _ _. by apply sim_mkdirs; auto.
Qed.

Lemma sim_write_file j rel c m s :
  models m s → is_uuid j = true →
  sim eq (Local.write_file base j rel c) (ref_write_file j rel c) m s.
Proof using Henc.
  intros Hm Hj. eapply sim_bind; [by apply sim_locate|].
  intros m1 s1 p r Hm1 _ _ [-> Hn].
  eapply sim_bind; [by apply sim_make_room|].
  intros m2 s2 [] [] Hm2 Hmk _ _. apply sim_put_content; [done..|].
  by eapply room_made; [exact Hm1|..].
Qed.

(** A document or the error, after the guard of the code *)
Lemma sim_fetch {A B : Type} (Q : A → B → Prop) (d : pystr) (j : uuid) (r : apath) (e : exn) (k : eff exn fs A)
    (k' : bytes → eff exn store B) (m : fs) (s : store) :
  models m s → tree_name d → is_uuid j = true → normal r →
  (∀ b, tree s d j !! r = Some (Doc b) → sim Q k (k' b) m s) →
  sim Q (if negb (is_file m (root j d ++ r)) then raise e else k)
    (ebind (ref_fetch d j r e) k') m s.
Proof using.
  intros Hm Hd Hj Hn Hk. unfold sim. unfold ref_fetch. rewrite run_assoc. run.
  erewrite rep_is_file by done. unfold is_doc.
  destruct (tree s d j !! r) as [[|b]|] eqn:E; run; [done|by apply Hk|done].
Qed.

Lemma sim_gets_id {A B : Type} (Q : A → B → Prop) (k : fs → eff exn fs A) (c : eff exn store B) (m : fs) (s : store) :
  sim Q (k m) c m s → sim Q (ebind (gets id) k) c m s.
Proof using. done. Qed.

Lemma read_file_below d j r b m s :
  models m s → tree_name d → is_uuid j = true → normal r → tree s d j !! r = Some (Doc b) →
  read_bytes (root j d ++ r) m = (m, Ret b).
Proof using.
  intros Hm Hd Hj Hn Hs. pose proof (rep_tidy base m s Hm) as Ht.
  assert (m !! (root j d ++ r) = Some (NFile b)) as Hf by (by rewrite (rep_tree base m s Hm), Hs).
  unfold read_bytes. run. erewrite kwalk_existing; [run; by rewrite Hf|by eapply tidy_wf| | |done].
  - by eapply root_app_normal.
  - apply (tidy_link_free base); [done|apply root_below].
Qed.

Lemma sim_read_file j rel m s :
  models m s → is_uuid j = true →
  sim eq (Local.read_file base j rel) (ref_read_file j rel) m s.
Proof using Henc.
  intros Hm Hj. eapply sim_bind; [by apply sim_locate|].
  intros m1 s1 p r Hm1 _ _ [-> Hn]. apply sim_gets_id. rewrite file_guard.
  eapply (sim_run base eq _ _ _ (ebind (ref_fetch JOBS j r _) ret) m1 s1 m1 s1); [done| |].
  { unfold ref_fetch. rewrite run_assoc. run. symmetry. by destruct (tree s1 JOBS j !! r) as [[]|]. }
  apply sim_fetch; [done..|]. intros b Hb. unfold sim. by erewrite read_file_below.
Qed.

Lemma sim_names_doc (d : pystr) (j : uuid) (rel : pystr) (test : fs → apath → bool) (m : fs) (s : store) :
  models m s → tree_name d → is_uuid j = true → (∀ m p, test m p = is_file m p) →
  sim eq
    (try_catch
      (p <- _validate_safe_path base j rel d;; gets (λ m, test m p))
      (λ e, match e with PermissionError _ => ret false | _ => raise e end))
    (ref_names_doc d j rel) m s.
Proof using Henc.
  intros Hm Hd Hj Htest. pose proof (rep_tidy base m s Hm) as Ht.
  unfold sim, try_catch, ref_names_doc, ebind. rewrite (validate_locate base Henc m Ht) by done.
  destruct (locate rel) as [r|e] eqn:E; [|by destruct e].
  apply locate_inv in E as (Hn & _). simpl. split; [done|]. rewrite Htest. by apply rep_is_file.
Qed.

Lemma sim_file_exists j rel m s :
  models m s → is_uuid j = true →
  sim eq (Local.workspace_file_exists base j rel) (ref_names_doc JOBS j rel) m s.
Proof using Henc. intros. by apply (sim_names_doc JOBS j rel is_file). Qed.

Lemma sim_check_artifact j rel m s :
  models m s → is_uuid j = true →
  sim eq (Local.check_artifact_exists base j rel) (ref_names_doc ARTIFACTS j rel) m s.
Proof using Henc.
  intros. apply (sim_names_doc ARTIFACTS j rel (λ m p, path_exists m p && is_file m p)); [done..|].
  intros m' p. destruct (is_file m' p) eqn:E; [by rewrite is_file_exists|by rewrite andb_false_r].
Qed.

Lemma sim_file_size j rel m s :
  models m s → is_uuid j = true →
  sim eq (Local.workspace_file_size base j rel) (ref_workspace_file_size j rel) m s.
Proof using Henc.
  intros Hm Hj. unfold ref_workspace_file_size, ref_read_file.
  eapply (sim_run base eq _ _ _ (r <- of_outcome (locate rel);;
    b <- ref_fetch JOBS j r (ref_no_file rel j);; ret (Z.of_nat (length b))) m s m s);
    [done|by rewrite run_assoc|].
  eapply sim_bind; [by apply sim_locate|].
  intros m1 s1 p r Hm1 _ _ [-> Hn]. apply sim_gets_id. erewrite rep_stat by done.
  unfold sim, ref_fetch. rewrite run_assoc. run.
  by destruct (tree s1 JOBS j !! r) as [[|b]|].
Qed.

Lemma sim_copy_workspace_file j1 j2 rel m s :
  models m s → is_uuid j1 = true → is_uuid j2 = true →
  sim eq (Local.copy_workspace_file base j1 j2 rel) (ref_copy_workspace_file j1 j2 rel) m s.
Proof using Henc.
  intros Hm Hj1 Hj2. eapply sim_bind; [by apply sim_locate|].
  intros m1 s1 p r Hm1 _ Hl [-> Hn]. apply sim_gets_id. apply sim_fetch; [done..|]. intros b Hb.
  pose proof (rep_tidy base m1 s1 Hm1) as Ht. injection Hl as -> Hl.
  eapply (sim_run base eq _ _ (mkdir_p (parent (root j2 JOBS ++ r)) ;;;
    copyfile (root j1 JOBS ++ r) (root j2 JOBS ++ r)) _ m1 s1 m1 s1); [|done|].
  { rewrite (ebind_ret_run _ _ _ m1 (root j2 JOBS ++ r)); [done|].
    rewrite (validate_locate base Henc m1 Ht) by done. by rewrite Hl. }
  eapply sim_bind; [by apply sim_make_room|].
  intros m2 s2 [] [] Hm2 Hmk Hroom _.
  pose proof (sim_copy base JOBS j1 JOBS j2 r b m2 s2) as Hc.
  destruct (decide (j1 = j2)) as [->|Hne].
  - rewrite decide_True in Hc by done. apply Hc; [done..| |by eapply make_room_keeps].
    by eapply room_made; [exact Hm1|..].
  - rewrite decide_False in Hc by congruence. apply Hc; [done..| |by eapply make_room_keeps].
    by eapply room_made; [exact Hm1|..].
Qed.

Lemma sim_save_artifact j rel m s :
  models m s → is_uuid j = true →
  sim eq (Local.save_artifact base j rel) (ref_save_artifact j rel) m s.
Proof using Henc.
  intros Hm Hj. eapply sim_bind; [by apply sim_locate|].
  intros m1 s1 p r Hm1 _ Hl [-> Hn]. apply sim_gets_id. rewrite file_guard.
  apply sim_fetch; [done..|]. intros b Hb.
  pose proof (rep_tidy base m1 s1 Hm1) as Ht. injection Hl as -> Hl.
  eapply (sim_run base eq _ _ (mkdir_p (parent (root j ARTIFACTS ++ r)) ;;;
    copyfile (root j JOBS ++ r) (root j ARTIFACTS ++ r)) _ m1 s1 m1 s1); [|done|].
  { rewrite (ebind_ret_run _ _ _ m1 (root j ARTIFACTS ++ r)); [done|].
    rewrite (validate_locate base Henc m1 Ht) by done. by rewrite Hl. }
  eapply sim_bind; [by apply sim_make_room|].
  intros m2 s2 [] [] Hm2 Hmk Hroom _.
  pose proof (sim_copy base JOBS j ARTIFACTS j r b m2 s2) as Hc.
  rewrite decide_False in Hc by done. apply Hc; [done..| |by eapply make_room_keeps].
  by eapply room_made; [exact Hm1|..].
Qed.

Lemma sim_get_artifact_path j rel m s :
  models m s → is_uuid j = true →
  sim eq (Local.get_artifact_path base j rel) (ref_get_artifact_path base j rel) m s.
Proof using Henc.
  intros Hm Hj. eapply sim_bind; [by apply sim_locate|].
  intros m1 s1 p r Hm1 _ Hl [-> Hn]. apply sim_gets_id. rewrite file_guard.
  apply sim_fetch; [done..|]. intros b Hb. apply sim_ret; [done|].
  unfold root_of. by rewrite <- app_assoc.
Qed.

Lemma sim_clean_workspace j m s :
  models m s → is_uuid j = true →
  sim eq (Local.clean_workspace base j) (ref_clean_workspace j) m s.
Proof using.
  intros Hm Hj. pose proof (rep_tidy base m s Hm) as Ht.
  unfold sim, Local.clean_workspace, ref_clean_workspace. run. rewrite root_of_eq by done.
  unfold path_exists, is_dir. rewrite <- (app_nil_r (root j JOBS)).
  erewrite rep_stat by done. rewrite app_nil_r.
  destruct (tree s JOBS j !! []) as [[|b]|] eqn:E; simpl; try done.
  assert (m !! root j JOBS = Some NDir) as Hdir.
  { rewrite <- (app_nil_r (root j JOBS)), (rep_tree base m s Hm), E by done. done. }
  assert (root j JOBS = (base ++ [JOBS]) ++ [uuid_str j]) as Er
    by (unfold root_of; by rewrite <- app_assoc).
  assert (base `prefix_of` base ++ [JOBS]) as Hb by (by apply prefix_app_r).
  rewrite Er in *. rewrite (rmtree_ok base) by
    (done || (apply (below_normal base m); [done|]; repeat constructor; apply dir_name_normal; by left)).
  split; [|done]. simpl. apply (models_set_tree base m); [done..|by apply tidy_filter| |].
  - intros q Hq. left. rewrite lookup_rmtree, decide_False; [done|]. by rewrite <- Er.
  - intros r. rewrite lookup_rmtree, decide_True; [done|]. rewrite <- Er. by apply prefix_app_r.
Qed.
End operations.

(** ** Attempts *)
Section attempts.
Context (base : apath) (Henc : encodable base = true).
Context (j t : uuid) (Hj : is_uuid j = true) (Ht : is_uuid t = true).
Abbreviation models := (models base).
Abbreviation sim := (sim base).
Abbreviation root := (root_of base).
Abbreviation snapshot := (snapshot_of base j t).

(** Different attempts keep different snapshots. *)
Lemma snapshots_apart j' t' k :
  is_uuid j' = true → is_uuid t' = true → (j, t) ≠ (j', t') →
  ¬ snapshot `prefix_of` snapshot_of base j' t' ++ k.
Proof using Hj Ht.
  intros Hj' Ht' Hne [l E]. unfold snapshot_of, snapshot_root in E.
  rewrite <- !app_assoc in E. apply app_inv_head in E. simpl in E.
  assert (uuid_str j' = uuid_str j ∧ uuid_str t' = uuid_str t) as [E1 E2].
  { revert E. generalize (uuid_str j), (uuid_str j'), (uuid_str t), (uuid_str t').
    intros u1 u2 u3 u4 E. by injection E. }
  apply uuid_str_inj in E1, E2; [congruence|done..].
Qed.

Lemma snapshot_eq : snapshot = base ++ [SNAPSHOTS; uuid_str j; uuid_str t].
Proof using. unfold snapshot_of, snapshot_root. by rewrite <- app_assoc. Qed.

Lemma tree_path_not_snapshot d j' r k :
  tree_name d → ¬ base ++ SNAPSHOTS :: k `prefix_of` root j' d ++ r.
Proof using.
  intros Hd H. apply (tree_not_snapshots d Hd). symmetry.
  apply (below_names base SNAPSHOTS d k [uuid_str j'] (root j' d ++ r)); [done|].
  by apply prefix_app_r.
Qed.

(** What a change of the snapshot directory leaves alone *)
Definition snapshot_change (m m' : fs) : Prop :=
  ∀ q, ¬ snapshot `prefix_of` q →
    m' !! q = m !! q ∨ q `prefix_of` snapshot_root base j ∧ m' !! q = Some NDir.

Lemma models_set_saved m m' s x :
  models m s → tidy base m' → snapshot_change m m' →
  match x with
  | None => m' !! snapshot = None
  | Some sn => m' !! snapshot = Some NDir ∧
      ∀ d x rel, tree_name d → m' !! (snapshot ++ d :: x :: rel) = as_node <$> kept d sn !! (x :: rel)
  end →
  models m' (Store (trees s) (partial_alter (λ _, x) (j, uuid_str t) (saved s))).
Proof using Hj Ht.
  intros Hm Htidy Hf Hx.
  assert (∀ p, ¬ snapshot `prefix_of` p → clear m p → clear m' p) as Hclear.
  { intros p Hp Hc q Hq. destruct (Hf q) as [->|[_ ->]]; [|by apply Hc|by right].
    intros H. apply Hp. by etransitivity. }
  assert (∀ p, (length base + 2 < length p) → ¬ snapshot `prefix_of` p → m' !! p = m !! p) as Hdeep.
  { intros p Hlen Hp. destruct (Hf p Hp) as [?|[Hq%prefix_length _]]; [done|].
    unfold snapshot_root in Hq. rewrite length_app in Hq. simpl in Hq. lia. }
  split.
  - done.
  - intros d Hd. apply Hclear; [|by apply (rep_top base m s)].
    rewrite snapshot_eq. intros H%prefix_length. rewrite !length_app in H. simpl in H. lia.
  - intros d j' r Hd Hj'. change (tree _ d j') with (tree s d j').
    rewrite <- (rep_tree base m s Hm) by done.
    destruct (Hf (root j' d ++ r)) as [?|[Hq _]]; [|done|].
    + rewrite snapshot_eq. by apply tree_path_not_snapshot.
    + exfalso. apply (tree_not_snapshots d Hd).
      apply (below_names base d SNAPSHOTS [uuid_str j'] [uuid_str j] (snapshot_root base j)); [|done].
      etransitivity; [|exact Hq]. by apply prefix_app_r.
  - intros j' Hj'. apply Hclear; [|by apply (rep_snapshots base m s)].
    rewrite snapshot_eq. unfold snapshot_root. intros H%prefix_length.
    rewrite !length_app in H. simpl in H. lia.
  - intros j' t' Hj' Ht'. simpl. destruct (decide ((j, t) = (j', t'))) as [E|Hne].
    + injection E as <- <-. rewrite lookup_partial_alter_eq. by destruct x.
    + rewrite lookup_partial_alter_ne.
      2: { intros E. apply Hne. apply (f_equal fst) in E as E1. apply (f_equal snd) in E as E2.
           cbn [fst snd] in *. apply uuid_str_inj in E2; [congruence|done..]. }
      assert (∀ k, m' !! (snapshot_of base j' t' ++ k) = m !! (snapshot_of base j' t' ++ k)) as Hs.
      { intros k. apply Hdeep; [|by apply snapshots_apart].
        unfold snapshot_of, snapshot_root. rewrite !length_app. simpl. lia. }
      pose proof (Hs []) as Hs0. rewrite app_nil_r in Hs0.
      pose proof (rep_saved base m s Hm j' t' Hj' Ht') as H.
      destruct (saved s !! _) as [sn|]; [|by rewrite Hs0].
      destruct H as [H1 H2]. split; [by rewrite Hs0|]. intros. rewrite Hs. by apply H2.
Qed.

Lemma sim_begin_attempt m s :
  models m s → saved s !! (j, uuid_str t) = None →
  sim eq (Local.begin_attempt base j t) (ref_begin_attempt j t) m s.
Proof using Henc Hj Ht.
  intros Hm Hs. pose proof (rep_tidy base m s Hm) as Htidy.
  pose proof (rep_saved base m s Hm j t Hj Ht) as Hnone. rewrite Hs in Hnone.
  destruct (begin_attempt_ok base Henc j t m) as (m1 & Hb & Hsn);
    [done|by apply (rep_snapshots base m s)|done|].
  unfold sim, ref_begin_attempt. rewrite Hb. run. split; [|done]. simpl.
  apply (models_set_saved m m1 s (Some _)); [done|by apply (sn_tidy _ _ _ _ _ Hsn)|..].
  - intros q Hq. destruct (decide (q `prefix_of` snapshot_root base j)) as [Hp|Hp].
    + right. split; [done|]. pose proof (sn_dir _ _ _ _ _ Hsn) as Hd.
      destruct Hp as [k Hk]. unfold snapshot_of in Hd. rewrite Hk, <- app_assoc in Hd.
      eapply fs_wf_dir_prefix; [eapply tidy_wf, (sn_tidy _ _ _ _ _ Hsn)|done].
    + left. by apply (sn_frame _ _ _ _ _ Hsn).
  - split; [by apply (sn_dir _ _ _ _ _ Hsn)|]. intros d x rel Hd.
    rewrite (sn_copy _ _ _ _ _ Hsn), (rep_tree base m s Hm) by done.
    by destruct Hd as [->| ->].
Qed.

Lemma sim_complete_attempt m s :
  models m s →
  sim eq (Local.complete_attempt base j (uuid_str t)) (ref_complete_attempt j (uuid_str t)) m s.
Proof using Henc Hj Ht.
  intros Hm. pose proof (rep_tidy base m s Hm) as Htidy.
  pose proof (rep_saved base m s Hm j t Hj Ht) as Hs. unfold sim, ref_complete_attempt.
  destruct (saved s !! (j, uuid_str t)) as [sn|] eqn:E.
  - destruct Hs as [Hs _]. rewrite (complete_attempt_ok base Henc) by done.
    split; [|done]. simpl. apply (models_set_saved m _ s None); [done|..].
    + unfold snapshot_of. apply tidy_filter; [done|]. unfold snapshot_root. by apply prefix_app_r.
    + intros q Hq. left. by rewrite lookup_rmtree, decide_False.
    + by rewrite lookup_rmtree, decide_True.
  - unfold Local.complete_attempt.
    rewrite (ebind_ret_run _ _ _ m snapshot) by (by apply attempt_path_ok). run.
    unfold path_exists. rewrite (tidy_stat base m), Hs;
      [|done|apply base_prefix_snapshot|by eapply snapshot_normal].
    rewrite bool_decide_eq_false_2 by (by intros [? ?]). split; [|done]. simpl.
    eapply models_ext; [|by symmetry; apply delete_id|exact Hm]. done.
Qed.

(** [restore_dir] puts the remembered tree in place of the present one. *)
Lemma restore_missing m d :
  tidy base m → tree_name d → m !! root j d = None → clear m (root j d) →
  ∃ m', restore_dir base snapshot j d m = (m', Ret tt) ∧ tidy base m' ∧
    m' !! root j d = Some NDir ∧
    (∀ x rel, m' !! (root j d ++ x :: rel) = m !! (snapshot ++ d :: x :: rel)) ∧
    tree_change base d j m m'.
Proof using.
  intros Htidy Hd Hnone Hclear. unfold restore_dir. run. rewrite root_of_eq by done.
  unfold path_exists. rewrite (tidy_stat base m), Hnone by
    (done || apply base_prefix_root || by eapply root_normal).
  rewrite bool_decide_eq_false_2 by (by intros [? ?]). run.
  rewrite normal_join_path by auto using dir_name_normal, tree_dir_name.
  destruct (copy_tree_ok base m (snapshot ++ [d]) (root j d)) as
    (m2 & Hm2 & (Hcp & Hp & Hf) & Ht2); [done|..].
  - apply prefix_app_r, base_prefix_snapshot.
  - apply base_prefix_root.
  - apply Forall_app. split; [by eapply snapshot_normal|].
    auto using Forall_cons_2, Forall_nil_2, dir_name_normal, tree_dir_name.
  - by eapply root_normal.
  - by apply snapshot_not_root.
  - intros H. apply (root_not_snapshot base j d [uuid_str t] (snapshot ++ [d])); [done..|].
    by apply prefix_app_r.
  - done.
  - intros x rel. by apply wf_none_below; [eapply tidy_wf|].
  - exists m2. split_and!; [done|done|by apply Hp| |].
    + intros x rel. rewrite Hcp. by rewrite <- app_assoc.
    + intros q Hq. destruct (decide (q `prefix_of` root j d)) as [Hqr|Hqr].
      * right. split; [by apply (tree_below_top base d j)|by apply Hp].
      * left. by apply Hf.
Qed.

Lemma restore_ok m d :
  tidy base m → tree_name d → m !! root j d = None ∨ m !! root j d = Some NDir →
  clear m (root j d) →
  ∃ m', restore_dir base snapshot j d m = (m', Ret tt) ∧ tidy base m' ∧
    m' !! root j d = Some NDir ∧
    (∀ x rel, m' !! (root j d ++ x :: rel) = m !! (snapshot ++ d :: x :: rel)) ∧
    tree_change base d j m m'.
Proof using.
  intros Htidy Hd [Hr|Hr] Hc; [by apply restore_missing|].
  destruct (restore_dir_ok base j t m d) as (m' & ? & ? & ? & ? & Hf); [done..|by right| |].
  - unfold root_of in Hr. rewrite cons_middle, app_assoc in Hr.
    by eapply fs_wf_prefix; [eapply tidy_wf| |].
  - exists m'. split_and!; [done..|]. intros q Hq. left. by apply Hf.
Qed.

Lemma sim_restore m s sn d :
  models m s → tree_name d → saved s !! (j, uuid_str t) = Some sn →
  sim eq (restore_dir base snapshot j d) (ref_restore sn j d) m s.
Proof using Hj Ht.
  intros Hm Hd Hs. pose proof (rep_tidy base m s Hm) as Htidy.
  pose proof (rep_saved base m s Hm j t Hj Ht) as Hsn. rewrite Hs in Hsn. destruct Hsn as [_ Hsn].
  pose proof (rep_tree base m s Hm d j [] Hd Hj) as Hr. rewrite app_nil_r in Hr.
  unfold sim, ref_restore, on_tree. run.
  destruct (is_doc (tree s d j) []) eqn:Edoc.
  - apply is_doc_true in Edoc as [b Eb]. rewrite Eb in Hr. simpl in Hr.
    unfold restore_dir. run. rewrite root_of_eq by done.
    unfold path_exists. rewrite (tidy_stat base m), Hr by
      (done || apply base_prefix_root || by eapply root_normal).
    rewrite bool_decide_eq_true_2 by eauto.
    rewrite (ebind_exc_run _ _ _ m (OSError ENOTDIR)); [done|].
    unfold root_of in *. rewrite cons_middle, app_assoc in *. unfold rmtree.
    assert (m !! (base ++ [d]) = Some NDir) as Hbd by (by eapply fs_wf_prefix; [eapply tidy_wf| |]).
    rewrite (ebind_ret_run _ _ _ m ((base ++ [d]) ++ [uuid_str j])); [run; by rewrite Hr|].
    apply parent_walk_dir; [by eapply tidy_wf| | |done].
    + apply (tidy_names base m Htidy). eauto.
    + apply (tidy_link_free base); [done|by apply prefix_app_r].
  - destruct (restore_ok m d) as (m' & Hm' & Ht' & Hroot & Hcp & Hch); [done..| | |].
    + rewrite Hr. unfold is_doc in Edoc. destruct (tree s d j !! []) as [[]|]; [by right|done|by left].
    + rewrite <- (app_nil_r (root j d)). eapply models_clear; [done..|].
      by intros q ->%prefix_nil_inv.
    + rewrite Hm'. split; [|done]. simpl. apply (models_set_tree base m); [done..|].
      intros [|x rel]; [by rewrite app_nil_r, lookup_insert_eq|].
      rewrite Hcp, lookup_insert_ne by done. by apply Hsn.
Qed.

Lemma restore_saved sn d s s' :
  ref_restore sn j d s = (s', Ret tt) → saved s' = saved s.
Proof using. by intros (c & _ & ->)%on_tree_inv. Qed.

Lemma sim_rollback_attempt m s :
  models m s →
  sim eq (Local.rollback_attempt base j (uuid_str t)) (ref_rollback_attempt j (uuid_str t)) m s.
Proof using Henc Hj Ht.
  intros Hm. pose proof (rep_tidy base m s Hm) as Htidy.
  pose proof (rep_saved base m s Hm j t Hj Ht) as Hs. unfold sim, ref_rollback_attempt.
  unfold Local.rollback_attempt.
  rewrite (ebind_ret_run _ _ _ m snapshot) by (by apply attempt_path_ok). run.
  unfold is_dir. rewrite (tidy_stat base m);
    [|done|apply base_prefix_snapshot|by eapply snapshot_normal].
  destruct (saved s !! (j, uuid_str t)) as [sn|] eqn:E; [|by rewrite Hs].
  destruct Hs as [-> _]. cbn [negb]. change (sim eq
    (for_each [JOBS; ARTIFACTS] (restore_dir base snapshot j) ;;;
     Local.complete_attempt base j (uuid_str t))
    (for_each [JOBS; ARTIFACTS] (ref_restore sn j) ;;; ref_complete_attempt j (uuid_str t)) m s).
  apply (sim_bind eq eq).
  - apply (sim_bind eq eq); [apply sim_restore; [done|by left|done]|].
    intros m1 s1 [] [] Hm1 _ H1 _. apply restore_saved in H1.
    apply (sim_bind eq eq); [apply sim_restore; [done|by right|by rewrite H1]|].
    intros m2 s2 [] [] Hm2 _ _ _. by apply sim_ret.
  - intros m1 s1 [] [] Hm1 _ _ _. by apply sim_complete_attempt.
Qed.
End attempts.

(** ** Sessions *)
Section session.
Context (base : apath) (Henc : encodable base = true).

Lemma sim_answered {A : Type} (f : A → answer) (c : eff exn fs A) (c' : eff exn store A)
    (m : fs) (s : store) :
  sim base eq c c' m s → sim base eq (answered f c) (answered f c') m s.
Proof using.
  intros H. eapply sim_bind; [exact H|]. intros m' s' a _ Hm _ _ <-. by apply sim_ret.
Qed.

Lemma perform_sim c m s :
  models base m s → call_ok s c = true →
  sim base eq (perform (LocalStorageService base) c) (perform (ReferenceStorage base) c) m s.
Proof using Henc.
  intros Hm [Hids Hc]%andb_true_iff. rewrite forallb_forall in Hids.
  destruct c; apply sim_answered; simpl in Hids;
  [ apply sim_create_directory | apply sim_create_workspace | apply sim_clean_workspace
  | apply sim_write_file | apply sim_read_file | apply sim_file_exists | apply sim_file_size
  | apply sim_copy_workspace_file | apply sim_save_artifact | apply sim_check_artifact
  | apply sim_get_artifact_path | apply sim_begin_attempt | apply sim_rollback_attempt
  | apply sim_complete_attempt ]; auto.
  by apply bool_decide_eq_true in Hc.
Qed.

(** A base directory in which nothing has been stored yet *)
Lemma fresh_models m :
  tidy base m → (∀ x, m !! (base ++ [x]) = None) → models base m (Store ∅ ∅).
Proof using.
  intros Ht Hn.
  assert (∀ x k, m !! (base ++ x :: k) = None) as Hb.
  { intros x k. rewrite cons_middle, app_assoc.
    apply wf_none_below; [by eapply tidy_wf|apply Hn]. }
  assert (∀ x k, clear m (base ++ x :: k)) as Hc.
  { intros x k. apply (tidy_clear base); [done|by apply prefix_app_r|].
    intros q Hq b Hf. destruct (prefix_weak_total base q (base ++ x :: k)) as [[[|y l] ->]|[l Hl]];
      [by apply prefix_app_r|done|..].
    - rewrite app_nil_r, (tidy_base base m Ht) in Hf. done.
    - rewrite Hb in Hf. done.
    - pose proof (tidy_base base m Ht) as Hd. rewrite Hl in Hd.
      apply fs_wf_dir_prefix in Hd; [congruence|by eapply tidy_wf]. }
  split; [done|intros d _; apply Hc| |intros j _; apply Hc|].
  - intros d j r _ _. unfold root_of. rewrite <- app_assoc. apply Hb.
  - intros j t _ _. simpl. unfold snapshot_of, snapshot_root. rewrite <- app_assoc. apply Hb.
Qed.
End session.

(** C3: The local storage implements the contract of the interface.  As long
    as only directories and regular files lie below the base directory, a
    client that makes any sequence of calls (directories, writes, reads,
    copies, publications, downloads, clean-ups, attempts that are begun,
    completed or rolled back, with any path texts and contents, refused and
    failing calls included) gets from [LocalStorageService] exactly the
    answers and exceptions of the reference store, in which paths are looked
    up by their text in finite maps and an attempt is a remembered value; and
    the two stay related afterwards. *)
Theorem storage_refines base calls m s :
  encodable base = true → models base m s → session_ok base calls s = true →
  let '(m', answers) := session (LocalStorageService base) calls m in
  let '(s', expected) := session (ReferenceStorage base) calls s in
  answers = expected ∧ models base m' s'.
Proof.
  intros Henc. revert m s. induction calls as [|c calls IH]; intros m s Hm Hok; [done|].
  simpl in Hok. apply andb_true_iff in Hok as [Hc Hok].
  pose proof (perform_sim base Henc c m s Hm Hc) as [Hm1 Ho]. cbn [session].
  destruct (perform (LocalStorageService base) c m) as [m1 o1].
  destruct (perform (ReferenceStorage base) c s) as [s1 o2]. simpl in Hm1, Ho, Hok.
  specialize (IH m1 s1 Hm1 Hok).
  destruct (session (LocalStorageService base) calls m1) as [m2 os1].
  destruct (session (ReferenceStorage base) calls s1) as [s2 os2].
  destruct IH as [-> Hm2]. split; [|done]. f_equal.
  destruct o1, o2; [by f_equal|done..|by f_equal].
Qed.

Module Demo.
Definition base : apath := Storage.Demo.base.
Definition fs0 : fs := Storage.Demo.fs0.

Lemma fs0_models : models base fs0 (Store ∅ ∅).
Proof.
  apply fresh_models; [apply is_tidy_spec; vm_compute; reflexivity|].
  intros x. unfold fs0, Storage.Demo.fs0. rewrite lookup_insert_ne by done.
  rewrite lookup_singleton_ne; [done|]. unfold base, Storage.Demo.base. by intros [=].
Qed.

(** An attempt that is rolled back, a refused path, a name that is taken *)
Definition calls : list storage_call :=
  [ CreateWorkspace 5;
    WriteFile 5 (py "a/model.scad") (Text (py "cube(1);"));
    BeginAttempt 5 7;
    WriteFile 5 (py "a/model.scad") (Text (py "oops"));
    WriteFile 5 (py "a/model.scad/x") (Raw []);
    CreateDirectory 5 (py "b");
    RollbackAttempt 5 7;
    ReadFile 5 (py "./a//model.scad");
    WorkspaceFileExists 5 (py "b/..");
    WriteFile 5 (py "..") (Raw []);
    SaveArtifact 5 (py "a/model.scad");
    GetArtifactPath 5 (py "a/model.scad");
    CopyWorkspaceFile 5 5 (py "a/model.scad");
    RollbackAttempt 5 7 ].

Definition expected : list (outcome exn answer) :=
  [ Ret Done; Ret Done; Ret (Token (uuid_str 7)); Ret Done; Exc (OSError EEXIST); Ret Done;
    Ret Done; Ret (Bytes (py "cube(1);")); Ret (Answer false); Exc denied; Ret Done;
    Ret (At (base ++ [ARTIFACTS; uuid_str 5; py "a"; py "model.scad"]));
    Exc (OSError ESAME);
    Exc (FileNotFoundError (py "Attempt snapshot not found: " ++ uuid_str 7)) ].

Example session_answers : (session (ReferenceStorage base) calls (Store ∅ ∅)).2 = expected.
Proof. vm_compute. reflexivity. Qed.
End Demo.

Lemma storage_refines_witness :
  let '(m', answers) := session (LocalStorageService Demo.base) Demo.calls Demo.fs0 in
  let '(s', expected) := session (ReferenceStorage Demo.base) Demo.calls (Store ∅ ∅) in
  answers = expected ∧ models Demo.base m' s'.
Proof.
  apply (storage_refines Demo.base Demo.calls Demo.fs0 (Store ∅ ∅)).
  - vm_compute. reflexivity.
  - exact Demo.fs0_models.
  - vm_compute. reflexivity.
Defined.
