(* ===== verification/Schemas.v ===== *)
(** * The action plan (llm/schemas.py)

    JSON values as [json.loads] returns them, the four action classes with
    the constraints their fields declare, and the validation of a plan.  A
    [dict] is the list of its items in insertion order.  The text of a
    pydantic error report belongs to pydantic and is not modelled: a
    [ValidationError] is [None]. *)
From S2P Require Import Prelude PyStr.

#[warnings="-register-all"]
Inductive json :=
  | JNull
  | JBool (b : bool)
  | JInt (z : Z)
  | JFloat (literal : pystr)
  | JStr (s : pystr)
  | JArr (l : list json)
  | JObj (items : list (pystr * json)).

(** [d.get(k)] *)
Fixpoint obj_get (k : pystr) (items : list (pystr * json)) : option json :=
  match items with
  | [] => None
  | (k', v) :: items' => if decide (k = k') then Some v else obj_get k items'
  end.

Definition ACTION : pystr := Eval vm_compute in py "action".
Definition PATH : pystr := Eval vm_compute in py "path".
Definition CONTENT : pystr := Eval vm_compute in py "content".
Definition TOOL_NAME : pystr := Eval vm_compute in py "tool_name".
Definition ARGS : pystr := Eval vm_compute in py "args".
Definition PLAN : pystr := Eval vm_compute in py "plan".
Definition CREATE_DIRECTORY : pystr := Eval vm_compute in py "CREATE_DIRECTORY".
Definition WRITE_FILE : pystr := Eval vm_compute in py "WRITE_FILE".
Definition RUN_TOOL : pystr := Eval vm_compute in py "RUN_TOOL".
Definition CREATE_ARTIFACT : pystr := Eval vm_compute in py "CREATE_ARTIFACT".

(** [ActionType] *)
Inductive action :=
  | CreateDirectoryAction (path : pystr)
  | WriteFileAction (path content : pystr)
  | RunToolAction (tool_name : pystr) (args : list pystr)
  | CreateArtifactAction (path : pystr).

#[export] Instance action_eq_dec : EqDecision action.
Proof. solve_decision. Defined.

(** The discriminator field *)
Definition action_type (a : action) : pystr :=
  match a with
  | CreateDirectoryAction _ => CREATE_DIRECTORY
  | WriteFileAction _ _ => WRITE_FILE
  | RunToolAction _ _ => RUN_TOOL
  | CreateArtifactAction _ => CREATE_ARTIFACT
  end.

Definition is_create_artifact (a : action) : bool :=
  match a with CreateArtifactAction _ => true | _ => false end.

(** ** Field validators *)
Definition as_str (v : option json) : option pystr :=
  match v with Some (JStr s) => Some s | _ => None end.

(** [str = Field(..., min_length=1)] *)
Definition nonempty_str (v : option json) : option pystr :=
  match as_str v with
  | Some [] => None
  | o => o
  end.

(** [List[str] = Field(default_factory=list)] *)
Definition str_list (v : option json) : option (list pystr) :=
  match v with
  | None => Some []
  | Some (JArr l) => mapM (λ x, as_str (Some x)) l
  | Some _ => None
  end.

(** Validation of one element of the plan; unknown fields are ignored. *)
Definition validate_action (v : json) : option action :=
  match v with
  | JObj items =>
      tag ← as_str (obj_get ACTION items);
      if decide (tag = CREATE_DIRECTORY) then
        path ← nonempty_str (obj_get PATH items);
        Some (CreateDirectoryAction path)
      else if decide (tag = WRITE_FILE) then
        path ← nonempty_str (obj_get PATH items);
        content ← as_str (obj_get CONTENT items);
        Some (WriteFileAction path content)
      else if decide (tag = RUN_TOOL) then
        tool_name ← nonempty_str (obj_get TOOL_NAME items);
        args ← str_list (obj_get ARGS items);
        Some (RunToolAction tool_name args)
      else if decide (tag = CREATE_ARTIFACT) then
        path ← nonempty_str (obj_get PATH items);
        Some (CreateArtifactAction path)
      else None
  | _ => None
  end.

(** [ActionPlan.model_validate(plan_data).plan] *)
Definition ActionPlan_validate (plan_data : list (pystr * json)) : option (list action) :=
  match obj_get PLAN plan_data with
  | Some (JArr l) => mapM validate_action l
  | _ => None
  end.

(** [action.model_dump(mode="json")] *)
Definition model_dump (a : action) : json :=
  match a with
  | CreateDirectoryAction path =>
      JObj [(ACTION, JStr CREATE_DIRECTORY); (PATH, JStr path)]
  | WriteFileAction path content =>
      JObj [(ACTION, JStr WRITE_FILE); (PATH, JStr path); (CONTENT, JStr content)]
  | RunToolAction tool_name args =>
      JObj [(ACTION, JStr RUN_TOOL); (TOOL_NAME, JStr tool_name); (ARGS, JArr (JStr <$> args))]
  | CreateArtifactAction path =>
      JObj [(ACTION, JStr CREATE_ARTIFACT); (PATH, JStr path)]
  end.

(** ** What validation guarantees *)
Definition action_ok (a : action) : Prop :=
  match a with
  | CreateDirectoryAction p | WriteFileAction p _ | CreateArtifactAction p => p ≠ []
  | RunToolAction t _ => t ≠ []
  end.

Lemma nonempty_str_inv v s : nonempty_str v = Some s → v = Some (JStr s) ∧ s ≠ [].
Proof.
  unfold nonempty_str, as_str. destruct v as [[]|]; try done.
  case_match; intros; simplify_eq; done.
Qed.

Lemma validate_action_ok v a : validate_action v = Some a → action_ok a.
Proof.
  unfold validate_action. destruct v; try done. intros H.
  repeat match goal with
  | H : (_ ≫= _) = Some _ |- _ => apply bind_Some in H as (? & ? & H)
  | H : (if decide _ then _ else _) = Some _ |- _ => case_decide
  | H : nonempty_str _ = Some _ |- _ => apply nonempty_str_inv in H as [_ ?]
  end; by simplify_eq.
Qed.

Lemma str_list_dump (l : list pystr) : str_list (Some (JArr (JStr <$> l))) = Some l.
Proof.
  unfold str_list. induction l as [|x l IH]; [done|].
  cbn in IH |- *. by rewrite IH.
Qed.

Lemma validate_dump a : action_ok a → validate_action (model_dump a) = Some a.
Proof.
  destruct a as [[]|[] content|[|c t] args|[]]; intros Ha; try done.
  transitivity (args' ← str_list (Some (JArr (JStr <$> args)));
                Some (RunToolAction (c :: t) args')); [reflexivity|].
  by rewrite str_list_dump.
Qed.

Lemma ActionPlan_validate_ok items l : ActionPlan_validate items = Some l → Forall action_ok l.
Proof.
  unfold ActionPlan_validate. destruct (obj_get PLAN items) as [[]|]; try done.
  intros H%mapM_Some. induction H; constructor; eauto using validate_action_ok.
Qed.

Lemma ActionPlan_validate_dump l :
  Forall action_ok l → ActionPlan_validate [(PLAN, JArr (model_dump <$> l))] = Some l.
Proof.
  intros Hl. unfold ActionPlan_validate. simpl.
  induction Hl as [|a l Ha Hl IH]; [done|]. cbn -[model_dump validate_action].
  rewrite validate_dump by done. cbn in IH |- *. by rewrite IH.
Qed.

(** C29: A validated plan is well formed and survives being stored.  Whatever
    JSON document passes the validation, every action of the plan has a path
    or a tool name that is not empty; and the plan that [save_action_plan]
    stores, action by action, validates again to the same plan, so nothing of
    it is lost. *)
Theorem stored_plan_validates items plan :
  ActionPlan_validate items = Some plan →
  Forall action_ok plan ∧
  ActionPlan_validate [(PLAN, JArr (model_dump <$> plan))] = Some plan.
Proof.
  intros H. pose proof (ActionPlan_validate_ok items plan H) as Hok.
  split; [done|by apply ActionPlan_validate_dump].
Qed.

Lemma stored_plan_validates_witness :
  Forall action_ok [CreateDirectoryAction (py "a")].
Proof.
  refine (proj1 (stored_plan_validates
    [(PLAN, JArr [JObj [(ACTION, JStr CREATE_DIRECTORY); (PATH, JStr (py "a"))]])] _ _)).
  reflexivity.
Defined.
