(* ===== verification/Database.v ===== *)
(** * The database and its sessions (jobs/models.py, database.py)

    The three tables of [jobs/models.py] and SQLAlchemy sessions over them, at
    the granularity at which they are shared: one round trip to the server.

    The rest of the world is the [script] of the database, one [tick] per
    round trip: the time that passes, the transactions other sessions commit
    before the statement runs, and what becomes of the statement itself.  A
    statement is [Delivered], [Refused] (the server did not execute it) or
    [Lost] (the server executed it, the client saw an error).  Theorems
    quantify over the script, so they hold for every interleaving and every
    pattern of failures.  A text that the driver cannot send (psycopg2 refuses
    NUL characters with [ValueError] and lone surrogates with
    [UnicodeEncodeError]) is a statement that is [Refused] with that error:
    a theorem that assumes a database that answers is about texts that can be
    sent.

    Isolation is PostgreSQL's READ COMMITTED: a statement sees what is
    committed when it starts and what its own transaction did, and a row that
    a transaction updated is locked until it ends, so an update of it by
    another session is not committed before that. *)
From stdpp Require Export gmap.
From S2P Require Import Prelude PyStr Exceptions Schemas.

(** ** jobs/models.py *)
Inductive status := CREATED | RUNNING | COMPLETED | FAILED.
#[export] Instance status_eq_dec : EqDecision status.
Proof. solve_decision. Defined.

Definition status_str (s : status) : pystr :=
  match s with
  | CREATED => py "CREATED"
  | RUNNING => py "RUNNING"
  | COMPLETED => py "COMPLETED"
  | FAILED => py "FAILED"
  end.

Record Job := {
  parent_job_id : option uuid;
  prompt : pystr;
  job_status : status;
  action_plan : option (list json);
  job_created_at : Z;
  updated_at : Z
}.

Record EventLog := {
  event_id : Z;
  event_job_id : uuid;
  event_type : pystr;
  message : pystr;
  event_created_at : Z
}.

Record Artifact := {
  artifact_id : uuid;
  artifact_job_id : uuid;
  relative_path : pystr;
  filename : pystr;
  content_type : pystr;
  artifact_created_at : Z
}.

Record tables := Tables {
  jobs : gmap uuid Job;
  event_logs : list EventLog;
  artifacts : list Artifact
}.

(** ** Statements that change the tables *)
Record job_update := {
  set_status : option status;
  set_action_plan : option (list json);
  set_updated_at : Z
}.

Definition update_job (u : job_update) (j : Job) : Job :=
  {| parent_job_id := parent_job_id j;
     prompt := prompt j;
     job_status := default (job_status j) (set_status u);
     action_plan := match set_action_plan u with Some p => Some p | None => action_plan j end;
     job_created_at := job_created_at j;
     updated_at := set_updated_at u |}.

Inductive op :=
  | InsertJob (id : uuid) (j : Job)
  | InsertEventLog (e : EventLog)
  | InsertArtifact (a : Artifact)
  | UpdateJob (id : uuid) (u : job_update).

Definition apply_op (t : tables) (o : op) : tables :=
  match o with
  | InsertJob id j => Tables (<[id := j]> (jobs t)) (event_logs t) (artifacts t)
  | InsertEventLog e => Tables (jobs t) (event_logs t ++ [e]) (artifacts t)
  | InsertArtifact a => Tables (jobs t) (event_logs t) (artifacts t ++ [a])
  | UpdateJob id u => Tables (alter (update_job u) id (jobs t)) (event_logs t) (artifacts t)
  end.

Definition apply_ops (t : tables) (ops : list op) : tables := foldl apply_op t ops.

(** ** Objects that [Session.add] makes pending *)
Inductive row :=
  | NewJob (id : uuid) (parent : option uuid) (prompt : pystr) (st : status)
  | NewEventLog (job_id : uuid) (event_type message : pystr)
  | NewArtifact (id job_id : uuid) (relative_path filename content_type : pystr).

Definition has_job (t : tables) (id : uuid) : bool :=
  match jobs t !! id with Some _ => true | None => false end.

(** One INSERT: the server defaults ([now()], the [event_logs] sequence), the
    primary key and the foreign keys.  The sequence is not part of the
    transaction: a number it gave out is never given out again. *)
Definition insert_row (now : Z) (next : Z) (t : tables) (r : row) : Z * option op :=
  match r with
  | NewJob id parent prompt st =>
      (next,
       if negb (has_job t id) && from_option (has_job t) true parent
       then Some (InsertJob id
              {| parent_job_id := parent; prompt := prompt; job_status := st;
                 action_plan := None; job_created_at := now; updated_at := now |})
       else None)
  | NewEventLog job_id ty msg =>
      ((next + 1)%Z,
       if has_job t job_id
       then Some (InsertEventLog
              {| event_id := next; event_job_id := job_id; event_type := ty;
                 message := msg; event_created_at := now |})
       else None)
  | NewArtifact id job_id path name ct =>
      (next,
       if has_job t job_id && forallb (λ a, negb (bool_decide (artifact_id a = id))) (artifacts t)
       then Some (InsertArtifact
              {| artifact_id := id; artifact_job_id := job_id; relative_path := path;
                 filename := name; content_type := ct; artifact_created_at := now |})
       else None)
  end.

Fixpoint insert_rows (now : Z) (next : Z) (t : tables) (rows : list row) : Z * option (list op) :=
  match rows with
  | [] => (next, Some [])
  | r :: rows' =>
      match insert_row now next t r with
      | (next', Some o) =>
          match insert_rows now next' (apply_op t o) rows' with
          | (next'', ops) => (next'', (o ::.) <$> ops)
          end
      | (next', None) => (next', None)
      end
  end.

(** ** The world outside the session *)
Inductive transaction :=
  | TxInsert (rows : list row)
  | TxTransition (id : uuid) (expected : list status) (target : status) (event message : pystr)
  | TxPlan (id : uuid) (plan : list json).

Inductive reply := Delivered | Refused (e : exn) | Lost (e : exn).

Record tick := Tick { elapsed : nat; others : list transaction; answer : reply }.

Record database := Database {
  committed : tables;
  next_event_id : Z;
  clock : Z;
  script : list tick
}.

Record session := Session {
  pending : list row;        (* added, not flushed *)
  work : list op;            (* flushed or executed, not committed *)
  started : option Z;        (* [now()] of the open transaction *)
  aborted : bool             (* failed, waits for [rollback] *)
}.

Definition fresh_session : session := Session [] [] None false.

(** The row of the job [id] is held by a statement of the transaction. *)
Definition touches (id : uuid) (o : op) : bool :=
  match o with
  | UpdateJob id' _ | InsertJob id' _ => bool_decide (id = id')
  | _ => false
  end.

Definition is_locked (s : session) (id : uuid) : bool := existsb (touches id) (work s).

Definition row_locked (locked : uuid → bool) (r : row) : bool :=
  match r with NewJob id _ _ _ => locked id | _ => false end.

(** Another session's transaction, all of it or nothing. *)
Definition commit_other (locked : uuid → bool) (d : database) (x : transaction) : database :=
  match x with
  | TxInsert rows =>
      if existsb (row_locked locked) rows then d
      else
        match insert_rows (clock d) (next_event_id d) (committed d) rows with
        | (next, Some ops) => Database (apply_ops (committed d) ops) next (clock d) (script d)
        | (next, None) => Database (committed d) next (clock d) (script d)
        end
  | TxTransition id expected target ty msg =>
      match jobs (committed d) !! id with
      | Some j =>
          if negb (locked id) && bool_decide (job_status j ∈ expected) then
            let u := {| set_status := Some target; set_action_plan := None;
                        set_updated_at := clock d |} in
            let e := {| event_id := next_event_id d; event_job_id := id; event_type := ty;
                        message := msg; event_created_at := clock d |} in
            Database (apply_ops (committed d) [UpdateJob id u; InsertEventLog e])
              (next_event_id d + 1) (clock d) (script d)
          else d
      | None => d
      end
  | TxPlan id plan =>
      match jobs (committed d) !! id with
      | Some j =>
          if negb (locked id) && bool_decide (job_status j = RUNNING) then
            let u := {| set_status := None; set_action_plan := Some plan;
                        set_updated_at := clock d |} in
            Database (apply_op (committed d) (UpdateJob id u))
              (next_event_id d) (clock d) (script d)
          else d
      | None => d
      end
  end.

Definition elapse (k : tick) (ks : list tick) (d : database) : database :=
  Database (committed d) (next_event_id d) (clock d + Z.of_nat (elapsed k)) ks.

(** What happens up to the moment the server handles the next statement. *)
Definition next_tick (locked : uuid → bool) (d : database) : database * reply :=
  match script d with
  | [] => (d, Delivered)
  | k :: ks => (foldl (commit_other locked) (elapse k ks d) (others k), answer k)
  end.

(** ** The session API *)
Abbreviation conn := (database * session)%type.

Definition view (c : conn) : tables := apply_ops (committed c.1) (work c.2).

Definition abort (s : session) : session := Session [] [] (started s) true.

(** One statement of the open transaction, the transaction being opened by the
    first.  After an error SQLAlchemy refuses to go on before a rollback. *)
Definition statement {A} (run : conn → conn * outcome exn A) : eff exn conn A := λ c,
  if aborted c.2 then (c, Exc OtherSQLAlchemyError)
  else
    match next_tick (is_locked c.2) c.1 with
    | (d, r) =>
        let s := Session (pending c.2) (work c.2) (Some (default (clock d) (started c.2))) false in
        match r with
        | Delivered => run (d, s)
        | Refused e | Lost e => ((d, abort s), Exc e)
        end
    end.

Definition now (c : conn) : Z := default (clock c.1) (started c.2).

(** [db.query(...)...first()], [.all()] *)
Definition query {A} (f : tables → A) : eff exn conn A :=
  statement (λ c, (c, Ret (f (view c)))).

(** [db.query(Job).filter(Job.id == id, p).update(...)]: the row count *)
Definition update_where (id : uuid) (p : Job → bool) (u : Z → job_update) : eff exn conn nat :=
  statement (λ c,
    match jobs (view c) !! id with
    | Some j =>
        if p j then
          ((c.1, Session (pending c.2) (work c.2 ++ [UpdateJob id (u (now c))])
                   (started c.2) false), Ret 1%nat)
        else (c, Ret 0%nat)
    | None => (c, Ret 0%nat)
    end).

Definition add (r : row) : eff exn conn unit :=
  modify (λ c, (c.1, Session (pending c.2 ++ [r]) (work c.2) (started c.2) (aborted c.2))).

Definition add_all (rs : list row) : eff exn conn unit :=
  modify (λ c, (c.1, Session (pending c.2 ++ rs) (work c.2) (started c.2) (aborted c.2))).

(** [db.flush()]: the pending objects become INSERTs; an integrity error
    aborts the transaction. *)
Definition flush : eff exn conn unit := λ c,
  if decide (pending c.2 = []) then
    if aborted c.2 then (c, Exc OtherSQLAlchemyError) else (c, Ret tt)
  else statement (λ c,
    match insert_rows (now c) (next_event_id c.1) (view c) (pending c.2) with
    | (next, Some ops) =>
        ((Database (committed c.1) next (clock c.1) (script c.1),
          Session [] (work c.2 ++ ops) (started c.2) false), Ret tt)
    | (next, None) =>
        ((Database (committed c.1) next (clock c.1) (script c.1), abort c.2),
         Exc (DBAPIError false))
    end) c.

Definition publish (d : database) (s : session) : database :=
  Database (apply_ops (committed d) (work s)) (next_event_id d) (clock d) (script d).

(** [db.commit()]; nothing is sent when no transaction was opened. *)
Definition commit : eff exn conn unit :=
  ebind flush (λ _ c,
    match started c.2 with
    | None => (c, Ret tt)
    | Some _ =>
        match next_tick (is_locked c.2) c.1 with
        | (d, Delivered) => ((publish d c.2, fresh_session), Ret tt)
        | (d, Refused e) => ((d, abort c.2), Exc e)
        | (d, Lost e) => ((publish d c.2, abort c.2), Exc e)
        end
    end).

(** [db.rollback()]: nothing is sent when no transaction was opened; otherwise
    ROLLBACK may fail like any statement, and SQLAlchemy re-raises the error.
    The work of the transaction is lost either way. *)
Definition rollback : eff exn conn unit := λ c,
  match started c.2 with
  | None => ((c.1, fresh_session), Ret tt)
  | Some _ =>
      match next_tick (is_locked c.2) c.1 with
      | (d, Delivered) => ((d, fresh_session), Ret tt)
      | (d, (Refused e | Lost e)) => ((d, fresh_session), Exc e)
      end
  end.

(** [db = session_factory(); try: m finally: db.close()]; closing gives up what
    is not committed and is taken to succeed. *)
Definition with_session {A} (m : eff exn conn A) : eff exn database A := λ d,
  match m (d, fresh_session) with (c, o) => (c.1, o) end.
