(* ===== verification/DatabaseFacts.v ===== *)
(** * What sessions preserve

    The life of a job as a step relation on its status, the relation
    [evolves] between two contents of the tables (jobs only move forward, no
    log or artifact disappears), and the proof that every session operation
    respects it whatever the other sessions do, provided they are sessions of
    this program ([script_ok]). *)
From S2P Require Import Prelude PyStr Exceptions Schemas Database.

(** ** The life of a job *)
Inductive status_step : status → status → Prop :=
  | step_start : status_step CREATED RUNNING
  | step_reject : status_step CREATED FAILED
  | step_complete : status_step RUNNING COMPLETED
  | step_fail : status_step RUNNING FAILED.

Abbreviation reach := (rtc status_step).

Definition terminal (s : status) : bool :=
  match s with COMPLETED | FAILED => true | _ => false end.

Lemma reach_terminal s s' : terminal s = true → reach s s' → s' = s.
Proof. intros Ht [->|(y & H & _)]%rtc_inv; [done|]. by inversion H; subst. Qed.

Lemma reach_not_created s : reach RUNNING s → s ≠ CREATED.
Proof.
  intros [<-|(y & H & Hy)]%rtc_inv; [done|].
  by inversion H; subst; apply reach_terminal in Hy as ->.
Qed.

(** ** Evolution of the tables *)
Definition job_evolves (j j' : Job) : Prop :=
  reach (job_status j) (job_status j') ∧
  parent_job_id j' = parent_job_id j ∧ prompt j' = prompt j ∧
  job_created_at j' = job_created_at j.

Definition evolves (t t' : tables) : Prop :=
  (∀ id j, jobs t !! id = Some j → ∃ j', jobs t' !! id = Some j' ∧ job_evolves j j') ∧
  event_logs t `prefix_of` event_logs t' ∧
  artifacts t `prefix_of` artifacts t'.

#[export] Instance job_evolves_preorder : PreOrder job_evolves.
Proof.
  split.
  - by intros j.
  - intros j1 j2 j3 (?&?&?&?) (?&?&?&?). split_and!; [by etrans|congruence..].
Qed.

#[export] Instance evolves_preorder : PreOrder evolves.
Proof.
  split.
  - intros t. split_and!; [|done..]. intros id j Hj. exists j. split; done.
  - intros t1 t2 t3 (H12&?&?) (H23&?&?). split_and!; [|by etrans..].
    intros id j (j2 & Hj2 & ?)%H12. apply H23 in Hj2 as (j3 & ? & ?).
    exists j3. split; [done|by etrans].
Qed.

(** A statement that may be applied to the tables it meets. *)
Definition op_ok (t : tables) (o : op) : Prop :=
  match o with
  | InsertJob id _ => jobs t !! id = None
  | UpdateJob id u =>
      ∀ j s, jobs t !! id = Some j → set_status u = Some s → reach (job_status j) s
  | InsertEventLog _ | InsertArtifact _ => True
  end.

Fixpoint ops_ok (t : tables) (ops : list op) : Prop :=
  match ops with
  | [] => True
  | o :: ops' => op_ok t o ∧ ops_ok (apply_op t o) ops'
  end.

Lemma apply_op_evolves t o : op_ok t o → evolves t (apply_op t o).
Proof.
  destruct o as [id j|e|a|id u]; simpl; intros Hok; split_and!; simpl; try done;
    try by eexists.
  - intros id' j' Hj'. exists j'. split; [|done].
    rewrite lookup_insert_ne by congruence. done.
  - intros id' j' Hj'. destruct (decide (id = id')) as [<-|Hne].
    + rewrite lookup_alter_eq, Hj'. eexists; split; [done|]. split_and!; try done.
      simpl. destruct (set_status u) as [s|] eqn:Hs; simpl; [by eapply Hok|done].
    + rewrite lookup_alter_ne by done. exists j'. split; done.
Qed.

Lemma apply_ops_cons t o ops : apply_ops t (o :: ops) = apply_ops (apply_op t o) ops.
Proof. done. Qed.

Lemma apply_ops_app t ops1 ops2 :
  apply_ops t (ops1 ++ ops2) = apply_ops (apply_ops t ops1) ops2.
Proof. apply foldl_app. Qed.

Lemma apply_ops_evolves t ops : ops_ok t ops → evolves t (apply_ops t ops).
Proof.
  revert t. induction ops as [|o ops IH]; intros t; simpl; [done|].
  intros [Ho Hops]. etrans; [by apply apply_op_evolves|by apply IH].
Qed.

Lemma ops_ok_app t ops1 ops2 :
  ops_ok t (ops1 ++ ops2) ↔ ops_ok t ops1 ∧ ops_ok (apply_ops t ops1) ops2.
Proof.
  revert t. induction ops1 as [|o ops1 IH]; intros t; simpl; [tauto|]. rewrite IH. tauto.
Qed.

(** Statements depend on the rows they lock only. *)
Lemma apply_op_jobs t o id : touches id o = false → jobs (apply_op t o) !! id = jobs t !! id.
Proof.
  destruct o; simpl; try done; case_bool_decide; try done; intros _.
  - by rewrite lookup_insert_ne.
  - by rewrite lookup_alter_ne.
Qed.

Lemma apply_ops_jobs t ops id :
  existsb (touches id) ops = false → jobs (apply_ops t ops) !! id = jobs t !! id.
Proof.
  revert t. induction ops as [|o ops IH]; intros t; simpl; [done|].
  intros [Ho Hops]%orb_false_iff. rewrite IH by done. by apply apply_op_jobs.
Qed.

Lemma apply_op_agree t t' o id :
  jobs t !! id = jobs t' !! id → jobs (apply_op t o) !! id = jobs (apply_op t' o) !! id.
Proof.
  intros H. destruct o as [id' j|e|a|id' u]; simpl; try done;
    destruct (decide (id' = id)) as [<-|].
  - by rewrite !lookup_insert_eq.
  - by rewrite !lookup_insert_ne.
  - by rewrite !lookup_alter_eq, H.
  - by rewrite !lookup_alter_ne.
Qed.

Lemma ops_ok_agree t t' ops :
  (∀ id, existsb (touches id) ops = true → jobs t !! id = jobs t' !! id) →
  ops_ok t ops → ops_ok t' ops.
Proof.
  revert t t'. induction ops as [|o ops IH]; intros t t' Hag; simpl; [done|].
  intros [Ho Hops]. split.
  - destruct o as [id j|e|a|id u]; simpl in *; try done;
      rewrite <-(Hag id) by (by rewrite bool_decide_true); done.
  - eapply IH; [|done]. intros id Hid. apply apply_op_agree, Hag. simpl.
    rewrite Hid. apply orb_true_r.
Qed.

(** ** Event ids *)
Definition op_log (o : op) : option EventLog :=
  match o with InsertEventLog e => Some e | _ => None end.

(** Logs numbered from the sequence while it moved from [n] to [n']. *)
Definition numbered (n n' : Z) (l : list EventLog) : Prop :=
  (n ≤ n')%Z ∧ NoDup (event_id <$> l) ∧ Forall (λ e, n ≤ event_id e < n')%Z l.

Lemma numbered_nil n n' : (n ≤ n')%Z → numbered n n' [].
Proof. intros. split_and!; [done|constructor..]. Qed.

Lemma numbered_app n1 n2 n3 l1 l2 :
  numbered n1 n2 l1 → numbered n2 n3 l2 → numbered n1 n3 (l1 ++ l2).
Proof.
  intros (?&?&H1) (?&?&H2). split_and!; [lia| |].
  - rewrite fmap_app. apply NoDup_app. split_and!; [done| |done].
    intros x (e1 & -> & He1)%list_elem_of_fmap (e2 & Heq & He2)%list_elem_of_fmap.
    rewrite Forall_forall in H1, H2. specialize (H1 _ He1). specialize (H2 _ He2). lia.
  - apply Forall_app. split; (eapply Forall_impl; [eassumption|]); simpl; lia.
Qed.

Lemma numbered_singleton n e : event_id e = n → numbered n (n + 1) [e].
Proof.
  intros <-. split_and!; [lia|apply NoDup_singleton|].
  apply Forall_singleton; lia.
Qed.

Lemma apply_ops_logs t ops : event_logs (apply_ops t ops) = event_logs t ++ omap op_log ops.
Proof.
  revert t. induction ops as [|o ops IH]; intros t; simpl; [by rewrite app_nil_r|].
  rewrite IH. destruct o; simpl; try done. by rewrite <-app_assoc.
Qed.

Lemma insert_row_ok now next t r next' o :
  insert_row now next t r = (next', Some o) →
  op_ok t o ∧ numbered next next' (omap op_log [o]) ∧
  ∀ locked, row_locked locked r = false → ∀ id, touches id o = true → locked id = false.
Proof.
  unfold insert_row, has_job. destruct r as [id p pr st|id ty msg|id job path name ct];
    case_match; intros [= <- <-]; simpl; split_and!; try done.
  all: try by apply numbered_nil.
  - by destruct (jobs t !! id).
  - intros locked Hl id'. by case_bool_decide; simplify_eq.
  - by apply numbered_singleton.
Qed.

Lemma insert_rows_ok now next t rows next' ops :
  insert_rows now next t rows = (next', Some ops) →
  ops_ok t ops ∧ numbered next next' (omap op_log ops) ∧
  ∀ locked, existsb (row_locked locked) rows = false →
    ∀ id, existsb (touches id) ops = true → locked id = false.
Proof.
  revert next t ops. induction rows as [|r rows IH]; intros next t ops; simpl.
  { intros [= <- <-]. split_and!; [done|by apply numbered_nil|done]. }
  destruct (insert_row now next t r) as [n1 [o|]] eqn:Hr; [|done].
  destruct (insert_rows now n1 (apply_op t o) rows) as [n2 [ops'|]] eqn:Hrs; [|done].
  intros [= <- <-]. apply insert_row_ok in Hr as (Ho & Hn & Hl).
  apply IH in Hrs as (Hops & Hns & Hls). split_and!; [done..| |].
  - change (o :: ops') with ([o] ++ ops'). rewrite omap_app. by eapply numbered_app.
  - intros locked [Hr1 Hr2]%orb_false_iff id. simpl.
    intros [Hid|Hid]%orb_true_iff; eauto.
Qed.

Lemma insert_row_next now next t r : (next ≤ (insert_row now next t r).1)%Z.
Proof. destruct r; simpl; lia. Qed.

Lemma insert_rows_next now next t rows : (next ≤ (insert_rows now next t rows).1)%Z.
Proof.
  revert next t. induction rows as [|r rows IH]; intros next t; simpl; [done|].
  pose proof (insert_row_next now next t r) as Hr.
  destruct (insert_row now next t r) as [n1 [o|]]; simpl in *; [|done].
  specialize (IH n1 (apply_op t o)).
  destruct (insert_rows now n1 (apply_op t o) rows); simpl in *. lia.
Qed.

(** ** The other sessions *)
Definition tx_ok (x : transaction) : Prop :=
  match x with
  | TxTransition _ expected target _ _ => Forall (λ s, reach s target) expected
  | _ => True
  end.

Definition script_ok (d : database) : Prop :=
  Forall (λ k, Forall tx_ok (others k)) (script d).

(** What the others may do to a database while some rows are locked. *)
Definition drift (locked : uuid → bool) (d d' : database) : Prop :=
  evolves (committed d) (committed d') ∧
  (∀ id, locked id = true → jobs (committed d') !! id = jobs (committed d) !! id) ∧
  (clock d ≤ clock d')%Z ∧
  ∃ new, event_logs (committed d') = event_logs (committed d) ++ new ∧
    numbered (next_event_id d) (next_event_id d') new.

#[export] Instance drift_preorder locked : PreOrder (drift locked).
Proof.
  split.
  - intros d. split_and!; try done. exists []. rewrite app_nil_r.
    split; [done|by apply numbered_nil].
  - intros d1 d2 d3 (He1 & Hl1 & Hc1 & n1 & Hn1 & Hid1) (He2 & Hl2 & Hc2 & n2 & Hn2 & Hid2).
    split_and!; [by etrans| |lia|].
    + intros id Hid. by rewrite Hl2, Hl1.
    + exists (n1 ++ n2). rewrite Hn2, Hn1, app_assoc. split; [done|by eapply numbered_app].
Qed.

Lemma drift_ops locked d ops next cl ks :
  ops_ok (committed d) ops →
  (∀ id, existsb (touches id) ops = true → locked id = false) →
  numbered (next_event_id d) next (omap op_log ops) →
  (clock d ≤ cl)%Z →
  drift locked d (Database (apply_ops (committed d) ops) next cl ks).
Proof.
  intros Hok Hl Hn Hc. split_and!; [by apply apply_ops_evolves| |done|].
  - intros id Hid. apply apply_ops_jobs. apply not_true_iff_false. intros Ht%Hl. congruence.
  - exists (omap op_log ops). split; [apply apply_ops_logs|done].
Qed.

Lemma commit_other_drift locked d x : tx_ok x → drift locked d (commit_other locked d x).
Proof.
  destruct x as [rows|id expected target ty msg|id plan]; unfold commit_other; intros Hx.
  - destruct (existsb (row_locked locked) rows) eqn:Hl; [done|].
    pose proof (insert_rows_next (clock d) (next_event_id d) (committed d) rows) as Hle.
    destruct (insert_rows _ _ _ rows) as [n [ops|]] eqn:Hr; simpl in Hle.
    + apply insert_rows_ok in Hr as (? & ? & ?). apply drift_ops; eauto; lia.
    + apply (drift_ops locked d []); [done|done|by apply numbered_nil|done].
  - destruct (jobs (committed d) !! id) as [j|] eqn:Hj; [|done].
    destruct (locked id) eqn:Hl; [done|]. cbn [negb andb]. case_bool_decide as Hs; [|done].
    apply drift_ops; [| |by apply numbered_singleton|done].
    + split; [|done]. intros j' s Hj' [= <-]. simplify_eq. simpl in Hx.
      rewrite Forall_forall in Hx. by apply Hx.
    + intros id'. simpl. rewrite !orb_false_r. by case_bool_decide; simplify_eq.
  - destruct (jobs (committed d) !! id) as [j|] eqn:Hj; [|done].
    destruct (locked id) eqn:Hl; [done|]. cbn [negb andb]. case_bool_decide as Hs; [|done].
    apply (drift_ops locked d [UpdateJob id _]); [|..|by apply numbered_nil|done].
    + by split.
    + intros id'. simpl. rewrite !orb_false_r. by case_bool_decide; simplify_eq.
Qed.

Lemma commit_other_script locked d x : script (commit_other locked d x) = script d.
Proof. destruct x; simpl; repeat case_match; done. Qed.

Lemma commit_others_drift locked d xs :
  Forall tx_ok xs → drift locked d (foldl (commit_other locked) d xs).
Proof.
  intros Hxs. revert d. induction Hxs as [|x xs Hx Hxs IH]; intros d; simpl; [done|].
  etrans; [by apply commit_other_drift|apply IH].
Qed.

Lemma commit_others_script locked d xs :
  script (foldl (commit_other locked) d xs) = script d.
Proof.
  revert d. induction xs as [|x xs IH]; intros d; simpl; [done|].
  rewrite IH. apply commit_other_script.
Qed.

Lemma commit_others_logs locked xs d :
  event_logs (committed d) `prefix_of` event_logs (committed (foldl (commit_other locked) d xs)).
Proof.
  revert d. induction xs as [|x xs IH]; intros d; simpl; [done|]. etrans; [|apply IH].
  destruct x as [rows|id expected target ty msg|id plan]; simpl;
    repeat case_match; simpl; rewrite ?apply_ops_logs; try done; by apply prefix_app_r.
Qed.

Lemma next_tick_drift locked d d' r :
  script_ok d → next_tick locked d = (d', r) → script_ok d' ∧ drift locked d d'.
Proof.
  unfold next_tick, script_ok. intros Hs.
  destruct (script d) as [|k ks] eqn:Hd; [intros [= <- _]; by rewrite Hd|].
  intros [= <- _]. apply Forall_cons in Hs as [Hk Hks].
  rewrite commit_others_script. split; [done|].
  etrans; [|by apply commit_others_drift].
  apply (drift_ops locked d [] _ (clock d + Z.of_nat (elapsed k))); [done|done| |lia].
  by apply numbered_nil.
Qed.

(** ** Sessions *)
Definition ids_ok (l : list EventLog) (next : Z) : Prop :=
  NoDup (event_id <$> l) ∧ Forall (λ e, event_id e < next)%Z l.

Definition db_ok (d : database) : Prop :=
  script_ok d ∧ ids_ok (event_logs (committed d)) (next_event_id d).

Definition conn_ok (c : conn) : Prop :=
  script_ok c.1 ∧ ops_ok (committed c.1) (work c.2) ∧
  ids_ok (event_logs (view c)) (next_event_id c.1).

Definition progress (d d' : database) : Prop :=
  evolves (committed d) (committed d') ∧ (next_event_id d ≤ next_event_id d')%Z ∧
  (clock d ≤ clock d')%Z.

#[export] Instance progress_preorder : PreOrder progress.
Proof.
  split.
  - intros d. split_and!; done.
  - intros d1 d2 d3 (?&?&?) (?&?&?). split_and!; [by etrans|lia..].
Qed.

Lemma drift_progress locked d d' : drift locked d d' → progress d d'.
Proof. intros (?&_&?&new&_&?&_). by split_and!. Qed.

Definition db_step (d d' : database) : Prop := db_ok d → db_ok d' ∧ progress d d'.
Definition conn_step (c c' : conn) : Prop := conn_ok c → conn_ok c' ∧ progress c.1 c'.1.

#[export] Instance db_step_preorder : PreOrder db_step.
Proof.
  split; [by intros d Hd|]. intros d1 d2 d3 H12 H23 H1.
  destruct (H12 H1) as [H2 ?]. destruct (H23 H2) as [H3 ?]. split; [done|by etrans].
Qed.

#[export] Instance conn_step_preorder : PreOrder conn_step.
Proof.
  split; [by intros c Hc|]. intros c1 c2 c3 H12 H23 H1.
  destruct (H12 H1) as [H2 ?]. destruct (H23 H2) as [H3 ?]. split; [done|by etrans].
Qed.

(** New logs, numbered from the sequence, go anywhere among the old ones. *)
Lemma ids_ok_extend l1 l2 new n n' :
  ids_ok (l1 ++ l2) n → numbered n n' new → ids_ok (l1 ++ new ++ l2) n'.
Proof.
  intros [Hnd Hlt] (Hle & Hnd' & Hrg). split.
  - assert (Hp : event_id <$> l1 ++ new ++ l2 ≡ₚ (event_id <$> l1 ++ l2) ++ (event_id <$> new)).
    { rewrite <-fmap_app. apply Permutation.Permutation_map. solve_Permutation. }
    rewrite Hp. apply NoDup_app. split_and!; [done| |done].
    intros x (e1 & -> & He1)%list_elem_of_fmap (e2 & Heq & He2)%list_elem_of_fmap.
    rewrite Forall_forall in Hlt, Hrg. specialize (Hlt _ He1). specialize (Hrg _ He2). lia.
  - apply Forall_app in Hlt as [H1 H2]. rewrite !Forall_app.
    split_and!; (eapply Forall_impl; [eassumption|]); simpl; lia.
Qed.

Lemma ids_ok_prefix l1 l2 n : ids_ok (l1 ++ l2) n → ids_ok l1 n.
Proof.
  intros [Hnd Hlt]. rewrite fmap_app in Hnd. apply NoDup_app in Hnd as (?&_&_).
  apply Forall_app in Hlt as [? _]. by split.
Qed.

Lemma conn_ok_drift d d' s s' :
  work s' = work s → conn_ok (d, s) → script_ok d' → drift (is_locked s) d d' → conn_ok (d', s').
Proof.
  unfold conn_ok, view. simpl. intros Hw (_ & Hops & Hids) Hs (_ & Hlock & _ & new & Hnew & Hnum).
  rewrite Hw. split_and!; [done| |].
  - eapply ops_ok_agree; [|done]. intros id Hid. symmetry. by apply Hlock.
  - rewrite apply_ops_logs in Hids |- *. rewrite Hnew, <-app_assoc. by eapply ids_ok_extend.
Qed.

Lemma conn_ok_work d s s' ops next :
  work s' = work s ++ ops → ops_ok (view (d, s)) ops →
  numbered (next_event_id d) next (omap op_log ops) →
  conn_ok (d, s) → conn_ok (Database (committed d) next (clock d) (script d), s').
Proof.
  unfold conn_ok, view. simpl. intros Hw Hops Hn (? & ? & Hids). rewrite Hw.
  split_and!; [done|by apply ops_ok_app|].
  rewrite apply_ops_app, (apply_ops_logs _ ops).
  rewrite <-(app_nil_r (omap _ _)). eapply ids_ok_extend; [by rewrite app_nil_r|done].
Qed.

Lemma conn_ok_forget d s s' : work s' = [] → conn_ok (d, s) → conn_ok (d, s').
Proof.
  unfold conn_ok, view. simpl. intros -> (? & ? & Hids). split_and!; [done..|].
  rewrite apply_ops_logs in Hids. by eapply ids_ok_prefix.
Qed.

Lemma conn_ok_publish d s s' :
  work s' = [] → conn_ok (d, s) → conn_ok (publish d s, s') ∧ progress d (publish d s).
Proof.
  unfold conn_ok, view. simpl. intros -> (? & ? & Hids). split; [by split_and!|].
  split_and!; try done. by apply apply_ops_evolves.
Qed.

Lemma conn_ok_db d s : conn_ok (d, s) → db_ok d.
Proof.
  unfold conn_ok, view. simpl. intros (? & _ & Hids). split; [done|].
  rewrite apply_ops_logs in Hids. by eapply ids_ok_prefix.
Qed.

Lemma conn_ok_fresh d : db_ok d → conn_ok (d, fresh_session).
Proof. intros [? ?]. by split_and!. Qed.

Lemma steps_statement {A} (run : eff exn conn A) :
  steps conn_step run → steps conn_step (statement run).
Proof.
  intros Hrun [d s] Hok. unfold statement. destruct (aborted _); [done|].
  destruct (next_tick _ _) as [d' r] eqn:Ht.
  apply next_tick_drift in Ht as [Hs Hd]; [|apply Hok]. simpl in *.
  pose proof (drift_progress _ _ _ Hd) as Hp.
  destruct r as [|e|e]; simpl.
  2-3: split; [|done]; eapply conn_ok_forget, conn_ok_drift; eauto; done.
  destruct (Hrun (d', Session (pending s) (work s) (Some (default (clock d') (started s))) false))
    as [? ?]; [by eapply conn_ok_drift|].
  split; [done|by etrans].
Qed.

Lemma steps_query {A} (f : tables → A) : steps conn_step (query f).
Proof. apply steps_statement. intros c; simpl. reflexivity. Qed.

Lemma steps_update_where id p u :
  (∀ t j s, p j = true → set_status (u t) = Some s → reach (job_status j) s) →
  steps conn_step (update_where id p u).
Proof.
  intros Hu. apply steps_statement. intros [d s]. simpl.
  destruct (jobs _ !! id) as [j|] eqn:Hj; [|reflexivity].
  destruct (p j) eqn:Hp; [|reflexivity]. intros Hok. split; [|reflexivity]. simpl.
  destruct d as [t n cl ks]. eapply (conn_ok_work (Database t n cl ks) s _ [_]); [done| | |done].
  - split; [|done]. intros j' s' Hj' Hs'. rewrite Hj in Hj'. simplify_eq. by eapply Hu.
  - by apply numbered_nil.
Qed.

Lemma steps_modify_session (f : session → session) :
  (∀ s, work (f s) = work s ∨ work (f s) = []) →
  steps (E := exn) conn_step (modify (λ c : conn, (c.1, f c.2))).
Proof.
  intros Hf [d s] Hok. split; [|reflexivity]. simpl.
  destruct (Hf s) as [Hw|Hw]; [|by eapply conn_ok_forget].
  unfold conn_ok, view in *. simpl in *. by rewrite Hw.
Qed.

Lemma steps_add_all rs : steps conn_step (add_all rs).
Proof.
  apply (steps_modify_session
    (λ s, Session (pending s ++ rs) (work s) (started s) (aborted s))). by left.
Qed.

Lemma steps_add r : steps conn_step (add r).
Proof. apply (steps_add_all [r]). Qed.

Lemma steps_rollback : steps conn_step rollback.
Proof.
  intros [d s] Hok. unfold rollback. simpl. destruct (started s).
  2: { split; [by eapply conn_ok_forget|reflexivity]. }
  destruct (next_tick _ _) as [d' r] eqn:Ht.
  apply next_tick_drift in Ht as [Hs Hd]; [|apply Hok].
  assert (conn_ok (d', fresh_session) ∧ progress d d') as Hgo.
  { split; [|by eapply drift_progress].
    eapply conn_ok_forget, conn_ok_drift; [done|done|exact Hok|done|done]. }
  by destruct r.
Qed.

Lemma steps_flush : steps conn_step flush.
Proof.
  intros c. unfold flush. case_decide; [destruct (aborted _); reflexivity|].
  revert c H. intros c _. revert c. apply steps_statement. intros [d s]. simpl.
  pose proof (insert_rows_next (now (d, s)) (next_event_id d) (view (d, s)) (pending s)) as Hle.
  destruct (insert_rows _ _ _ _) as [n [ops|]] eqn:Hr; simpl in *; intros Hok.
  - apply insert_rows_ok in Hr as (? & Hn & _).
    split; [by eapply conn_ok_work|]. split_and!; simpl; [reflexivity|apply Hn|done].
  - split; [|split_and!; simpl; [reflexivity|done|done]].
    eapply (conn_ok_work _ (abort s) _ []); [done|done|by apply numbered_nil|].
    by eapply conn_ok_forget.
Qed.

Lemma steps_commit : steps conn_step commit.
Proof.
  apply steps_ebind; [apply _|apply steps_flush|]. intros _ [d s] Hok. simpl.
  destruct (started s); [|done].
  destruct (next_tick _ _) as [d' r] eqn:Ht.
  apply next_tick_drift in Ht as [Hs Hd]; [|apply Hok].
  pose proof (drift_progress _ _ _ Hd) as Hp.
  assert (Hok' : conn_ok (d', s)) by (by eapply conn_ok_drift).
  destruct r as [|e|e]; simpl.
  2: { split; [by eapply conn_ok_forget|done]. }
  all: eapply (conn_ok_publish d' s) in Hok' as [? ?]; [split; [done|by etrans]|done].
Qed.

Lemma steps_with_session {A} (m : eff exn conn A) :
  steps conn_step m → steps db_step (with_session m).
Proof.
  intros Hm d Hd. specialize (Hm (d, fresh_session)). unfold with_session.
  destruct (m (d, fresh_session)) as [[d' s'] o]; simpl in *.
  destruct Hm as [Hok ?]; [by apply conn_ok_fresh|]. split; [by eapply conn_ok_db|done].
Qed.

#[export] Hint Resolve steps_query steps_add steps_add_all steps_rollback steps_flush
  steps_commit steps_with_session : eff.

(** ** What an error of the database can be

    SQLAlchemy's exceptions, and those psycopg2 raises itself when it cannot
    send a parameter: [ValueError] for a NUL character, [UnicodeEncodeError]
    for a lone surrogate, [TypeError] for a value it cannot adapt. *)
Definition driver_error (e : exn) : bool :=
  match e with
  | OperationalError | DBAPIError _ | OtherSQLAlchemyError
  | ValueError _ | UnicodeEncodeError | TypeError => true
  | _ => false
  end.

Definition answer_ok (r : reply) : Prop :=
  match r with Delivered => True | Refused e | Lost e => driver_error e = true end.

(** The server and the driver raise errors of their own only. *)
Definition honest (d : database) : Prop := Forall (λ k, answer_ok (answer k)) (script d).

Lemma next_tick_honest locked d d' r :
  honest d → next_tick locked d = (d', r) → honest d' ∧ answer_ok r.
Proof.
  unfold honest, next_tick. destruct (script d) as [|k ks] eqn:Hs.
  - intros _ [= <- <-]. by rewrite Hs.
  - intros [Hk Hks]%Forall_cons [= <- <-]. by rewrite commit_others_script.
Qed.

(** A session operation keeps the server honest and raises its errors. *)
Definition db_raises {A} (m : eff exn conn A) : Prop :=
  ∀ c c' o, honest c.1 → m c = (c', o) →
    honest c'.1 ∧ match o with Ret _ => True | Exc e => driver_error e = true end.

Lemma db_raises_statement {A} (run : eff exn conn A) :
  db_raises run → db_raises (statement run).
Proof.
  intros Hrun [d s] c' o Hh. unfold statement. destruct (aborted _); [by intros [= <- <-]|].
  destruct (next_tick _ _) as [d1 r] eqn:Ht. apply next_tick_honest in Ht as [Hh1 Hr]; [|done].
  destruct r as [|e|e]; [by apply Hrun|by intros [= <- <-]..].
Qed.

Lemma db_raises_flush : db_raises flush.
Proof.
  intros c c' o Hh. unfold flush. case_decide.
  - by destruct (aborted _); intros [= <- <-].
  - revert c c' o Hh H. intros c c' o Hh _. revert c c' o Hh. apply db_raises_statement.
    intros [d s] c' o Hh. simpl. by destruct (insert_rows _ _ _ _) as [n [ops|]]; intros [= <- <-].
Qed.

Lemma db_raises_commit : db_raises commit.
Proof.
  intros c c' o Hh [(c1 & [] & Hf & Hc)|(e & Hf & ->)]%ebind_inv.
  2: by apply db_raises_flush in Hf.
  apply db_raises_flush in Hf as [Hh1 _]; [|done]. destruct c1 as [d1 s1]. simpl in *.
  destruct (started s1); [|by injection Hc as <- <-].
  destruct (next_tick _ _) as [d2 r] eqn:Ht. apply next_tick_honest in Ht as [Hh2 Hr]; [|done].
  by destruct r; injection Hc as <- <-.
Qed.

(** ** Where an error of a session comes from: the script, a violated
    constraint, or a transaction that has failed before *)
Definition script_error (d : database) (e : exn) : Prop :=
  ∃ k, k ∈ script d ∧ (answer k = Refused e ∨ answer k = Lost e).

Definition db_error (d : database) (e : exn) : Prop :=
  script_error d e ∨ e = DBAPIError false ∨ e = OtherSQLAlchemyError.

Lemma db_error_later d d' e : script d' `suffix_of` script d → db_error d' e → db_error d e.
Proof.
  intros [ks Hs] [(k & Hk & Ha)|He]; [left|by right]. exists k. split; [|done].
  rewrite Hs. apply elem_of_app. by right.
Qed.

Lemma next_tick_errors locked d d' r :
  next_tick locked d = (d', r) → script d' `suffix_of` script d ∧
    ∀ e, r = Refused e ∨ r = Lost e → script_error d e.
Proof.
  unfold next_tick, script_error. destruct (script d) as [|k ks] eqn:Hs.
  - intros [= <- <-]. rewrite Hs. split; [done|]. by intros e [?|?].
  - intros [= <- <-]. rewrite commit_others_script. simpl. split; [by exists [k]|].
    intros e He. exists k. split; [by left|done].
Qed.

Lemma flush_errors c c' o :
  flush c = (c', o) → script c'.1 `suffix_of` script c.1 ∧
    match o with Ret _ => True | Exc e => db_error c.1 e end.
Proof.
  destruct c as [d s]. unfold flush. simpl. case_decide.
  { destruct (aborted s); intros [= <- <-]; (split; [done|]); [by right; right|done]. }
  unfold statement. simpl. destruct (aborted s).
  { intros [= <- <-]. split; [done|]. by right; right. }
  destruct (next_tick _ _) as [d1 r] eqn:Ht. apply next_tick_errors in Ht as [Hs He].
  destruct r as [|e|e]; [|intros [= <- <-]; split; [done|]; left; apply He; auto..].
  simpl. destruct (insert_rows _ _ _ _) as [n [ops|]]; intros [= <- <-]; (split; [done|]); [done|].
  by right; left.
Qed.

Lemma commit_errors c c' e : commit c = (c', Exc e) → db_error c.1 e.
Proof.
  intros [(c1 & [] & Hf & Hc)|(e' & Hf & [= ->])]%ebind_inv.
  2: by apply flush_errors in Hf as [_ ?].
  apply flush_errors in Hf as [Hs _]. apply (db_error_later _ _ _ Hs). left.
  destruct c1 as [d1 s1]. simpl in *. destruct (started s1); [|done].
  destruct (next_tick _ _) as [d2 r] eqn:Ht. apply next_tick_errors in Ht as [_ He].
  destruct r; [done|injection Hc as _ <-; apply He; auto..].
Qed.

Lemma commit_aborts c c' e : commit c = (c', Exc e) → aborted c'.2 = true.
Proof.
  destruct c as [d s]. intros [(c1 & [] & Hf & Hc)|(e' & Hf & [= ->])]%ebind_inv.
  - destruct c1 as [d1 s1]. simpl in Hc. destruct (started s1); [|done].
    destruct (next_tick _ _) as [d2 []]; [done|by injection Hc as <- _..].
  - revert Hf. unfold flush, statement. simpl. case_decide.
    { destruct (aborted s) eqn:Ha; [by intros [= <- _]|done]. }
    destruct (aborted s) eqn:Ha; [by intros [= <- _]|].
    destruct (next_tick _ _) as [d1 []]; [|by intros [= <- _]..]. simpl.
    destruct (insert_rows _ _ _ _) as [n [ops|]]; [done|by intros [= <- _]].
Qed.

(** A session that has failed refuses everything until it is rolled back. *)
Lemma commit_aborted c : aborted c.2 = true → commit c = (c, Exc OtherSQLAlchemyError).
Proof.
  intros Ha. apply ebind_exc_run. unfold flush, statement. rewrite Ha. by case_decide.
Qed.

(** ** A commit that returns has published what was pending *)
Lemma commit_publishes_event c c' id ty msg :
  pending c.2 = [NewEventLog id ty msg] → commit c = (c', Ret tt) →
  ∃ e, e ∈ event_logs (committed c'.1) ∧ event_job_id e = id ∧ event_type e = ty ∧
    message e = msg.
Proof.
  intros Hp [(c1 & [] & Hf & Hc)|(e & _ & [=])]%ebind_inv. destruct c as [d s].
  unfold flush, statement in Hf. rewrite decide_False in Hf by (by rewrite Hp). simpl in *.
  destruct (aborted s); [done|]. destruct (next_tick _ _) as [d1 [|e|e]]; [|done..].
  unfold now in Hf. simpl in Hf. rewrite Hp in Hf. simpl in Hf.
  destruct (has_job _ id); [|done]. injection Hf as <-. simpl in Hc.
  destruct (next_tick _ _) as [d2 [|e|e]]; [|done..]. injection Hc as <-. simpl.
  rewrite apply_ops_logs, omap_app. simpl.
  eexists. split; [do 2 (apply elem_of_app; right); left|done].
Qed.
