(* ===== verification/Repository.v ===== *)
(** * Job state (orchestrator/repository.py, orchestrator/recovery.py)

    [OrchestratorRepository] and [StaleJobRecoveryService].  Each method opens
    a session of its own. *)
From S2P Require Import Prelude PyStr Exceptions Schemas Database DatabaseFacts.

Open Scope eff_scope.

Definition SYSTEM_EVENT : pystr := Eval vm_compute in py "SYSTEM_EVENT".

(** [f"[{event_code}] {message}"] *)
Definition coded (event_code message : pystr) : pystr :=
  py "[" ++ event_code ++ py "] " ++ message.

Record JobRecord := {
  record_id : uuid;
  record_parent_job_id : option uuid;
  record_prompt : pystr;
  record_status : status
}.

Definition get_job (job_id : uuid) : eff exn database (option JobRecord) :=
  with_session (
    job <- query (λ t, jobs t !! job_id) ;;
    match job with
    | None => ret None
    | Some job =>
        ret (Some {| record_id := job_id; record_parent_job_id := parent_job_id job;
                     record_prompt := prompt job; record_status := job_status job |})
    end).

(** [except Exception: db.rollback(); raise] *)
Definition or_rollback {A} (m : eff exn conn A) : eff exn conn A :=
  try_catch m (λ e, rollback ;;; raise e).

Definition status_update (target_status : status) (now : Z) : job_update :=
  {| set_status := Some target_status; set_action_plan := None; set_updated_at := now |}.

Definition transition (job_id : uuid) (expected_statuses : list status)
    (target_status : status) (event_code message : pystr) : eff exn database bool :=
  with_session (or_rollback (
    updated <- update_where job_id (λ j, bool_decide (job_status j ∈ expected_statuses))
                 (status_update target_status) ;;
    if negb (Nat.eqb updated 1) then rollback ;;; ret false
    else
      add (NewEventLog job_id SYSTEM_EVENT (coded event_code message)) ;;;
      commit ;;;
      ret true)).

Definition append_event (job_id : uuid) (event_code message : pystr) : eff exn database unit :=
  with_session (or_rollback (
    add (NewEventLog job_id SYSTEM_EVENT (coded event_code message)) ;;;
    commit)).

Definition save_action_plan (job_id : uuid) (actions : list action) : eff exn database unit :=
  let serialized := model_dump <$> actions in
  with_session (or_rollback (
    updated <- update_where job_id (λ j, bool_decide (job_status j = RUNNING))
                 (λ now, {| set_status := None; set_action_plan := Some serialized;
                            set_updated_at := now |}) ;;
    if negb (Nat.eqb updated 1) then
      raise (RuntimeError (py "Job is not RUNNING while saving action plan."))
    else commit)).

(** [Job.status == "RUNNING", Job.updated_at < cutoff] *)
Definition is_stale (cutoff : Z) (j : Job) : bool :=
  bool_decide (job_status j = RUNNING) && (updated_at j <? cutoff)%Z.

Definition _recover_one (job_id : uuid) (cutoff : Z) : eff exn database bool :=
  with_session (or_rollback (
    updated <- update_where job_id (is_stale cutoff) (status_update FAILED) ;;
    if negb (Nat.eqb updated 1) then rollback ;;; ret false
    else
      add (NewEventLog job_id SYSTEM_EVENT
             (py "[STALE_JOB_RECOVERED] Job failed after interrupted process recovery.")) ;;;
      commit ;;;
      ret true)).

Fixpoint recover_each (job_ids : list uuid) (cutoff : Z) (recovered : Z) : eff exn database Z :=
  match job_ids with
  | [] => ret recovered
  | job_id :: job_ids' =>
      done <- _recover_one job_id cutoff ;;
      recover_each job_ids' cutoff (if done : bool then recovered + 1 else recovered)%Z
  end.

Definition recover_stale (cutoff : Z) : eff exn database Z :=
  job_ids <- with_session (query (λ t, (filter (λ p, is_stale cutoff p.2) (map_to_list (jobs t))).*1)) ;;
  recover_each job_ids cutoff 0.

(** orchestrator/recovery.py; times in seconds *)
Definition STALE_JOB_MINUTES : Z := 15.

Definition recover (now : option Z) (utcnow : Z) : eff exn database Z :=
  let reference := default utcnow now in
  recover_stale (reference - STALE_JOB_MINUTES * 60).

(** ** Every method is a step of the life of the jobs *)
Lemma steps_or_rollback {A} (m : eff exn conn A) :
  steps conn_step m → steps conn_step (or_rollback m).
Proof. unfold or_rollback. eauto with eff typeclass_instances. Qed.
#[export] Hint Resolve steps_or_rollback : eff.

Lemma steps_get_job id : steps db_step (get_job id).
Proof.
  apply steps_with_session, steps_ebind; [apply _|apply steps_query|].
  intros []; apply steps_ret, _.
Qed.

Lemma steps_cas id p u (after : eff exn conn bool) :
  (∀ t j s, p j = true → set_status (u t) = Some s → reach (job_status j) s) →
  steps conn_step after →
  steps db_step (with_session (or_rollback (
    updated <- update_where id p u ;;
    if negb (Nat.eqb updated 1) then rollback ;;; ret false else after))).
Proof.
  intros Hu Ha. apply steps_with_session, steps_or_rollback, steps_ebind;
    [apply _|by apply steps_update_where|].
  intros n. case_match; eauto with eff typeclass_instances.
Qed.

Lemma steps_transition id expected target code msg :
  Forall (λ s, reach s target) expected →
  steps db_step (transition id expected target code msg).
Proof.
  intros Hr. apply steps_cas; [|eauto 6 with eff typeclass_instances].
  intros t j s Hj [= <-]. rewrite Forall_forall in Hr. apply Hr. by case_bool_decide.
Qed.

Lemma steps_append_event id code msg : steps db_step (append_event id code msg).
Proof. unfold append_event. eauto 6 with eff typeclass_instances. Qed.

Lemma steps_save_action_plan id actions : steps db_step (save_action_plan id actions).
Proof.
  apply steps_with_session, steps_or_rollback, steps_ebind; [apply _| |].
  - by apply steps_update_where.
  - intros n. case_match; eauto with eff typeclass_instances.
Qed.

Lemma steps_recover_one id cutoff : steps db_step (_recover_one id cutoff).
Proof.
  apply steps_cas; [|eauto 6 with eff typeclass_instances].
  intros t j s Hj [= <-]. unfold is_stale in Hj.
  apply andb_true_iff in Hj as [->%bool_decide_eq_true _]. apply rtc_once. constructor.
Qed.

Lemma steps_recover_stale cutoff : steps db_step (recover_stale cutoff).
Proof.
  apply steps_ebind; [apply _|eauto with eff|]. intros ids.
  generalize 0%Z. induction ids as [|id ids IH]; intros n; simpl; [apply steps_ret, _|].
  apply steps_ebind; [apply _|apply steps_recover_one|intros []; apply IH].
Qed.

#[export] Hint Resolve steps_get_job steps_append_event steps_save_action_plan
  steps_recover_stale : eff.

(** ** No other session: atomicity under failures *)
Definition isolated (d : database) : Prop := Forall (λ k, others k = []) (script d).
Definition healthy (d : database) : Prop :=
  Forall (λ k, others k = [] ∧ answer k = Delivered) (script d).

(** The same contents, the script further on *)
Definition same_contents (d d' : database) : Prop :=
  committed d' = committed d ∧ next_event_id d' = next_event_id d ∧
  (clock d ≤ clock d')%Z ∧ isolated d' ∧ (healthy d → healthy d').

Lemma next_tick_isolated locked d :
  isolated d → ∃ d' r, next_tick locked d = (d', r) ∧ same_contents d d' ∧
    (r ≠ Delivered → ¬ healthy d).
Proof.
  unfold isolated, next_tick. intros Hi.
  destruct (script d) as [|k ks] eqn:Hs.
  { exists d, Delivered. split; [done|]. split; [|by intros []].
    split_and!; try done. unfold isolated. by rewrite Hs. }
  apply Forall_cons in Hi as [-> Hks]. eexists _, _. split; [done|]. simpl.
  unfold same_contents, isolated, healthy. simpl. rewrite Hs.
  split_and!; try done; [lia|by intros [_ ?]%Forall_cons|].
  intros Hne [[_ Ha] _]%Forall_cons. done.
Qed.

Definition event_of (id : Z) (job_id : uuid) (msg : pystr) (now : Z) : EventLog :=
  {| event_id := id; event_job_id := job_id; event_type := SYSTEM_EVENT;
     message := msg; event_created_at := now |}.

(** The effect of a conditional update with its event, all of it *)
Definition swapped (job_id : uuid) (p : Job → bool) (u : Z → job_update) (msg : pystr)
    (d d' : database) : Prop :=
  ∃ j now, jobs (committed d) !! job_id = Some j ∧ p j = true ∧ (clock d ≤ now ≤ clock d')%Z ∧
    committed d' = apply_ops (committed d)
      [UpdateJob job_id (u now); InsertEventLog (event_of (next_event_id d) job_id msg now)] ∧
    next_event_id d' = (next_event_id d + 1)%Z.

Definition not_matching (job_id : uuid) (p : Job → bool) (d : database) : Prop :=
  ∀ j, jobs (committed d) !! job_id = Some j → p j = false.

(** What a conditional update may do when nobody interferes *)
Definition cas_result (job_id : uuid) (p : Job → bool) (u : Z → job_update) (msg : pystr)
    (d d' : database) (o : outcome exn bool) : Prop :=
  isolated d' ∧ (healthy d → healthy d') ∧ (clock d ≤ clock d')%Z ∧
  match o with
  | Ret true => swapped job_id p u msg d d'
  | Ret false => not_matching job_id p d ∧ same_contents d d'
  | Exc _ => ¬ healthy d ∧ (committed d' = committed d ∨ swapped job_id p u msg d d')
  end.

Lemma flush_event d s id msg start :
  pending s = [NewEventLog id SYSTEM_EVENT msg] → aborted s = false → started s = Some start →
  has_job (apply_ops (committed d) (work s)) id = true → isolated d →
  ∃ d' , same_contents d d' ∧
    (flush (d, s) = ((Database (committed d') (next_event_id d' + 1) (clock d') (script d'),
        Session [] (work s ++ [InsertEventLog (event_of (next_event_id d) id msg start)])
          (Some start) false), Ret tt) ∨
     ∃ e, flush (d, s) = ((d', abort s), Exc e) ∧ ¬ healthy d).
Proof.
  intros Hp Ha Hst Hj Hi. unfold flush. simpl. rewrite Hp. simpl.
  unfold statement. simpl. rewrite Ha.
  destruct (next_tick_isolated (is_locked s) d Hi) as (d1 & r & -> & Hsame & Hr).
  exists d1. split; [done|].
  destruct r as [|e|e]; [left|right; exists e; split; [unfold abort; simpl; by rewrite Hst|by apply Hr]..].
  destruct Hsame as (Hc & Hn & _). unfold view, now. simpl. rewrite Hp, Hst, Hc. simpl.
  by rewrite Hj, Hn.
Qed.

(** The commit that publishes a session's work and one event *)
Lemma commit_event d s id msg start :
  pending s = [NewEventLog id SYSTEM_EVENT msg] → aborted s = false → started s = Some start →
  has_job (apply_ops (committed d) (work s)) id = true → isolated d →
  ∃ d' s' o, commit (d, s) = ((d', s'), o) ∧
    isolated d' ∧ (healthy d → healthy d') ∧ (clock d ≤ clock d')%Z ∧
    let published := committed d' = apply_ops (committed d)
        (work s ++ [InsertEventLog (event_of (next_event_id d) id msg start)]) ∧
      next_event_id d' = (next_event_id d + 1)%Z in
    match o with
    | Ret _ => published
    | Exc _ => ¬ healthy d ∧ (committed d' = committed d ∨ published)
    end.
Proof.
  intros Hp Ha Hst Hj Hi. unfold commit, ebind.
  destruct (flush_event d s id msg start Hp Ha Hst Hj Hi)
    as (d1 & (Hc1 & Hn1 & Hcl1 & Hi1 & Hh1) & [->|(e & -> & Hh)]).
  2: { eexists _, _, _. split; [done|]. split_and!; auto. }
  simpl. set (d2 := Database _ _ _ _). set (s2 := Session _ _ _ _).
  destruct (next_tick_isolated (is_locked s2) d2 Hi1)
    as (d3 & r & -> & (Hc3 & Hn3 & Hcl3 & Hi3 & Hh3) & Hr). simpl in *.
  assert (Hclk : (clock d ≤ clock d3)%Z) by lia.
  destruct r as [|e|e]; eexists _, _, _; (split; [done|]); simpl.
  - split_and!; auto; congruence.
  - assert (¬ healthy d) by (intros ?; by apply Hr, Hh1).
    split_and!; auto. left. congruence.
  - assert (¬ healthy d) by (intros ?; by apply Hr, Hh1).
    split_and!; auto. right. split; congruence.
Qed.

(** A rollback changes nothing, and fails only when the server does. *)
Lemma rollback_isolated c :
  isolated c.1 → ∃ d' o, rollback c = ((d', fresh_session), o) ∧ same_contents c.1 d' ∧
    (is_ret o = false → ¬ healthy c.1).
Proof.
  destruct c as [d s]. intros Hi. unfold rollback. simpl. destruct (started s).
  2: { exists d, (Ret tt). split_and!; [done|by split_and!|done]. }
  destruct (next_tick_isolated (is_locked s) d Hi) as (d' & r & -> & Hs & Hr).
  destruct r as [|e|e]; eexists _, _; (split_and!; [done..|]); [done|intros _; by apply Hr..].
Qed.

Lemma same_contents_trans d1 d2 d3 :
  same_contents d1 d2 → same_contents d2 d3 → same_contents d1 d3.
Proof.
  intros (Hc1 & Hn1 & Hk1 & _ & Hh1) (Hc2 & Hn2 & Hk2 & Hi2 & Hh2).
  split_and!; [congruence|congruence|lia|done|auto].
Qed.

(** What a failed update left, the rollback after it leaves too. *)
Lemma cas_result_exc id p u msg d d1 d2 e e' :
  cas_result id p u msg d d1 (Exc e) → same_contents d1 d2 → cas_result id p u msg d d2 (Exc e').
Proof.
  intros (_ & Hh1 & Hk1 & Hnh & Ho) (Hc & Hn & Hk & Hi & Hh2).
  split_and!; [done|auto|lia|done|]. destruct Ho as [Ho|(j & t & Hj & Hp & Ht & Hc' & Hn')].
  - left. congruence.
  - right. exists j, t. split_and!; [done|done|lia|lia|congruence|congruence].
Qed.

Lemma or_rollback_run {A} (m : eff exn conn A) c c1 o :
  m c = (c1, o) → isolated c1.1 →
  ∃ d' s' o', or_rollback m c = ((d', s'), o') ∧
    match o with
    | Ret _ => (d', s') = c1 ∧ o' = o
    | Exc _ => same_contents c1.1 d' ∧ ∃ e', o' = Exc e'
    end.
Proof.
  intros Hm Hi. unfold or_rollback, try_catch. rewrite Hm. destruct o as [a|e].
  { destruct c1 as [d1 s1]. by exists d1, s1, (Ret a). }
  destruct (rollback_isolated c1 Hi) as (d' & o & Hr & Hs & _).
  unfold ebind. rewrite Hr. destruct o; eexists _, _, _; (split_and!; [done..|]); by eexists.
Qed.

(** The body of the [try] *)
Lemma cas_body id p u msg d :
  isolated d →
  ∃ c' o,
    (updated <- update_where id p u ;;
     if negb (Nat.eqb updated 1) then rollback ;;; ret false
     else add (NewEventLog id SYSTEM_EVENT msg) ;;; commit ;;; ret true) (d, fresh_session)
      = (c', o) ∧ cas_result id p u msg d c'.1 o.
Proof.
  intros Hi.
  destruct (next_tick_isolated (is_locked fresh_session) d Hi) as (d1 & r1 & Ht1 & Hs1 & Hr1).
  pose proof Hs1 as (Hc1 & Hn1 & Hcl1 & Hi1 & Hh1).
  unfold ebind at 1, update_where, statement. simpl. rewrite Ht1.
  destruct r1 as [|e|e]; simpl.
  2-3: by eexists _, _; split; [done|]; split_and!; auto.
  assert (not_matching id p d → ∃ c' o,
    (rollback ;;; ret false) (d1, Session [] [] (Some (clock d1)) false) = (c', o) ∧
    cas_result id p u msg d c'.1 o) as Hno.
  { intros Hnm. destruct (rollback_isolated (d1, Session [] [] (Some (clock d1)) false) Hi1)
      as (d2 & o & Hr & Hs2 & Ho). pose proof (same_contents_trans _ _ _ Hs1 Hs2) as Hs.
    pose proof Hs as (? & _ & ? & ? & ?). unfold ebind. rewrite Hr.
    destruct o as [[]|e]; eexists _, _; (split; [done|]); (do 3 (split; [done|]));
      (split; [|by auto]); [done|]. intros Hh%Hh1. by apply Ho. }
  unfold view, now. simpl. rewrite Hc1.
  destruct (jobs (committed d) !! id) as [j|] eqn:Hj.
  2: { apply Hno. intros j' Hj'. congruence. }
  destruct (p j) eqn:Hp.
  2: { apply Hno. intros j' Hj'. by simplify_eq. }
  simpl. unfold add. run. unfold ebind.
  destruct (commit_event d1 (Session [NewEventLog id SYSTEM_EVENT msg]
    [UpdateJob id (u (clock d1))] (Some (clock d1)) false) id msg (clock d1))
    as (d2 & s2 & o & Hrun & Hi2 & Hh2 & Hcl2 & Ho); [done..| |done|].
  { unfold has_job. simpl. rewrite Hc1, lookup_alter_eq, Hj. done. }
  simpl in Hrun |- *. rewrite Hrun. simpl in Ho.
  destruct o as [[]|e]; eexists _, _; (split; [done|]); (split; [done|split; [auto|split; [simpl; lia|]]]).
  - destruct Ho as [Hc Hn]. exists j, (clock d1). split_and!; try done; try (simpl; lia).
    simpl. rewrite Hc, Hc1, Hn1. done.
  - destruct Ho as [Hnh Ho]. split; [by intros ?%Hh1|].
    destruct Ho as [Hc|[Hc Hn]]; [left; simpl; congruence|right].
    exists j, (clock d1). simpl. split_and!; try done; try lia.
    rewrite Hc, Hc1, Hn1. done.
Qed.

Lemma cas_run id p u msg d :
  isolated d →
  ∃ d' o,
    with_session (or_rollback (
      updated <- update_where id p u ;;
      if negb (Nat.eqb updated 1) then rollback ;;; ret false
      else add (NewEventLog id SYSTEM_EVENT msg) ;;; commit ;;; ret true)) d = (d', o) ∧
    cas_result id p u msg d d' o.
Proof.
  intros Hi. destruct (cas_body id p u msg d Hi) as (c1 & o & Hm & Hres).
  destruct (or_rollback_run _ _ _ _ Hm (proj1 Hres)) as (d' & s' & o' & Hrun & Ho).
  exists d', o'. unfold with_session. rewrite Hrun. split; [done|]. destruct o as [b|e].
  - destruct Ho as [<- ->]. done.
  - destruct Ho as [Hs [e' ->]]. by eapply cas_result_exc.
Qed.

(** ** Under interference: a successful conditional update *)
Lemma insert_event_ops now next t id ty msg next' ops :
  insert_rows now next t [NewEventLog id ty msg] = (next', Some ops) →
  ∃ e, ops = [InsertEventLog e].
Proof. simpl. destruct (has_job t id); intros; simplify_eq/=. by eexists. Qed.

Lemma or_rollback_ret {A} (m : eff exn conn A) c c' a :
  or_rollback m c = (c', Ret a) → m c = (c', Ret a).
Proof.
  unfold or_rollback, try_catch. destruct (m c) as [c1 [a1|e]]; [done|].
  by intros [(? & ? & _ & [=])|(? & _ & [=])]%ebind_inv.
Qed.

Lemma no_update c c' : (rollback ;;; ret false) c ≠ (c', Ret true).
Proof. by intros [(? & ? & _ & [=])|(? & _ & [=])]%ebind_inv. Qed.

(** [m] is the body of [transition] and [_recover_one]. *)
Lemma cas_true id p u msg d d' :
  db_ok d → (∀ t j s, p j = true → set_status (u t) = Some s → reach (job_status j) s) →
  with_session (or_rollback (
    updated <- update_where id p u ;;
    if negb (Nat.eqb updated 1) then rollback ;;; ret false
    else add (NewEventLog id SYSTEM_EVENT msg) ;;; commit ;;; ret true)) d = (d', Ret true) →
  ∃ dm j t, progress d dm ∧ jobs (committed dm) !! id = Some j ∧ p j = true ∧
    jobs (committed d') !! id = Some (update_job (u t) j).
Proof.
  intros Hok Hu. unfold with_session. destruct (or_rollback _ _) as [c' o] eqn:Hm.
  intros [= <- ->]. apply or_rollback_ret in Hm. revert Hm.
  unfold ebind at 1, update_where, statement. simpl.
  destruct (next_tick _ d) as [d1 r1] eqn:Ht1.
  destruct r1 as [|e|e]; [|by intros ?; simplify_eq/=..]. simpl.
  apply next_tick_drift in Ht1 as [Hs1 Hd1]; [|apply Hok].
  destruct (jobs _ !! id) as [j|] eqn:Hj; [|by intros ?%no_update].
  destruct (p j) eqn:Hp; [|by intros ?%no_update].
  simpl. unfold add. run. unfold commit, flush, statement, ebind, now.
  cbn -[insert_rows next_tick is_locked view decide]. rewrite decide_False by done.
  set (s2 := Session [NewEventLog id SYSTEM_EVENT msg] _ _ _).
  destruct (next_tick _ d1) as [d2 r2] eqn:Ht2.
  destruct r2 as [|e|e]; [|by intros ?; simplify_eq/=..].
  destruct (insert_rows _ _ _ _) as [n [ops|]] eqn:Hins; [|by intros ?; simplify_eq/=].
  apply insert_event_ops in Hins as [e ->]. simpl.
  set (s3 := Session [] _ _ _). set (d2' := Database _ _ _ _).
  destruct (next_tick _ d2') as [d3 r3] eqn:Ht3.
  destruct r3 as [|e3|e3]; [|by intros ?; simplify_eq/=..].
  intros [= <-]. simpl.
  apply next_tick_drift in Ht2 as [Hs2 (_ & Hl2 & _)]; [|done].
  apply next_tick_drift in Ht3 as [Hs3 (_ & Hl3 & _)]; [|done].
  exists d1, j, (clock d1). split_and!; [by eapply drift_progress|done..|].
  rewrite lookup_alter_eq, Hl3, Hl2; [|unfold is_locked; simpl; by rewrite bool_decide_true..].
  unfold view in Hj. simpl in Hj. by rewrite Hj.
Qed.

Lemma transition_true id expected target code msg d d' :
  db_ok d → Forall (λ s, reach s target) expected →
  transition id expected target code msg d = (d', Ret true) →
  ∃ dm j j', progress d dm ∧ jobs (committed dm) !! id = Some j ∧
    job_status j ∈ expected ∧ jobs (committed d') !! id = Some j' ∧ job_status j' = target.
Proof.
  intros Hok Hr Ht. apply cas_true in Ht as (dm & j & t & ? & ? & Hp & ?); [|done|].
  - exists dm, j. eexists. split_and!; eauto. by case_bool_decide.
  - intros t j s Hp [= <-]. rewrite Forall_forall in Hr. apply Hr. by case_bool_decide.
Qed.

Lemma progress_status d d' id j :
  progress d d' → jobs (committed d) !! id = Some j →
  ∃ j', jobs (committed d') !! id = Some j' ∧ reach (job_status j) (job_status j').
Proof. intros ((H & _) & _) Hj. apply H in Hj as (j' & ? & ? & _). eauto. Qed.

(** ** Recovery of stale jobs when nobody interferes *)
Definition STALE_MESSAGE : pystr :=
  Eval vm_compute in py "[STALE_JOB_RECOVERED] Job failed after interrupted process recovery.".

Definition failed_at (now : Z) (j : Job) : Job := update_job (status_update FAILED now) j.

(** The jobs [ids] were failed between [d] and [d'], with one event each, and
    nothing else changed. *)
Definition recovered (ids : list uuid) (d d' : database) : Prop :=
  healthy d' ∧ (clock d ≤ clock d')%Z ∧
  artifacts (committed d') = artifacts (committed d) ∧
  (∀ id, id ∉ ids → jobs (committed d') !! id = jobs (committed d) !! id) ∧
  (∀ id, id ∈ ids → ∃ j now, jobs (committed d) !! id = Some j ∧
     (clock d ≤ now ≤ clock d')%Z ∧ jobs (committed d') !! id = Some (failed_at now j)) ∧
  ∃ new, event_logs (committed d') = event_logs (committed d) ++ new ∧
    event_job_id <$> new = ids ∧ Forall (λ e, message e = STALE_MESSAGE) new.

Lemma healthy_isolated d : healthy d → isolated d.
Proof. intros H. eapply Forall_impl; [exact H|]. by intros k [? _]. Qed.

Lemma healthy_tick locked d :
  healthy d → ∃ d', next_tick locked d = (d', Delivered) ∧ same_contents d d' ∧ healthy d'.
Proof.
  intros Hh. destruct (next_tick_isolated locked d (healthy_isolated d Hh)) as (d' & r & Ht & Hs & Hr).
  destruct r as [|e|e]; [|by destruct (Hr ltac:(done))..].
  exists d'. split_and!; [done..|]. by apply Hs.
Qed.

Lemma recover_one_run id cutoff d j :
  healthy d → jobs (committed d) !! id = Some j → is_stale cutoff j = true →
  ∃ d', _recover_one id cutoff d = (d', Ret true) ∧ recovered [id] d d'.
Proof.
  intros Hh Hj Hst.
  destruct (cas_run id (is_stale cutoff) (status_update FAILED) STALE_MESSAGE d)
    as (d' & o & Hrun & _ & Hh' & Hcl & Ho); [by apply healthy_isolated|].
  exists d'. destruct o as [[]|e].
  - split; [exact Hrun|].
    destruct Ho as (j' & t & Hj' & _ & Ht & Hc & _).
    assert (j' = j) as -> by congruence.
    split; [auto|]. split; [done|]. rewrite Hc. simpl. split_and!; [done|..].
    + intros id' Hid'. rewrite lookup_alter_ne; [done|]. set_solver.
    + intros id' ->%list_elem_of_singleton. exists j, t. split_and!; [done|lia|lia|].
      by rewrite lookup_alter_eq, Hj.
    + eexists [_]. split_and!; [done|done|]. by constructor.
  - destruct Ho as [Hn _]. rewrite (Hn j) in Hst by done. done.
  - by destruct Ho as [[] _].
Qed.

Lemma recovered_cons id ids d1 d2 d3 :
  id ∉ ids → recovered [id] d1 d2 → recovered ids d2 d3 → recovered (id :: ids) d1 d3.
Proof.
  intros Hni (? & Hc1 & Ha1 & Ho1 & Hi1 & n1 & Hn1 & Hid1 & Hm1)
    (? & Hc2 & Ha2 & Ho2 & Hi2 & n2 & Hn2 & Hid2 & Hm2).
  split; [done|]. split; [lia|]. split; [congruence|]. split; [|split].
  - intros id' Hid'. rewrite Ho2, Ho1; set_solver.
  - intros id' [->|Hid']%elem_of_cons.
    + destruct (Hi1 id) as (j & t & ? & ? & ?); [set_solver|]. exists j, t.
      rewrite Ho2 by done. split_and!; [done|lia|lia|done].
    + destruct (Hi2 id' Hid') as (j & t & Hj & ? & ?). exists j, t.
      rewrite <-Hj, Ho1 by set_solver. split_and!; [done|lia|lia|done].
  - exists (n1 ++ n2). rewrite Hn2, Hn1, app_assoc, fmap_app, Hid1, Hid2.
    split_and!; [done|done|]. by apply Forall_app.
Qed.

Lemma recover_each_run ids cutoff n d :
  healthy d → NoDup ids →
  Forall (λ id, ∃ j, jobs (committed d) !! id = Some j ∧ is_stale cutoff j = true) ids →
  ∃ d', recover_each ids cutoff n d = (d', Ret (n + Z.of_nat (length ids))%Z) ∧
    recovered ids d d'.
Proof.
  intros Hh Hnd. revert n d Hh. induction Hnd as [|id ids Hni Hnd IH]; intros n d Hh Hst; simpl.
  { exists d. split; [by rewrite Z.add_0_r|]. split_and!; try done; [by intros ??%not_elem_of_nil|].
    exists []. by rewrite app_nil_r. }
  apply Forall_cons in Hst as [(j & Hj & Hstj) Hst].
  destruct (recover_one_run id cutoff d j Hh Hj Hstj) as (d1 & Hrun & Hrec).
  rewrite (ebind_ret_run _ _ _ _ _ Hrun).
  destruct (IH (n + 1)%Z d1) as (d2 & Hrun2 & Hrec2); [apply Hrec| |].
  - rewrite Forall_forall in Hst |- *. intros id' Hid'.
    destruct Hrec as (_ & _ & _ & Ho & _). rewrite Ho; [auto|set_solver].
  - exists d2. split; [|by eapply recovered_cons].
    rewrite Hrun2. do 2 f_equal. lia.
Qed.

Lemma recover_stale_run cutoff d :
  healthy d →
  ∃ ids d', NoDup ids ∧
    (∀ id, id ∈ ids ↔ ∃ j, jobs (committed d) !! id = Some j ∧ is_stale cutoff j = true) ∧
    recover_stale cutoff d = (d', Ret (Z.of_nat (length ids))) ∧ recovered ids d d'.
Proof.
  intros Hh. unfold recover_stale.
  set (f := λ t, (filter (λ p : uuid * Job, is_stale cutoff p.2) (map_to_list (jobs t))).*1).
  destruct (next_tick_isolated (is_locked fresh_session) d) as (d1 & r & Ht & Hs & Hr);
    [by apply healthy_isolated|].
  assert (r = Delivered) as -> by (destruct r; [done|exfalso; by apply Hr..]).
  assert (Hq : with_session (query f) d = (d1, Ret (f (committed d1)))).
  { unfold with_session, query, statement. simpl. by rewrite Ht. }
  rewrite (ebind_ret_run _ _ _ _ _ Hq).
  destruct Hs as (Hc & Hn & Hcl & _ & Hh1).
  assert (Hin : ∀ id, id ∈ f (committed d1) ↔
    ∃ j, jobs (committed d) !! id = Some j ∧ is_stale cutoff j = true).
  { intros id. unfold f. rewrite Hc, list_elem_of_fmap. split.
    - intros ([id' j] & -> & [Hst Hj%elem_of_map_to_list]%list_elem_of_filter).
      exists j. split; [done|by apply Is_true_true].
    - intros (j & Hj & Hst). exists (id, j). split; [done|].
      apply list_elem_of_filter. split; [by apply Is_true_true|by apply elem_of_map_to_list]. }
  assert (Hnd : NoDup (f (committed d1))).
  { unfold f. eapply sublist_NoDup; [apply (NoDup_fst_map_to_list (jobs (committed d1)))|].
    apply fmap_sublist, sublist_filter. }
  clear Hq Ht. set (ids := f (committed d1)) in *. clearbody ids.
  destruct (recover_each_run ids cutoff 0 d1) as (d2 & Hrun & Hrec); [auto|done| |].
  { rewrite Forall_forall, Hc. intros id. apply Hin. }
  exists ids, d2. split_and!; [done|done|done|].
  destruct Hrec as (? & ? & Ha & Ho & Hi & Hnew). rewrite Hc in *.
  split_and!; try done; [lia|]. intros id Hid.
  destruct (Hi id Hid) as (j & t & ? & ? & ?). exists j, t. split_and!; [done|lia|lia|done].
Qed.

(** ** Calls of the program on the database *)
Inductive repo_call : relation database :=
  | call_start d id code msg :
      repo_call d (transition id [CREATED] RUNNING code msg d).1
  | call_queue_timeout d id code msg :
      repo_call d (transition id [CREATED] FAILED code msg d).1
  | call_complete d id code msg :
      repo_call d (transition id [RUNNING] COMPLETED code msg d).1
  | call_fail d id code msg :
      repo_call d (transition id [CREATED; RUNNING] FAILED code msg d).1
  | call_event d id code msg : repo_call d (append_event id code msg d).1
  | call_plan d id actions : repo_call d (save_action_plan id actions d).1
  | call_get d id : repo_call d (get_job id d).1
  | call_recover d cutoff : repo_call d (recover_stale cutoff d).1.

Lemma reach_step s s' : status_step s s' → reach s s'.
Proof. apply rtc_once. Qed.
#[export] Hint Resolve reach_step : core.
#[export] Hint Constructors status_step : core.

Lemma repo_call_step d d' : repo_call d d' → db_step d d'.
Proof.
  destruct 1; [apply steps_transition; auto..| | | |];
    [apply steps_append_event|apply steps_save_action_plan|apply steps_get_job
    |apply steps_recover_stale].
Qed.

Lemma repo_calls_step d d' : rtc repo_call d d' → db_step d d'.
Proof. induction 1; [reflexivity|]. etrans; [by apply repo_call_step|done]. Qed.

Module Demo.
Definition job (st : status) (updated : Z) : Job :=
  {| parent_job_id := None; prompt := py "a cube"; job_status := st; action_plan := None;
     job_created_at := 0; updated_at := updated |}.

(** A created job, a running one and a stale one; another process starts
    the first and the connection is lost at a commit. *)
Definition tables0 : tables :=
  Tables (<[1%N := job CREATED 0]> (<[2%N := job RUNNING 5000]>
    (<[3%N := job RUNNING 10]> ∅))) [] [].

Definition quiet : database := Database tables0 1 5000 [].

Definition faulty : database :=
  Database tables0 1 5000 [Tick 1 [] Delivered; Tick 1 [] Delivered; Tick 1 [] (Lost OperationalError)].

Definition busy : database :=
  Database tables0 1 5000
    [Tick 1 [TxTransition 1 [CREATED] RUNNING SYSTEM_EVENT (py "other")] Delivered].

Example lost_commit :
  match transition 1 [CREATED] RUNNING (py "X") (py "y") faulty with
  | (d, o) => (job_status <$> jobs (committed d) !! 1%N, length (event_logs (committed d)), o)
  end = (Some RUNNING, 1%nat, Exc OperationalError).
Proof. vm_compute. reflexivity. Qed.

Example overtaken :
  (transition 1 [CREATED] RUNNING (py "X") (py "y") busy).2 = Ret false.
Proof. vm_compute. reflexivity. Qed.

Example recovered_count : (recover None 5000 quiet).2 = Ret 1%Z.
Proof. vm_compute. reflexivity. Qed.

Lemma db_ok_quiet : db_ok quiet.
Proof. split; [constructor|]. split; constructor. Qed.

Lemma db_ok_busy : db_ok busy.
Proof.
  split; [|split; constructor]. repeat constructor. apply reach_step. constructor.
Qed.
End Demo.

(** ** Properties *)

(** C4: A status transition is atomic.  When no other session interferes,
    whatever statements of it fail, [transition] either changes the status of
    the job and appends its one event, both, or changes nothing; [True] is
    returned only after both, [False] only when the job is not in an expected
    status, and an exception only when the database failed. *)
Theorem transition_atomic job_id expected target code msg d :
  isolated d →
  ∃ d' o, transition job_id expected target code msg d = (d', o) ∧
    cas_result job_id (λ j, bool_decide (job_status j ∈ expected)) (status_update target)
      (coded code msg) d d' o.
Proof. intros Hi. by apply cas_run. Qed.

Lemma transition_atomic_witness :
  isolated Demo.faulty ∧
  ∃ d' o, transition 1 [CREATED] RUNNING (py "X") (py "y") Demo.faulty = (d', o) ∧
    cas_result 1 (λ j, bool_decide (job_status j ∈ [CREATED])) (status_update RUNNING)
      (coded (py "X") (py "y")) Demo.faulty d' o.
Proof.
  assert (Hi : isolated Demo.faulty) by (repeat constructor).
  split; [exact Hi|]. exact (transition_atomic 1 [CREATED] RUNNING (py "X") (py "y") _ Hi).
Defined.

(** C19: Jobs only move forward.  Along any sequence of repository calls, with
    any interleaving of other sessions of the program and any failures, a
    job never disappears, its status only follows CREATED to RUNNING to
    COMPLETED or FAILED (or CREATED to FAILED), a job that is COMPLETED or
    FAILED keeps its status, no event is lost and event ids stay distinct. *)
Theorem jobs_move_forward d d' :
  db_ok d → rtc repo_call d d' →
  (∀ id j, jobs (committed d) !! id = Some j →
     ∃ j', jobs (committed d') !! id = Some j' ∧
       reach (job_status j) (job_status j') ∧
       (terminal (job_status j) = true → job_status j' = job_status j) ∧
       prompt j' = prompt j ∧ parent_job_id j' = parent_job_id j) ∧
  event_logs (committed d) `prefix_of` event_logs (committed d') ∧
  NoDup (event_id <$> event_logs (committed d')).
Proof.
  intros Hok Hc.
  destruct (repo_calls_step _ _ Hc Hok) as [[_ [Hnd _]] ((Hj & Hl & _) & _)].
  split_and!; [|done..]. intros id j (j' & Hj' & Hr & ? & ? & _)%Hj.
  exists j'. split_and!; try done. intros Ht. by apply reach_terminal.
Qed.

Lemma jobs_move_forward_witness :
  db_ok Demo.busy ∧
  event_logs (committed Demo.busy) `prefix_of`
    event_logs (committed (transition 1 [CREATED] RUNNING (py "X") (py "y") Demo.busy).1).
Proof.
  split; [exact Demo.db_ok_busy|].
  apply (jobs_move_forward Demo.busy _ Demo.db_ok_busy). apply rtc_once. constructor.
Defined.

(** A job is started at most once.  After a call that started a job, no
    later call starts it again, whatever happened in between: of all the
    workers that compete for a job, one runs it. *)
Theorem started_once job_id code msg code' msg' d1 d2 d3 d4 :
  db_ok d1 →
  transition job_id [CREATED] RUNNING code msg d1 = (d2, Ret true) →
  rtc repo_call d2 d3 →
  transition job_id [CREATED] RUNNING code' msg' d3 ≠ (d4, Ret true).
Proof.
  intros Hok Ht1 Hc Ht2.
  assert (Hstep : db_step d1 d2).
  { replace d2 with (transition job_id [CREATED] RUNNING code msg d1).1 by (by rewrite Ht1).
    apply repo_call_step. constructor. }
  destruct (Hstep Hok) as [Hok2 _]. destruct (repo_calls_step _ _ Hc Hok2) as [Hok3 Hp23].
  apply transition_true in Ht1 as (_ & _ & j & _ & _ & _ & Hj & Hs); [|done|auto].
  apply transition_true in Ht2 as (dm & jm & _ & Hpm & Hjm & Hsm & _); [|done|auto].
  destruct (progress_status d2 dm job_id j) as (j' & Hj' & Hr); [by etrans|done|].
  simplify_eq. rewrite Hs in Hr. apply reach_not_created in Hr.
  by apply list_elem_of_singleton in Hsm.
Qed.

Lemma started_once_witness :
  transition 1 [CREATED] RUNNING (py "X") (py "y")
    (transition 1 [CREATED] RUNNING (py "X") (py "y") Demo.quiet).1 ≠
  (Demo.quiet, Ret true).
Proof.
  eapply (started_once 1 (py "X") (py "y") (py "X") (py "y") Demo.quiet);
    [exact Demo.db_ok_quiet|vm_compute; reflexivity|apply rtc_refl].
Defined.

(** Stale recovery fails exactly the stale jobs.  On a database that
    answers, [recover_stale] returns, its result is the number of RUNNING jobs
    not updated since the cutoff, each of them becomes FAILED with one event,
    and every other job is left as it was. *)
Theorem recover_stale_exact cutoff d :
  healthy d →
  ∃ ids d', NoDup ids ∧
    (∀ id, id ∈ ids ↔ ∃ j, jobs (committed d) !! id = Some j ∧
       job_status j = RUNNING ∧ (updated_at j < cutoff)%Z) ∧
    recover_stale cutoff d = (d', Ret (Z.of_nat (length ids))) ∧ recovered ids d d'.
Proof.
  intros Hh. destruct (recover_stale_run cutoff d Hh) as (ids & d' & Hnd & Hin & Hrun & Hrec).
  exists ids, d'. split; [done|]. split; [|by split]. intros id. rewrite Hin.
  split; intros (j & Hj & Hs); exists j; revert Hs; unfold is_stale;
    rewrite andb_true_iff, bool_decide_eq_true, Z.ltb_lt; tauto.
Qed.

Lemma recover_stale_exact_witness :
  healthy Demo.quiet ∧ ∃ ids d', recover_stale 4100 Demo.quiet = (d', Ret (Z.of_nat (length ids))) ∧
    recovered ids Demo.quiet d'.
Proof.
  assert (Hh : healthy Demo.quiet) by constructor. split; [exact Hh|].
  destruct (recover_stale_exact 4100 Demo.quiet Hh) as (ids & d' & _ & _ & H). by exists ids, d'.
Defined.
