(* ===== verification/Regex.v ===== *)
(** * The regular expressions of the program

    The fragment of [re] the sources use: character classes and their
    repetitions (greedy and lazy), sequence, alternation, one capturing group,
    the word boundary [\b] and the end anchor [$].  [ends] lists the ways a
    pattern can match from a position in the order a backtracking matcher
    tries them, so its head is the match Python reports; [rmatch] is the
    declarative meaning, and the two agree. *)
From S2P Require Import Prelude PyStr.
Local Open Scope N_scope.

Inductive regex :=
  | Eps
  | Cls (f : N → bool)
  | Seq (r1 r2 : regex)
  | Alt (r1 r2 : regex)
  | Star (f : N → bool)
  | LazyStar (f : N → bool)
  | Group (r : regex)
  | WordB
  | EndAnchor.

(** A position: the character before it, the text after it, the group *)
Record mstate := MState { ms_prev : option N; ms_rest : pystr; ms_group : pystr }.

Section matcher.
Context `{UnicodeData}.

Definition word_before (p : option N) : bool := from_option is_word false p.
Definition word_after (s : pystr) : bool := from_option is_word false (head s).
Definition at_boundary (st : mstate) : bool :=
  xorb (word_before (ms_prev st)) (word_after (ms_rest st)).

(** [$] without [re.MULTILINE] *)
Definition at_end (s : pystr) : bool :=
  match s with [] => true | [c] => c =? 10 | _ => false end.

Fixpoint star_ends (f : N → bool) (prev : option N) (s : pystr) (g : pystr) : list mstate :=
  match s with
  | c :: s' =>
      if f c then star_ends f (Some c) s' g ++ [MState prev s g] else [MState prev s g]
  | [] => [MState prev [] g]
  end.

Fixpoint lazy_ends (f : N → bool) (prev : option N) (s : pystr) (g : pystr) : list mstate :=
  MState prev s g ::
  match s with
  | c :: s' => if f c then lazy_ends f (Some c) s' g else []
  | [] => []
  end.

(** The text between two positions *)
Definition consumed (st st' : mstate) : pystr :=
  take (length (ms_rest st) - length (ms_rest st')) (ms_rest st).

Definition set_group (st st' : mstate) : mstate :=
  MState (ms_prev st') (ms_rest st') (consumed st st').

Fixpoint ends (r : regex) (st : mstate) : list mstate :=
  match r with
  | Eps => [st]
  | Cls f =>
      match ms_rest st with
      | c :: s => if f c then [MState (Some c) s (ms_group st)] else []
      | [] => []
      end
  | Seq r1 r2 => concat (map (ends r2) (ends r1 st))
  | Alt r1 r2 => ends r1 st ++ ends r2 st
  | Star f => star_ends f (ms_prev st) (ms_rest st) (ms_group st)
  | LazyStar f => lazy_ends f (ms_prev st) (ms_rest st) (ms_group st)
  | Group r => map (set_group st) (ends r st)
  | WordB => if at_boundary st then [st] else []
  | EndAnchor => if at_end (ms_rest st) then [st] else []
  end.

(** [pattern.match(s)] *)
Definition re_match (r : regex) (s : pystr) : option mstate := head (ends r (MState None s [])).

(** [pattern.search(s)], from a position *)
Fixpoint search_from (r : regex) (prev : option N) (s : pystr) : option mstate :=
  match head (ends r (MState prev s [])) with
  | Some st => Some st
  | None =>
      match s with
      | c :: s' => search_from r (Some c) s'
      | [] => None
      end
  end.

Definition re_search (r : regex) (s : pystr) : option mstate := search_from r None s.

Definition found (r : regex) (s : pystr) : bool :=
  match re_search r s with Some _ => true | None => false end.

(** ** Pattern builders *)
Definition chr (c : N) : regex := Cls (N.eqb c).

(** With [re.IGNORECASE]: besides its two cases, [i] has the dotted capital
    and the dotless small letter, [s] the long s. *)
Definition same_case (c d : N) : bool :=
  (c =? d) ||
  (is_upper_ascii c && (d =? c + 32)) || (is_lower_ascii c && (d =? c - 32)) ||
  (((c =? 105) || (c =? 73)) && ((d =? 0x130) || (d =? 0x131))) ||
  (((c =? 115) || (c =? 83)) && (d =? 0x17F)).
Definition chr_i (c : N) : regex := Cls (same_case c).

Fixpoint lit_with (mk : N → regex) (s : pystr) : regex :=
  match s with [] => Eps | c :: s' => Seq (mk c) (lit_with mk s') end.
Definition lit : pystr → regex := lit_with chr.
Definition lit_i : pystr → regex := lit_with chr_i.

Definition spaces : regex := Star is_space.                       (* \s* *)
Definition spaces1 : regex := Seq (Cls is_space) (Star is_space). (* \s+ *)

Fixpoint seqs (l : list regex) : regex :=
  match l with [] => Eps | [r] => r | r :: l' => Seq r (seqs l') end.
Fixpoint alts (l : list regex) : regex :=
  match l with [] => Eps | [r] => r | r :: l' => Alt r (alts l') end.

(** ** Declarative meaning *)
Inductive rmatch : regex → mstate → mstate → Prop :=
  | m_eps st : rmatch Eps st st
  | m_cls f p c s g : f c = true → rmatch (Cls f) (MState p (c :: s) g) (MState (Some c) s g)
  | m_seq r1 r2 st1 st2 st3 :
      rmatch r1 st1 st2 → rmatch r2 st2 st3 → rmatch (Seq r1 r2) st1 st3
  | m_alt_l r1 r2 st st' : rmatch r1 st st' → rmatch (Alt r1 r2) st st'
  | m_alt_r r1 r2 st st' : rmatch r2 st st' → rmatch (Alt r1 r2) st st'
  | m_star_nil f st : rmatch (Star f) st st
  | m_star_cons f p c s g st' :
      f c = true → rmatch (Star f) (MState (Some c) s g) st' →
      rmatch (Star f) (MState p (c :: s) g) st'
  | m_lazy_nil f st : rmatch (LazyStar f) st st
  | m_lazy_cons f p c s g st' :
      f c = true → rmatch (LazyStar f) (MState (Some c) s g) st' →
      rmatch (LazyStar f) (MState p (c :: s) g) st'
  | m_group r st st' : rmatch r st st' → rmatch (Group r) st (set_group st st')
  | m_wordb st : at_boundary st = true → rmatch WordB st st
  | m_end st : at_end (ms_rest st) = true → rmatch EndAnchor st st.

Lemma star_ends_spec f p s g st :
  st ∈ star_ends f p s g ↔ rmatch (Star f) (MState p s g) st.
Proof.
  revert p. induction s as [|c s IH]; intros p; simpl.
  - rewrite list_elem_of_singleton. split; [intros ->; constructor|by inversion 1].
  - destruct (f c) eqn:Hf.
    + rewrite elem_of_app, IH, list_elem_of_singleton. split.
      * intros [?| ->]; [by constructor|constructor].
      * inversion 1; subst; auto.
    + rewrite list_elem_of_singleton. split; [intros ->; constructor|].
      inversion 1; subst; [done|congruence].
Qed.

Lemma lazy_ends_spec f p s g st :
  st ∈ lazy_ends f p s g ↔ rmatch (LazyStar f) (MState p s g) st.
Proof.
  revert p. induction s as [|c s IH]; intros p; simpl; rewrite elem_of_cons.
  - rewrite elem_of_nil. split; [intros [->|[]]; constructor|inversion 1; auto].
  - destruct (f c) eqn:Hf.
    + rewrite IH. split; [intros [->|?]; by constructor|inversion 1; subst; auto].
    + rewrite elem_of_nil. split; [intros [->|[]]; constructor|].
      inversion 1; subst; [auto|congruence].
Qed.

Lemma ends_spec r st st' : st' ∈ ends r st ↔ rmatch r st st'.
Proof.
  revert st st'. induction r as [|f|r1 IH1 r2 IH2|r1 IH1 r2 IH2|f|f|r IH| |]; intros st st'; simpl.
  - rewrite list_elem_of_singleton. split; [intros ->; constructor|by inversion 1].
  - destruct st as [p [|c s] g]; simpl; [split; [by intros ?%not_elem_of_nil|by inversion 1]|].
    destruct (f c) eqn:Hf.
    + rewrite list_elem_of_singleton. split; [intros ->; by constructor|by inversion 1].
    + split; [by intros ?%not_elem_of_nil|inversion 1; congruence].
  - rewrite list_elem_of_In, in_concat. split.
    + intros (l & Hl & Hin). apply in_map_iff in Hl as (st1 & <- & H1).
      apply list_elem_of_In, IH1 in H1. apply list_elem_of_In, IH2 in Hin.
      by econstructor.
    + inversion 1 as [| |? ? ? st1 ? H1 H2| | | | | | | | |]; subst.
      exists (ends r2 st1). rewrite in_map_iff. split; [|by apply list_elem_of_In, IH2].
      exists st1. split; [done|]. by apply list_elem_of_In, IH1.
  - rewrite elem_of_app, IH1, IH2. split; [intros [?|?]; by constructor|inversion 1; auto].
  - rewrite star_ends_spec. by destruct st.
  - rewrite lazy_ends_spec. by destruct st.
  - rewrite list_elem_of_In, in_map_iff. split.
    + intros (st1 & <- & H1). apply list_elem_of_In, IH in H1. by constructor.
    + inversion 1; subst. eexists; split; [done|]. apply list_elem_of_In. by apply IH.
  - destruct (at_boundary st) eqn:Hb.
    + rewrite list_elem_of_singleton. split; [intros ->; by constructor|by inversion 1].
    + split; [by intros ?%not_elem_of_nil|inversion 1; congruence].
  - destruct (at_end (ms_rest st)) eqn:Hb.
    + rewrite list_elem_of_singleton. split; [intros ->; by constructor|by inversion 1].
    + split; [by intros ?%not_elem_of_nil|inversion 1; congruence].
Qed.

(** The character before the position reached after [s] *)
Definition prev_of (prev : option N) (s : pystr) : option N :=
  match last s with Some c => Some c | None => prev end.

Lemma prev_of_cons prev c s : prev_of prev (c :: s) = prev_of (Some c) s.
Proof. unfold prev_of. rewrite last_cons. by destruct (last s). Qed.

Lemma head_elem {A} (l : list A) x : head l = Some x → x ∈ l.
Proof. destruct l; simpl; [done|]. intros [= ->]. left. Qed.

(** [search] succeeds exactly when the pattern matches from some position. *)
Lemma search_from_spec r prev s :
  is_Some (search_from r prev s) ↔
  ∃ a b st, s = a ++ b ∧ rmatch r (MState (prev_of prev a) b []) st.
Proof.
  revert prev. induction s as [|c s IH]; intros prev; simpl;
    destruct (head (ends r (MState prev _ []))) as [st|] eqn:Hh.
  - split; [|done]. intros _. exists [], [], st. split; [done|]. by apply ends_spec, head_elem.
  - split; [by intros [? ?]|]. intros (a & b & st & Heq & Hm).
    symmetry in Heq. apply app_nil in Heq as [-> ->]. apply ends_spec in Hm.
    destruct (ends r _); [by apply not_elem_of_nil in Hm|done].
  - split; [|done]. intros _. exists [], (c :: s), st. split; [done|].
    by apply ends_spec, head_elem.
  - rewrite IH. split.
    + intros (a & b & st & -> & Hm). exists (c :: a), b, st. split; [done|].
      by rewrite prev_of_cons.
    + intros ([|c' a] & b & st & Heq & Hm); simplify_eq/=.
      * apply ends_spec in Hm. destruct (ends r _); [by apply not_elem_of_nil in Hm|done].
      * exists a, b, st. split; [done|]. by rewrite <-(prev_of_cons prev).
Qed.

Lemma star_inv f st st' :
  rmatch (Star f) st st' →
  ∃ w, ms_rest st = w ++ ms_rest st' ∧ Forall (λ c, f c = true) w.
Proof.
  remember (Star f) as r eqn:Hr. intros Hm. revert Hr.
  induction Hm; intros Hr; simplify_eq; [by exists []|].
  destruct IHHm as (w & Hw & Hf); [done|]. exists (c :: w). simpl in *.
  split; [by rewrite Hw|by constructor].
Qed.

Lemma star_app f w p s g :
  Forall (λ c, f c = true) w →
  rmatch (Star f) (MState p (w ++ s) g) (MState (prev_of p w) s g).
Proof.
  intros Hw. revert p. induction Hw as [|c w Hc Hw IH]; intros p; [constructor|].
  rewrite prev_of_cons. simpl. constructor; [done|apply IH].
Qed.

Lemma found_spec r s :
  found r s = true ↔ ∃ a b st, s = a ++ b ∧ rmatch r (MState (last a) b []) st.
Proof.
  transitivity (is_Some (re_search r s)).
  { unfold found. destruct (re_search r s); split; by try intros [? ?]. }
  unfold re_search. rewrite search_from_spec.
  assert (∀ a, prev_of None a = last a) as Hl by (intros a; unfold prev_of; by destruct (last a)).
  split; intros (a & b & st & H1 & H2); exists a, b, st; by rewrite Hl in *.
Qed.

(** ** The texts a pattern without anchors and groups matches *)
Fixpoint lang (r : regex) (w : pystr) : Prop :=
  match r with
  | Eps => w = []
  | Cls f => ∃ c, w = [c] ∧ f c = true
  | Seq r1 r2 => ∃ u v, w = u ++ v ∧ lang r1 u ∧ lang r2 v
  | Alt r1 r2 => lang r1 w ∨ lang r2 w
  | Star f | LazyStar f => Forall (λ c, f c = true) w
  | Group _ | WordB | EndAnchor => False
  end.

Fixpoint plain (r : regex) : bool :=
  match r with
  | Eps | Cls _ | Star _ => true
  | Seq r1 r2 | Alt r1 r2 => plain r1 && plain r2
  | _ => false
  end.

Lemma prev_of_app p u v : prev_of p (u ++ v) = prev_of (prev_of p u) v.
Proof. unfold prev_of. rewrite last_app. by destruct (last v). Qed.

Lemma star_states f p s g st' :
  rmatch (Star f) (MState p s g) st' ↔
  ∃ w t, s = w ++ t ∧ Forall (λ c, f c = true) w ∧ st' = MState (prev_of p w) t g.
Proof.
  split.
  - intros Hm. remember (Star f) as r eqn:Hr. remember (MState p s g) as st eqn:Hst.
    revert p s g Hr Hst. induction Hm; intros p0 s0 g0 Hr Hst; simplify_eq; [by exists [], s0|].
    destruct (IHHm _ _ _ eq_refl eq_refl) as (w & t & -> & Hw & ->).
    exists (c :: w), t. rewrite prev_of_cons. split_and!; [done|by constructor|done].
  - intros (w & t & -> & Hw & ->). by apply star_app.
Qed.

Lemma rmatch_lang r p s g st' :
  plain r = true →
  rmatch r (MState p s g) st' ↔ ∃ w t, s = w ++ t ∧ lang r w ∧ st' = MState (prev_of p w) t g.
Proof.
  revert p s g st'. induction r as [|f|r1 IH1 r2 IH2|r1 IH1 r2 IH2|f|f|r IH| |];
    intros p s g st' Hp; try done; simpl.
  - split; [inversion 1; by exists [], s|]. intros (w & t & -> & -> & ->). constructor.
  - split.
    + inversion 1; subst. by eexists [c], _; eauto 10.
    + intros (w & t & -> & (c & -> & Hc) & ->). by constructor.
  - apply andb_true_iff in Hp as [Hp1 Hp2]. split.
    + inversion 1 as [| |? ? ? st1 ? Hm1 Hm2| | | | | | | | |]; subst.
      apply IH1 in Hm1 as (u & t & -> & Hu & ->); [|done].
      apply IH2 in Hm2 as (v & t' & -> & Hv & ->); [|done].
      exists (u ++ v), t'. rewrite prev_of_app, <- app_assoc. by eauto 10.
    + intros (w & t & -> & (u & v & -> & Hu & Hv) & ->). rewrite prev_of_app, <- app_assoc.
      econstructor; [apply IH1|apply IH2]; eauto.
  - apply andb_true_iff in Hp as [Hp1 Hp2]. split.
    + inversion 1; subst; [edestruct IH1 as [(w & t & ? & ? & ?) _]
                          |edestruct IH2 as [(w & t & ? & ? & ?) _]]; eauto 10.
    + intros (w & t & -> & [Hw|Hw] & ->); [apply m_alt_l, IH1|apply m_alt_r, IH2]; eauto.
  - apply star_states.
Qed.

(** ** Words *)
Definition boundary (prev : option N) (s : pystr) : bool := at_boundary (MState prev s []).

(** A text that satisfies [P] stands in [line] between word boundaries. *)
Definition delimited_in (line : pystr) (P : pystr → Prop) : Prop :=
  ∃ a w b, line = a ++ w ++ b ∧ P w ∧ boundary (last a) (w ++ b) = true
    ∧ boundary (last (a ++ w)) b = true.

Definition occurs_in (line : pystr) (P : pystr → Prop) : Prop :=
  ∃ a w b, line = a ++ w ++ b ∧ P w.

Lemma rmatch_snoc l r st st' :
  rmatch (seqs (l ++ [r])) st st' ↔ ∃ st1, rmatch (seqs l) st st1 ∧ rmatch r st1 st'.
Proof.
  revert st. induction l as [|r0 l IH]; intros st.
  - split; [intros Hm; exists st; split; [constructor|done]|].
    intros (st1 & H1 & H2). inversion H1; subst. done.
  - destruct l as [|r1 l].
    + split; [inversion 1; subst; eauto|]. intros (st1 & H1 & H2). by econstructor.
    + change (seqs ((r0 :: r1 :: l) ++ [r])) with (Seq r0 (seqs ((r1 :: l) ++ [r]))).
      change (seqs (r0 :: r1 :: l)) with (Seq r0 (seqs (r1 :: l))). split.
      * inversion 1 as [| |? ? ? sta ? Hm1 Hm2| | | | | | | | |]; subst.
        apply IH in Hm2 as (st1 & Hm2 & Hm3). exists st1. split; [by econstructor|done].
      * intros (st1 & H1 & H3). inversion H1 as [| |? ? ? sta ? Ha Hb| | | | | | | | |]; subst.
        econstructor; [done|]. apply IH. eauto.
Qed.

Lemma found_delimited l line :
  plain (seqs l) = true →
  found (seqs (WordB :: l ++ [WordB])) line = true ↔ delimited_in line (lang (seqs l)).
Proof.
  intros Hp. rewrite found_spec. unfold delimited_in.
  assert (∀ st st', rmatch (seqs (WordB :: l ++ [WordB])) st st' ↔
    at_boundary st = true ∧ rmatch (seqs l) st st' ∧ at_boundary st' = true) as E.
  { intros st st'.
    assert (seqs (WordB :: l ++ [WordB]) = Seq WordB (seqs (l ++ [WordB]))) as ->
      by by destruct l. split.
    - inversion 1 as [| |? ? ? st1 ? Hm1 Hm2| | | | | | | | |]; subst. inversion Hm1; subst.
      apply rmatch_snoc in Hm2 as (st2 & Hm2 & Hm3). by inversion Hm3; subst.
    - intros (Hb & Hm & Hb'). econstructor; [by constructor|]. apply rmatch_snoc.
      exists st'. split; [done|by constructor]. }
  assert (∀ a w, prev_of (last a) w = last (a ++ w)) as Hl
    by (intros a w; rewrite last_app; unfold prev_of; by destruct (last w)).
  split.
  - intros (a & b & st & -> & (Hb & Hm & Hb')%E).
    apply rmatch_lang in Hm as (w & t & -> & Hw & ->); [|done].
    exists a, w, t. unfold boundary. rewrite <- Hl. by split_and!.
  - intros (a & w & b & -> & Hw & Hb & Hb'). unfold boundary in Hb'. rewrite <- Hl in Hb'.
    exists a, (w ++ b), (MState (prev_of (last a) w) b []). split; [done|]. apply E.
    split_and!; [done| |done]. apply rmatch_lang; [done|]. eauto.
Qed.

Lemma found_occurs r line : plain r = true → found r line = true ↔ occurs_in line (lang r).
Proof.
  intros Hp. rewrite found_spec. unfold occurs_in. split.
  - intros (a & b & st & -> & Hm). apply rmatch_lang in Hm as (w & t & -> & Hw & ->); eauto.
  - intros (a & w & b & -> & Hw). eexists a, (w ++ b), _. split; [done|].
    apply rmatch_lang; eauto.
Qed.

Lemma found_alt r1 r2 line : found (Alt r1 r2) line = true ↔ found r1 line = true ∨ found r2 line = true.
Proof.
  rewrite !found_spec. split.
  - intros (a & b & st & -> & Hm). inversion Hm; subst; eauto 10.
  - intros [(a & b & st & -> & Hm)|(a & b & st & -> & Hm)]; exists a, b, st; split; try done;
      by constructor.
Qed.

Lemma lang_lit_with (f : N → N → bool) t w :
  lang (lit_with (λ c, Cls (f c)) t) w ↔ Forall2 (λ c d, f c d = true) t w.
Proof.
  revert w. induction t as [|c t IH]; intros w; simpl.
  - split; [by intros ->|by inversion 1].
  - split.
    + intros (u & v & -> & (d & -> & Hd) & Hv%IH). by constructor.
    + inversion 1 as [|? d ? v Hd Hv]; subst. exists [d], v. split_and!; [done|eauto|by apply IH].
Qed.
End matcher.
