(* ===== verification/ArgValidator.v ===== *)
(** * CLI arguments and runtime diagnostics (runner/validator.py, runner/diagnostics.py)

    The allowlist every argument of a tool has to match before a process is
    started, and the bounded feedback built from a failed run. *)
From S2P Require Import Prelude PyStr Exceptions Regex.
Local Open Scope N_scope.

(** ** runner/validator.py *)
Definition safe_char (c : N) : bool :=
  is_lower_ascii c || is_upper_ascii c || is_digit_ascii c
  || (c =? 95) || (c =? 46) || (c =? 47) || (c =? 58) || (c =? 61) || (c =? 44) || (c =? 45).

(** [^[a-zA-Z0-9_./:=,\-]+$] *)
Definition SAFE_ARG_PATTERN : regex :=
  seqs [Cls safe_char; Star safe_char; EndAnchor].

Section arguments.
Context `{UnicodeData}.

(** [ArgumentValidator.validate] *)
Fixpoint ArgumentValidator_validate (args : list pystr) : outcome exn unit :=
  match args with
  | [] => Ret tt
  | arg :: args' =>
      match re_match SAFE_ARG_PATTERN arg with
      | None => Exc (CLIArgumentValidationError arg)
      | Some _ => ArgumentValidator_validate args'
      end
  end.

Definition safe_word (w : pystr) : Prop := w ≠ [] ∧ Forall (λ c, safe_char c = true) w.

(** An argument passes exactly when it is a word of allowed characters,
    possibly with one line feed after it. *)
Lemma safe_arg_spec arg :
  is_Some (re_match SAFE_ARG_PATTERN arg) ↔ ∃ w, safe_word w ∧ (arg = w ∨ arg = w ++ [10]).
Proof.
  unfold re_match. split.
  - intros [st Hst%head_elem%ends_spec]. unfold SAFE_ARG_PATTERN in Hst. simpl in Hst.
    inversion Hst as [| |? ? ? st1 ? H1 H2| | | | | | | | |]; subst.
    inversion H1; subst. inversion H2 as [| |? ? ? st2 ? H3 H4| | | | | | | | |]; subst.
    apply star_inv in H3 as (w & Hw & Hf). inversion H4 as [| | | | | | | | | | |? He]; subst. simpl in Hw.
    exists (c :: w). split; [split; [done|by constructor]|].
    destruct (ms_rest st) as [|d [|]]; simpl in *; [left|right|done].
    + by rewrite Hw, app_nil_r.
    + apply N.eqb_eq in He as ->. by rewrite Hw.
  - intros (w & [Hne Hw] & Harg).
    destruct w as [|c w]; [done|]. apply Forall_cons in Hw as [Hc Hw].
    assert (∃ e, at_end e = true ∧ arg = c :: w ++ e) as (e & He & ->).
    { destruct Harg as [->| ->]; [exists []; by rewrite app_nil_r|by exists [10]]. }
    assert (MState (prev_of (Some c) w) e [] ∈ ends SAFE_ARG_PATTERN (MState None (c :: w ++ e) []))
      as Hin.
    { apply ends_spec. eapply m_seq; [by constructor|]. eapply m_seq; [by apply star_app|].
      by constructor. }
    destruct (ends _ _); [by apply not_elem_of_nil in Hin|by eexists].
Qed.

(** C39: The argument allowlist.  [ArgumentValidator.validate] accepts exactly the
    argument lists all of whose elements are non-empty words of letters,
    digits and [_ . / : = , -], possibly with one line feed after the word;
    otherwise it raises [CLIArgumentValidationError] with an offending
    element. *)
Theorem argument_allowlist args :
  match ArgumentValidator_validate args with
  | Ret _ => Forall (λ arg, ∃ w, safe_word w ∧ (arg = w ∨ arg = w ++ [10])) args
  | Exc e => ∃ arg, arg ∈ args ∧ e = CLIArgumentValidationError arg ∧
      ¬ ∃ w, safe_word w ∧ (arg = w ∨ arg = w ++ [10])
  end.
Proof.
  induction args as [|arg args IH]; simpl; [constructor|].
  pose proof (safe_arg_spec arg) as Hs.
  destruct (re_match SAFE_ARG_PATTERN arg).
  - destruct (ArgumentValidator_validate args).
    + constructor; [by apply Hs|done].
    + destruct IH as (a & ? & ?). exists a. split; [by right|done].
  - exists arg. split_and!; [left|done|]. intros Hw%Hs. by destruct Hw.
Qed.
End arguments.

(** The pattern's [$] also matches before a final line feed. *)
Example newline_accepted :
  ArgumentValidator_validate (H := plain_unicode) [py "-o"; py "out.png" ++ [10]] = Ret tt.
Proof. vm_compute. reflexivity. Qed.

Example shell_refused :
  ArgumentValidator_validate (H := plain_unicode) [py "-o"; py "output.png; rm -rf /"]
  = Exc (CLIArgumentValidationError (py "output.png; rm -rf /")).
Proof. vm_compute. reflexivity. Qed.

(** ** runner/diagnostics.py *)
Definition MAX_DIAGNOSTIC_CHARS : nat := 1500.

Definition _RULES : list (pystr * pystr * pystr) := Eval vm_compute in
  [ (py "Current top level object is empty.", py "SCAD_EMPTY_TOP_LEVEL",
     py "OpenSCAD produced no top-level geometry.");
    (py "Ignoring 3D child object for 2D operation", py "SCAD_2D_3D_MIXED_OPERATION",
     py "A 3D child was passed to a 2D operation.") ].

Definition NL : pystr := [10].

(** The first line of a tail that holds the needle *)
Definition first_line_with (needle tail : pystr) : option pystr :=
  head (filter (λ line, contains needle line = true) (splitlines tail)).

(** The inner loop over the two tails, with its [break] *)
Fixpoint rule_match (rule : pystr * pystr * pystr) (tails : list (pystr * pystr)) : list pystr :=
  match tails with
  | [] => []
  | (stream_name, tail) :: tails' =>
      let '(needle, rule_id, description) := rule in
      match first_line_with needle tail with
      | Some line =>
          [py "- [" ++ rule_id ++ py "] " ++ description ++ NL ++ py "  "
           ++ stream_name ++ py ": " ++ take 300 line]
      | None => rule_match rule tails'
      end
  end.

Definition OMITTED : pystr := Eval vm_compute in NL ++ py "... [additional output omitted]".

Definition build_runtime_feedback (error : cli_error) : pystr :=
  let tails := [(py "stderr", ce_stderr error); (py "stdout", ce_stdout error)] in
  let first := py "OpenSCAD execution failed with exit code "
                 ++ optional_int (ce_exit_code error) ++ py "." in
  let matches := concat (map (λ rule, rule_match rule tails) _RULES) in
  let rest :=
    if decide (matches = []) then
      concat (map (λ '(stream_name, tail),
        if decide (tail = []) then []
        else [py "- " ++ stream_name ++ py " bounded tail:" ++ NL ++ tail]) tails)
    else matches in
  let feedback := str_join NL (first :: rest) in
  if bool_decide (MAX_DIAGNOSTIC_CHARS < length feedback)%nat
  then rstrip (take (MAX_DIAGNOSTIC_CHARS - 36) feedback) ++ OMITTED
  else feedback.

(** Runtime feedback is bounded: whatever a failed run printed, the text sent
    back to the model has at most 1500 characters. *)
Theorem feedback_bounded error : (length (build_runtime_feedback error) ≤ MAX_DIAGNOSTIC_CHARS)%nat.
Proof.
  unfold build_runtime_feedback. set (feedback := str_join _ _). clearbody feedback.
  case_bool_decide as Hl; [|lia]. rewrite length_app. change (length OMITTED) with 32%nat.
  pose proof (length_rstrip_le (take (MAX_DIAGNOSTIC_CHARS - 36) feedback)) as Hr.
  rewrite length_take in Hr. unfold MAX_DIAGNOSTIC_CHARS in *. lia.
Qed.
