(* ===== verification/Scad.v ===== *)
(** * Static checks of OpenSCAD sources (llm/scad_validator.py)

    [_mask_non_code] blanks comments and, on request, string literals; the
    rules of [ScadStaticValidator.validate] then look at the lines that are
    left, and the report they build is bounded. *)
From S2P Require Import Prelude PyStr Exceptions Regex.
Local Open Scope N_scope.

Definition QUOTE : N := 34.
Definition BSLASH : N := 92.
Definition STAR : N := 42.
Definition FSLASH : N := 47.
Definition LF : N := 10.
Definition SP : N := 32.

Inductive mask_state := normal | in_string | in_line_comment | in_block_comment.

(** The loop that counts the backslashes before a quote; [before] is the text
    already read, last character first. *)
Fixpoint backslash_count (before : pystr) : nat :=
  match before with
  | c :: before' => if c =? BSLASH then S (backslash_count before') else O
  | [] => O
  end.

(** The [while] loop; [before] is [content[:i]] reversed. *)
Fixpoint mask_loop (mask_strings : bool) (state : mask_state) (before content : pystr) : pystr :=
  match content with
  | [] => []
  | char :: rest =>
      match state with
      | normal =>
          if char =? QUOTE then
            (if mask_strings then SP else char)
              :: mask_loop mask_strings in_string (char :: before) rest
          else
            match rest with
            | next :: rest' =>
                if (char =? FSLASH) && (next =? FSLASH) then
                  SP :: SP :: mask_loop mask_strings in_line_comment (next :: char :: before) rest'
                else if (char =? FSLASH) && (next =? STAR) then
                  SP :: SP :: mask_loop mask_strings in_block_comment (next :: char :: before) rest'
                else char :: mask_loop mask_strings normal (char :: before) rest
            | [] => char :: mask_loop mask_strings normal (char :: before) rest
            end
      | in_string =>
          (if mask_strings then SP else char)
            :: mask_loop mask_strings
                 (if (char =? QUOTE) && Nat.even (backslash_count before) then normal else in_string)
                 (char :: before) rest
      | in_line_comment =>
          if char =? LF then char :: mask_loop mask_strings normal (char :: before) rest
          else SP :: mask_loop mask_strings in_line_comment (char :: before) rest
      | in_block_comment =>
          match rest with
          | next :: rest' =>
              if (char =? STAR) && (next =? FSLASH) then
                SP :: SP :: mask_loop mask_strings normal (next :: char :: before) rest'
              else
                (if char =? LF then char else SP)
                  :: mask_loop mask_strings in_block_comment (char :: before) rest
          | [] =>
              (if char =? LF then char else SP)
                :: mask_loop mask_strings in_block_comment (char :: before) rest
          end
      end
  end.

Definition _mask_non_code (content : pystr) (mask_strings : bool) : pystr :=
  mask_loop mask_strings normal [] content.

Definition strip_comments (content : pystr) : pystr := _mask_non_code content false.

(** ** The rules *)
Definition ident_start (c : N) : bool := is_lower_ascii c || is_upper_ascii c || (c =? 95).
Definition ident_char (c : N) : bool := ident_start c || is_digit_ascii c.
Definition is_xyz (c : N) : bool := (120 <=? c) && (c <=? 122).

(** [\b[A-Za-z_][A-Za-z0-9_]*\s*\.\s*[xyz]\b] *)
Definition r3_pattern : regex :=
  seqs [WordB; Cls ident_start; Star ident_char; spaces; chr 46; spaces; Cls is_xyz; WordB].

(** [\b180\s*/\s*PI\b|\bPI\s*/\s*180\b], ignoring case *)
Definition r5_pattern : regex :=
  Alt (seqs [WordB; lit_i (py "180"); spaces; chr FSLASH; spaces; lit_i (py "PI"); WordB])
      (seqs [WordB; lit_i (py "PI"); spaces; chr FSLASH; spaces; lit_i (py "180"); WordB]).

Definition r6_pattern : regex :=
  alts [ seqs [WordB; lit_i (py "Here"); spaces1; lit_i (py "is"); WordB];
         seqs [WordB; lit_i (py "The"); spaces1; lit_i (py "following"); WordB];
         seqs [WordB; lit_i (py "Below"); spaces1; lit_i (py "is"); WordB];
         lit_i (py "아래는");
         lit_i (py "다음은");
         seqs [lit_i (py "다음"); spaces1; lit_i (py "코드는")] ].

Definition keywords : list pystr := Eval vm_compute in
  [ py "module"; py "polyhedron"; py "cube"; py "sphere"; py "cylinder"; py "difference";
    py "union"; py "intersection"; py "translate"; py "rotate"; py "scale"; py "linear_extrude";
    py "rotate_extrude"; py "hull"; py "minkowski"; py "text"; py "import" ].

Definition keyword_pattern (kw : pystr) : regex := seqs [WordB; lit kw; WordB].

Definition pad (n : nat) (lines : list pystr) : list pystr :=
  lines ++ replicate (n - length lines) [].

(** [[idx for idx, line in enumerate(lines) if p(line)]] *)
Fixpoint indices_where (p : pystr → bool) (idx : nat) (lines : list pystr) : list nat :=
  match lines with
  | [] => []
  | line :: lines' =>
      (if p line then [idx] else []) ++ indices_where p (S idx) lines'
  end.

Definition snippet (orig_lines : list pystr) (idx : nat) : pystr :=
  let line_content := default [] (orig_lines !! idx) in
  let line_content :=
    if bool_decide (150 < length line_content)%nat then take 150 line_content ++ py "..."
    else line_content in
  py "  * Line " ++ str_of_nat (idx + 1) ++ py ": " ++ line_content.

Definition get_snippets (orig_lines : list pystr) (indices : list nat) : list pystr :=
  map (snippet orig_lines) (take 2 indices).

Abbreviation violation := (pystr * list pystr)%type.

(** A rule over the lines: nothing, or its description with snippets *)
Definition line_rule (desc : pystr) (orig_lines : list pystr) (indices : list nat)
    : list violation :=
  if decide (indices = []) then [] else [(desc, get_snippets orig_lines indices)].

Definition R1_MESSAGE : pystr := Eval vm_compute in
  py "OpenSCAD static validation failed:" ++ [LF]
  ++ py "- [SCAD_EMPTY_FILE] OpenSCAD content is empty or only whitespace.".
Definition R2_DESC : pystr := Eval vm_compute in
  py "- [SCAD_MARKDOWN_FENCE] Markdown code fences are forbidden." ++ [LF]
  ++ py "  Return raw OpenSCAD code only inside .scad file content.".
Definition R3_DESC : pystr := Eval vm_compute in
  py "- [SCAD_VECTOR_PROPERTY_ACCESS] Forbidden vector property access found." ++ [LF]
  ++ py "  Use index access instead: point[0], point[1], point[2]. Never use .x, .y, or .z.".
Definition R4_DESC : pystr := Eval vm_compute in
  py "- [SCAD_SINGLE_QUOTE] Single quotes are forbidden." ++ [LF]
  ++ py "  Use double quotes for strings.".
Definition R5_DESC : pystr := Eval vm_compute in
  py "- [SCAD_RADIAN_CONVERSION] Radian conversion formulas (180/PI or PI/180) are forbidden." ++ [LF]
  ++ py "  OpenSCAD trigonometric functions use degrees directly.".
Definition R6_DESC : pystr := Eval vm_compute in
  py "- [SCAD_PROSE] Prose explanations or conversational prefixes are forbidden inside .scad content.".
Definition R7_DESC : pystr := Eval vm_compute in
  py "- [SCAD_MISSING_KEYWORD] OpenSCAD structure is missing." ++ [LF]
  ++ py "  The file must contain valid OpenSCAD keywords (e.g., module, polyhedron, cube, sphere, translate).".

Definition FENCE : pystr := Eval vm_compute in py "```".
Definition HEADER : pystr := Eval vm_compute in py "OpenSCAD static validation failed:" ++ [LF].
Definition VIOLATIONS_OMITTED : pystr := Eval vm_compute in py "... [additional violations omitted]".

Section rules.
Context `{UnicodeData}.

Definition has_keyword (syntax_masked : pystr) : bool :=
  existsb (λ kw, found (keyword_pattern kw) syntax_masked) keywords.

Definition violations_of (content : pystr) : list violation :=
  let orig_lines := splitlines content in
  let syntax_masked := _mask_non_code content true in
  let stripped_lines := splitlines syntax_masked in
  let num_lines := Nat.max (length orig_lines) (length stripped_lines) in
  let orig_lines := pad num_lines orig_lines in
  let stripped_lines := pad num_lines stripped_lines in
  line_rule R2_DESC orig_lines (indices_where (contains FENCE) 0 orig_lines)
  ++ line_rule R3_DESC orig_lines (indices_where (found r3_pattern) 0 stripped_lines)
  ++ line_rule R4_DESC orig_lines (indices_where (contains [39]) 0 stripped_lines)
  ++ line_rule R5_DESC orig_lines (indices_where (found r5_pattern) 0 stripped_lines)
  ++ line_rule R6_DESC orig_lines (indices_where (found r6_pattern) 0 stripped_lines)
  ++ (if has_keyword syntax_masked then [] else [(R7_DESC, [])]).

(** ** The report *)
Definition block_str (v : violation) : pystr :=
  str_join [LF]
    (v.1 :: if decide (v.2 = []) then [] else py "  Snippet:" :: v.2) ++ [LF].

(** The loop with its limit; the flag is [omitted]. *)
Fixpoint fit_blocks (current_len : nat) (violations : list violation) : list pystr * bool :=
  match violations with
  | [] => ([], false)
  | v :: violations' =>
      let block := block_str v in
      if bool_decide (1450 < current_len + length block)%nat then ([], true)
      else match fit_blocks (current_len + length block) violations' with
           | (lines, omitted) => (block :: lines, omitted)
           end
  end.

Definition report (violations : list violation) : pystr :=
  match fit_blocks (length HEADER) violations with
  | (final_lines, omitted) =>
      strip (HEADER ++ concat (final_lines ++ if omitted then [VIOLATIONS_OMITTED] else []))
  end.

Definition validation_error (message : pystr) : exn :=
  LLMPlanValidationError message 400 (py "VALIDATION_ERROR").

(** [ScadStaticValidator.validate] *)
Definition ScadStaticValidator_validate (content : pystr) : outcome exn unit :=
  if decide (strip content = []) then Exc (validation_error R1_MESSAGE)
  else
    match violations_of content with
    | [] => Ret tt
    | violations => Exc (validation_error (report violations))
    end.
End rules.

(** ** Masking keeps positions *)

(** Induction over the characters the loop still has to read *)
Lemma mask_ind (P : mask_state → pystr → pystr → Prop) :
  (∀ st before content,
     (∀ st' before' rest, (length rest < length content)%nat → P st' before' rest) →
     P st before content) →
  ∀ st before content, P st before content.
Proof.
  intros HP st before content. remember (length content) as n eqn:Hn.
  revert st before content Hn. induction (lt_wf n) as [n _ IH].
  intros st before content ->. apply HP. intros st' before' rest Hlt. by eapply IH.
Qed.

(** How an input character may look in the output *)
Definition masked_as (mask_strings : bool) (c d : N) : Prop :=
  d = c ∨ (d = SP ∧ (c ≠ LF ∨ mask_strings = true)).

(** One step of the loop, by cases *)
Ltac mask_cases r :=
  simpl; destruct r as [|c' rest]; cbv beta match;
  repeat match goal with
  | |- context [if ?b then _ else _] =>
      lazymatch b with
      | context [if _ then _ else _] => fail
      | _ => destruct b eqn:?
      end
  end;
  repeat match goal with
  | H : (_ && _) = true |- _ => apply andb_true_iff in H as [? ?]
  | H : (_ =? _) = true |- _ => apply N.eqb_eq in H
  | H : (_ =? _) = false |- _ => apply N.eqb_neq in H
  end; subst.

Lemma mask_loop_chars ms st before content :
  Forall2 (masked_as ms) content (mask_loop ms st before content).
Proof.
  revert st before content. apply mask_ind. intros st before [|c r] IH; [constructor|].
  destruct st; mask_cases r.
  all: repeat first [apply IH; simpl; lia|apply Forall2_cons_2; [unfold masked_as; auto|]].
Qed.

Lemma mask_loop_no_quote st before content : QUOTE ∉ mask_loop true st before content.
Proof.
  revert st before content. apply mask_ind. intros st before [|c r] IH; [apply not_elem_of_nil|].
  destruct st; mask_cases r.
  all: repeat first [apply IH; simpl; lia|apply not_elem_of_cons; split; [done|]].
Qed.

(** What precedes matters only inside a string, and there only up to the
    opening quote. *)
Lemma mask_loop_before ms st b1 b2 content :
  (st = in_string → backslash_count b1 = backslash_count b2) →
  mask_loop ms st b1 content = mask_loop ms st b2 content.
Proof.
  revert b2. revert st b1 content. refine (mask_ind _ _).
  intros st b1 [|c r] IH b2 Hb; [done|].
  destruct st; simpl; try rewrite (Hb eq_refl); mask_cases r.
  all: repeat match goal with |- _ :: _ = _ :: _ => f_equal end.
  all: apply IH; try (simpl; lia); intros Hst; simpl; try done.
  all: by rewrite Hb.
Qed.

Lemma line_comment_body ms before body post :
  LF ∉ body →
  mask_loop ms in_line_comment before (body ++ LF :: post)
  = replicate (length body) SP ++ LF :: mask_loop ms normal [] post.
Proof.
  revert before. induction body as [|c body IH]; intros before Hb; simpl.
  - f_equal. by apply mask_loop_before.
  - apply not_elem_of_cons in Hb as [Hc Hb].
    destruct (N.eqb_spec c LF) as [->|_]; [done|]. f_equal. by apply IH.
Qed.

(** ** The report is bounded *)
Lemma fit_blocks_length len violations lines omitted :
  (len ≤ 1450)%nat → fit_blocks len violations = (lines, omitted) →
  (len + length (concat lines) ≤ 1450)%nat.
Proof.
  revert len lines. induction violations as [|v vs IH]; intros len lines Hlen; simpl.
  { intros [= <- _]. simpl. lia. }
  case_bool_decide as Hb; [intros [= <- _]; simpl; lia|].
  destruct (fit_blocks _ vs) as [ls o] eqn:Hf. intros [= <- <-].
  apply IH in Hf; [|lia]. simpl. rewrite length_app. lia.
Qed.

Lemma report_length violations : (length (report violations) ≤ 1485)%nat.
Proof.
  unfold report. destruct (fit_blocks _ violations) as [ls o] eqn:Hf.
  apply fit_blocks_length in Hf; [|vm_compute; lia].
  etrans; [apply length_strip_le|]. rewrite length_app, concat_app, length_app.
  assert (length (concat (if o then [VIOLATIONS_OMITTED] else [])) ≤ 35)%nat.
  { destruct o; vm_compute; lia. }
  lia.
Qed.

(** ** What acceptance means *)
Lemma indices_where_nil p idx lines :
  indices_where p idx lines = [] ↔ Forall (λ l, p l = false) lines.
Proof.
  revert idx. induction lines as [|l lines IH]; intros idx; simpl; [by split|].
  rewrite Forall_cons, <-(IH (S idx)). destruct (p l); simpl; [by split; [|intros []]|tauto].
Qed.

Lemma line_rule_nil p desc orig lines :
  line_rule desc orig (indices_where p 0 lines) = [] ↔ Forall (λ l, p l = false) lines.
Proof.
  unfold line_rule. rewrite <-(indices_where_nil p 0). case_decide; [by split|by split].
Qed.

Lemma Forall_pad (P : pystr → Prop) n lines : P [] → Forall P (pad n lines) ↔ Forall P lines.
Proof.
  intros H0. unfold pad. rewrite Forall_app. split; [by intros [? _]|].
  intros Hl. split; [done|]. by apply Forall_replicate.
Qed.

(** ** The rules, read as statements about the text *)
Definition blank (s : pystr) : Prop := Forall (λ c, is_space c = true) s.
Definition identifier (s : pystr) : Prop :=
  ∃ c s', s = c :: s' ∧ ident_start c = true ∧ Forall (λ d, ident_char d = true) s'.
Definition same_text (t w : pystr) : Prop := Forall2 (λ c d, same_case c d = true) t w.

(** [name . x] *)
Definition vector_access (w : pystr) : Prop :=
  ∃ name s1 s2 c, w = name ++ s1 ++ 46 :: s2 ++ [c] ∧ identifier name ∧ blank s1 ∧ blank s2
    ∧ (c = 120 ∨ c = 121 ∨ c = 122).

(** [l / r] *)
Definition quotient (l r w : pystr) : Prop :=
  ∃ u s1 s2 v, w = u ++ s1 ++ FSLASH :: s2 ++ v ∧ same_text l u ∧ blank s1 ∧ blank s2 ∧ same_text r v.

(** Two words with white space between them *)
Definition phrase (l r w : pystr) : Prop :=
  ∃ u s v, w = u ++ s ++ v ∧ same_text l u ∧ blank s ∧ s ≠ [] ∧ same_text r v.

Section rules_meaning.
Context `{UnicodeData}.

Definition prose (line : pystr) : Prop :=
  delimited_in line (phrase (py "Here") (py "is"))
  ∨ delimited_in line (phrase (py "The") (py "following"))
  ∨ delimited_in line (phrase (py "Below") (py "is"))
  ∨ occurs_in line (same_text (py "아래는"))
  ∨ occurs_in line (same_text (py "다음은"))
  ∨ occurs_in line (phrase (py "다음") (py "코드는")).

Lemma delimited_iff line (P Q : pystr → Prop) :
  (∀ w, P w ↔ Q w) → delimited_in line P ↔ delimited_in line Q.
Proof. intros E. unfold delimited_in. by setoid_rewrite E. Qed.

Lemma occurs_iff line (P Q : pystr → Prop) :
  (∀ w, P w ↔ Q w) → occurs_in line P ↔ occurs_in line Q.
Proof. intros E. unfold occurs_in. by setoid_rewrite E. Qed.

Lemma lang_lit_i t w : lang (lit_i t) w ↔ same_text t w.
Proof. apply lang_lit_with. Qed.

Lemma lang_lit t w : lang (lit t) w ↔ w = t.
Proof.
  unfold lit. rewrite (lang_lit_with N.eqb). split.
  - induction 1 as [|c d t' w' Hc _ IH]; [done|]. apply N.eqb_eq in Hc. by subst.
  - intros ->. apply Forall2_same_length_lookup. split; [done|].
    intros i x y Hx Hy. rewrite Hx in Hy. injection Hy as ->. apply N.eqb_refl.
Qed.

Lemma plain_lit (mk : N → N → bool) t : plain (lit_with (λ c, Cls (mk c)) t) = true.
Proof. by induction t. Qed.

Lemma vector_access_lang w :
  lang (seqs [Cls ident_start; Star ident_char; spaces; chr 46; spaces; Cls is_xyz]) w
  ↔ vector_access w.
Proof.
  unfold vector_access, identifier, spaces, chr. cbn [seqs lang]. split.
  - intros (? & ? & -> & (c & -> & Hc) & n & ? & -> & Hn & s1 & ? & -> & Hs1 & ? & ? & ->
            & (d & -> & Hd%N.eqb_eq) & s2 & ? & -> & Hs2 & e & -> & He).
    exists (c :: n), s1, s2, e. subst d. unfold is_xyz in He.
    split_and!; [done|by eauto|done..|].
    apply andb_true_iff in He as [?%N.leb_le ?%N.leb_le]. lia.
  - intros (n & s1 & s2 & e & -> & (c & n' & -> & Hc & Hn) & Hs1 & Hs2 & He).
    exists [c], (n' ++ s1 ++ 46 :: s2 ++ [e]). split; [done|]. split; [eauto|].
    exists n', (s1 ++ 46 :: s2 ++ [e]). split; [done|]. split; [done|].
    exists s1, (46 :: s2 ++ [e]). split; [done|]. split; [done|].
    exists [46], (s2 ++ [e]). split; [done|]. split; [by eexists|].
    exists s2, [e]. split; [done|]. split; [done|]. exists e. split; [done|].
    by destruct He as [->|[->| ->]].
Qed.

Lemma quotient_lang l r w :
  lang (seqs [lit_i l; spaces; chr FSLASH; spaces; lit_i r]) w ↔ quotient l r w.
Proof.
  unfold quotient, spaces, chr. cbn [seqs lang]. split.
  - intros (u & ? & -> & Hu%lang_lit_i & s1 & ? & -> & Hs1 & ? & ? & -> & (d & -> & Hd%N.eqb_eq)
            & s2 & v & -> & Hs2 & Hv%lang_lit_i). subst d. by exists u, s1, s2, v.
  - intros (u & s1 & s2 & v & -> & Hu & Hs1 & Hs2 & Hv).
    exists u, (s1 ++ FSLASH :: s2 ++ v). split; [done|]. split; [by apply lang_lit_i|].
    exists s1, (FSLASH :: s2 ++ v). split; [done|]. split; [done|].
    exists [FSLASH], (s2 ++ v). split; [done|]. split; [by eexists|].
    exists s2, v. split; [done|]. split; [done|by apply lang_lit_i].
Qed.

Lemma phrase_lang l r w : lang (seqs [lit_i l; spaces1; lit_i r]) w ↔ phrase l r w.
Proof.
  unfold phrase, spaces1. cbn [seqs lang]. split.
  - intros (u & ? & -> & Hu%lang_lit_i & ? & v & -> & (? & s & -> & (c & -> & Hc) & Hs) & Hv%lang_lit_i).
    exists u, (c :: s), v. split_and!; try done. by constructor.
  - intros (u & s & v & -> & Hu & Hs & Hne & Hv). exists u, (s ++ v). split; [done|].
    split; [by apply lang_lit_i|]. exists s, v. split; [done|]. split; [|by apply lang_lit_i].
    destruct s as [|c s]; [done|]. apply Forall_cons in Hs as [Hc Hs].
    exists [c], s. split; [done|]. split; [by eexists|done].
Qed.

Lemma r3_meaning line : found r3_pattern line = true ↔ delimited_in line vector_access.
Proof.
  etrans; [apply (found_delimited [Cls ident_start; Star ident_char; spaces; chr 46; spaces; Cls is_xyz]);
           reflexivity|]. apply delimited_iff, vector_access_lang.
Qed.

Lemma quotient_meaning l r line :
  found (seqs [WordB; lit_i l; spaces; chr FSLASH; spaces; lit_i r; WordB]) line = true
  ↔ delimited_in line (quotient l r).
Proof.
  etrans; [apply (found_delimited [lit_i l; spaces; chr FSLASH; spaces; lit_i r])|].
  - simpl. unfold lit_i. by rewrite !(plain_lit same_case).
  - apply delimited_iff, quotient_lang.
Qed.

Lemma phrase_meaning l r line :
  found (seqs [WordB; lit_i l; spaces1; lit_i r; WordB]) line = true
  ↔ delimited_in line (phrase l r).
Proof.
  etrans; [apply (found_delimited [lit_i l; spaces1; lit_i r])|].
  - simpl. unfold lit_i. by rewrite !(plain_lit same_case).
  - apply delimited_iff, phrase_lang.
Qed.

Lemma r5_meaning line :
  found r5_pattern line = true
  ↔ delimited_in line (quotient (py "180") (py "PI")) ∨ delimited_in line (quotient (py "PI") (py "180")).
Proof. unfold r5_pattern. rewrite found_alt, !quotient_meaning. done. Qed.

Lemma r6_meaning line : found r6_pattern line = true ↔ prose line.
Proof.
  unfold r6_pattern, prose. cbn [alts]. rewrite !found_alt, !phrase_meaning.
  rewrite !(found_occurs (lit_i _)) by apply (plain_lit same_case).
  rewrite (found_occurs (seqs _)) by reflexivity.
  rewrite !(occurs_iff _ _ _ (lang_lit_i _)), (occurs_iff _ _ _ (phrase_lang _ _)). done.
Qed.

Lemma keyword_meaning text :
  has_keyword text = true ↔ ∃ kw, kw ∈ keywords ∧ delimited_in text (eq kw).
Proof.
  unfold has_keyword. rewrite existsb_exists. apply exist_proper. intros kw.
  rewrite <- list_elem_of_In. apply and_iff_compat_l. unfold keyword_pattern.
  etrans; [apply (found_delimited [lit kw]), (plain_lit N.eqb)|]. apply delimited_iff. intros w.
  simpl. rewrite lang_lit. by split.
Qed.

(** A line of the masked text that breaks no rule *)
Definition clean_line (line : pystr) : Prop :=
  ¬ delimited_in line vector_access ∧ 39 ∉ line
  ∧ ¬ delimited_in line (quotient (py "180") (py "PI"))
  ∧ ¬ delimited_in line (quotient (py "PI") (py "180")) ∧ ¬ prose line.

Lemma clean_line_found line :
  clean_line line ↔ found r3_pattern line = false ∧ contains [39] line = false ∧
    found r5_pattern line = false ∧ found r6_pattern line = false.
Proof.
  unfold clean_line. rewrite <- !not_true_iff_false, r3_meaning, contains_char_spec, r5_meaning,
    r6_meaning. tauto.
Qed.

Definition clean_text (content : pystr) : Prop :=
  Forall (λ l, ¬ occurs_in l (eq FENCE)) (splitlines content) ∧
  Forall clean_line (splitlines (_mask_non_code content true)) ∧
  ∃ kw, kw ∈ keywords ∧ delimited_in (_mask_non_code content true) (eq kw).

Lemma fence_meaning l : contains FENCE l = false ↔ ¬ occurs_in l (eq FENCE).
Proof.
  rewrite <- not_true_iff_false, contains_spec. apply not_iff_compat. unfold occurs_in.
  split; [intros (a & b & ->); by exists a, FENCE, b|]. intros (a & w & b & -> & <-). eauto.
Qed.

Lemma violations_nil content : violations_of content = [] ↔ clean_text content.
Proof.
  unfold violations_of, clean_text. rewrite !app_nil, !line_rule_nil, !Forall_pad by reflexivity.
  rewrite <- keyword_meaning.
  rewrite (Forall_iff (λ l, contains FENCE l = false) (splitlines content) _ fence_meaning).
  rewrite (Forall_iff clean_line _ _ clean_line_found), !Forall_and.
  destruct (has_keyword _); intuition discriminate.
Qed.
End rules_meaning.

Section accepted.
Context `{UnicodeData}.

Lemma scad_accepted content :
  ScadStaticValidator_validate content = Ret tt ↔
  strip content ≠ [] ∧ violations_of content = [].
Proof.
  unfold ScadStaticValidator_validate. case_decide; [by split; [|intros []]|].
  case_match; split; try done. by intros [_ ?].
Qed.

Lemma scad_rejected content e :
  ScadStaticValidator_validate content = Exc e →
  ∃ message, e = LLMPlanValidationError message 400 (py "VALIDATION_ERROR") ∧
    (length message ≤ 1485)%nat.
Proof.
  unfold ScadStaticValidator_validate. case_decide.
  - intros [= <-]. eexists. split; [done|]. vm_compute. lia.
  - destruct (violations_of content) as [|v vs]; [done|]. intros [= <-].
    eexists. split; [done|]. apply report_length.
Qed.
End accepted.

Module Demo.
(** A line feed inside a string literal is blanked, so the two texts have
    different lines. *)
Definition two_lines : pystr := py "echo(" ++ [QUOTE; 97; LF; 98; QUOTE] ++ py "); cube(1);".

Example masked_newline_lost :
  (length (splitlines two_lines), length (splitlines (_mask_non_code two_lines true)))
  = (2%nat, 1%nat).
Proof. vm_compute. reflexivity. Qed.

Example accepts_cube : ScadStaticValidator_validate (H := plain_unicode) (py "cube(1); // p.x") = Ret tt.
Proof. vm_compute. reflexivity. Qed.

Example rejects_vector_access :
  ScadStaticValidator_validate (H := plain_unicode) (py "translate([p.x, 0, 0]) cube(1);")
  = Exc (validation_error (HEADER ++ R3_DESC ++ [LF] ++ py "  Snippet:" ++ [LF]
      ++ py "  * Line 1: translate([p.x, 0, 0]) cube(1);")).
Proof. vm_compute. reflexivity. Qed.
End Demo.

(** ** Properties *)

(** Masking keeps every position.  The result of [_mask_non_code] has the
    length of the text, each of its characters is the original one or a
    space, a line feed is never blanked when strings are kept, and no double
    quote is left when strings are blanked. *)
Theorem mask_keeps_positions content mask_strings :
  length (_mask_non_code content mask_strings) = length content ∧
  Forall2 (masked_as mask_strings) content (_mask_non_code content mask_strings) ∧
  (mask_strings = true → QUOTE ∉ _mask_non_code content mask_strings).
Proof.
  unfold _mask_non_code. pose proof (mask_loop_chars mask_strings normal [] content) as Hm.
  split_and!; [|done|intros ->; apply mask_loop_no_quote].
  symmetry. by eapply Forall2_length.
Qed.

(** A line comment is blanked to its end and has no influence on anything
    else: wherever the scanner is in code, the comment's text becomes spaces
    and what follows is scanned as if it stood alone. *)
Theorem line_comment_masked before body post mask_strings :
  LF ∉ body →
  mask_loop mask_strings normal before (FSLASH :: FSLASH :: body ++ LF :: post) =
  SP :: SP :: replicate (length body) SP ++ LF :: _mask_non_code post mask_strings.
Proof. intros Hb. simpl. do 2 f_equal. by apply line_comment_body. Qed.

Lemma line_comment_masked_witness :
  mask_loop true normal [] (FSLASH :: FSLASH :: py "p.x" ++ LF :: py "cube(1);") =
  SP :: SP :: replicate (length (py "p.x")) SP ++ LF :: _mask_non_code (py "cube(1);") true.
Proof. apply (line_comment_masked [] (py "p.x") (py "cube(1);") true). vm_compute. set_solver. Defined.

(** C40: The outcome of the OpenSCAD validator.  It accepts exactly the texts
    that are not blank, have no code fence on any line, have an OpenSCAD
    keyword as a word of their code, and have on no line of their code a
    vector access by name, a single quote, a conversion between radians and
    degrees, or one of the phrases of prose, white space and case as the rules
    allow them; every rejection is a retryable 400 whose message has at most
    1485 characters. *)
Theorem scad_validate_outcome `{UnicodeData} content :
  (ScadStaticValidator_validate content = Ret tt ↔ strip content ≠ [] ∧ clean_text content) ∧
  ∀ e, ScadStaticValidator_validate content = Exc e →
    ∃ message, e = LLMPlanValidationError message 400 (py "VALIDATION_ERROR") ∧
      (length message ≤ 1485)%nat.
Proof.
  split; [|by apply scad_rejected].
  rewrite scad_accepted. by rewrite violations_nil.
Qed.
