(* ===== verification/PolicyValidator.v ===== *)
(** * The security policy (llm/validator.py)

    [SecurityPolicyValidator] checks a plan before anything of it is executed:
    tools against a whitelist, paths against traversal, absolute paths and
    symbolic links, OpenSCAD sources against the static rules.  It reads the
    file system [m] and works on the session it is given. *)
From S2P Require Import Prelude PyStr Exceptions FileSystem FsFacts Realpath FsOps Storage StorageFacts.
From S2P Require Import Attempts StorageSpec StoragePaths Schemas Database DatabaseFacts Scad.
Local Open Scope eff_scope.
Import Local.

Definition SECURITY_ALERT : pystr := Eval vm_compute in py "SECURITY_ALERT".
Definition OPENSCAD : pystr := Eval vm_compute in py "openscad".
Definition DOT_SCAD : pystr := Eval vm_compute in py ".scad".

Definition forbidden (message : pystr) : exn :=
  LLMPlanValidationError message 403 (py "FORBIDDEN_ACCESS").

(** [_log_and_raise_violation] *)
Definition _log_and_raise_violation (job_id : uuid) (message : pystr) : eff exn conn unit :=
  add (NewEventLog job_id SECURITY_ALERT message) ;;;
  commit ;;;
  raise (forbidden message).

(** The loop over [current] and its parents, on the reversed path *)
Fixpoint symlink_up_to (m : fs) (base_job_dir : apath) (rcurrent : list pystr) : bool :=
  match rcurrent with
  | [] => false
  | _ :: rparent =>
      if decide (rev rcurrent = base_job_dir) then false
      else is_symlink m (rev rcurrent) || symlink_up_to m base_job_dir rparent
  end.

Definition violation_message (what detail : pystr) : pystr :=
  py "Access denied. Security policy violation: " ++ what ++ detail.

Section policy.
Context `{UnicodeData} (base_dir : apath).

(** Steps 2.1 to 2.5 for an action with a path; [links] for the action types
    whose path must not go through a symbolic link. *)
Definition validate_path (m : fs) (job_id : uuid) (base_job_dir : apath) (path_str : pystr)
    (links : bool) (scad_content : option pystr) : eff exn conn unit :=
  (if contains TRAVERSAL path_str || contains TRAVERSAL_WIN path_str then
     _log_and_raise_violation job_id
       (violation_message (py "Path traversal attempt detected: ") path_str)
   else ret tt) ;;;
  (if startswith path_str [SLASH] || startswith path_str [BACKSLASH] || is_absolute path_str then
     _log_and_raise_violation job_id
       (violation_message (py "Absolute path not allowed: ") path_str)
   else ret tt) ;;;
  target_path <- of_outcome (resolve m (join_path base_job_dir path_str)) ;;
  (if negb (is_relative_to target_path base_job_dir) then
     _log_and_raise_violation job_id
       (violation_message (py "Path is not relative to the workspace: ") path_str)
   else ret tt) ;;;
  (if links && symlink_up_to m base_job_dir (rev (join_path base_job_dir path_str)) then
     _log_and_raise_violation job_id
       (violation_message (py "Symbolic link detected: ") path_str)
   else ret tt) ;;;
  match scad_content with
  | Some content =>
      if endswith (lower path_str) DOT_SCAD
      then of_outcome (ScadStaticValidator_validate content) else ret tt
  | None => ret tt
  end.

Definition validate_one (m : fs) (job_id : uuid) (base_job_dir : apath) (a : action)
    : eff exn conn unit :=
  match a with
  | RunToolAction tool_name _ =>
      if negb (bool_decide (strip (lower tool_name) = OPENSCAD)) then
        _log_and_raise_violation job_id (violation_message (py "Unauthorized tool: ") tool_name)
      else ret tt
  | CreateDirectoryAction path => validate_path m job_id base_job_dir path false None
  | WriteFileAction path content => validate_path m job_id base_job_dir path true (Some content)
  | CreateArtifactAction path => validate_path m job_id base_job_dir path true None
  end.

(** [validate_actions] *)
Definition validate_actions (m : fs) (actions : list action) (job_id : uuid) : eff exn conn unit :=
  base_job_dir <- of_outcome (resolve m (job_root base_dir JOBS job_id)) ;;
  for_each actions (validate_one m job_id base_job_dir).

(** ** Acceptance *)

(** [action_obj.path] *)
Definition action_path (a : action) : option pystr :=
  match a with
  | CreateDirectoryAction path | WriteFileAction path _ | CreateArtifactAction path => Some path
  | RunToolAction _ _ => None
  end.

(** A path that the policy lets through *)
Definition strictly_below (base q : apath) : Prop := base `prefix_of` q ∧ q ≠ base.

Lemma no_symlink_up_to m base rp q :
  symlink_up_to m base rp = false → strictly_below base q → q `prefix_of` rev rp →
  is_symlink m q = false.
Proof.
  induction rp as [|w rp IH]; cbn [symlink_up_to].
  { intros _ [Hb Hne] ->%prefix_nil_inv. by apply prefix_nil_inv in Hb as ->. }
  intros Hs Hq Hp. destruct (decide (rev (w :: rp) = base)) as [E|_].
  - destruct Hq as [Hb Hne]. destruct Hne. rewrite E in Hp. by apply (anti_symm prefix).
  - apply orb_false_iff in Hs as [Hw Hs]. apply prefix_snoc_inv in Hp as [->|Hp]; [done|auto].
Qed.

Definition path_allowed (m : fs) (base_job_dir : apath) (path_str : pystr) (links : bool) : Prop :=
  unsafe_string path_str = false ∧
  (∃ target, resolve m (join_path base_job_dir path_str) = Ret target ∧
     is_relative_to target base_job_dir = true) ∧
  (links = true → ∀ q, strictly_below base_job_dir q → q `prefix_of` join_path base_job_dir path_str →
     is_symlink m q = false).

Definition action_allowed (m : fs) (base_job_dir : apath) (a : action) : Prop :=
  match a with
  | RunToolAction tool_name _ => strip (lower tool_name) = OPENSCAD
  | CreateDirectoryAction path => path_allowed m base_job_dir path false
  | WriteFileAction path content =>
      path_allowed m base_job_dir path true ∧
      (endswith (lower path) DOT_SCAD = true → ScadStaticValidator_validate content = Ret tt)
  | CreateArtifactAction path => path_allowed m base_job_dir path true
  end.

Lemma violation_not_ret job_id msg c c' : _log_and_raise_violation job_id msg c ≠ (c', Ret tt).
Proof.
  unfold _log_and_raise_violation, add. run. unfold ebind.
  by destruct (commit _) as [c1 [[]|e]].
Qed.

(** A check that returned neither logged nor touched the session. *)
Lemma check_ret (b : bool) job_id msg {A} (k : eff exn conn A) c c' a :
  ebind (if b then _log_and_raise_violation job_id msg else ret tt) (λ _, k) c = (c', Ret a) →
  b = false ∧ k c = (c', Ret a).
Proof.
  destruct b; [|by run]. intros [(c1 & [] & Hv & _)|(e & _ & [=])]%ebind_inv.
  by apply violation_not_ret in Hv.
Qed.

Lemma validate_path_ret m job_id base path links scad c c' :
  validate_path m job_id base path links scad c = (c', Ret tt) →
  c' = c ∧ path_allowed m base path links ∧
  ∀ content, scad = Some content → endswith (lower path) DOT_SCAD = true →
    ScadStaticValidator_validate content = Ret tt.
Proof.
  unfold validate_path. intros Hv.
  apply check_ret in Hv as [Ht Hv]. apply check_ret in Hv as [Ha Hv].
  destruct (resolve m (join_path base path)) as [target|e] eqn:Hr; [|done]. run in Hv.
  apply check_ret in Hv as [Hrel Hv]. apply check_ret in Hv as [Hl Hv].
  assert (path_allowed m base path links) as Hp.
  { split_and!.
    - unfold unsafe_string. apply orb_false_iff in Ha as [Ha _].
      apply orb_false_iff in Ha as [-> ->]. by rewrite Ht.
    - exists target. split; [done|]. by destruct (is_relative_to target base).
    - intros -> q Hq Hpre. eapply no_symlink_up_to; [exact Hl|done|]. by rewrite rev_involutive. }
  destruct scad as [content|]; [|by injection Hv as <-].
  destruct (endswith _ _) eqn:He; [|injection Hv as <-; split_and!; try done; congruence].
  injection Hv as <- Hs. split_and!; try done. congruence.
Qed.

Lemma validate_one_ret m job_id base a c c' :
  validate_one m job_id base a c = (c', Ret tt) → c' = c ∧ action_allowed m base a.
Proof.
  destruct a as [path|path content|tool args|path]; simpl.
  - by intros (-> & ? & _)%validate_path_ret.
  - intros (-> & ? & Hs)%validate_path_ret. split; [done|]. split; [done|]. by apply Hs.
  - case_bool_decide; simpl; [by intros [= <-]|]. by intros ?%violation_not_ret.
  - by intros (-> & ? & _)%validate_path_ret.
Qed.

Lemma validate_actions_ret m actions job_id c c' :
  validate_actions m actions job_id c = (c', Ret tt) →
  c' = c ∧ ∃ base, resolve m (job_root base_dir JOBS job_id) = Ret base ∧
    Forall (action_allowed m base) actions.
Proof.
  unfold validate_actions. destruct (resolve m _) as [base|e]; [|done]. run. intros Hv.
  assert (c' = c ∧ Forall (action_allowed m base) actions) as [-> ?]; [|by eauto].
  induction actions as [|a actions IH]; simpl in Hv; [by injection Hv as <-|].
  apply ebind_inv in Hv as [(c1 & [] & H1 & H2)|(e & _ & [=])].
  apply validate_one_ret in H1 as [-> ?]. apply IH in H2 as [-> ?].
  split; [done|by constructor].
Qed.

(** ** Refusal: the alert is in the log before the error is raised *)
Definition alerted (job_id : uuid) (msg : pystr) (t : tables) : Prop :=
  ∃ e, e ∈ event_logs t ∧ event_job_id e = job_id ∧ event_type e = SECURITY_ALERT ∧
    message e = msg.

(** The outcomes of a step of the validation that starts in [c]: it returns; or
    it is refused and the alert is committed; or storing the alert failed; or,
    with nothing stored, a source breaks a static rule or a path cannot be
    resolved, with an error that [unresolvable] knows. *)
Definition verdict (unresolvable : exn → Prop) (job_id : uuid) (c c' : conn) (o : outcome exn unit)
    : Prop :=
  match o with
  | Ret _ => True
  | Exc e =>
      (∃ msg, e = forbidden msg ∧ alerted job_id msg (committed c'.1)) ∨
      (db_error c.1 e ∧ driver_error e = true) ∨
      ((∃ msg, e = LLMPlanValidationError msg 400 (py "VALIDATION_ERROR")) ∧ c' = c) ∨
      (unresolvable e ∧ c' = c)
  end.

Lemma violation_verdict bad job_id msg c c' o :
  pending c.2 = [] → honest c.1 → _log_and_raise_violation job_id msg c = (c', o) →
  verdict bad job_id c c' o.
Proof.
  unfold _log_and_raise_violation, add. intros Hp Ht. run.
  set (c1 := (c.1, _)). intros [(c2 & [] & Hc & Hr)|(e & Hc & ->)]%ebind_inv.
  - injection Hr as <- <-. left. exists msg. split; [done|].
    destruct (commit_publishes_event c1 c2 job_id SECURITY_ALERT msg) as (e & He); [|done|by exists e].
    simpl. by rewrite Hp.
  - right; left. split; [by apply commit_errors in Hc|]. by apply db_raises_commit in Hc as [_ ?].
Qed.

Lemma check_verdict (b : bool) bad job_id msg (k : eff exn conn unit) c c' o :
  pending c.2 = [] → honest c.1 →
  (∀ c' o, k c = (c', o) → verdict bad job_id c c' o) →
  ebind (if b then _log_and_raise_violation job_id msg else ret tt) (λ _, k) c = (c', o) →
  verdict bad job_id c c' o.
Proof.
  intros Hp Ht Hk. destruct b; [|run; apply Hk].
  intros [(c1 & [] & Hv & _)|(e & Hv & ->)]%ebind_inv.
  - by apply violation_not_ret in Hv.
  - by eapply violation_verdict.
Qed.

Lemma validate_path_verdict (bad : exn → Prop) m job_id base path links scad c c' o :
  pending c.2 = [] → honest c.1 →
  (∀ e, resolve m (join_path base path) = Exc e → bad e) →
  validate_path m job_id base path links scad c = (c', o) → verdict bad job_id c c' o.
Proof.
  intros Hp Ht Hbad. unfold validate_path. apply check_verdict; [done..|]. clear c' o. intros c' o.
  apply check_verdict; [done..|]. clear c' o. intros c' o.
  destruct (resolve m (join_path base path)) as [target|e] eqn:Hr; run.
  2: { intros [= <- <-]. do 3 right. split; [by apply Hbad|done]. }
  apply check_verdict; [done..|]. clear c' o. intros c' o.
  apply check_verdict; [done..|]. clear c' o. intros c' o.
  destruct scad as [content|]; [|by intros [= <- <-]].
  destruct (endswith _ _); [|by intros [= <- <-]]. intros [= <- <-].
  destruct (ScadStaticValidator_validate content) eqn:Hs; [done|].
  apply scad_rejected in Hs as (msg & -> & _). do 2 right; left. split; [by exists msg|done].
Qed.

(** [e] is what resolving the workspace or a path of the plan raises. *)
Definition unresolvable (m : fs) (job_id : uuid) (actions : list action) (e : exn) : Prop :=
  resolve m (job_root base_dir JOBS job_id) = Exc e ∨
  ∃ base a path, resolve m (job_root base_dir JOBS job_id) = Ret base ∧
    a ∈ actions ∧ action_path a = Some path ∧ resolve m (join_path base path) = Exc e.

Lemma validate_one_verdict (bad : exn → Prop) m job_id base a c c' o :
  pending c.2 = [] → honest c.1 →
  (∀ path e, action_path a = Some path → resolve m (join_path base path) = Exc e → bad e) →
  validate_one m job_id base a c = (c', o) → verdict bad job_id c c' o.
Proof.
  intros Hp Ht Hbad. destruct a; simpl; try (apply validate_path_verdict; [done..|]; eauto; done).
  case_bool_decide; simpl; [by intros [= <- <-]|]. by apply violation_verdict.
Qed.

Lemma validate_actions_verdict m actions job_id c c' o :
  pending c.2 = [] → honest c.1 →
  validate_actions m actions job_id c = (c', o) →
  verdict (unresolvable m job_id actions) job_id c c' o.
Proof.
  intros Hp Ht. unfold validate_actions.
  destruct (resolve m _) as [base|e] eqn:Hr; run.
  2: { intros [= <- <-]. do 3 right. split; [by left|done]. }
  assert (∀ acts, (∀ a, a ∈ acts → a ∈ actions) →
    for_each acts (validate_one m job_id base) c = (c', o) →
    verdict (unresolvable m job_id actions) job_id c c' o) as Hgo; [|by apply Hgo].
  induction acts as [|a acts IH]; simpl; intros Hsub; [by intros [= <- <-]|].
  intros [(c1 & [] & H1 & H2)|(e & H1 & ->)]%ebind_inv.
  - apply validate_one_ret in H1 as [-> _]. apply IH; [|done]. intros a' ?. apply Hsub. by right.
  - eapply validate_one_verdict; [done|done| |exact H1].
    intros path e' Hpath He. right. exists base, a, path. split_and!; [done| |done|done].
    apply Hsub. by left.
Qed.

(** ** The policy is at least as strict as the storage *)
Lemma allowed_path_is_safe m job_id base path links :
  resolve m (job_root base_dir JOBS job_id) = Ret base → path_allowed m base path links →
  ∃ target, _validate_safe_path base_dir job_id path JOBS m = (m, Ret target) ∧
    is_relative_to target base = true.
Proof.
  intros Hb (Hu & (target & Ht & Hrel) & _). exists target. split; [|done].
  unfold _validate_safe_path. rewrite Hu. run. rewrite Hb. run. rewrite Ht. run.
  by rewrite Hrel.
Qed.

Lemma action_allowed_path m base a path :
  action_allowed m base a → action_path a = Some path → ∃ links, path_allowed m base path links.
Proof.
  destruct a; simpl; intros Ha [= <-]; [by eexists|destruct Ha; by eexists|by eexists].
Qed.

(** Where no links are, a path that is safe in the workspace is safe in the
    artifact tree, at the same place. *)
Lemma safe_in_both_trees m job_id path target :
  tidy base_dir m → encodable base_dir = true →
  _validate_safe_path base_dir job_id path JOBS m = (m, Ret target) →
  ∃ rel, target = root_of base_dir job_id JOBS ++ rel ∧
    _validate_safe_path base_dir job_id path ARTIFACTS m
      = (m, Ret (root_of base_dir job_id ARTIFACTS ++ rel)).
Proof.
  intros Ht He. rewrite (validate_locate base_dir He m Ht JOBS job_id (or_introl eq_refl)).
  rewrite (validate_locate base_dir He m Ht ARTIFACTS job_id (or_intror eq_refl)).
  destruct (locate path) as [rel|e]; [|done]. intros [= <-]. by exists rel.
Qed.
End policy.

Module Demo.
Definition m : fs := Storage.Demo.fs0.
Definition job : uuid := Storage.Demo.job.
Definition db : database :=
  Database (Tables {[ job := {| parent_job_id := None; prompt := []; job_status := RUNNING;
    action_plan := None; job_created_at := 0; updated_at := 0 |} ]} [] []) 1 0 [].

Definition plan : list action :=
  [ CreateDirectoryAction (py "parts"); WriteFileAction (py "model.scad") (py "cube(1);");
    RunToolAction (py " OpenSCAD ") [py "-o"; py "out.png"; py "model.scad"];
    CreateArtifactAction (py "out.png") ].

Example plan_accepted :
  (validate_actions (H := plain_unicode) Storage.Demo.base m plan job (db, fresh_session)).2 = Ret tt.
Proof. vm_compute. reflexivity. Qed.

Definition attack : list action := [WriteFileAction (py "../x") (py "y")].

Example attack_refused :
  (validate_actions (H := plain_unicode) Storage.Demo.base m attack job (db, fresh_session)).2
  = Exc (forbidden (violation_message (py "Path traversal attempt detected: ") (py "../x"))).
Proof. vm_compute. reflexivity. Qed.
End Demo.

(** ** Properties *)

(** C10: What the policy lets through.  When [validate_actions] returns, it has
    not touched the database, every tool is openscad, every path resolves
    inside the job's workspace and passes the storage's own check of the
    workspace, no written or published path goes through a symbolic link, and
    every [.scad] source passed the static rules.  While no symbolic links are
    below the base directory, the path of every CREATE_ARTIFACT also passes
    the storage's check of the artifact tree, which the policy does not look
    at, and lands at the same place there. *)
Theorem accepted_plan_is_safe `{UnicodeData} base_dir m actions job_id c c' :
  validate_actions base_dir m actions job_id c = (c', Ret tt) →
  c' = c ∧ ∃ base, resolve m (job_root base_dir JOBS job_id) = Ret base ∧
    Forall (action_allowed m base) actions ∧
    (∀ a path, a ∈ actions → action_path a = Some path →
       ∃ target, _validate_safe_path base_dir job_id path JOBS m = (m, Ret target) ∧
         is_relative_to target base = true) ∧
    (tidy base_dir m → encodable base_dir = true →
       ∀ path, CreateArtifactAction path ∈ actions →
       ∃ rel,
         _validate_safe_path base_dir job_id path JOBS m
           = (m, Ret (root_of base_dir job_id JOBS ++ rel)) ∧
         _validate_safe_path base_dir job_id path ARTIFACTS m
           = (m, Ret (root_of base_dir job_id ARTIFACTS ++ rel))).
Proof.
  intros (-> & base & Hb & Ha)%validate_actions_ret. split; [done|].
  assert (∀ a path, a ∈ actions → action_path a = Some path →
    ∃ target, _validate_safe_path base_dir job_id path JOBS m = (m, Ret target) ∧
      is_relative_to target base = true) as Hsafe.
  { intros a path Hin Hpath. rewrite Forall_forall in Ha. apply Ha in Hin.
    apply (action_allowed_path _ _ _ _ Hin) in Hpath as [links Hp]. by eapply allowed_path_is_safe. }
  exists base. split_and!; [done..|]. intros Ht He path Hin.
  destruct (Hsafe _ path Hin eq_refl) as (target & Hj & _).
  destruct (safe_in_both_trees base_dir m job_id path target Ht He Hj) as (rel & -> & ?).
  by exists rel.
Qed.

Lemma accepted_plan_is_safe_witness :
  ∃ base, resolve Demo.m (job_root Storage.Demo.base JOBS Demo.job) = Ret base ∧
    Forall (action_allowed (H := plain_unicode) Demo.m base) Demo.plan.
Proof.
  pose proof Demo.plan_accepted as Hok.
  destruct (validate_actions _ _ _ _ _) as [c' o] eqn:Hv in Hok. simpl in Hok. subst o.
  destruct (accepted_plan_is_safe (H := plain_unicode) _ _ _ _ _ _ Hv) as (_ & base & Hb & Ha & _).
  exact (ex_intro _ base (conj Hb Ha)).
Defined.


