(* ===== verification/Retry.v ===== *)
(** * Asking the model again (llm/client.py: LLMRequest; llm/retry.py)

    [LLMPlanRetryExecutor.generate_actions]: one attempt asks the model,
    parses, validates and executes; a failure that the model can repair is fed
    back to it, up to a fixed number of attempts.  The client, the two
    callbacks, the attempt hook and [sleep] are parameters, computations on a
    state [W]; times are in milliseconds. *)
From S2P Require Import Prelude PyStr Exceptions Schemas ArgValidator.
Local Open Scope eff_scope.

(** ** llm/client.py *)
Record LLMRequest := {
  req_prompt : pystr;
  req_context : list (pystr * pystr);
  req_allowed_actions : list pystr;
  req_retry_feedback : option pystr
}.

Definition with_retry_feedback (r : LLMRequest) (feedback : pystr) : LLMRequest :=
  {| req_prompt := req_prompt r; req_context := req_context r;
     req_allowed_actions := req_allowed_actions r; req_retry_feedback := Some feedback |}.

(** ** llm/retry.py *)
Definition RETRY_DELAYS_SECONDS : list Z := [1000; 2000]%Z.

Section retry.
Context {W : Type}.
Context (client : LLMRequest → eff exn W pystr).
Context (parse : pystr → outcome exn (list action)).
Context (delays : list Z).
Context (sleep : Z → eff exn W unit).
Context (on_attempt : option (nat → eff exn W unit)).
Context (validation_cb : option (list action → eff exn W unit)).
Context (execution_cb : option (list action → eff exn W unit)).

Definition call {A} (cb : option (A → eff exn W unit)) (a : A) : eff exn W unit :=
  match cb with Some f => f a | None => ret tt end.

(** The body of the [try] *)
Definition one_attempt (request : LLMRequest) : eff exn W (list action) :=
  response <- client request ;;
  actions <- of_outcome (parse response) ;;
  call validation_cb actions ;;;
  call execution_cb actions ;;;
  ret actions.

Definition last_attempt (attempt : nat) : bool := (length delays <=? attempt)%nat.

(** The [except] clauses: the feedback of a failure that is tried again *)
Definition feedback_for (attempt : nat) (e : exn) : option pystr :=
  match e with
  | LLMClientError _ _ | LLMResponseTooLargeError =>
      if negb (default false (is_llm_client_error e)) || last_attempt attempt then None
      else Some (py "The previous request failed temporarily. Return a valid action plan.")
  | LLMPlanRetryableException _ _ error_position =>
      if last_attempt attempt then None
      else Some (py "Previous action plan parse failed: " ++
        match error_position with Some (c :: p) => c :: p | _ => py "invalid JSON" end)
  | LLMPlanValidationError message status_code _ =>
      if (status_code =? 403)%Z || last_attempt attempt then None else Some message
  | CLIError exc =>
      if last_attempt attempt then None else Some (build_runtime_feedback exc)
  | _ => None
  end.

(** The [for] loop; falling off its end would return [None]. *)
Fixpoint attempt_loop (attempts : list nat) (current_request : LLMRequest)
    : eff exn W (option (list action)) :=
  match attempts with
  | [] => ret None
  | attempt :: attempts' =>
      call on_attempt (attempt + 1)%nat ;;;
      result <- try_catch (actions <- one_attempt current_request ;; ret (inl actions))
        (λ e, match feedback_for attempt e with
              | Some feedback => ret (inr feedback)
              | None => raise e
              end) ;;
      match result with
      | inl actions => ret (Some actions)
      | inr feedback =>
          sleep (default 0%Z (delays !! attempt)) ;;;
          attempt_loop attempts' (with_retry_feedback current_request feedback)
      end
  end.

Definition generate_actions (request : LLMRequest) : eff exn W (option (list action)) :=
  attempt_loop (seq 0 (length delays + 1)) request.

(** ** What a run is made of *)
Lemma feedback_before_last attempt e f :
  feedback_for attempt e = Some f → (attempt < length delays)%nat.
Proof.
  unfold feedback_for, last_attempt. intros Hf.
  destruct (Nat.leb_spec (length delays) attempt); [|done].
  destruct e; try done; repeat (rewrite orb_true_r in Hf || simpl in Hf); done.
Qed.

(** One iteration, by its outcome *)
Lemma attempt_loop_cons attempt attempts req w w' o :
  attempt_loop (attempt :: attempts) req w = (w', o) →
  ∃ w1 o1, call on_attempt (attempt + 1)%nat w = (w1, o1) ∧
  match o1 with
  | Exc e => w' = w1 ∧ o = Exc e
  | Ret _ =>
      ∃ w2 o2, one_attempt req w1 = (w2, o2) ∧
      match o2 with
      | Ret actions => w' = w2 ∧ o = Ret (Some actions)
      | Exc e =>
          match feedback_for attempt e with
          | None => w' = w2 ∧ o = Exc e
          | Some feedback =>
              ebind (sleep (default 0%Z (delays !! attempt)))
                (λ _, attempt_loop attempts (with_retry_feedback req feedback)) w2 = (w', o)
          end
      end
  end.
Proof.
  simpl. unfold ebind at 1. destruct (call on_attempt _ w) as [w1 [[]|e]] eqn:H1.
  2: { intros [= <- <-]. by exists w1, (Exc e). }
  unfold ebind at 1, try_catch. intros H. exists w1, (Ret tt). split; [done|].
  destruct (one_attempt req w1) as [w2 [acts|e]] eqn:H2;
    [exists w2, (Ret acts)|exists w2, (Exc e)]; (split; [done|]).
  - rewrite (ebind_ret_run _ _ _ _ _ H2) in H. by injection H as <- <-.
  - rewrite (ebind_exc_run _ _ _ _ _ H2) in H. simpl in H.
    destruct (feedback_for attempt e); [done|]. by injection H as <- <-.
Qed.

(** A state that comes out of an attempt that went all the way *)
Definition executed (actions : list action) (w' : W) : Prop :=
  ∃ req w1 w2 w3 response,
    client req w1 = (w2, Ret response) ∧ parse response = Ret actions ∧
    call validation_cb actions w2 = (w3, Ret tt) ∧
    call execution_cb actions w3 = (w', Ret tt).

Lemma one_attempt_ret req w w' actions :
  one_attempt req w = (w', Ret actions) → executed actions w'.
Proof.
  unfold one_attempt. intros [(w2 & resp & Hc & H)|(e & _ & [=])]%ebind_inv.
  destruct (parse resp) as [acts|e] eqn:Hp; [|done]. run in H.
  apply ebind_inv in H as [(w3 & [] & Hv & H)|(e & _ & [=])].
  apply ebind_inv in H as [(w4 & [] & He & H)|(e & _ & [=])].
  injection H as <- <-. by exists req, w, w2, w3, resp.
Qed.

Lemma attempt_loop_ret attempts req w w' r :
  attempts ≠ [] → last attempts = Some (length delays) →
  attempt_loop attempts req w = (w', Ret r) → ∃ actions, r = Some actions ∧ executed actions w'.
Proof.
  revert req w. induction attempts as [|a attempts IH]; intros req w Hne Hlast; [done|].
  intros (w1 & o1 & _ & H)%attempt_loop_cons. destruct o1 as [[]|e]; [|by destruct H].
  destruct H as (w2 & [acts|e] & H2 & H).
  - destruct H as [-> [= ->]]. exists acts. split; [done|by eapply one_attempt_ret].
  - destruct (feedback_for a e) as [f|] eqn:Hf; [|by destruct H].
    apply ebind_inv in H as [(w3 & [] & _ & H)|(? & _ & [=])].
    apply feedback_before_last in Hf. destruct attempts as [|a' attempts].
    + simpl in Hlast. simplify_eq. lia.
    + by eapply IH in H.
Qed.

Lemma last_seq n : last (seq 0 (n + 1)) = Some n.
Proof. rewrite seq_app. simpl. by rewrite last_snoc. Qed.

(** ** The attempts of a run

    [reaches req0 w0 k req w]: the run that starts with [req0] in [w0] comes to
    its attempt [k] (counted from 0) with the request [req] in the state [w],
    after [k] attempts that failed and were fed back. *)
Inductive reaches (req0 : LLMRequest) (w0 : W) : nat → LLMRequest → W → Prop :=
  | reaches_first : reaches req0 w0 0 req0 w0
  | reaches_next k req w w1 w2 w3 e feedback :
      reaches req0 w0 k req w →
      call on_attempt (k + 1)%nat w = (w1, Ret tt) →
      one_attempt req w1 = (w2, Exc e) →
      feedback_for k e = Some feedback →
      sleep (default 0%Z (delays !! k)) w2 = (w3, Ret tt) →
      reaches req0 w0 (S k) (with_retry_feedback req feedback) w3.

Lemma attempt_loop_fails attempt attempts req w w1 w2 e :
  call on_attempt (attempt + 1)%nat w = (w1, Ret tt) → one_attempt req w1 = (w2, Exc e) →
  attempt_loop (attempt :: attempts) req w =
    match feedback_for attempt e with
    | None => (w2, Exc e)
    | Some feedback =>
        ebind (sleep (default 0%Z (delays !! attempt)))
          (λ _, attempt_loop attempts (with_retry_feedback req feedback)) w2
    end.
Proof.
  intros Hh Ha. simpl. rewrite (ebind_ret_run _ _ _ _ _ Hh). unfold ebind at 1, try_catch.
  rewrite (ebind_exc_run _ _ _ _ _ Ha). by destruct (feedback_for attempt e).
Qed.

(** The rest of the run decides how the whole run ends. *)
Lemma reaches_run req0 w0 k req w :
  reaches req0 w0 k req w →
  (k ≤ length delays)%nat ∧
  generate_actions req0 w0 = attempt_loop (seq k (length delays + 1 - k)) req w.
Proof.
  induction 1 as [|k req w w1 w2 w3 e f _ [Hk IH] Hh Ha Hf Hs]; [by rewrite Nat.sub_0_r; split; [lia|]|].
  pose proof (feedback_before_last _ _ _ Hf) as Hlt. split; [lia|]. rewrite IH.
  replace (length delays + 1 - k)%nat with (S (length delays + 1 - S k)) by lia.
  cbn [seq]. rewrite (attempt_loop_fails _ _ _ _ _ _ _ Hh Ha), Hf.
  by rewrite (ebind_ret_run _ _ _ _ _ Hs).
Qed.

(** Failures that the model cannot repair *)
Definition final (e : exn) : bool :=
  match e with
  | LLMPlanValidationError _ status_code _ => (status_code =? 403)%Z
  | LLMClientError _ retryable => negb retryable
  | LLMPlanRetryableException _ _ _ | CLIError _ => false
  | _ => true
  end.

Lemma final_spec attempt e :
  feedback_for attempt e = None ↔ final e = true ∨ (length delays ≤ attempt)%nat.
Proof.
  unfold feedback_for, last_attempt. destruct (Nat.leb_spec (length delays) attempt) as [Hl|Hl].
  - split; [by right|]. intros _. destruct e; simpl; rewrite ?orb_true_r; done.
  - assert (∀ b : bool, b = true ↔ b = true ∨ (length delays ≤ attempt)%nat) as Hb.
    { intros b. split; [by left|intros [?|?]; [done|lia]]. }
    rewrite <-Hb. destruct e as [| | | | | | | | | | | | |msg []| | |msg code ?| | | | | | | | | | | | | | |];
      simpl; rewrite ?orb_false_r; try done. by destruct (code =? 403)%Z.
Qed.

(** ** What every part preserves, the whole preserves *)
Lemma generate_actions_steps (R : relation W) `{!PreOrder R} request :
  (∀ r, steps R (client r)) → (∀ t, steps R (sleep t)) → (∀ n, steps R (call on_attempt n)) →
  (∀ a, steps R (call validation_cb a)) → (∀ a, steps R (call execution_cb a)) →
  steps R (generate_actions request).
Proof.
  intros Hc Hs Hh Hv He. unfold generate_actions. generalize (seq 0 (length delays + 1)).
  intros attempts. revert request.
  induction attempts as [|a attempts IH]; intros request; simpl; [by apply steps_ret|].
  apply steps_ebind; [done|done|intros _]. apply steps_ebind; [done| |].
  - apply steps_catch; [done| |].
    + repeat first [apply steps_ebind; [done| |intros ?] | apply Hc | apply Hv | apply He
        | by apply steps_of_outcome | by apply steps_ret].
    + intros e. destruct (feedback_for a e); [by apply steps_ret|by apply steps_raise].
  - intros [acts|f]; [by apply steps_ret|]. by apply steps_ebind.
Qed.

(** ** Counting the requests *)
Section counting.
Context (requests : W → nat).
Context (Hclient : ∀ req w, requests (client req w).1 = S (requests w)).
Context (Hhook : ∀ n w, requests (call on_attempt n w).1 = requests w).
Context (Hval : ∀ acts w, requests (call validation_cb acts w).1 = requests w).
Context (Hexec : ∀ acts w, requests (call execution_cb acts w).1 = requests w).
Context (Hsleep : ∀ t w, requests (sleep t w).1 = requests w).

Lemma one_attempt_requests req w : requests (one_attempt req w).1 = S (requests w).
Proof using Hclient Hval Hexec.
  unfold one_attempt, ebind. pose proof (Hclient req w) as Hc.
  destruct (client req w) as [w1 [resp|e]]; simpl in *; [|done].
  destruct (parse resp) as [acts|e]; simpl; [|done].
  pose proof (Hval acts w1) as Hv. destruct (call validation_cb acts w1) as [w2 [[]|e]];
    simpl in *; [|congruence].
  pose proof (Hexec acts w2) as He. destruct (call execution_cb acts w2) as [w3 [[]|e]];
    simpl in *; congruence.
Qed.

Lemma attempt_loop_requests attempts req w :
  (requests (attempt_loop attempts req w).1 ≤ requests w + length attempts)%nat.
Proof using All.
  revert req w. induction attempts as [|a attempts IH]; intros req w; [simpl; lia|].
  destruct (attempt_loop (a :: attempts) req w) as [w' o] eqn:Hl. simpl.
  apply attempt_loop_cons in Hl as (w1 & o1 & Hh & H).
  pose proof (Hhook (a + 1) w) as H1. rewrite Hh in H1. simpl in H1.
  destruct o1 as [[]|e]; [|destruct H as [-> _]; lia].
  destruct H as (w2 & o2 & Ha & H).
  pose proof (one_attempt_requests req w1) as H2. rewrite Ha in H2. simpl in H2.
  destruct o2 as [acts|e]; [destruct H as [-> _]; lia|].
  destruct (feedback_for a e) as [f|]; [|destruct H as [-> _]; lia].
  unfold ebind in H. pose proof (Hsleep (default 0%Z (delays !! a)) w2) as H3.
  destruct (sleep _ w2) as [w3 [[]|e']]; simpl in H3.
  - specialize (IH (with_retry_feedback req f) w3). rewrite H in IH. simpl in IH. lia.
  - injection H as <- _. lia.
Qed.
End counting.
End retry.

(** ** Properties *)
Module Demo.
(** A model that never answers with JSON, counted *)
Definition client (_ : LLMRequest) : eff exn nat pystr := λ n, (S n, Ret (py "hm")).
(** One that answers with the number of requests before *)
Definition counting_client (_ : LLMRequest) : eff exn nat pystr :=
  λ n, (S n, Ret (replicate n 120%N)).
Definition parse (text : pystr) : outcome exn (list action) :=
  Exc (LLMPlanRetryableException [] text None).
Definition sleep (_ : Z) : eff exn nat unit := ret tt.
Definition request : LLMRequest :=
  {| req_prompt := py "a cube"; req_context := []; req_allowed_actions := [];
     req_retry_feedback := None |}.

Example three_attempts :
  generate_actions client parse RETRY_DELAYS_SECONDS sleep None None None request 0%nat
  = (3%nat, Exc (LLMPlanRetryableException [] (py "hm") None)).
Proof. vm_compute. reflexivity. Qed.

(** One that answers with an empty plan *)
Definition parse_empty (text : pystr) : outcome exn (list action) := Ret [].
End Demo.

(** C31: The model is asked at most [len(delays) + 1] times per run, whatever it
    answers: three times with the configured delays. *)
Theorem bounded_requests {W} client parse delays sleep on_attempt validation_cb execution_cb
    (requests : W → nat) request w :
  (∀ req w, requests (client req w).1 = S (requests w)) →
  (∀ n w, requests (call on_attempt n w).1 = requests w) →
  (∀ acts w, requests (call validation_cb acts w).1 = requests w) →
  (∀ acts w, requests (call execution_cb acts w).1 = requests w) →
  (∀ t w, requests (sleep t w).1 = requests w) →
  (requests (generate_actions client parse delays sleep on_attempt validation_cb execution_cb
     request w).1 ≤ requests w + (length delays + 1))%nat.
Proof.
  intros. unfold generate_actions. etrans; [by apply attempt_loop_requests|].
  by rewrite length_seq.
Qed.

Lemma bounded_requests_witness :
  ((generate_actions Demo.client Demo.parse RETRY_DELAYS_SECONDS Demo.sleep None None None
      Demo.request 0).1 ≤ 0 + (length RETRY_DELAYS_SECONDS + 1))%nat.
Proof.
  apply (bounded_requests Demo.client Demo.parse RETRY_DELAYS_SECONDS Demo.sleep None None None
    (λ n, n) Demo.request 0%nat); reflexivity.
Defined.

(** C30: A plan is returned only after it went all the way: when
    [generate_actions] returns, it returns the plan of an attempt that was
    parsed, accepted by the validation and executed without an error, and
    nothing happened after that execution. *)
Theorem returned_plan_was_executed {W} client parse delays sleep on_attempt validation_cb
    execution_cb request (w w' : W) result :
  generate_actions client parse delays sleep on_attempt validation_cb execution_cb request w
    = (w', Ret result) →
  ∃ actions, result = Some actions ∧
    executed client parse validation_cb execution_cb actions w'.
Proof.
  intros H. unfold generate_actions in H. eapply attempt_loop_ret; [| |exact H].
  - by destruct (length delays).
  - apply last_seq.
Qed.

Lemma returned_plan_was_executed_witness :
  ∃ actions, Some [] = Some actions ∧
    executed Demo.client Demo.parse_empty None None actions 1%nat.
Proof.
  apply (returned_plan_was_executed Demo.client Demo.parse_empty RETRY_DELAYS_SECONDS Demo.sleep
    None None None Demo.request 0%nat). vm_compute. reflexivity.
Defined.

(** C32: A refusal ends the run, at any attempt.  Whenever a run comes to an
    attempt, the first or a later one, and that attempt ends in an exception,
    the run ends with that exception at once when it is a refusal with status
    403, a client error that is not retryable or an exception of another
    kind, or when it was the last attempt; in every other case the model is
    asked once more after the delay of this attempt, with feedback. *)
Theorem refusal_is_final {W} client parse delays sleep on_attempt validation_cb execution_cb
    request (w : W) k req wk w1 w2 e :
  reaches client parse delays sleep on_attempt validation_cb execution_cb request w k req wk →
  call on_attempt (k + 1)%nat wk = (w1, Ret tt) →
  one_attempt client parse validation_cb execution_cb req w1 = (w2, Exc e) →
  if final e || (length delays <=? k)%nat then
    generate_actions client parse delays sleep on_attempt validation_cb execution_cb request w
      = (w2, Exc e)
  else
    ∃ feedback, ∀ w3, sleep (default 0%Z (delays !! k)) w2 = (w3, Ret tt) →
      reaches client parse delays sleep on_attempt validation_cb execution_cb request w
        (S k) (with_retry_feedback req feedback) w3.
Proof.
  intros Hr Hh Ha. pose proof (final_spec delays k e) as Hf.
  destruct (reaches_run _ _ _ _ _ _ _ _ _ _ _ _ Hr) as [Hk ->].
  destruct (feedback_for delays k e) as [f|] eqn:Hfb.
  - assert (final e || (length delays <=? k)%nat = false) as ->.
    { apply not_true_is_false. rewrite orb_true_iff, Nat.leb_le. by intros ?%Hf. }
    exists f. intros w3 Hs. by eapply reaches_next.
  - assert (final e || (length delays <=? k)%nat = true) as ->.
    { rewrite orb_true_iff, Nat.leb_le. by apply Hf. }
    replace (length delays + 1 - k)%nat with (S (length delays - k)) by lia. cbn [seq].
    rewrite (attempt_loop_fails client parse delays sleep on_attempt validation_cb execution_cb
      _ _ _ _ _ _ _ Hh Ha). by rewrite Hfb.
Qed.

(** The first answer is no JSON, the second plan is refused. *)
Lemma refusal_is_final_witness :
  let parse (text : pystr) := if decide (text = []) then Exc (LLMPlanRetryableException [] text None)
    else Exc (LLMPlanValidationError [] 403 []) in
  generate_actions Demo.counting_client parse RETRY_DELAYS_SECONDS
    Demo.sleep None None None Demo.request 0%nat
  = (2%nat, Exc (LLMPlanValidationError [] 403 [])).
Proof.
  intros parse.
  assert (Hr : reaches Demo.counting_client parse RETRY_DELAYS_SECONDS Demo.sleep None None None
    Demo.request 0%nat 1 (with_retry_feedback Demo.request
      (py "Previous action plan parse failed: invalid JSON")) 1%nat).
  { eapply reaches_next; [apply reaches_first|reflexivity|reflexivity|reflexivity|reflexivity]. }
  exact (refusal_is_final Demo.counting_client parse RETRY_DELAYS_SECONDS Demo.sleep None None None
    Demo.request 0%nat 1 _ 1%nat 1%nat 2%nat (LLMPlanValidationError [] 403 []) Hr eq_refl eq_refl).
Defined.
