(* ===== verification/World.v ===== *)
(** * The state the services share

    The file system, the database, the UUIDs the process will draw
    ([uuid.uuid4()], [uuid6.uuid7()]) and whatever else a component acts on
    ([X], the processes the runner starts), with the liftings of computations
    on a part to computations on the whole.  A service that holds a database
    session [db] works on the world and that session. *)
From S2P Require Import Prelude PyStr Exceptions FileSystem Schemas Database.
Local Open Scope eff_scope.

Record world {X : Type} := World {
  w_fs : fs;
  w_db : database;
  w_uuids : list uuid;
  w_ext : X
}.
Arguments world : clear implicits.
Arguments World {X} _ _ _ _.

Section lifting.
Context {X : Type}.
Implicit Types (w : world X).

Definition set_fs (m : fs) w : world X := World m (w_db w) (w_uuids w) (w_ext w).
Definition set_db (d : database) w : world X := World (w_fs w) d (w_uuids w) (w_ext w).

Definition in_fs {A} : eff exn fs A → eff exn (world X) A := zoom w_fs set_fs.
Definition in_db {A} : eff exn database A → eff exn (world X) A := zoom w_db set_db.

(** The next UUID; a process that ran out of them would draw nil. *)
Definition fresh_uuid : eff exn (world X) uuid := λ w,
  match w_uuids w with
  | u :: us => (World (w_fs w) (w_db w) us (w_ext w), Ret u)
  | [] => (w, Ret 0%N)
  end.

(** ** With a session *)
Abbreviation open_world := (world X * session)%type.

Definition on_world {A} : eff exn (world X) A → eff exn open_world A :=
  zoom fst (λ w ws, (w, ws.2)).

Definition on_session {A} : eff exn conn A → eff exn open_world A :=
  zoom (λ ws, (w_db ws.1, ws.2)) (λ c ws, (set_db c.1 ws.1, c.2)).

(** [db = session_factory(); try: m finally: db.close()] *)
Definition in_session {A} (m : eff exn open_world A) : eff exn (world X) A := λ w,
  match m (w, fresh_session) with (ws, o) => (ws.1, o) end.
End lifting.
