(* ===== verification/JobService.v ===== *)
(** * Jobs and artifacts (jobs/service.py)

    [JobService] and [ArtifactService], each on the session it was built
    with.  [mimetypes.guess_type] depends on tables of the machine and is a
    parameter. *)
From S2P Require Import Prelude PyStr Exceptions FileSystem FsFacts Realpath FsOps Storage StorageFacts.
From S2P Require Import Schemas Database DatabaseFacts World.
Local Open Scope eff_scope.
Import Local.

Definition MAX_REFINEMENT_CONTEXT_BYTES : Z := 5 * 1024 * 1024.
Definition REFINEMENT_FILES : list pystr := Eval vm_compute in [py "model.scad"; py "design-spec.md"].
Definition SYSTEM : pystr := Eval vm_compute in py "SYSTEM".
Definition OCTET_STREAM : pystr := Eval vm_compute in py "application/octet-stream".

Section services.
Context {X : Type} (base_dir : apath) (guess_type : pystr → option pystr).
Abbreviation M A := (eff exn (world X * session) A).

(** ** JobService *)
Definition find_job (job_id : uuid) : M (option Job) :=
  on_session (query (λ t, jobs t !! job_id)).

(** [self.db.refresh(job)]; the row is there, it was just committed. *)
Definition refresh_job (job_id : uuid) : M Job :=
  job <- find_job job_id ;;
  match job with Some j => ret j | None => raise OtherSQLAlchemyError end.

Definition create_job (prompt : pystr) (parent_job_id : option uuid) : M (uuid * Job) :=
  id <- on_world fresh_uuid ;;
  on_session (add (NewJob id parent_job_id prompt CREATED)) ;;;
  on_session commit ;;;
  _job <- refresh_job id ;;
  on_world (in_fs (Local.create_workspace base_dir id)) ;;;
  on_session (add (NewEventLog id SYSTEM (py "Job created and workspace initialized."))) ;;;
  on_session commit ;;;
  job <- refresh_job id ;;
  ret (id, job).

(** The loop over the files a refinement inherits: their total size *)
Fixpoint context_size (parent_job_id : uuid) (files : list pystr) (total : Z) : M Z :=
  match files with
  | [] => ret total
  | filename :: files' =>
      exists_ <- on_world (in_fs (Local.workspace_file_exists base_dir parent_job_id filename)) ;;
      if negb exists_ then
        raise (RefinementConflictError (py "Required parent file is missing: " ++ filename))
      else
        size <- on_world (in_fs (Local.workspace_file_size base_dir parent_job_id filename)) ;;
        context_size parent_job_id files' (total + size)
  end.

Definition create_refinement_job (parent_job_id : uuid) (prompt : pystr) : M (uuid * Job) :=
  parent <- find_job parent_job_id ;;
  match parent with
  | None => raise (RefinementNotFoundError (py "Parent Job was not found."))
  | Some parent =>
      if negb (bool_decide (job_status parent = COMPLETED)) then
        raise (RefinementConflictError (py "Parent Job must be COMPLETED."))
      else
        total_size <- context_size parent_job_id REFINEMENT_FILES 0 ;;
        if (MAX_REFINEMENT_CONTEXT_BYTES <? total_size)%Z then
          raise (RefinementContextTooLargeError (py "Refinement context exceeds 5MB."))
        else create_job prompt (Some parent_job_id)
  end.

(** [order_by(EventLog.id)] *)
Definition insert_by_id (e : EventLog) : list EventLog → list EventLog :=
  fix go l :=
    match l with
    | [] => [e]
    | e' :: l' => if (event_id e <=? event_id e')%Z then e :: l else e' :: go l'
    end.
Definition sort_by_id (l : list EventLog) : list EventLog := foldr insert_by_id [] l.

Definition get_event_logs (job_id : uuid) : M (list EventLog) :=
  on_session (query (λ t, sort_by_id (filter (λ e, event_job_id e = job_id) (event_logs t)))).

(** ** ArtifactService *)
Definition access_denied (why : pystr) : exn := ArtifactPermissionError (py "Access Denied: " ++ why).

(** The logical checks both methods start with *)
Definition check_relative_path (relative_path : pystr) : outcome exn unit :=
  if decide (strip relative_path = []) then Exc (access_denied (py "Empty path is not allowed."))
  else if contains [BACKSLASH] relative_path then
    Exc (access_denied (py "Windows backslashes are not allowed."))
  else if is_absolute relative_path then
    Exc (access_denied (py "Absolute paths are not allowed."))
  else if existsb (λ s, bool_decide (s = DOT) || bool_decide (s = DOTDOT) || bool_decide (s = []))
            (split_on SLASH relative_path) then
    Exc (access_denied (py "Invalid path segments (., .. or empty) are not allowed."))
  else Ret tt.

(** The physical check: the resolved target, inside the job's workspace *)
Definition checked_target (m : fs) (job_id : uuid) (relative_path : pystr) : outcome exn apath :=
  match resolve m (job_root base_dir JOBS job_id) with
  | Exc e => Exc e
  | Ret base_job_dir =>
      match resolve m (join_path base_job_dir relative_path) with
      | Exc e => Exc e
      | Ret target_path =>
          if is_relative_to target_path base_job_dir then Ret target_path
          else Exc (access_denied (py "Path traversal attempt detected."))
      end
  end.

Definition register_artifact (job_id : uuid) (relative_path : pystr) : M uuid :=
  of_outcome (check_relative_path relative_path) ;;;
  m <- gets (λ ws, w_fs ws.1) ;;
  _target <- of_outcome (checked_target m job_id relative_path) ;;
  let filename := path_name relative_path in
  let content_type :=
    match guess_type filename with
    | Some (c :: t) => c :: t
    | _ => OCTET_STREAM
    end in
  id <- on_world fresh_uuid ;;
  on_session (add (NewArtifact id job_id relative_path filename content_type)) ;;;
  on_session flush ;;;
  ret id.

Definition find_artifact (id : uuid) (t : tables) : option Artifact :=
  head (filter (λ a, artifact_id a = id) (artifacts t)).

Definition get_artifact_for_download (id : uuid) : M (apath * pystr * pystr) :=
  artifact <- on_session (query (find_artifact id)) ;;
  match artifact with
  | None => raise (ArtifactNotFoundError (py "Artifact not found in database."))
  | Some artifact =>
      of_outcome (check_relative_path (relative_path artifact)) ;;;
      m <- gets (λ ws, w_fs ws.1) ;;
      target_path <- of_outcome (checked_target m (artifact_job_id artifact) (relative_path artifact)) ;;
      if negb (path_exists m target_path) || negb (is_file m target_path) then
        raise (ArtifactNotFoundError (py "Physical file not found or is not a regular file."))
      else ret (target_path, content_type artifact, filename artifact)
  end.

Definition get_artifacts_by_job_id (job_id : uuid) : M (list Artifact) :=
  on_session (query (λ t, filter (λ a, artifact_job_id a = job_id) (artifacts t))).
End services.
