(* ===== verification/Executor.v ===== *)
(** * Executing a plan (orchestrator/actions.py)

    [ActionExecutor.execute_attempt] runs a plan between a snapshot and its
    rollback or completion.  The runner is a parameter here. *)
From S2P Require Import Prelude PyStr Exceptions FileSystem FsFacts Realpath FsOps Storage StorageFacts Attempts.
From S2P Require Import Schemas Database DatabaseFacts World JobService.
Local Open Scope eff_scope.
Import Local.

(** The locals of [execute_attempt] an exception handler can see *)
Record frame {X : Type} := Frame {
  f_world : world X;
  f_session : session;
  copied_paths : list apath
}.
Arguments frame : clear implicits.
Arguments Frame {X} _ _ _.

Section executor.
Context {X : Type} (base_dir : apath) (guess_type : pystr → option pystr).
(** [CLIExecutionRunner.run_tool(job_id, tool_name, args, db)] *)
Context (run_tool : uuid → pystr → list pystr → eff exn (world X * session) Z).
Abbreviation M A := (eff exn (frame X) A).

Definition with_db {A} : eff exn (world X * session) A → M A :=
  zoom (λ f, (f_world f, f_session f)) (λ ws f, Frame ws.1 ws.2 (copied_paths f)).

Definition on_files {A} (m : eff exn fs A) : M A := with_db (on_world (in_fs m)).

Definition _execute_action (job_id : uuid) (a : action) : M unit :=
  match a with
  | CreateDirectoryAction path => on_files (Local.create_directory base_dir job_id path)
  | WriteFileAction path content => on_files (Local.write_file base_dir job_id path (Text content))
  | RunToolAction tool_name args =>
      with_db (on_world (in_session (run_tool job_id tool_name args))) ;;; ret tt
  | CreateArtifactAction _ =>
      raise (ValueError (py "Unsupported retry-boundary action type: CreateArtifactAction"))
  end.

(** The first loop: everything but artifacts, which are set aside *)
Fixpoint execute_actions (job_id : uuid) (actions : list action) : M unit :=
  match actions with
  | [] => ret tt
  | CreateArtifactAction _ :: actions' => execute_actions job_id actions'
  | a :: actions' => _execute_action job_id a ;;; execute_actions job_id actions'
  end.

Definition artifact_paths (actions : list action) : list pystr :=
  omap (λ a, match a with CreateArtifactAction p => Some p | _ => None end) actions.

(** The body of the second loop *)
Definition publish_artifact (job_id : uuid) (path : pystr) : M unit :=
  on_files (Local.save_artifact base_dir job_id path) ;;;
  m <- gets (λ f, w_fs (f_world f)) ;;
  copied_path <- of_outcome (resolve m (join_path (job_root base_dir ARTIFACTS job_id) path)) ;;
  modify (λ f, Frame (f_world f) (f_session f) (copied_paths f ++ [copied_path])) ;;;
  with_db (register_artifact base_dir guess_type job_id path) ;;;
  ret tt.

(** Best-effort cleanup: [try: if path.exists() and path.is_file(): os.remove(path)
    except Exception: pass] *)
Definition remove_copied (path : apath) : M unit :=
  m <- gets (λ f, w_fs (f_world f)) ;;
  try_catch
    (if path_exists m path && is_file m path then on_files (os_remove path) else ret tt)
    (λ _, ret tt).

Definition attempt_body (job_id : uuid) (actions : list action)
    (on_success : option (eff exn (world X) unit)) : M unit :=
  execute_actions job_id actions ;;;
  for_each (artifact_paths actions) (publish_artifact job_id) ;;;
  with_db (on_session commit) ;;;
  match on_success with
  | Some cb => with_db (on_world cb)
  | None => ret tt
  end.

Definition undo_attempt (job_id : uuid) (token : pystr) : M unit :=
  with_db (on_session rollback) ;;;
  paths <- gets copied_paths ;;
  for_each paths remove_copied ;;;
  on_files (Local.rollback_attempt base_dir job_id token).

Definition execute_attempt (job_id : uuid) (actions : list action)
    (on_success : option (eff exn (world X) unit)) : eff exn (world X) unit :=
  uuid4 <- fresh_uuid ;;
  token <- in_fs (Local.begin_attempt base_dir job_id uuid4) ;;
  (λ w,
    match
      (try_catch (attempt_body job_id actions on_success)
         (λ e, undo_attempt job_id token ;;; raise e) ;;;
       on_files (Local.complete_attempt base_dir job_id token))
      (Frame w fresh_session [])
    with (f, o) => (f_world f, o) end).

(** [execute] *)
Definition execute (job_id : uuid) (actions : list action) : eff exn (world X) unit :=
  execute_attempt job_id actions None.
End executor.
