(* ===== verification/ExecutorFacts.v ===== *)
(** * An attempt is all or nothing

    [execute_attempt] either returns, and then the file system changed inside
    the job's two trees only, or raises, and then the file system is what it
    was before: artifacts, workspace and everything else. *)
From S2P Require Import Prelude PyStr Exceptions FileSystem FsFacts Realpath FsOps Storage StorageFacts Attempts.
From S2P Require Import Schemas Database DatabaseFacts World JobService Executor.
Local Open Scope eff_scope.
Import Local.

#[local] Opaque uuid_str.

Section inside.
Context (base : apath) (Hbase : normal base) (job_id : uuid).
Abbreviation root := (root_of base job_id).

(** The job's trees exist in a tidy file system. *)
Definition ready (m : fs) : Prop :=
  tidy base m ∧ m !! root JOBS = Some NDir ∧ m !! root ARTIFACTS = Some NDir.

Definition outside_trees (q : apath) : Prop := ∀ d, tree_name d → ¬ root d `prefix_of` q.

(** Changes that stay inside the job's trees *)
Definition inside (m m' : fs) : Prop :=
  ready m → ready m' ∧ ∀ q, outside_trees q → m' !! q = m !! q.

#[export] Instance inside_preorder : PreOrder inside.
Proof.
  split; [by intros m|]. intros m1 m2 m3 H12 H23 H1.
  destruct (H12 H1) as [H2 E12]. destruct (H23 H2) as [H3 E23].
  split; [done|]. intros q Hq. by rewrite E23, E12.
Qed.

Lemma ready_root m d : ready m → tree_name d → m !! root d = Some NDir.
Proof. by intros (_ & ? & ?) [->| ->]. Qed.

Lemma ready_job_base m d : ready m → tree_name d → job_base base m d job_id = root d.
Proof using Hbase.
  intros [Ht _] Hd. apply job_base_link_free; [done|by apply tree_dir_name|].
  rewrite root_of_eq by done. apply (tidy_link_free base); [done|apply base_prefix_root].
Qed.

Lemma ready_grows (m m' : fs) :
  ready m → fs_wf m' → same_links m m' → grows m m' → ready m'.
Proof using.
  intros ([] & Hj & Ha) Hwf Hl [Hdirs Hnames]. split_and!; [split; auto|auto|auto].
  - intros q Hq. specialize (tidy_links q Hq). unfold is_link_at in *.
    destruct (m' !! q) as [[| |t]|] eqn:E; try done. apply Hl in E. by rewrite E in tidy_links.
  - intros q [?|?]%Hnames; auto.
Qed.

Lemma confined_inside (d : pystr) (m m' : fs) :
  tree_name d → ready m → fs_wf m' → same_links m m' → confined (root d) m m' →
  ready m' ∧ ∀ q, outside_trees q → m' !! q = m !! q.
Proof using.
  intros Hd Hr Hwf Hl [Hc Hg]. split; [by eapply ready_grows|].
  - intros q Hq. destruct (Hc q) as [?|[?|(Hp & Hn & _)]]; [done|by destruct (Hq d)|].
    destruct Hp as [k Hk]. pose proof (ready_root m d Hr Hd) as Hroot. rewrite Hk in Hroot.
    apply fs_wf_dir_prefix in Hroot; [congruence|]. apply (tidy_wf base), Hr.
Qed.

Lemma inside_of (d : pystr) (m m' : fs) :
  tree_name d →
  (fs_wf m → fs_wf m' ∧ same_links m m' ∧ confined (job_base base m d job_id) m m') →
  inside m m'.
Proof using Hbase.
  intros Hd H Hr. pose proof Hr as [Ht _]. destruct (H (tidy_wf base m Ht)) as (? & ? & Hc).
  rewrite ready_job_base in Hc by done. by eapply confined_inside.
Qed.

Lemma inside_create_directory rel : steps inside (Local.create_directory base job_id rel).
Proof using Hbase.
  intros m. apply (inside_of JOBS); [by left|]. intros Hwf. by apply create_directory_confined.
Qed.

Lemma inside_write_file rel c : steps inside (Local.write_file base job_id rel c).
Proof using Hbase.
  intros m. apply (inside_of JOBS); [by left|]. intros Hwf. by apply write_file_confined.
Qed.

Lemma inside_save_artifact rel : steps inside (Local.save_artifact base job_id rel).
Proof using Hbase.
  intros m. apply (inside_of ARTIFACTS); [by right|]. intros Hwf. by apply save_artifact_confined.
Qed.

(** Removing a file of the artifact tree *)
Definition artifact_path (p : apath) : Prop := root ARTIFACTS `prefix_of` p ∧ normal p.

Lemma inside_os_remove p : artifact_path p → steps inside (os_remove p).
Proof using.
  intros [Hp Hn] m Hr. pose proof Hr as ([] & Hj & Ha).
  destruct (os_remove p m) as [m' o] eqn:E.
  apply os_remove_inv in E as [(e & -> & _)|(r & w & Hl & Hk & Hd & Hnd & -> & _)]; [done|].
  assert (base `prefix_of` p) as Hb by (etrans; [apply base_prefix_root|done]).
  destruct p as [|w' p _] using rev_ind; [done|].
  rewrite last_snoc in Hl. rewrite removelast_last in Hk. simplify_eq. simpl in *.
  apply Forall_app in Hn as [Hn _].
  assert (r = p) as ->.
  { assert (link_free m p) as Hlf
      by (eapply link_free_prefix, (tidy_link_free base); [by split|exact Hb]).
    destruct (kwalk_link_free m p Hn Hlf) as [?|(? & _ & _ & _ & ?)]; congruence. }
  assert (∀ q, m !! q = Some NDir → q ≠ p ++ [w]) as Hne by (by intros q Hq ->).
  split.
  - split_and!; [split|..].
    + apply fs_wf_delete; [done| |done]. by destruct p.
    + rewrite lookup_delete_ne; [done|]. apply not_eq_sym, Hne, tidy_base.
    + intros q Hq. unfold is_link_at. rewrite lookup_delete. case_decide; [done|].
      by apply tidy_links.
    + intros q. rewrite lookup_delete. case_decide; [by intros [? ?]|apply tidy_names].
    + rewrite lookup_delete_ne; [done|]. by apply not_eq_sym, Hne.
    + rewrite lookup_delete_ne; [done|]. by apply not_eq_sym, Hne.
  - intros q Hq. rewrite lookup_delete_ne; [done|]. intros <-. by destruct (Hq ARTIFACTS); [right|].
Qed.
End inside.

(** ** Computations that leave the file system alone *)
Definition same_fs {X} (ws ws' : world X * session) : Prop := w_fs ws'.1 = w_fs ws.1.

#[export] Instance same_fs_preorder {X} : PreOrder (@same_fs X).
Proof. split; [done|]. intros a b c. unfold same_fs. congruence. Qed.

Lemma same_fs_on_session {X A} (m : eff exn conn A) : steps (@same_fs X) (on_session m).
Proof. intros [w s]. unfold on_session, zoom. by destruct (m _). Qed.

Lemma same_fs_fresh_uuid {X} : steps (@same_fs X) (on_world fresh_uuid).
Proof. intros [w s]. unfold on_world, zoom, fresh_uuid. simpl. by destruct (w_uuids w). Qed.

Lemma same_fs_register {X} base guess j rel : steps (@same_fs X) (register_artifact base guess j rel).
Proof.
  unfold register_artifact.
  repeat first [apply steps_ebind; [apply _| |intros ?] | apply steps_of_outcome; apply _
    | apply steps_gets; apply _ | apply steps_ret; apply _
    | apply same_fs_fresh_uuid | apply same_fs_on_session ].
Qed.

Section attempts.
Context {X : Type} (base : apath) (Hbase : normal base) (Henc : encodable base = true).
Context (guess_type : pystr → option pystr) (job_id : uuid).
Context (run_tool : uuid → pystr → list pystr → eff exn (world X * session) Z).
(** The runner changes nothing but the job's trees. *)
Hypothesis (Hrun : ∀ tool args ws,
  inside base job_id (w_fs ws.1) (w_fs (run_tool job_id tool args ws).1.1)).
Abbreviation root := (root_of base job_id).
Abbreviation fs_of := (λ f : frame X, w_fs (f_world f)).

(** The invariant of a running attempt, and what it may change *)
Definition attempt_ok (f : frame X) : Prop :=
  ready base job_id (fs_of f) ∧ Forall (artifact_path base job_id) (copied_paths f).

Definition attempt_step (f f' : frame X) : Prop :=
  attempt_ok f → attempt_ok f' ∧ ∀ q, outside_trees base job_id q → fs_of f' !! q = fs_of f !! q.

#[export] Instance attempt_step_preorder : PreOrder attempt_step.
Proof.
  split; [by intros f|]. intros f1 f2 f3 H12 H23 H1.
  destruct (H12 H1) as [H2 E12]. destruct (H23 H2) as [H3 E23].
  split; [done|]. intros q Hq. by rewrite E23, E12.
Qed.

Lemma attempt_step_fs f f' :
  inside base job_id (fs_of f) (fs_of f') → copied_paths f' = copied_paths f → attempt_step f f'.
Proof. intros Hi Hc [Hr Hp]. destruct (Hi Hr). split; [split; [done|by rewrite Hc]|done]. Qed.

Lemma attempt_on_files {A} (m : eff exn fs A) :
  steps (inside base job_id) m → steps attempt_step (on_files m).
Proof.
  intros Hm [w s cps]. specialize (Hm (w_fs w)).
  unfold on_files, with_db, on_world, in_fs, zoom. simpl.
  destruct (m (w_fs w)) as [m' o]. by apply attempt_step_fs.
Qed.

Lemma attempt_with_db {A} (m : eff exn (world X * session) A) :
  steps same_fs m → steps attempt_step (with_db m).
Proof.
  intros Hm [w s cps]. specialize (Hm (w, s)). unfold with_db, zoom, same_fs in *. simpl in *.
  destruct (m (w, s)) as [[w' s'] o]. simpl in *. apply attempt_step_fs; [|done].
  simpl. rewrite Hm. reflexivity.
Qed.

Lemma attempt_run_tool tool args :
  steps attempt_step (with_db (on_world (in_session (run_tool job_id tool args)))).
Proof using Hrun.
  intros [w s cps]. specialize (Hrun tool args (w, fresh_session)).
  unfold with_db, on_world, in_session, zoom. simpl in *.
  destruct (run_tool job_id tool args (w, fresh_session)) as [[w' s'] o]. by apply attempt_step_fs.
Qed.

Lemma attempt_execute_actions actions :
  steps attempt_step (execute_actions base run_tool job_id actions).
Proof using Hbase Hrun.
  induction actions as [|a actions IH]; simpl; [apply steps_ret, _|].
  destruct a; try done; (apply steps_ebind; [apply _| |done]); simpl.
  - apply attempt_on_files. by apply inside_create_directory.
  - apply attempt_on_files. by apply inside_write_file.
  - apply steps_ebind; [apply _|apply attempt_run_tool|]. intros _. apply steps_ret, _.
Qed.

(** The path recorded for cleanup is a path of the artifact tree. *)
Lemma saved_path m m' rel p :
  ready base job_id m → Local.save_artifact base job_id rel m = (m', Ret tt) →
  resolve m' (join_path (job_root base ARTIFACTS job_id) rel) = Ret p → artifact_path base job_id p.
Proof using Hbase.
  intros Hr Hs Hp. pose proof Hr as [Ht _]. pose proof (tidy_wf base m Ht) as Hwf.
  destruct (save_artifact_confined base Hbase job_id rel m Hwf) as (Hwf' & Hl & _).
  rewrite Hs in Hwf', Hl. simpl in Hwf', Hl.
  unfold Local.save_artifact in Hs.
  apply ebind_inv in Hs as [(m0 & src & Hv0 & Hs)|(? & _ & [=])].
  apply validate_safe_path_inv in Hv0 as (-> & _). run in Hs.
  destruct (negb _ || negb _); [done|].
  apply ebind_inv in Hs as [(m1 & dst & Hv & _)|(? & _ & [=])].
  apply validate_safe_path_inv in Hv as (_ & Hd & Hpre & Hu).
  assert (p = dst) as ->.
  { apply resolve_inv in Hp. subst p dst. unfold target_of.
    rewrite (ready_job_base base Hbase job_id) by (done || by right).
    rewrite root_of_eq by (by right). by rewrite (realpath_same_links m m'). }
  rewrite (ready_job_base base Hbase job_id) in Hpre by (done || by right). split; [done|].
  subst dst. apply (resolved_normal m); [done|]. apply target_of_resolved; [done|done|by right; left|done].
Qed.

Lemma attempt_publish rel : steps attempt_step (publish_artifact base guess_type job_id rel).
Proof using Hbase.
  intros f. unfold publish_artifact.
  pose proof (attempt_on_files _ (inside_save_artifact base Hbase job_id rel) f) as Hs.
  unfold ebind at 1.
  destruct (on_files (Local.save_artifact base job_id rel) f) as [f1 [[]|e]] eqn:E; simpl in Hs;
    [|by apply Hs].
  run. destruct (resolve _ _) as [p|e] eqn:Hp; run; [|done].
  intros Hok. destruct (Hs Hok) as [Hok1 E1].
  set (f2 := Frame _ _ _).
  assert (attempt_ok f2) as Hok2.
  { destruct Hok1 as [Hr1 Hc1]. split; [done|]. simpl. apply Forall_app. split; [done|].
    apply Forall_singleton. destruct f as [w s cps].
    unfold on_files, with_db, on_world, in_fs, zoom in E. simpl in E.
    destruct (Local.save_artifact base job_id rel (w_fs w)) as [m' o] eqn:Es.
    injection E as <- ->. simpl in Hp. eapply saved_path; [apply Hok|exact Es|exact Hp]. }
  assert (steps attempt_step
    (with_db (X := X) (register_artifact base guess_type job_id rel) ;;; ret tt)) as Hreg.
  { apply steps_ebind; [apply _| |intros _; apply steps_ret, _].
    apply attempt_with_db, same_fs_register. }
  destruct (Hreg f2 Hok2) as [? E2]. split; [done|].
  intros q Hq. rewrite E2 by done. simpl. by rewrite E1.
Qed.

Lemma attempt_remove_copied p :
  artifact_path base job_id p → steps attempt_step (remove_copied p).
Proof using.
  intros Hp. unfold remove_copied. apply steps_ebind; [apply _|apply steps_gets, _|].
  intros m. apply steps_catch; [apply _| |intros _; apply steps_ret, _].
  case_match; [|apply steps_ret, _]. apply attempt_on_files. by apply inside_os_remove.
Qed.

Lemma attempt_cleanup ps :
  Forall (artifact_path base job_id) ps → steps attempt_step (for_each (E := exn) ps remove_copied).
Proof using.
  induction 1 as [|p ps Hp Hps IH]; simpl; [apply steps_ret, _|].
  apply steps_ebind; [apply _|by apply attempt_remove_copied|done].
Qed.

Lemma on_files_run {A} (m : eff exn fs A) (f : frame X) m' o :
  m (fs_of f) = (m', o) →
  on_files m f = (Frame (set_fs m' (f_world f)) (f_session f) (copied_paths f), o).
Proof. unfold on_files, with_db, on_world, in_fs, zoom. simpl. by intros ->. Qed.

Lemma attempt_body_step actions (cb : option (eff exn (world X) unit)) :
  (∀ m w, cb = Some m → w_fs (m w).1 = w_fs w) →
  steps attempt_step (attempt_body base guess_type run_tool job_id actions cb).
Proof using Hbase Hrun.
  intros Hcb. unfold attempt_body.
  apply steps_ebind; [apply _|apply attempt_execute_actions|intros _].
  apply steps_ebind; [apply _|apply steps_for_each; [apply _|apply attempt_publish]|intros _].
  apply steps_ebind; [apply _|apply attempt_with_db, same_fs_on_session|intros _].
  destruct cb as [m|]; [|apply steps_ret, _]. apply attempt_with_db.
  intros [w s]. unfold on_world, zoom, same_fs. simpl. specialize (Hcb m w eq_refl).
  by destruct (m w).
Qed.

Section run.
Context (uuid4 : uuid) (m0 m1 : fs).
Hypotheses (Hready : ready base job_id m0) (Hfresh : m0 !! snapshot_of base job_id uuid4 = None).
Hypothesis (Hsnap : snapshot_taken base job_id uuid4 m0 m1).

Lemma ready_after_snapshot : ready base job_id m1.
Proof using Hready Hsnap.
  assert (∀ d, tree_name d → m1 !! root d = Some NDir) as Hroot.
  { intros d Hd. rewrite (sn_frame _ _ _ _ _ Hsnap); [by apply ready_root|..].
    - intros Hp. eapply (root_prefix_snapshot base job_id uuid4 d (root d)); [done|done|].
      etrans; [done|apply snapshot_root_prefix].
    - rewrite <-(app_nil_r (snapshot_of _ _ _)). by apply snapshot_not_root. }
  split; [by apply (sn_tidy _ _ _ _ _ Hsnap)|]. split; apply Hroot; [by left|by right].
Qed.

Lemma attempt_changed f :
  ready base job_id (fs_of f) →
  (∀ q, outside_trees base job_id q → fs_of f !! q = m1 !! q) →
  attempt_change base job_id m1 (fs_of f).
Proof using.
  intros Hr Hq. split; [apply Hr|done|]. intros d Hd. right. by apply ready_root.
Qed.

(** [db.rollback()] in the handler *)
Lemma undo_rollback (f : frame X) c o :
  rollback (w_db (f_world f), f_session f) = (c, o) →
  with_db (on_session rollback) f = (Frame (set_db c.1 (f_world f)) c.2 (copied_paths f), o).
Proof using. unfold with_db, on_session, zoom. simpl. by intros ->. Qed.

(** When it raises, the handler ends there. *)
Lemma undo_abandoned (f : frame X) c e token :
  rollback (w_db (f_world f), f_session f) = (c, Exc e) →
  ∃ f', undo_attempt base job_id token f = (f', Exc e) ∧ fs_of f' = fs_of f.
Proof using.
  intros Hr%undo_rollback. unfold undo_attempt. rewrite (ebind_exc_run _ _ _ _ _ Hr). by eexists.
Qed.

(** When it returns, the handler puts everything back. *)
Lemma undo_ok (f : frame X) c :
  rollback (w_db (f_world f), f_session f) = (c, Ret tt) →
  attempt_ok f → (∀ q, outside_trees base job_id q → fs_of f !! q = m1 !! q) →
  ∃ f', undo_attempt base job_id (uuid_str uuid4) f = (f', Ret tt) ∧
    (∀ q, ¬ q `prefix_of` snapshot_root base job_id → fs_of f' !! q = m0 !! q) ∧
    tidy base (fs_of f').
Proof using Henc Hready Hfresh Hsnap.
  intros Hroll%undo_rollback Hok Hq. unfold undo_attempt.
  set (f1 := Frame (set_db c.1 (f_world f)) c.2 (copied_paths f)) in *.
  rewrite (ebind_ret_run _ _ _ f1 tt) by done. run. simpl.
  assert (attempt_ok f1) as Hok1 by (split; apply Hok).
  assert (∀ ps f, ∃ f', for_each (E := exn) ps (remove_copied (X := X)) f = (f', Ret tt)) as Hret.
  { intros ps. induction ps as [|p ps IH]; intros g; simpl; [by eexists|].
    unfold remove_copied at 1. rewrite run_assoc. run. unfold ebind, try_catch.
    destruct (path_exists _ p && is_file _ p); simpl; [|apply IH].
    destruct (on_files (os_remove p) g) as [g1 [[]|e]]; simpl; apply IH. }
  destruct (Hret (copied_paths f) f1) as [f2 Hf2].
  pose proof (attempt_cleanup (copied_paths f) (proj2 Hok) f1) as Hst.
  rewrite Hf2 in Hst. destruct (Hst Hok1) as [[Hr2 _] E2]. simpl in Hr2, E2.
  rewrite (ebind_ret_run _ _ _ f2 tt) by done.
  destruct (rollback_attempt_ok base Henc job_id uuid4 m0 m1 (fs_of f2)) as (m3 & Hm3 & E3 & Ht3);
    [apply Hready|apply Hready|apply Hready|done|done| |].
  - apply attempt_changed; [done|]. intros q Hout. rewrite E2 by done. by apply Hq.
  - erewrite on_files_run by exact Hm3. eexists. split; [done|]. by split.
Qed.
End run.

(** The handler's [db.rollback()] itself raised [e], after an attempt that
    failed in the files [m1] of its snapshot. *)
Definition rollback_raised (actions : list action) (cb : option (eff exn (world X) unit))
    (w : world X) (us : list uuid) (e : exn) : Prop :=
  ∃ m1 f e0 c,
    attempt_body base guess_type run_tool job_id actions cb
      (Frame (World m1 (w_db w) us (w_ext w)) fresh_session []) = (f, Exc e0) ∧
    rollback (w_db (f_world f), f_session f) = (c, Exc e).

(** What an attempt may leave behind *)
Definition attempt_outcome (actions : list action) (cb : option (eff exn (world X) unit))
    (uuid4 : uuid) (us : list uuid) (w w' : world X) (o : outcome exn unit) : Prop :=
  let kept q := ¬ q `prefix_of` snapshot_root base job_id → w_fs w' !! q = w_fs w !! q in
  match o with
  | Ret _ =>
      w_fs w' !! snapshot_of base job_id uuid4 = None ∧ ∀ q, outside_trees base job_id q → kept q
  | Exc e =>
      (∀ q, kept q) ∨
      (rollback_raised actions cb w us e ∧
       w_fs w' !! snapshot_of base job_id uuid4 = Some NDir ∧
       ∀ q, outside_trees base job_id q → ¬ snapshot_of base job_id uuid4 `prefix_of` q → kept q)
  end.

Lemma execute_attempt_run actions (cb : option (eff exn (world X) unit)) w uuid4 us :
  (∀ m w, cb = Some m → w_fs (m w).1 = w_fs w) →
  w_uuids w = uuid4 :: us → ready base job_id (w_fs w) →
  clear (w_fs w) (snapshot_root base job_id) →
  w_fs w !! snapshot_of base job_id uuid4 = None →
  ∃ w' o, execute_attempt base guess_type run_tool job_id actions cb w = (w', o) ∧
    tidy base (w_fs w') ∧ attempt_outcome actions cb uuid4 us w w' o.
Proof using Hbase Henc Hrun.
  intros Hcb Hu Hr Hcl Hf. unfold execute_attempt. unfold ebind at 1, fresh_uuid. rewrite Hu.
  destruct (begin_attempt_ok base Henc job_id uuid4 (w_fs w)) as (m1 & Hb & Hs); [apply Hr|done..|].
  unfold ebind at 1, in_fs at 1, zoom at 1. simpl. rewrite Hb.
  set (f0 := Frame _ _ _).
  assert (attempt_ok f0) as Hok0
    by (split; [by eapply (ready_after_snapshot uuid4 (w_fs w))|constructor]).
  unfold ebind at 1, try_catch.
  pose proof (attempt_body_step actions cb Hcb f0 Hok0) as [Hok1 E1].
  destruct (attempt_body base guess_type run_tool job_id actions cb f0) as [f1 o1] eqn:Hbody.
  simpl in Hok1, E1; simpl in f0.
  assert (fs_of f1 !! snapshot_of base job_id uuid4 = Some NDir) as Hsd.
  { rewrite <-(app_nil_r (snapshot_of _ _ _)).
    rewrite (snapshot_dir_kept base job_id uuid4 (w_fs w) m1) with (m3 := fs_of f1); [|done|].
    - rewrite app_nil_r. apply (sn_dir _ _ _ _ _ Hs).
    - apply (attempt_changed m1 f1); [apply Hok1|done]. }
  destruct o1 as [[]|e].
  - rewrite (on_files_run (Local.complete_attempt base job_id (uuid_str uuid4)) f1 _ _
      (complete_attempt_ok base Henc job_id uuid4 (fs_of f1) (proj1 (proj1 Hok1)) Hsd)).
    eexists _, _. split; [done|]. simpl. split; [|split].
    + unfold snapshot_of. apply tidy_filter; [apply Hok1|]. unfold snapshot_root. by apply prefix_app_r.
    + rewrite lookup_rmtree. by rewrite decide_True.
    + intros q Hout Hns. rewrite lookup_rmtree. case_decide as Hp.
      * symmetry. destruct Hp as [k ->]. apply wf_none_below; [|done].
        apply (tidy_wf base), Hr.
      * rewrite E1 by done. by apply (sn_frame _ _ _ _ _ Hs).
  - destruct (rollback (w_db (f_world f1), f_session f1)) as [c [[]|e1]] eqn:Hroll.
    + destruct (undo_ok uuid4 (w_fs w) m1 Hr Hf Hs f1 c Hroll Hok1 E1) as (f2 & Hundo & E2 & Ht2).
      rewrite (ebind_ret_run _ _ _ _ _ Hundo). simpl.
      eexists _, _. split; [done|]. split; [done|]. by left.
    + destruct (undo_abandoned f1 c e1 (uuid_str uuid4) Hroll) as (f2 & Hundo & E2).
      rewrite (ebind_exc_run _ _ _ _ _ Hundo). simpl.
      eexists _, _. split; [done|]. simpl. rewrite E2. split; [apply Hok1|]. right.
      split_and!; [|done|].
      * exists m1, f1, e, c. by destruct w; simplify_eq/=.
      * intros q Hout Hsn Hns. rewrite E1 by done. by apply (sn_frame _ _ _ _ _ Hs).
Qed.
End attempts.

(** ** A concrete run *)
Module Demo.
Definition base : apath := Storage.Demo.base.
Definition job : uuid := Storage.Demo.job.
Definition token : uuid := 77.

Definition m0 : fs := Eval vm_compute in (Local.create_workspace base job Storage.Demo.fs0).1.

Definition db0 : database :=
  Database (Tables {[ job := {| parent_job_id := None; prompt := []; job_status := RUNNING;
    action_plan := None; job_created_at := 0; updated_at := 0 |} ]} [] []) 1 0 [].

Definition w0 : world unit := World m0 db0 [token; 78%N] tt.

(** A runner that has no tools *)
Definition no_tools (_ : uuid) (_ : pystr) (_ : list pystr) : eff exn (world unit * session) Z :=
  raise (CLIError (CLIExecutionLaunchError (py "no tool") [] 0)).

Definition plan : list action :=
  [WriteFileAction (py "model.scad") (py "cube(1);"); CreateArtifactAction (py "model.scad")].

(** The callback that stores the plan may fail. *)
Definition failing : eff exn (world unit) unit :=
  raise (RuntimeError (py "Job is not RUNNING while saving action plan.")).

Definition no_guess (_ : pystr) : option pystr := None.

(** When the callback fails, the files are rolled back but the artifact row
    was committed before it and stays. *)
Example orphan_artifact :
  let '(w, o) := execute_attempt base no_guess no_tools job plan (Some failing) w0 in
  (length (artifacts (committed (w_db w))),
   bool_decide (is_Some (w_fs w !! (root_of base job ARTIFACTS ++ [py "model.scad"]))),
   o) = (1%nat, false, Exc (RuntimeError (py "Job is not RUNNING while saving action plan."))).
Proof. vm_compute. reflexivity. Qed.

Example succeeds : (execute_attempt base no_guess no_tools job plan None w0).2 = Ret tt.
Proof. vm_compute. reflexivity. Qed.

(** The server is gone when the artifact is registered: [db.rollback()] raises,
    and the file of the failed attempt stays in the workspace. *)
Definition gone : world unit :=
  World m0 (Database (committed db0) 1 0 (replicate 2 (Tick 0 [] (Refused OperationalError))))
    [token; 78%N] tt.

Example abandoned :
  let '(w, o) := execute_attempt base no_guess no_tools job plan None gone in
  (bool_decide (is_Some (w_fs w !! (root_of base job JOBS ++ [py "model.scad"]))), o)
  = (true, Exc OperationalError).
Proof. vm_compute. reflexivity. Qed.

Lemma tidy_m0 : tidy base m0.
Proof. apply is_tidy_spec. vm_compute. reflexivity. Qed.

Lemma ready_m0 : ready base job m0.
Proof. split; [apply tidy_m0|]. split; vm_compute; reflexivity. Qed.

Lemma clear_m0 : clear m0 (snapshot_root base job).
Proof.
  apply (tidy_clear base); [apply tidy_m0|by apply prefix_app_r|].
  intros r Hr d. apply prefix_snoc_inv with (p := base ++ [SNAPSHOTS]) in Hr as [->|Hr];
    [vm_compute; discriminate|].
  apply prefix_snoc_inv in Hr as [->|Hr]; [vm_compute; discriminate|].
  apply prefix_snoc_inv with (p := []) in Hr as [->|Hr]; [vm_compute; discriminate|].
  apply prefix_nil_inv in Hr as ->. vm_compute. discriminate.
Qed.
End Demo.

(** ** Properties *)

(** C1: An attempt is all or nothing on the file system.  With a runner that
    stays inside the job's trees, [execute_attempt] always comes to an end;
    when it raises, every path (but the directories that hold snapshots) is
    what it was before the attempt; when it returns, only the two trees of
    the job changed and the snapshot is gone.  There is one exception: when the
    [db.rollback()] of the handler, which is not guarded, raises itself, that
    error is raised instead, the files are not put back and the snapshot stays,
    with nothing changed outside the job's trees. *)
Theorem attempt_all_or_nothing {X} base guess_type job_id
    (run_tool : uuid → pystr → list pystr → eff exn (world X * session) Z)
    actions (on_success : option (eff exn (world X) unit)) w uuid4 us :
  normal base → encodable base = true →
  (∀ tool args ws, inside base job_id (w_fs ws.1) (w_fs (run_tool job_id tool args ws).1.1)) →
  (∀ cb w, on_success = Some cb → w_fs (cb w).1 = w_fs w) →
  w_uuids w = uuid4 :: us → ready base job_id (w_fs w) →
  clear (w_fs w) (snapshot_root base job_id) →
  w_fs w !! snapshot_of base job_id uuid4 = None →
  ∃ w' o, execute_attempt base guess_type run_tool job_id actions on_success w = (w', o) ∧
    tidy base (w_fs w') ∧
    match o with
    | Ret _ =>
        w_fs w' !! snapshot_of base job_id uuid4 = None ∧
        ∀ q, ¬ q `prefix_of` snapshot_root base job_id → outside_trees base job_id q →
          w_fs w' !! q = w_fs w !! q
    | Exc e =>
        (∀ q, ¬ q `prefix_of` snapshot_root base job_id → w_fs w' !! q = w_fs w !! q) ∨
        (rollback_raised base guess_type job_id run_tool actions on_success w us e ∧
         w_fs w' !! snapshot_of base job_id uuid4 = Some NDir ∧
         ∀ q, ¬ q `prefix_of` snapshot_root base job_id → outside_trees base job_id q →
           ¬ snapshot_of base job_id uuid4 `prefix_of` q → w_fs w' !! q = w_fs w !! q)
    end.
Proof.
  intros Hn He Hr Hcb Hu Hrd Hc Hf.
  destruct (execute_attempt_run base Hn He guess_type job_id run_tool Hr actions on_success w uuid4 us)
    as (w' & o & Hrun & Ht & Ho); [done..|]. exists w', o. split_and!; [done..|].
  destruct o as [[]|e]; [|destruct Ho as [Ho|(? & ? & Ho)]; [left|right; split_and!]]; naive_solver.
Qed.

Lemma attempt_all_or_nothing_witness :
  ∃ w' o, execute_attempt Demo.base Demo.no_guess Demo.no_tools Demo.job Demo.plan
    (Some Demo.failing) Demo.w0 = (w', o) ∧ tidy Demo.base (w_fs w').
Proof.
  destruct (attempt_all_or_nothing Demo.base Demo.no_guess Demo.job Demo.no_tools Demo.plan
    (Some Demo.failing) Demo.w0 Demo.token [78%N]) as (w' & o & Hrun & Ht & _).
  - apply (tidy_names Demo.base Demo.m0 Demo.tidy_m0). vm_compute. eauto.
  - vm_compute. reflexivity.
  - intros tool args ws Hr. split; [exact Hr|reflexivity].
  - intros cb w [= <-]. reflexivity.
  - reflexivity.
  - exact Demo.ready_m0.
  - exact Demo.clear_m0.
  - vm_compute. reflexivity.
  - exact (ex_intro _ w' (ex_intro _ o (conj Hrun Ht))).
Defined.
