(* ===== verification/JobFacts.v ===== *)
(** * What the job and artifact services guarantee

    Refinement jobs are made only from finished jobs whose design files are
    there and small enough; a registered artifact can be downloaded; a new
    job is stored with its first event and its workspace. *)
From S2P Require Import Prelude PyStr Exceptions FileSystem FsFacts Realpath FsOps Storage StorageFacts StorageProps.
From S2P Require Import Schemas Database DatabaseFacts Repository World JobService Attempts Executor ExecutorFacts.
Local Open Scope eff_scope.
Import Local.

#[local] Opaque uuid_str.

(** ** Queries *)
Lemma query_inv {A} (f : tables → A) d s c' o :
  query f (d, s) = (c', o) →
  (∃ e, o = Exc e) ∨
  (∃ d1 t, next_tick (is_locked s) d = (d1, Delivered) ∧
     c' = (d1, Session (pending s) (work s) (Some t) false) ∧ o = Ret (f (view (d1, s)))).
Proof.
  unfold query, statement. simpl. destruct (aborted s); [intros [= <- <-]; eauto|].
  destruct (next_tick (is_locked s) d) as [d1 [|e|e]]; intros [= <- <-]; eauto 6.
Qed.

(** The same on the world and a session *)
Lemma session_query_inv {X A : Type} (f : tables → A) (w : world X) s ws' o :
  on_session (query f) (w, s) = (ws', o) →
  w_fs ws'.1 = w_fs w ∧ w_uuids ws'.1 = w_uuids w ∧
  ((∃ e, o = Exc e) ∨
   (∃ t, next_tick (is_locked s) (w_db w) = (w_db ws'.1, Delivered) ∧
      ws'.2 = Session (pending s) (work s) (Some t) false ∧ o = Ret (f (view (w_db ws'.1, s))))).
Proof.
  unfold on_session, zoom. simpl. destruct (query f (w_db w, s)) as [c' o'] eqn:E.
  intros [= <- <-]. split_and!; [done..|].
  apply query_inv in E as [?|(d1 & t & Ht & -> & ->)]; [by left|]. right. by exists t.
Qed.

Lemma files_runs {X A : Type} (m : eff exn fs A) (w : world X) s m' o :
  m (w_fs w) = (m', o) → on_world (in_fs m) (w, s) = ((set_fs m' w, s), o).
Proof. intros H. unfold on_world, in_fs, zoom. simpl. by rewrite H. Qed.

(** A computation on the files that leaves them alone *)
Lemma files_pure {X A : Type} (m : eff exn fs A) (w : world X) s :
  (m (w_fs w)).1 = w_fs w → on_world (in_fs m) (w, s) = ((w, s), (m (w_fs w)).2).
Proof.
  intros H. rewrite (files_runs m w s (w_fs w) (m (w_fs w)).2).
  - by destruct w.
  - rewrite <- H at 2. by destruct (m (w_fs w)).
Qed.

(** ** Refinement *)
Section refinement.
Context (base_dir : apath).

(** A file the child of [parent] inherits: a regular file inside the
    workspace, of [n] bytes *)
Definition inherited_file (m : fs) (parent : uuid) (f : pystr) (n : Z) : Prop :=
  ∃ p d, _validate_safe_path base_dir parent f JOBS m = (m, Ret p) ∧
    stat m p = Some (NFile d) ∧ n = Z.of_nat (length d).

Lemma file_exists_pure j f m : (Local.workspace_file_exists base_dir j f m).1 = m.
Proof.
  unfold Local.workspace_file_exists, try_catch. rewrite run_pure by apply validate_safe_path_pure.
  destruct (_validate_safe_path _ _ _ _ m).2 as [p|e]; [done|]. by destruct e.
Qed.

Lemma file_size_pure j f m : (Local.workspace_file_size base_dir j f m).1 = m.
Proof.
  unfold Local.workspace_file_size. rewrite run_pure by apply validate_safe_path_pure.
  destruct (_validate_safe_path _ _ _ _ m).2 as [p|e]; [|done]. run.
  by destruct (stat m p) as [[]|].
Qed.

Lemma file_size_inv j f m n :
  (Local.workspace_file_size base_dir j f m).2 = Ret n → inherited_file m j f n.
Proof.
  unfold Local.workspace_file_size. rewrite run_pure by apply validate_safe_path_pure.
  destruct (_validate_safe_path base_dir j f JOBS m) as [m1 [p|e]] eqn:E; [|done]. simpl.
  pose proof (validate_safe_path_pure base_dir j f JOBS m) as Hm. rewrite E in Hm. simpl in Hm. subst m1.
  run. destruct (stat m p) as [[|d|]|] eqn:Es; intros [= <-]. by exists p, d.
Qed.

(** The loop adds up the files, or refuses; it only looks. *)
Lemma context_size_inv {X : Type} parent files total (w : world X) s ws' o :
  context_size base_dir parent files total (w, s) = (ws', o) →
  ws' = (w, s) ∧
  match o with
  | Ret n => ∃ sizes, Forall2 (inherited_file (w_fs w) parent) files sizes ∧ n = (total + foldr Z.add 0 sizes)%Z
  | Exc _ => True
  end.
Proof.
  revert total. induction files as [|f files IH]; intros total; simpl.
  { intros [= <- <-]. split; [done|]. exists []. split; [constructor|]. simpl. lia. }
  unfold ebind at 1. rewrite files_pure by apply file_exists_pure.
  destruct (Local.workspace_file_exists base_dir parent f (w_fs w)).2 as [[]|e];
    [simpl|by intros [= <- <-]..].
  unfold ebind at 1. rewrite files_pure by apply file_size_pure.
  destruct (Local.workspace_file_size base_dir parent f (w_fs w)).2 as [n|e] eqn:En;
    [|by intros [= <- <-]].
  intros [-> Ho]%IH. split; [done|]. destruct o as [k|]; [|done].
  destruct Ho as (sizes & Hf & ->). exists (n :: sizes).
  split; [constructor; [by apply file_size_inv|done]|]. simpl. lia.
Qed.

Lemma file_size_ok j f m n :
  inherited_file m j f n →
  (Local.workspace_file_exists base_dir j f m).2 = Ret true ∧
  (Local.workspace_file_size base_dir j f m).2 = Ret n.
Proof.
  intros (p & d & Hv & Hs & ->). unfold Local.workspace_file_exists, Local.workspace_file_size.
  unfold try_catch. rewrite !(ebind_ret_run _ _ _ _ _ Hv). run. unfold gets, is_file. rewrite Hs.
  done.
Qed.

Lemma context_size_ok {X : Type} parent files sizes total (w : world X) s :
  Forall2 (inherited_file (w_fs w) parent) files sizes →
  context_size base_dir parent files total (w, s) = ((w, s), Ret (total + foldr Z.add 0 sizes)%Z).
Proof.
  intros Hf. revert total. induction Hf as [|f n files sizes Hn _ IH]; intros total; simpl.
  { unfold ret. do 2 f_equal. lia. }
  destruct (file_size_ok _ _ _ _ Hn) as [He Hs].
  unfold ebind at 1. rewrite files_pure by apply file_exists_pure. rewrite He. simpl.
  unfold ebind at 1. rewrite files_pure by apply file_size_pure. rewrite Hs.
  rewrite IH. do 2 f_equal. lia.
Qed.

Lemma inherited_file_det m j f n1 n2 : inherited_file m j f n1 → inherited_file m j f n2 → n1 = n2.
Proof.
  intros (p & d & Hv & Hs & ->) (p' & d' & Hv' & Hs' & ->).
  assert (p' = p) as -> by congruence. assert (d' = d) as -> by congruence. done.
Qed.

(** What a job must be for a refinement to start from it *)
Definition refinable (m : fs) (t : tables) (parent : uuid) : Prop :=
  ∃ pj sizes, jobs t !! parent = Some pj ∧ job_status pj = COMPLETED ∧
    Forall2 (inherited_file m parent) REFINEMENT_FILES sizes ∧
    (foldr Z.add 0 sizes ≤ MAX_REFINEMENT_CONTEXT_BYTES)%Z.
End refinement.

(** C16: A refinement starts exactly from a finished design.  When the database
    answers the query for the parent, [create_refinement_job] goes on to
    create the child if and only if the parent is COMPLETED, both design files
    are regular files inside its workspace and together they have at most
    5 MB; otherwise it raises, and files, tables, drawn identifiers and the
    session's pending work are as before. *)
Theorem refinement_exact {X : Type} base_dir parent prompt (w : world X) s d1 :
  aborted s = false → next_tick (is_locked s) (w_db w) = (d1, Delivered) →
  let w1 := set_db d1 w in
  let s1 := Session (pending s) (work s) (Some (default (clock d1) (started s))) false in
  let run := create_refinement_job base_dir parent prompt (w, s) in
  (refinable base_dir (w_fs w) (view (d1, s)) parent ∧
   run = create_job base_dir prompt (Some parent) (w1, s1)) ∨
  (¬ refinable base_dir (w_fs w) (view (d1, s)) parent ∧ ∃ e, run = ((w1, s1), Exc e)).
Proof.
  intros Ha Ht w1 s1 run.
  assert (find_job parent (w, s) = ((w1, s1), Ret (jobs (view (d1, s)) !! parent))) as Hq.
  { unfold find_job, on_session, zoom, query, statement. simpl. by rewrite Ha, Ht. }
  unfold run, create_refinement_job. rewrite (ebind_ret_run _ _ _ _ _ Hq).
  destruct (jobs (view (d1, s)) !! parent) as [pj|] eqn:Ej.
  2: { right. split; [|by eexists]. intros (? & ? & E & _). congruence. }
  destruct (decide (job_status pj = COMPLETED)) as [Hc|Hc].
  2: { right. rewrite bool_decide_false by done. split; [|by eexists].
       intros (? & ? & E & ? & _). congruence. }
  rewrite bool_decide_true by done. simpl.
  destruct (context_size base_dir parent REFINEMENT_FILES 0 (w1, s1)) as [ws2 o] eqn:Es.
  apply context_size_inv in Es as Hs. destruct Hs as [-> Ho].
  destruct o as [n|e].
  - destruct Ho as (sizes & Hf & ->). rewrite (ebind_ret_run _ _ _ _ _ Es).
    destruct (Z.ltb_spec MAX_REFINEMENT_CONTEXT_BYTES (0 + foldr Z.add 0 sizes)%Z).
    + right. split; [|by eexists]. intros (pj' & sizes' & _ & _ & Hf' & Hle).
      assert (sizes' = sizes) as ->; [|lia]. clear - Hf Hf'.
      revert sizes' Hf'. induction Hf as [|f n fs ns Hn _ IH]; intros sizes' Hf';
        inversion Hf' as [|? n' ? ns' Hn' Hf'']; subst; [done|].
      f_equal; [by eapply inherited_file_det|by apply IH].
    + left. split; [|done]. exists pj, sizes. split_and!; [done..|lia].
  - right. rewrite (ebind_exc_run _ _ _ _ _ Es). split; [|by eexists].
    intros (pj' & sizes & _ & _ & Hf & _).
    rewrite (context_size_ok base_dir parent _ sizes) in Es by done. done.
Qed.

(** ** A database that answers, with nobody else writing *)
Lemma query_healthy {A} (f : tables → A) d s :
  healthy d → aborted s = false →
  ∃ d' t, query f (d, s) = ((d', Session (pending s) (work s) (Some t) false),
                            Ret (f (apply_ops (committed d) (work s)))) ∧
    same_contents d d' ∧ healthy d'.
Proof.
  intros Hh Ha. destruct (healthy_tick (is_locked s) d Hh) as (d' & Ht & Hs & Hh').
  exists d', (default (clock d') (started s)). split; [|done].
  unfold query, statement. simpl. rewrite Ha, Ht. unfold view. simpl.
  by rewrite (proj1 Hs).
Qed.

(** The commit of a session whose rows the tables accept *)
Lemma commit_healthy d s rows next ops :
  healthy d → aborted s = false → pending s = rows → rows ≠ [] →
  (∀ now, insert_rows now (next_event_id d) (apply_ops (committed d) (work s)) rows
          = (next, Some (ops now))) →
  ∃ d' now, commit (d, s) = ((d', fresh_session), Ret tt) ∧ healthy d' ∧
    committed d' = apply_ops (committed d) (work s ++ ops now) ∧ next_event_id d' = next.
Proof.
  intros Hh Ha Hp Hne Hins. unfold commit, ebind, flush. simpl. rewrite Hp.
  rewrite decide_False by done. unfold statement. simpl. rewrite Ha.
  destruct (healthy_tick (is_locked s) d Hh) as (d1 & -> & (Hc1 & Hn1 & _) & Hh1).
  unfold view, now. simpl. rewrite Hp, Hc1, Hn1, Hins. simpl.
  set (now := default (clock d1) (started s)).
  set (d2 := Database _ _ _ _). set (s2 := Session _ _ _ _).
  destruct (healthy_tick (is_locked s2) d2 Hh1) as (d3 & -> & (Hc3 & Hn3 & _) & Hh3).
  eexists _, now. split; [done|]. simpl. split_and!; [done|by rewrite Hc3|by rewrite Hn3].
Qed.

(** ** A new job *)
Definition new_job (prompt : pystr) (parent : option uuid) (now : Z) : Job :=
  {| parent_job_id := parent; prompt := prompt; job_status := CREATED;
     action_plan := None; job_created_at := now; updated_at := now |}.

Definition created_event (id : Z) (job_id : uuid) (now : Z) : EventLog :=
  {| event_id := id; event_job_id := job_id; event_type := SYSTEM;
     message := py "Job created and workspace initialized."; event_created_at := now |}.

(** The tables with one job and its first event more *)
Definition job_added (id : uuid) (job : Job) (d d' : database) : Prop :=
  healthy d' ∧ (∃ now, committed d' = apply_ops (committed d)
      [InsertJob id job; InsertEventLog (created_event (next_event_id d) id now)]) ∧
  next_event_id d' = (next_event_id d + 1)%Z.

Lemma session_step {X A : Type} (m : eff exn conn A) (w : world X) s d' s' o :
  m (w_db w, s) = ((d', s'), o) → on_session m (w, s) = ((set_db d' w, s'), o).
Proof. intros H. unfold on_session, zoom. simpl. by rewrite H. Qed.

Lemma session_add {X : Type} r (w : world X) s :
  on_session (add r) (w, s) = ((w, Session (pending s ++ [r]) (work s) (started s) (aborted s)), Ret tt).
Proof. unfold on_session, zoom, add, modify. simpl. by destruct w. Qed.

Section new_jobs.
Context {X : Type} (base_dir : apath).
Implicit Types (w : world X).

Lemma insert_new_job id parent prompt t next :
  jobs t !! id = None → from_option (has_job t) true parent = true →
  ∀ now, insert_rows now next t [NewJob id parent prompt CREATED]
         = (next, Some [InsertJob id (new_job prompt parent now)]).
Proof. intros Hid Hp now. simpl. unfold has_job at 1. by rewrite Hid, Hp. Qed.

Lemma insert_event id ty msg t next :
  has_job t id = true →
  ∀ now, insert_rows now next t [NewEventLog id ty msg]
    = ((next + 1)%Z, Some [InsertEventLog {| event_id := next; event_job_id := id; event_type := ty;
                                             message := msg; event_created_at := now |}]).
Proof. intros Hj now. simpl. by rewrite Hj. Qed.

Lemma refresh_ok id j w s :
  healthy (w_db w) → aborted s = false → work s = [] →
  jobs (committed (w_db w)) !! id = Some j →
  ∃ d' t, refresh_job id (w, s) = ((set_db d' w, Session (pending s) [] (Some t) false), Ret j) ∧
    same_contents (w_db w) d' ∧ healthy d'.
Proof.
  intros Hh Ha Hw Hj. destruct (query_healthy (λ t, jobs t !! id) (w_db w) s Hh Ha) as (d' & t & Hq & Hs & Hh').
  rewrite Hw in Hq. simpl in Hq. exists d', t. split; [|done].
  unfold refresh_job, find_job. rewrite (ebind_ret_run _ _ _ _ _ (session_step _ _ _ _ _ _ Hq)).
  by rewrite Hj.
Qed.

Lemma create_job_run prompt parent w s id us m' :
  healthy (w_db w) → aborted s = false → pending s = [] → work s = [] →
  w_uuids w = id :: us → jobs (committed (w_db w)) !! id = None →
  from_option (has_job (committed (w_db w))) true parent = true →
  Local.create_workspace base_dir id (w_fs w) = (m', Ret tt) →
  ∃ d' s' now, create_job base_dir prompt parent (w, s)
      = ((World m' d' us (w_ext w), s'), Ret (id, new_job prompt parent now)) ∧
    job_added id (new_job prompt parent now) (w_db w) d'.
Proof.
  destruct w as [m d uuids ext]. simpl. intros Hh Ha Hp Hw -> Hid Hpar Hws.
  unfold create_job.
  rewrite (ebind_ret_run _ _ _ (World m d us ext, s) id) by done.
  rewrite (ebind_ret_run _ _ _ _ _ (session_add _ _ _)). rewrite Hp, Hw, Ha. simpl.
  destruct (commit_healthy d (Session [NewJob id parent prompt CREATED] [] (started s) false)
      _ (next_event_id d) _ Hh eq_refl eq_refl ltac:(done)
      (insert_new_job id parent prompt (committed d) (next_event_id d) Hid Hpar))
    as (d1 & now & Hc1 & Hh1 & Ht1 & Hn1). simpl in Ht1.
  rewrite (ebind_ret_run _ _ _ _ _ (session_step _ (World m d us ext) _ _ _ _ Hc1)).
  assert (jobs (committed d1) !! id = Some (new_job prompt parent now)) as Hj1
    by (rewrite Ht1; simpl; by rewrite lookup_insert_eq).
  destruct (refresh_ok id _ (World m d1 us ext) fresh_session Hh1 eq_refl eq_refl Hj1)
    as (d2 & t2 & Hr2 & (Hc2 & Hn2 & _) & Hh2). simpl in Hc2, Hn2.
  rewrite (ebind_ret_run _ _ _ _ _ Hr2). unfold set_db. simpl.
  rewrite (ebind_ret_run _ _ _ _ _ (files_runs _ (World m d2 us ext) _ _ _ Hws)). unfold set_fs. simpl.
  rewrite (ebind_ret_run _ _ _ _ _ (session_add _ _ _)). simpl.
  assert (has_job (committed d2) id = true) as Hj2 by (unfold has_job; by rewrite Hc2, Hj1).
  destruct (commit_healthy d2 (Session
      [NewEventLog id SYSTEM (py "Job created and workspace initialized.")] [] (Some t2) false)
      _ _ _ Hh2 eq_refl eq_refl ltac:(done)
      (insert_event id SYSTEM _ (committed d2) (next_event_id d2) Hj2))
    as (d3 & now3 & Hc3 & Hh3 & Ht3 & Hn3). simpl in Ht3.
  rewrite (ebind_ret_run _ _ _ _ _ (session_step _ (World m' d2 us ext) _ _ _ _ Hc3)).
  assert (jobs (committed d3) !! id = Some (new_job prompt parent now)) as Hj3
    by (rewrite Ht3; simpl; by rewrite Hc2).
  destruct (refresh_ok id _ (World m' d3 us ext) fresh_session Hh3 eq_refl eq_refl Hj3)
    as (d4 & t4 & Hr4 & (Hc4 & Hn4 & _) & Hh4). simpl in Hc4, Hn4.
  unfold set_db. simpl. rewrite (ebind_ret_run _ _ _ _ _ Hr4). unfold set_db, ret. simpl.
  eexists d4, _, now. split; [done|]. split; [done|]. split; [|congruence].
  exists now3. rewrite Hc4, Ht3, Hc2, Ht1. unfold created_event. by rewrite Hn2, Hn1.
Qed.
End new_jobs.

(** ** A registered artifact *)
Lemma flush_healthy d s rows next ops :
  healthy d → aborted s = false → pending s = rows → rows ≠ [] →
  (∀ now, insert_rows now (next_event_id d) (apply_ops (committed d) (work s)) rows
          = (next, Some (ops now))) →
  ∃ d' now, flush (d, s) = ((d', Session [] (work s ++ ops now) (Some now) false), Ret tt) ∧
    healthy d' ∧ committed d' = committed d ∧ next_event_id d' = next.
Proof.
  intros Hh Ha Hp Hne Hins. unfold flush. simpl. rewrite Hp. rewrite decide_False by done.
  unfold statement. simpl. rewrite Ha.
  destruct (healthy_tick (is_locked s) d Hh) as (d1 & -> & (Hc1 & Hn1 & _) & Hh1).
  unfold view, now. simpl. rewrite Hp, Hc1, Hn1, Hins. simpl.
  by eexists _, (default (clock d1) (started s)).
Qed.

(** The commit of statements that were flushed already *)
Lemma commit_flushed d s t :
  healthy d → aborted s = false → pending s = [] → started s = Some t →
  ∃ d', commit (d, s) = ((d', fresh_session), Ret tt) ∧ healthy d' ∧
    committed d' = apply_ops (committed d) (work s).
Proof.
  intros Hh Ha Hp Hst. unfold commit, ebind, flush. simpl. rewrite Hp, decide_True, Ha by done.
  simpl. rewrite Hst.
  destruct (healthy_tick (is_locked s) d Hh) as (d1 & -> & (Hc1 & _) & Hh1).
  eexists. split; [done|]. split; [done|]. simpl. by rewrite Hc1.
Qed.

Definition guessed (guess_type : pystr → option pystr) (name : pystr) : pystr :=
  match guess_type name with Some (c :: t) => c :: t | _ => OCTET_STREAM end.

Lemma find_new_artifact t a :
  Forall (λ b, artifact_id b ≠ artifact_id a) (artifacts t) →
  find_artifact (artifact_id a) (apply_op t (InsertArtifact a)) = Some a.
Proof.
  intros Hf. unfold find_artifact. simpl. rewrite filter_app.
  assert (filter (λ b, artifact_id b = artifact_id a) (artifacts t) = []) as ->.
  { induction Hf as [|b l Hb _ IH]; [done|]. by rewrite filter_cons_False. }
  by rewrite filter_cons_True.
Qed.

Lemma register_run {X : Type} base_dir guess_type job_id rel p (w : world X) id us :
  healthy (w_db w) → w_uuids w = id :: us →
  has_job (committed (w_db w)) job_id = true →
  Forall (λ b, artifact_id b ≠ id) (artifacts (committed (w_db w))) →
  check_relative_path rel = Ret tt → checked_target base_dir (w_fs w) job_id rel = Ret p →
  ∃ d' now,
    let a := {| artifact_id := id; artifact_job_id := job_id; relative_path := rel;
                filename := path_name rel; content_type := guessed guess_type (path_name rel);
                artifact_created_at := now |} in
    (id <- register_artifact base_dir guess_type job_id rel ;; on_session commit ;;; ret id)
      (w, fresh_session) = ((World (w_fs w) d' us (w_ext w), fresh_session), Ret id) ∧
    healthy d' ∧ committed d' = apply_op (committed (w_db w)) (InsertArtifact a).
Proof.
  destruct w as [m d uuids ext]. simpl. intros Hh -> Hj Hf Hrel Ht.
  unfold register_artifact. rewrite run_assoc, Hrel, run_Ret, run_assoc, run_gets.
  rewrite run_assoc. simpl. rewrite Ht, run_Ret, run_assoc. cbv zeta.
  rewrite (ebind_ret_run _ _ _ (World m d us ext, fresh_session) id) by done.
  rewrite run_assoc, (ebind_ret_run _ _ _ _ _ (session_add _ _ _)), run_assoc. simpl.
  set (ct := match guess_type (path_name rel) with Some (c :: t) => c :: t | _ => OCTET_STREAM end).
  destruct (flush_healthy d (Session [NewArtifact id job_id rel (path_name rel) ct] [] None false)
      _ (next_event_id d) (λ now, [InsertArtifact
        {| artifact_id := id; artifact_job_id := job_id; relative_path := rel;
           filename := path_name rel; content_type := ct; artifact_created_at := now |}])
      Hh eq_refl eq_refl ltac:(done)) as (d1 & now & Hfl & Hh1 & Hc1 & _).
  { intros now. simpl. rewrite Hj. simpl.
    assert (forallb (λ b, negb (bool_decide (artifact_id b = id))) (artifacts (committed d)) = true) as ->;
      [|done].
    apply forallb_forall. intros b Hb%list_elem_of_In. rewrite Forall_forall in Hf.
    by rewrite bool_decide_false by auto. }
  rewrite (ebind_ret_run _ _ _ _ _ (session_step _ (World m d us ext) _ _ _ _ Hfl)), run_ret.
  unfold set_db. simpl.
  destruct (commit_flushed d1 (Session [] [InsertArtifact
        {| artifact_id := id; artifact_job_id := job_id; relative_path := rel;
           filename := path_name rel; content_type := ct; artifact_created_at := now |}]
        (Some now) false) now Hh1 eq_refl eq_refl eq_refl) as (d2 & Hcm & Hh2 & Hc2).
  rewrite (ebind_ret_run _ _ _ _ _ (session_step _ (World m d1 us ext) _ _ _ _ Hcm)).
  exists d2, now. split; [done|]. split; [done|]. by rewrite Hc2, Hc1.
Qed.

(** ** Downloads by identifier *)
Section downloads.
Context (base_dir : apath) (Hbase : normal base_dir).

(** A regular file the kernel finds under exactly this path, inside the tree *)
Definition served_file (m : fs) (d : pystr) (j : uuid) (p : apath) : Prop :=
  job_base base_dir m d j `prefix_of` p ∧ kwalk m p = Ret p ∧ ∃ b, m !! p = Some (NFile b).

Lemma resolved_file m d j p :
  fs_wf m → resolved m p → is_file m p = true → job_base base_dir m d j `prefix_of` p →
  served_file m d j p.
Proof.
  intros Hwf Hr Hf Hp. unfold is_file, stat in Hf.
  destruct (kwalk m p) as [r|] eqn:Ek; [|done].
  pose proof (resolved_final m p p r Hwf Hr (reflexivity _) Ek) as ->.
  destruct (m !! p) as [[|b|]|] eqn:Em; try done. split_and!; [done..|by exists b].
Qed.

Lemma target_of_plain_resolved m d j rel :
  fs_wf m → dir_name d → is_absolute rel = false → resolved m (target_of base_dir m d j rel).
Proof using Hbase.
  intros Hwf Hd Hu. eexists. split; [|done]. unfold join_path. rewrite Hu.
  intros n [Hn|Hn]%elem_of_app; [|by eapply path_parts_no_slash].
  eapply normal_no_slash; [|done]. apply realpath_normal; [done|].
  intros x. apply normal_no_slash. by apply job_root_normal.
Qed.

Lemma checked_target_inv m j rel p :
  checked_target base_dir m j rel = Ret p →
  p = target_of base_dir m JOBS j rel ∧ job_base base_dir m JOBS j `prefix_of` p.
Proof.
  unfold checked_target. destruct (resolve m (job_root base_dir JOBS j)) as [b|] eqn:Eb; [|done].
  destruct (resolve m (join_path b rel)) as [t|] eqn:Et; [|done].
  apply resolve_inv in Eb, Et. subst. unfold is_relative_to.
  case_bool_decide; intros [= <-]. done.
Qed.

Lemma relative_path_not_absolute rel : check_relative_path rel = Ret tt → is_absolute rel = false.
Proof.
  unfold check_relative_path. case_decide; [done|]. destruct (contains _ _); [done|].
  by destruct (is_absolute rel).
Qed.

Lemma download_inv {X : Type} id (w : world X) s ws' p ct name :
  fs_wf (w_fs w) →
  get_artifact_for_download base_dir id (w, s) = (ws', Ret (p, ct, name)) →
  w_fs ws'.1 = w_fs w ∧
  ∃ a, a ∈ artifacts (view (w_db ws'.1, s)) ∧ artifact_id a = id ∧
    ct = content_type a ∧ name = filename a ∧ served_file (w_fs w) JOBS (artifact_job_id a) p.
Proof using Hbase.
  intros Hwf. unfold get_artifact_for_download.
  intros [([w1 s1] & a & Hq & H)|(e & _ & ?)]%ebind_inv; [|done].
  apply session_query_inv in Hq as (Hfs & _ & [(e & ?)|(t & _ & _ & Ha)]); [done|].
  simpl in Hfs. injection Ha as ->.
  destruct (find_artifact id (view (w_db w1, s))) as [a|] eqn:Ef; [|done].
  destruct (check_relative_path (relative_path a)) as [[]|] eqn:Ec; run in H; [|done]. simpl in H.
  destruct (checked_target base_dir (w_fs w1) (artifact_job_id a) (relative_path a)) as [q|] eqn:Et;
    run in H; [|done].
  destruct (is_file (w_fs w1) q) eqn:Eq; [|simpl in H; by rewrite orb_true_r in H].
  destruct (path_exists (w_fs w1) q); [|done]. simpl in H. unfold ret in H.
  injection H as <- <- <- <-. split; [done|]. exists a.
  apply head_Some_elem_of, list_elem_of_filter in Ef as [Hid Hin].
  split_and!; try done. rewrite Hfs in *.
  destruct (checked_target_inv _ _ _ _ Et) as [-> Hpre].
  apply resolved_file; [done| |done..].
  apply target_of_plain_resolved; [done|by left|by apply relative_path_not_absolute].
Qed.

Lemma download_run {X : Type} id a p (w : world X) :
  healthy (w_db w) → find_artifact id (committed (w_db w)) = Some a →
  check_relative_path (relative_path a) = Ret tt →
  checked_target base_dir (w_fs w) (artifact_job_id a) (relative_path a) = Ret p →
  is_file (w_fs w) p = true →
  ∃ ws', get_artifact_for_download base_dir id (w, fresh_session)
         = (ws', Ret (p, content_type a, filename a)).
Proof.
  intros Hh Hf Hc Ht Hp.
  destruct (query_healthy (find_artifact id) (w_db w) fresh_session Hh eq_refl) as (d' & t & Hq & _).
  unfold get_artifact_for_download.
  rewrite (ebind_ret_run _ _ _ _ _ (session_step _ _ _ _ _ _ Hq)). simpl. rewrite Hf, Hc. run.
  simpl. rewrite Ht. run. assert (path_exists (w_fs w) p = true) as ->.
  { unfold path_exists, is_file in *. apply bool_decide_eq_true. by destruct (stat _ p). }
  rewrite Hp. by eexists.
Qed.
End downloads.

(** C26: A registered artifact can be downloaded.  When the path of an artifact
    passes the checks and leads to a regular file of the job's workspace,
    registering it and committing stores a row under a fresh identifier, and a
    later download by that identifier returns the same file with the name and
    the content type that were recorded. *)
Theorem registered_artifact_downloads {X : Type} base_dir guess_type job_id rel p (w : world X) id us :
  healthy (w_db w) → w_uuids w = id :: us →
  has_job (committed (w_db w)) job_id = true →
  Forall (λ b, artifact_id b ≠ id) (artifacts (committed (w_db w))) →
  check_relative_path rel = Ret tt → checked_target base_dir (w_fs w) job_id rel = Ret p →
  is_file (w_fs w) p = true →
  ∃ w1, (id <- register_artifact base_dir guess_type job_id rel ;; on_session commit ;;; ret id)
          (w, fresh_session) = ((w1, fresh_session), Ret id) ∧ w_fs w1 = w_fs w ∧
    ∃ ws2, get_artifact_for_download base_dir id (w1, fresh_session)
           = (ws2, Ret (p, guessed guess_type (path_name rel), path_name rel)).
Proof.
  intros Hh Hu Hj Hf Hrel Ht Hp.
  destruct (register_run base_dir guess_type job_id rel p w id us) as (d' & now & Hrun & Hh' & Hc);
    [done..|].
  eexists. split; [exact Hrun|]. split; [done|].
  set (a := {| artifact_id := id |}) in Hc.
  apply (download_run base_dir id a p (World (w_fs w) d' us (w_ext w)) Hh'); [|done..].
  simpl. rewrite Hc. by apply (find_new_artifact (committed (w_db w)) a).
Qed.

(** ** A finished job with a design *)
Module Demo.
Definition base : apath := StorageProps.Demo2.base.
Definition job : uuid := StorageProps.Demo2.job.
Definition row : Job :=
  {| parent_job_id := None; prompt := py "a cube"; job_status := COMPLETED; action_plan := None;
     job_created_at := 0; updated_at := 0 |}.
Definition db : database :=
  Database {| jobs := {[ job := row ]}; event_logs := []; artifacts := [] |} 1 0 [].
Definition w : world unit := World StorageProps.Demo2.m0 db [7%N; 8%N] tt.
Definition guess (_ : pystr) : option pystr := None.
Definition model : apath := base ++ [JOBS; uuid_str job; py "model.scad"].

Lemma db_healthy : healthy db.
Proof. constructor. Qed.
End Demo.

Lemma refinement_exact_witness :
  (refinable Demo.base (w_fs Demo.w) (committed Demo.db) Demo.job ∧
   create_refinement_job Demo.base Demo.job (py "bigger") (Demo.w, fresh_session) =
   create_job Demo.base (py "bigger") (Some Demo.job)
     (set_db Demo.db Demo.w, Session [] [] (Some 0%Z) false)) ∨
  (¬ refinable Demo.base (w_fs Demo.w) (committed Demo.db) Demo.job ∧
   ∃ e, create_refinement_job Demo.base Demo.job (py "bigger") (Demo.w, fresh_session) =
        ((set_db Demo.db Demo.w, Session [] [] (Some 0%Z) false), Exc e)).
Proof.
  exact (refinement_exact Demo.base Demo.job (py "bigger") Demo.w fresh_session Demo.db
           eq_refl eq_refl).
Defined.

Lemma registered_artifact_downloads_witness :
  ∃ w1, (id <- register_artifact Demo.base Demo.guess Demo.job (py "model.scad") ;;
         on_session commit ;;; ret id) (Demo.w, fresh_session) = ((w1, fresh_session), Ret 7%N) ∧
    w_fs w1 = w_fs Demo.w ∧
    ∃ ws2, get_artifact_for_download Demo.base 7 (w1, fresh_session)
           = (ws2, Ret (Demo.model, guessed Demo.guess (path_name (py "model.scad")),
                        path_name (py "model.scad"))).
Proof.
  refine (registered_artifact_downloads Demo.base Demo.guess Demo.job (py "model.scad") Demo.model
            Demo.w 7 [8%N] Demo.db_healthy eq_refl _ _ _ _ _).
  - vm_compute. reflexivity.
  - constructor.
  - vm_compute. reflexivity.
  - vm_compute. reflexivity.
  - vm_compute. reflexivity.
Defined.
