(* ===== verification/Gate.v ===== *)
(** * The concurrency gate (orchestrator/concurrency.py)

    [OrchestrationConcurrencyGate] bounds how many jobs run at once with an
    [asyncio.Semaphore] and a deadline on the wait.  The model has the
    semaphore's counter and its queue of futures, the deadline that cancels a
    waiting task (also one whose future was already set), and the steps in
    which the event loop runs the tasks.  [_CLI_SEMAPHORE] of
    runner/service.py is the same semaphore without a deadline. *)
From S2P Require Import Prelude.

(** ** The semaphore *)

(** The future a task waits on *)
Inductive future := Pending | HasResult | IsCancelled.
#[export] Instance future_eq_dec : EqDecision future.
Proof. solve_decision. Defined.

Abbreviation task := nat.

(** A waiter; [w_must_cancel] when its task was cancelled after the future
    had its result. *)
Record waiter := Waiter { w_task : task; w_future : future; w_must_cancel : bool }.

Record semaphore := Semaphore { _value : nat; _waiters : list waiter }.

Definition is_future (f : future) (w : waiter) : bool := bool_decide (w_future w = f).
Definition done (w : waiter) : bool := negb (is_future Pending w).

(** [locked]: no slot, or somebody else is to run first *)
Definition locked (s : semaphore) : bool :=
  (_value s =? 0)%nat || existsb (λ w, negb (is_future IsCancelled w)) (_waiters s).

(** [_wake_up_next]: the result for the first future that is not done *)
Fixpoint wake_first (ws : list waiter) : option (list waiter) :=
  match ws with
  | [] => None
  | w :: ws' =>
      if done w then cons w <$> wake_first ws'
      else Some (Waiter (w_task w) HasResult (w_must_cancel w) :: ws')
  end.

Definition _wake_up_next (s : semaphore) : semaphore * bool :=
  match wake_first (_waiters s) with
  | Some ws => (Semaphore (_value s - 1) ws, true)
  | None => (s, false)
  end.

(** [while self._value > 0: if not self._wake_up_next(): break] *)
Fixpoint wake_up (value : nat) (ws : list waiter) : semaphore :=
  match value with
  | 0 => Semaphore 0 ws
  | S value' =>
      match wake_first ws with
      | Some ws' => wake_up value' ws'
      | None => Semaphore value ws
      end
  end.

(** [release] *)
Definition sem_release (s : semaphore) : semaphore :=
  (_wake_up_next (Semaphore (S (_value s)) (_waiters s))).1.

(** ** The gate *)
Definition MAX_CONCURRENT_JOBS : nat := 2.

Record gate := Gate {
  _semaphore : semaphore;
  inside : list task;          (* past [yield], before [finally] *)
  refused : list task          (* got [OrchestrationQueueTimeoutError] *)
}.

Definition new_gate (max_concurrent : nat) : gate := Gate (Semaphore max_concurrent []) [] [].

(** [slot()] up to its first suspension: a free slot is taken at once. *)
Definition slot_enter (t : task) (g : gate) : gate :=
  let s := _semaphore g in
  if locked s
  then Gate (Semaphore (_value s) (_waiters s ++ [Waiter t Pending false])) (inside g) (refused g)
  else Gate (Semaphore (_value s - 1) (_waiters s)) (t :: inside g) (refused g).

(** The deadline of [wait_for]: [task.cancel()] *)
Definition cancel (w : waiter) : waiter :=
  match w_future w with
  | Pending => Waiter (w_task w) IsCancelled (w_must_cancel w)
  | HasResult => Waiter (w_task w) HasResult true
  | IsCancelled => w
  end.

Definition of_task (t : task) (w : waiter) : bool := bool_decide (w_task w = t).

Definition cancelled_at (t : task) (ws : list waiter) : list waiter :=
  map (λ w, if of_task t w then cancel w else w) ws.

Definition deadline (t : task) (g : gate) : gate :=
  let s := _semaphore g in
  Gate (Semaphore (_value s) (cancelled_at t (_waiters s))) (inside g) (refused g).

(** [self._waiters.remove(fut)] *)
Definition without (t : task) (ws : list waiter) : list waiter := filter (λ w, w_task w ≠ t) ws.

(** The task of a future that is done runs on: out of the queue, with its slot
    or, cancelled, with the exception, giving back a slot it had been given. *)
Definition slot_resume (w : waiter) (g : gate) : gate :=
  let s := _semaphore g in
  let ws := without (w_task w) (_waiters s) in
  match w_future w, w_must_cancel w with
  | HasResult, false => Gate (wake_up (_value s) ws) (w_task w :: inside g) (refused g)
  | HasResult, true => Gate (wake_up (S (_value s)) ws) (inside g) (w_task w :: refused g)
  | _, _ => Gate (wake_up (_value s) ws) (inside g) (w_task w :: refused g)
  end.

(** The [finally] of [slot] *)
Definition slot_leave (t : task) (g : gate) : gate :=
  Gate (sem_release (_semaphore g)) (filter (λ t', t' ≠ t) (inside g)) (refused g).

(** ** What the event loop may run next *)
Definition waiters (g : gate) : list waiter := _waiters (_semaphore g).
Definition value (g : gate) : nat := _value (_semaphore g).
Definition present (t : task) (g : gate) : Prop := t ∈ map w_task (waiters g) ∨ t ∈ inside g.
Definition can_expire (w : waiter) : bool := negb (is_future IsCancelled w) && negb (w_must_cancel w).

(** The steps of tasks that are at the gate already *)
Inductive gate_work : relation gate :=
  | work_deadline g w : w ∈ waiters g → can_expire w = true → gate_work g (deadline (w_task w) g)
  | work_resume g w : w ∈ waiters g → done w = true → gate_work g (slot_resume w g)
  | work_leave g t : t ∈ inside g → gate_work g (slot_leave t g).

Inductive gate_step : relation gate :=
  | step_enter g t : ¬ present t g → gate_step g (slot_enter t g)
  | step_work g g' : gate_work g g' → gate_step g g'.

(** ** The invariant *)
Definition granted (ws : list waiter) : nat := length (filter (λ w, w_future w = HasResult) ws).
Definition has_pending (ws : list waiter) : Prop := ∃ w, w ∈ ws ∧ w_future w = Pending.
Definition has_granted (ws : list waiter) : Prop := ∃ w, w ∈ ws ∧ w_future w = HasResult.

(** First come, first served: nobody with a slot is behind somebody without. *)
Fixpoint in_turn (ws : list waiter) : Prop :=
  match ws with
  | [] => True
  | w :: ws' => (w_future w = Pending → ¬ has_granted ws') ∧ in_turn ws'
  end.

Record gate_ok (max : nat) (g : gate) : Prop := {
  slots_add_up : value g + length (inside g) + granted (waiters g) = max;
  nobody_forgotten : 0 < value g → has_pending (waiters g) → has_granted (waiters g);
  queue_in_turn : in_turn (waiters g);
  tasks_distinct : NoDup (map w_task (waiters g) ++ inside g)
}.

(** ** Waking *)

(** [n] more waiters of the queue have their slot; nothing else changed. *)
Record woken (n : nat) (ws ws' : list waiter) : Prop := {
  woken_tasks : map w_task ws' = map w_task ws;
  woken_expire : map can_expire ws' = map can_expire ws;
  woken_granted : granted ws' = n + granted ws;
  woken_in_turn : in_turn ws → in_turn ws'
}.

Lemma woken_refl ws : woken 0 ws ws.
Proof. by split. Qed.

Lemma woken_trans n k ws1 ws2 ws3 : woken n ws1 ws2 → woken k ws2 ws3 → woken (k + n) ws1 ws3.
Proof.
  intros [t1 e1 g1 i1] [t2 e2 g2 i2].
  split; [congruence|congruence|rewrite g2, g1; lia|by auto].
Qed.

Lemma has_pending_cons w ws :
  has_pending (w :: ws) ↔ w_future w = Pending ∨ has_pending ws.
Proof. unfold has_pending. set_solver. Qed.

Lemma has_granted_cons w ws :
  has_granted (w :: ws) ↔ w_future w = HasResult ∨ has_granted ws.
Proof. unfold has_granted. set_solver. Qed.

Lemma granted_cons w ws :
  granted (w :: ws) = (if decide (w_future w = HasResult) then 1 else 0) + granted ws.
Proof. unfold granted. rewrite filter_cons. by case_decide. Qed.

Lemma granted_app ws ws' : granted (ws ++ ws') = granted ws + granted ws'.
Proof. unfold granted. by rewrite filter_app, length_app. Qed.

Lemma has_granted_pos ws : has_granted ws ↔ 0 < granted ws.
Proof.
  induction ws as [|w ws IH].
  - split; [intros (? & []%not_elem_of_nil & _)|unfold granted; simpl; lia].
  - rewrite has_granted_cons, granted_cons, IH. case_decide; intuition lia.
Qed.

Lemma wake_first_none ws : wake_first ws = None → ¬ has_pending ws.
Proof.
  induction ws as [|w ws IH]; simpl; [intros _ (? & []%not_elem_of_nil & _)|].
  unfold done, is_future. rewrite has_pending_cons.
  case_bool_decide; simpl; [done|]. destruct (wake_first ws); naive_solver.
Qed.

Lemma wake_first_some ws ws' :
  wake_first ws = Some ws' → woken 1 ws ws' ∧ has_pending ws.
Proof.
  revert ws'. induction ws as [|w ws IH]; intros ws'; simpl; [done|].
  rewrite has_pending_cons. unfold done, is_future. case_bool_decide as Hp; simpl.
  - intros [= <-]. split; [|by left]. split; simpl; rewrite ?granted_cons.
    + done.
    + unfold can_expire, is_future. simpl. by rewrite Hp.
    + simpl. rewrite Hp. done.
    + intros [Hn Hi]. split; [done|done].
  - destruct (wake_first ws) as [ws1|] eqn:E; [|done]. intros [= <-].
    destruct (IH ws1 eq_refl) as [[ht he hg hi] Hpend]. split; [|by right].
    split; simpl; rewrite ?granted_cons; [congruence|congruence|rewrite hg; lia|].
    intros [Hn Hi]. split; [done|auto].
Qed.

(** The loop hands out slots until none is left or nobody waits. *)
Lemma wake_up_ok v ws :
  ∃ n, v = n + _value (wake_up v ws) ∧ woken n ws (_waiters (wake_up v ws)) ∧
       (0 < _value (wake_up v ws) → ¬ has_pending (_waiters (wake_up v ws))).
Proof.
  revert ws. induction v as [|v IH]; intros ws; simpl.
  - exists 0. split_and!; [done|apply woken_refl|lia].
  - destruct (wake_first ws) as [ws'|] eqn:E; simpl.
    + destruct (wake_first_some _ _ E) as [Hw _].
      destruct (IH ws') as (n & Hv & Hn & Hp). exists (n + 1).
      split_and!; [lia|by eapply woken_trans|done].
    + exists 0. split_and!; [done|apply woken_refl|intros _; by apply wake_first_none].
Qed.

Lemma sem_release_ok s :
  ∃ n, S (_value s) = n + _value (sem_release s) ∧
       woken n (_waiters s) (_waiters (sem_release s)) ∧
       (has_pending (_waiters (sem_release s)) → has_granted (_waiters (sem_release s))).
Proof.
  unfold sem_release, _wake_up_next. simpl.
  destruct (wake_first _) as [ws'|] eqn:E; simpl.
  - destruct (wake_first_some _ _ E) as [Hw _]. exists 1.
    split_and!; [lia|done|]. intros _. apply has_granted_pos. rewrite (woken_granted _ _ _ Hw). lia.
  - exists 0. split_and!; [done|apply woken_refl|].
    intros Hp. by apply wake_first_none in E.
Qed.

(** ** Queues that lose a waiter *)
Lemma without_tasks t ws : map w_task (without t ws) = filter (λ t', t' ≠ t) (map w_task ws).
Proof.
  unfold without. induction ws as [|w ws IH]; [done|]. simpl. rewrite !filter_cons.
  case_decide; simpl; by rewrite IH.
Qed.

Lemma without_absent t ws : t ∉ map w_task ws → without t ws = ws.
Proof.
  unfold without. induction ws as [|w ws IH]; [done|]. simpl. intros Ht.
  rewrite filter_cons_True, IH; set_solver.
Qed.

Lemma has_granted_without t ws : has_granted (without t ws) → has_granted ws.
Proof. intros (w & Hw & ?). exists w. unfold without in Hw. apply list_elem_of_filter in Hw. naive_solver. Qed.

Lemma in_turn_without t ws : in_turn ws → in_turn (without t ws).
Proof.
  induction ws as [|w ws IH]; [done|]. unfold without. intros [Hn Hi]. rewrite filter_cons.
  case_decide; [|by apply IH]. split; [|by apply IH].
  intros Hp Hg. by apply (Hn Hp), (has_granted_without t).
Qed.

Lemma map_elem_split w ws :
  w ∈ ws → NoDup (map w_task ws) →
  ∃ ws1 ws2, ws = ws1 ++ w :: ws2 ∧ without (w_task w) ws = ws1 ++ ws2.
Proof.
  intros (ws1 & ws2 & ->)%list_elem_of_split Hn. exists ws1, ws2. split; [done|].
  rewrite map_app in Hn. simpl in Hn.
  apply NoDup_app in Hn as (_ & H1 & [H2 _]%NoDup_cons).
  unfold without. rewrite filter_app, filter_cons_False by naive_solver.
  pose proof (without_absent (w_task w) ws2 H2) as E2.
  pose proof (without_absent (w_task w) ws1) as E1. unfold without in E1, E2.
  rewrite E1, E2; [done|]. intros Hin. by apply (H1 _ Hin), list_elem_of_here.
Qed.

Lemma granted_without w ws :
  w ∈ ws → NoDup (map w_task ws) →
  granted ws = (if decide (w_future w = HasResult) then 1 else 0) + granted (without (w_task w) ws).
Proof.
  intros Hw Hn. destruct (map_elem_split w ws Hw Hn) as (ws1 & ws2 & -> & ->).
  rewrite !granted_app, granted_cons. lia.
Qed.

(** ** The deadline *)
Lemma cancel_task w : w_task (cancel w) = w_task w.
Proof. unfold cancel. by destruct w as [? [] ?]. Qed.

Lemma cancel_result w : w_future (cancel w) = HasResult ↔ w_future w = HasResult.
Proof. unfold cancel. by destruct w as [? [] ?]. Qed.

Lemma cancel_pending w : w_future (cancel w) ≠ Pending.
Proof. unfold cancel. by destruct w as [? [] ?]. Qed.

Section deadline_queue.
Context (t : task).
Let c w := if of_task t w then cancel w else w.

Lemma cancelled_tasks ws : map w_task (cancelled_at t ws) = map w_task ws.
Proof.
  unfold cancelled_at. induction ws as [|w ws IH]; [done|]. simpl. rewrite IH.
  destruct (of_task t w); by rewrite ?cancel_task.
Qed.

Lemma cancelled_one_result w : w_future (c w) = HasResult ↔ w_future w = HasResult.
Proof. unfold c. destruct (of_task t w); [apply cancel_result|done]. Qed.

Lemma cancelled_one_pending w : w_future (c w) = Pending → w_future w = Pending.
Proof. unfold c. destruct (of_task t w); [|done]. intros H. by apply cancel_pending in H. Qed.

Lemma cancelled_granted ws : granted (cancelled_at t ws) = granted ws.
Proof.
  unfold cancelled_at. induction ws as [|w ws IH]; [done|]. simpl. rewrite !granted_cons, IH.
  pose proof (cancelled_one_result w). fold (c w). repeat case_decide; naive_solver.
Qed.

Lemma cancelled_has_granted ws : has_granted (cancelled_at t ws) ↔ has_granted ws.
Proof. by rewrite !has_granted_pos, cancelled_granted. Qed.

Lemma cancelled_has_pending ws : has_pending (cancelled_at t ws) → has_pending ws.
Proof.
  unfold cancelled_at. induction ws as [|w ws IH]; [done|]. simpl. rewrite !has_pending_cons.
  intros [H|H]; [left; by apply cancelled_one_pending|auto].
Qed.

Lemma cancelled_in_turn ws : in_turn ws → in_turn (cancelled_at t ws).
Proof.
  induction ws as [|w ws IH]; [done|]. intros [Hn Hi]. simpl. split; [|by apply IH].
  intros Hp. fold (cancelled_at t ws). rewrite cancelled_has_granted.
  by apply Hn, cancelled_one_pending.
Qed.
End deadline_queue.

(** ** The invariant holds in every state the gate can reach *)
Section preservation.
Context (max : nat).
Implicit Types (g : gate).

Lemma new_gate_ok : gate_ok max (new_gate max).
Proof.
  split; unfold value, waiters; simpl.
  - unfold granted; simpl; lia.
  - intros _ (? & []%not_elem_of_nil & _).
  - done.
  - constructor.
Qed.

(** After a loop over the queue *)
Lemma gate_ok_wake_up v ws ins ref :
  v + length ins + granted ws = max → in_turn ws → NoDup (map w_task ws ++ ins) →
  gate_ok max (Gate (wake_up v ws) ins ref).
Proof.
  intros Hv Hi Hn. destruct (wake_up_ok v ws) as (n & Hn' & [ht he hg hi] & Hp).
  split; unfold value, waiters; simpl; [rewrite hg; lia|by intros ? ?%Hp|by apply hi|by rewrite ht].
Qed.

Lemma tail_in_turn ws t : in_turn ws → in_turn (ws ++ [Waiter t Pending false]).
Proof.
  induction ws as [|w ws IH]; simpl.
  - intros _. split; [|done]. intros _ (? & []%not_elem_of_nil & _).
  - intros [Hn Hi]. split; [|by apply IH]. intros Hp (w' & Hw & Hr).
    apply elem_of_app in Hw as [Hw|Hw]; [|by apply list_elem_of_singleton in Hw as ->].
    apply (Hn Hp). by exists w'.
Qed.

Lemma distinct_enter t g :
  ¬ present t g → NoDup (map w_task (waiters g) ++ inside g) →
  NoDup (map w_task (waiters g) ++ t :: inside g).
Proof.
  intros Hp Hn. rewrite <- Permutation_middle. constructor; [|done].
  rewrite elem_of_app. done.
Qed.

Lemma unlocked_nobody s : locked s = false → 0 < _value s ∧ ¬ has_pending (_waiters s).
Proof.
  unfold locked. intros [Hv He]%orb_false_iff. apply Nat.eqb_neq in Hv. split; [lia|].
  intros (w & Hw & Hp). apply not_true_iff_false in He. apply He, existsb_exists. exists w.
  split; [by apply list_elem_of_In|]. unfold is_future. by rewrite Hp.
Qed.

Lemma locked_somebody s :
  locked s = true → 0 < _value s → has_pending (_waiters s) ∨ has_granted (_waiters s).
Proof.
  unfold locked. intros [Hv|He]%orb_true_iff Hpos; [apply Nat.eqb_eq in Hv; lia|].
  apply existsb_exists in He as (w & Hw%list_elem_of_In & Hc). unfold is_future in Hc.
  destruct (w_future w) eqn:Ew; [left; by exists w|right; by exists w|done].
Qed.

Lemma enter_ok g t : ¬ present t g → gate_ok max g → gate_ok max (slot_enter t g).
Proof.
  intros Hnew [Hs Hf Hi Hn]. pose proof (distinct_enter t g Hnew Hn) as Hn'. unfold slot_enter.
  destruct (locked (_semaphore g)) eqn:El; split; unfold value, waiters in *; simpl.
  - rewrite granted_app. unfold granted at 2. simpl. lia.
  - intros Hv _. destruct (locked_somebody _ El Hv) as [Hp|Hg]; [apply (Hf Hv) in Hp as Hg|];
      destruct Hg as (w & Hw & Hr); exists w; (split; [rewrite elem_of_app; by left|done]).
  - by apply tail_in_turn.
  - rewrite map_app, <- app_assoc. exact Hn'.
  - destruct (unlocked_nobody _ El). lia.
  - intros _ Hp. by apply unlocked_nobody in El as [_ []].
  - done.
  - exact Hn'.
Qed.

Lemma deadline_ok g t : gate_ok max g → gate_ok max (deadline t g).
Proof.
  intros [Hs Hf Hi Hn]. split; unfold value, waiters in *; simpl.
  - by rewrite cancelled_granted.
  - intros Hv Hp. apply cancelled_has_granted, Hf; [done|by eapply cancelled_has_pending].
  - by apply cancelled_in_turn.
  - by rewrite cancelled_tasks.
Qed.

Lemma distinct_without w ws ins :
  w ∈ ws → NoDup (map w_task ws ++ ins) →
  NoDup (map w_task (without (w_task w) ws) ++ w_task w :: ins) ∧
  NoDup (map w_task (without (w_task w) ws) ++ ins).
Proof.
  intros Hw Hn. pose proof Hn as (Hn1 & _ & _)%NoDup_app.
  destruct (map_elem_split w ws Hw Hn1) as (ws1 & ws2 & -> & ->).
  rewrite map_app, <- app_assoc in Hn. simpl in Hn.
  rewrite <- Permutation_middle in Hn |- *. rewrite !map_app, <- !app_assoc.
  split; [done|by apply NoDup_cons in Hn as [_ ?]].
Qed.

Lemma resume_ok g w :
  w ∈ waiters g → done w = true → gate_ok max g → gate_ok max (slot_resume w g).
Proof.
  intros Hw Hd [Hs Hf Hi Hn]. unfold slot_resume.
  pose proof Hn as (Hn1 & _ & _)%NoDup_app.
  pose proof (granted_without w _ Hw Hn1) as Hg.
  destruct (distinct_without w _ _ Hw Hn) as [Hd1 Hd2].
  pose proof (in_turn_without (w_task w) _ Hi).
  unfold value, waiters in *.
  destruct (w_future w) eqn:Ew; [by unfold done, is_future in Hd; rewrite Ew in Hd|..];
    rewrite ?decide_True, ?decide_False in Hg by done;
    [destruct (w_must_cancel w)|]; apply gate_ok_wake_up; simpl; try done; lia.
Qed.

Lemma filter_out_length (t : task) l :
  t ∈ l → NoDup l → length l = S (length (filter (λ t', t' ≠ t) l)).
Proof.
  induction l as [|t' l IH]; [by intros ?%not_elem_of_nil|].
  intros Hin [Hni Hnd]%NoDup_cons. rewrite filter_cons. case_decide as Ht; simpl.
  - rewrite IH; [done|set_solver|done].
  - subst t'. clear IH Hin. f_equal. symmetry. induction l as [|t' l IH]; [done|].
    apply not_elem_of_cons in Hni as [? ?]. apply NoDup_cons in Hnd as [_ ?].
    rewrite filter_cons_True by done. simpl. f_equal. auto.
Qed.

Lemma leave_ok g t : t ∈ inside g → gate_ok max g → gate_ok max (slot_leave t g).
Proof.
  intros Ht [Hs Hf Hi Hn]. destruct (sem_release_ok (_semaphore g)) as (n & Hv & [wt we wg wi] & Hp).
  pose proof Hn as (Hn1 & Hn2 & Hn3)%NoDup_app.
  pose proof (filter_out_length t _ Ht Hn3). unfold value, waiters in *.
  split; unfold value, waiters; simpl; [rewrite wg; lia|done|by apply wi|].
  rewrite wt, NoDup_app. split_and!; [done| |by apply NoDup_filter].
  intros t' Ht' [_ ?]%list_elem_of_filter. by apply (Hn2 t').
Qed.

Lemma gate_work_ok g g' : gate_work g g' → gate_ok max g → gate_ok max g'.
Proof. intros []; [apply deadline_ok|by apply resume_ok|by apply leave_ok]. Qed.

Lemma reachable_ok g : rtc gate_step (new_gate max) g → gate_ok max g.
Proof.
  intros Hr. remember (new_gate max) as g0 eqn:E. assert (gate_ok max g0) as H0
    by (subst; apply new_gate_ok). clear E. induction Hr as [|g1 g2 g3 Hs _ IH]; [done|].
  apply IH. destruct Hs; [by apply enter_ok|by eapply gate_work_ok].
Qed.
End preservation.

(** ** Every wait ends *)
Definition expirable (ws : list waiter) : nat := length (filter (λ b, b = true) (map can_expire ws)).

(** The steps that are left: a waiter may expire, runs on and leaves. *)
Definition work_left (g : gate) : nat :=
  2 * length (waiters g) + length (inside g) + expirable (waiters g).

Lemma woken_length n ws ws' : woken n ws ws' → length ws' = length ws.
Proof. intros Hw. by rewrite <- !(length_map w_task), (woken_tasks _ _ _ Hw). Qed.

Lemma woken_expirable n ws ws' : woken n ws ws' → expirable ws' = expirable ws.
Proof. intros Hw. unfold expirable. by rewrite (woken_expire _ _ _ Hw). Qed.

Lemma expirable_app ws ws' : expirable (ws ++ ws') = expirable ws + expirable ws'.
Proof. unfold expirable. by rewrite map_app, filter_app, length_app. Qed.

Lemma expirable_cons w ws :
  expirable (w :: ws) = (if can_expire w then 1 else 0) + expirable ws.
Proof. unfold expirable. simpl. rewrite filter_cons. by destruct (can_expire w). Qed.

Lemma cancelled_absent t ws : t ∉ map w_task ws → cancelled_at t ws = ws.
Proof.
  unfold cancelled_at. induction ws as [|w ws IH]; [done|]. simpl.
  intros [? ?]%not_elem_of_cons. unfold of_task at 1. rewrite bool_decide_false by done.
  by rewrite IH.
Qed.

Lemma cancel_expires w : can_expire w = true → can_expire (cancel w) = false.
Proof. by destruct w as [? [] []]. Qed.

Lemma deadline_expirable w ws :
  w ∈ ws → NoDup (map w_task ws) → can_expire w = true →
  expirable ws = S (expirable (cancelled_at (w_task w) ws)).
Proof.
  intros Hw Hn Hc. destruct (map_elem_split w ws Hw Hn) as (ws1 & ws2 & -> & _).
  rewrite map_app in Hn. simpl in Hn. apply NoDup_app in Hn as (_ & H1 & [H2 _]%NoDup_cons).
  unfold cancelled_at. rewrite map_app. simpl. fold (cancelled_at (w_task w) ws1).
  fold (cancelled_at (w_task w) ws2).
  rewrite (cancelled_absent _ ws2) by done.
  rewrite (cancelled_absent _ ws1) by (intros Hin; by apply (H1 _ Hin), list_elem_of_here).
  unfold of_task. rewrite bool_decide_true by done.
  rewrite !expirable_app, !expirable_cons, Hc, cancel_expires by done. lia.
Qed.

Lemma without_smaller w ws :
  w ∈ ws → NoDup (map w_task ws) →
  length ws = S (length (without (w_task w) ws)) ∧
  expirable (without (w_task w) ws) ≤ expirable ws.
Proof.
  intros Hw Hn. destruct (map_elem_split w ws Hw Hn) as (ws1 & ws2 & -> & ->).
  rewrite !length_app, !expirable_app, expirable_cons. simpl. lia.
Qed.

Lemma work_left_wake_up v ws ins ref :
  work_left (Gate (wake_up v ws) ins ref) = 2 * length ws + length ins + expirable ws.
Proof.
  unfold work_left, waiters. cbn [_semaphore inside].
  destruct (wake_up_ok v ws) as (n & _ & Hw & _).
  by rewrite (woken_length _ _ _ Hw), (woken_expirable _ _ _ Hw).
Qed.

Lemma work_decreases max g g' : gate_ok max g → gate_work g g' → work_left g' < work_left g.
Proof.
  intros Hok Hs. pose proof (tasks_distinct _ _ Hok) as (Hn & _ & Hins)%NoDup_app.
  destruct Hs as [g w Hw Hc|g w Hw Hd|g t Ht].
  - pose proof (deadline_expirable w _ Hw Hn Hc) as He.
    assert (length (cancelled_at (w_task w) (waiters g)) = length (waiters g)) as Hl
      by apply length_map.
    unfold work_left, waiters in *. simpl. lia.
  - destruct (without_smaller w _ Hw Hn) as [Hl He]. unfold waiters in *. unfold slot_resume.
    destruct (w_future w), (w_must_cancel w); rewrite work_left_wake_up; unfold work_left, waiters;
      cbn [length]; lia.
  - destruct (sem_release_ok (_semaphore g)) as (n & _ & Hwo & _).
    unfold work_left, waiters. simpl.
    rewrite (woken_length _ _ _ Hwo), (woken_expirable _ _ _ Hwo).
    pose proof (filter_out_length t (inside g) Ht Hins). lia.
Qed.

(** Somebody can run, or nobody is left. *)
Lemma busy_or_empty max g :
  0 < max → gate_ok max g →
  (∃ g', gate_work g g') ∨ (waiters g = [] ∧ inside g = [] ∧ value g = max).
Proof.
  intros Hmax [Hs Hf _ _]. destruct (inside g) as [|t ins] eqn:Ei.
  2: { left. eexists. apply (work_leave g t). rewrite Ei. by left. }
  destruct (existsb done (waiters g)) eqn:Ed.
  { left. apply existsb_exists in Ed as (w & Hw%list_elem_of_In & Hd).
    eexists. by apply (work_resume g w). }
  right. assert (∀ w, w ∈ waiters g → w_future w = Pending) as Hp.
  { intros w Hw. apply dec_stable. intros Hn. apply not_true_iff_false in Ed.
    apply Ed, existsb_exists. exists w. split; [by apply list_elem_of_In|].
    unfold done, is_future. by rewrite bool_decide_false. }
  assert (¬ has_granted (waiters g)) as Hng
    by (intros (w & Hw & Hr); rewrite Hp in Hr; done).
  assert (granted (waiters g) = 0) as Hg0 by (rewrite has_granted_pos in Hng; lia).
  simpl in Hs. destruct (waiters g) as [|w ws] eqn:Ew; [split_and!; [done|done|lia]|].
  exfalso. apply Hng, Hf; [lia|]. exists w. split; [by left|apply Hp; by left].
Qed.

Lemma work_bounded max n g g' : gate_ok max g → nsteps gate_work n g g' → n ≤ work_left g ∧ gate_ok max g'.
Proof.
  intros Hok Hn. induction Hn as [g|n g1 g2 g3 Hs _ IH]; [split; [lia|done]|].
  pose proof (work_decreases max _ _ Hok Hs). pose proof (gate_work_ok max _ _ Hs Hok) as Hok2.
  destruct (IH Hok2). split; [lia|done].
Qed.

(** C13: The gate never lets more than [max] jobs run at once.  In every state
    the gate can reach, with tasks that arrive, wait, run into their deadline
    before or after their future was set, go on and leave in any order, the
    free slots, the jobs inside and the slots handed to waiters add up to
    [max]; no slot is lost or made up; a slot is never free while somebody
    waits and nobody has been woken; and the slots are handed out in the order
    of arrival. *)
Theorem gate_bounded max g :
  rtc gate_step (new_gate max) g →
  length (inside g) ≤ max ∧
  value g + length (inside g) + granted (waiters g) = max ∧
  (0 < value g → has_pending (waiters g) → has_granted (waiters g)) ∧
  in_turn (waiters g).
Proof. intros [Hs Hf Hi _]%reachable_ok. split_and!; [lia|done..]. Qed.

(** C27: Every wait at the gate ends.  From any reachable state, as long as no
    new task arrives, the tasks at the gate can make only finitely many steps
    (at most [work_left]), and where they can make no step nobody waits,
    nobody is inside and all slots are free: no waiter is forgotten and the
    gate does not lock up. *)
Theorem gate_drains max n g g' :
  0 < max → rtc gate_step (new_gate max) g → nsteps gate_work n g g' →
  n ≤ work_left g ∧
  ((∃ g'', gate_work g' g'') ∨ (waiters g' = [] ∧ inside g' = [] ∧ value g' = max)).
Proof.
  intros Hm Hok%reachable_ok Hn. destruct (work_bounded max n g g' Hok Hn) as [Hb Hok'].
  split; [done|by apply busy_or_empty].
Qed.

(** ** Three jobs, two slots *)
Module Demo.
(** Jobs 1 and 2 run, 3 waits; then 1 leaves and its slot goes to 3. *)
Definition full : gate := slot_enter 3 (slot_enter 2 (slot_enter 1 (new_gate MAX_CONCURRENT_JOBS))).
Definition handed_over : gate := slot_leave 1 full.

Example full_waits : waiters full = [Waiter 3 Pending false] ∧ inside full = [2; 1].
Proof. split; reflexivity. Qed.

Example slot_handed_over : waiters handed_over = [Waiter 3 HasResult false] ∧ value handed_over = 0.
Proof. split; reflexivity. Qed.

(** The deadline strikes between the hand-over and the moment the task runs:
    job 3 is refused, and the slot is free again. *)
Example late_deadline :
  slot_resume (Waiter 3 HasResult true) (deadline 3 handed_over)
  = Gate (Semaphore 1 []) [2] [3].
Proof. reflexivity. Qed.

Lemma full_reachable : rtc gate_step (new_gate MAX_CONCURRENT_JOBS) full.
Proof.
  assert (∀ t g, bool_decide (t ∉ map w_task (waiters g) ++ inside g) = true →
                 gate_step g (slot_enter t g)) as Henter.
  { intros t g Ht%bool_decide_eq_true. apply step_enter. unfold present.
    by rewrite <- elem_of_app. }
  eapply rtc_l; [apply (Henter 1); reflexivity|].
  eapply rtc_l; [apply (Henter 2); reflexivity|].
  eapply rtc_l; [apply (Henter 3); reflexivity|]. apply rtc_refl.
Qed.
End Demo.

Lemma gate_bounded_witness : length (inside Demo.full) ≤ MAX_CONCURRENT_JOBS.
Proof. exact (proj1 (gate_bounded MAX_CONCURRENT_JOBS Demo.full Demo.full_reachable)). Defined.

Lemma gate_drains_witness :
  (∃ g, gate_work Demo.handed_over g) ∨
  (waiters Demo.handed_over = [] ∧ inside Demo.handed_over = [] ∧ value Demo.handed_over = 2).
Proof.
  refine (proj2 (gate_drains MAX_CONCURRENT_JOBS 1 Demo.full Demo.handed_over _
                   Demo.full_reachable _)).
  - unfold MAX_CONCURRENT_JOBS. lia.
  - apply nsteps_once, work_leave. change (inside Demo.full) with [2; 1]. by right; left.
Defined.
