(* ===== verification/ToolGate.v ===== *)
(** * The runner's semaphore inside the orchestrator's gate

    [run_tool] takes [_CLI_SEMAPHORE] (runner/service.py) while its job holds
    a slot of [OrchestrationConcurrencyGate] (orchestrator/concurrency.py);
    a job runs one tool at a time and is done with it before it leaves the
    gate.  Both have two slots, so the inner one never makes a job wait: the
    runner's model has no waiting in [run_tool], and this file justifies it. *)
From S2P Require Import Prelude Gate.

(** [asyncio.Semaphore(2)]; [inside] are the jobs whose tool runs. *)
Definition CLI_SLOTS : nat := 2.
Definition _CLI_SEMAPHORE : gate := new_gate CLI_SLOTS.

(** The jobs at the gate, and those of them at the runner's semaphore *)
Record platform := Platform { jobs_gate : gate; cli : gate }.

Definition new_platform : platform := Platform (new_gate MAX_CONCURRENT_JOBS) _CLI_SEMAPHORE.

(** [async with _CLI_SEMAPHORE]: up to its first suspension, and its end *)
Definition tool_enter (t : task) (p : platform) : platform :=
  Platform (jobs_gate p) (slot_enter t (cli p)).
Definition tool_leave (t : task) (p : platform) : platform :=
  Platform (jobs_gate p) (slot_leave t (cli p)).

Inductive platform_step : relation platform :=
  | job_arrives p t : ¬ present t (jobs_gate p) →
      platform_step p (Platform (slot_enter t (jobs_gate p)) (cli p))
  | job_expires p w : w ∈ waiters (jobs_gate p) → can_expire w = true →
      platform_step p (Platform (deadline (w_task w) (jobs_gate p)) (cli p))
  | job_resumes p w : w ∈ waiters (jobs_gate p) → done w = true →
      platform_step p (Platform (slot_resume w (jobs_gate p)) (cli p))
  | job_leaves p t : t ∈ inside (jobs_gate p) → ¬ present t (cli p) →
      platform_step p (Platform (slot_leave t (jobs_gate p)) (cli p))
  | tool_starts p t : t ∈ inside (jobs_gate p) → ¬ present t (cli p) →
      platform_step p (tool_enter t p)
  | tool_resumes p w : w ∈ waiters (cli p) → done w = true →
      platform_step p (Platform (jobs_gate p) (slot_resume w (cli p)))
  | tool_ends p t : t ∈ inside (cli p) → platform_step p (tool_leave t p).

Record platform_ok (p : platform) : Prop := {
  outer_ok : gate_ok MAX_CONCURRENT_JOBS (jobs_gate p);
  inner_ok : gate_ok CLI_SLOTS (cli p);
  nobody_waits : waiters (cli p) = [];
  nested : inside (cli p) ⊆ inside (jobs_gate p)
}.

Lemma jobs_inside_bound g : gate_ok MAX_CONCURRENT_JOBS g → length (inside g) ≤ MAX_CONCURRENT_JOBS.
Proof. intros [Hs _ _ _]. lia. Qed.

(** A job of the gate that runs no tool finds a free slot. *)
Lemma tool_slot_free p t :
  platform_ok p → t ∈ inside (jobs_gate p) → t ∉ inside (cli p) → 0 < value (cli p).
Proof.
  intros [Ho Hi Hw Hn] Ht Hc.
  pose proof (slots_add_up _ _ Hi) as Hs. rewrite Hw in Hs. unfold granted in Hs. simpl in Hs.
  pose proof (jobs_inside_bound _ Ho) as Hb.
  assert (length (t :: inside (cli p)) ≤ length (inside (jobs_gate p))) as Hlen.
  { apply submseteq_length, NoDup_submseteq.
    - apply NoDup_cons. split; [done|].
      pose proof (tasks_distinct _ _ Hi) as (_ & _ & ?)%NoDup_app. done.
    - intros x [->|Hx]%elem_of_cons; [done|by apply Hn]. }
  simpl in Hlen. unfold CLI_SLOTS, MAX_CONCURRENT_JOBS in *. lia.
Qed.

Lemma tool_enter_free p t :
  platform_ok p → t ∈ inside (jobs_gate p) → t ∉ inside (cli p) →
  slot_enter t (cli p) =
    Gate (Semaphore (value (cli p) - 1) []) (t :: inside (cli p)) (refused (cli p)).
Proof.
  intros Hok Ht Hc. pose proof (tool_slot_free p t Hok Ht Hc) as Hv.
  pose proof (nobody_waits _ Hok) as Hw. unfold value, waiters in *. unfold slot_enter, locked.
  rewrite Hw. simpl. rewrite (proj2 (Nat.eqb_neq _ _)) by lia. done.
Qed.

Lemma inside_resume w g : inside g ⊆ inside (slot_resume w g).
Proof. unfold slot_resume. destruct (w_future w), (w_must_cancel w); simpl; set_solver. Qed.

Lemma release_no_waiters s : _waiters s = [] → _waiters (sem_release s) = [].
Proof. intros Hw. unfold sem_release, _wake_up_next. simpl. by rewrite Hw. Qed.

Lemma platform_step_ok p p' : platform_step p p' → platform_ok p → platform_ok p'.
Proof.
  intros Hstep Hok. pose proof Hok as [Ho Hi Hw Hn].
  destruct Hstep as [p t Ht|p w Hin Hc|p w Hin Hd|p t Ht Hp|p t Ht Hp|p w Hin Hd|p t Ht].
  - split; simpl; [by apply enter_ok|done..|]. unfold slot_enter. case_match; set_solver.
  - split; simpl; [by apply deadline_ok|done..].
  - split; simpl; [by apply resume_ok|done..|]. etrans; [done|]. apply inside_resume.
  - split; simpl; [by apply leave_ok|done..|].
    intros x Hx. apply list_elem_of_filter. split; [|by apply Hn].
    intros ->. apply Hp. by right.
  - assert (t ∉ inside (cli p)) as Hc by (intros ?; apply Hp; by right).
    split; simpl; [done|by apply enter_ok|..]; rewrite tool_enter_free by done; [done|].
    intros x [->|Hx]%elem_of_cons; [done|by apply Hn].
  - rewrite Hw in Hin. by apply not_elem_of_nil in Hin.
  - split; simpl; [done|by apply leave_ok| |].
    + by apply release_no_waiters.
    + intros x [_ ?]%list_elem_of_filter. by apply Hn.
Qed.

Lemma platform_reachable_ok p : rtc platform_step new_platform p → platform_ok p.
Proof.
  assert (platform_ok new_platform) as H0 by (split; [apply new_gate_ok..|done|done]).
  intros Hr. revert H0. induction Hr as [|p1 p2 p3 Hs _ IH]; [done|].
  intros H1. by eapply IH, platform_step_ok.
Qed.

(** C14: The runner's semaphore never makes a job wait.  However jobs arrive at
    the gate, wait, run into their deadlines, start and end tools and leave,
    nobody ever queues at [_CLI_SEMAPHORE]: at most two tools run, each for a
    job inside the gate, the free slots and the running tools add up to two,
    and a job inside the gate that starts a tool gets its slot at once. *)
Theorem tools_never_wait p :
  rtc platform_step new_platform p →
  waiters (cli p) = [] ∧ inside (cli p) ⊆ inside (jobs_gate p) ∧
  value (cli p) + length (inside (cli p)) = CLI_SLOTS ∧
  ∀ t, t ∈ inside (jobs_gate p) → t ∉ inside (cli p) →
    inside (cli (tool_enter t p)) = t :: inside (cli p).
Proof.
  intros Hok%platform_reachable_ok. pose proof Hok as [Ho Hi Hw Hn]. split_and!; [done|done| |].
  - pose proof (slots_add_up _ _ Hi) as Hs. rewrite Hw in Hs. unfold granted in Hs. simpl in Hs. lia.
  - intros t Ht Hc. simpl. by rewrite tool_enter_free.
Qed.

(** Jobs 1 and 2 are inside, 3 waits for them; both run a tool. *)
Module Demo.
Definition busy : platform :=
  tool_enter 2 (tool_enter 1 (Platform Gate.Demo.full _CLI_SEMAPHORE)).

Lemma busy_reachable : rtc platform_step new_platform busy.
Proof.
  assert (∀ t p, bool_decide (t ∉ map w_task (waiters (jobs_gate p)) ++ inside (jobs_gate p)) = true →
    platform_step p (Platform (slot_enter t (jobs_gate p)) (cli p))) as Harrive.
  { intros t p Ht%bool_decide_eq_true. apply job_arrives. unfold present.
    by rewrite <- elem_of_app. }
  assert (∀ t p, bool_decide (t ∈ inside (jobs_gate p)) = true →
    bool_decide (t ∉ map w_task (waiters (cli p)) ++ inside (cli p)) = true →
    platform_step p (tool_enter t p)) as Hstart.
  { intros t p Ht%bool_decide_eq_true Hp%bool_decide_eq_true. apply tool_starts; [done|].
    unfold present. by rewrite <- elem_of_app. }
  eapply rtc_l; [apply (Harrive 1); reflexivity|].
  eapply rtc_l; [apply (Harrive 2); reflexivity|].
  eapply rtc_l; [apply (Harrive 3); reflexivity|].
  eapply rtc_l; [apply (Hstart 1); reflexivity|].
  eapply rtc_l; [apply (Hstart 2); reflexivity|]. apply rtc_refl.
Qed.
End Demo.

Lemma tools_never_wait_witness :
  waiters (cli Demo.busy) = [] ∧ value (cli Demo.busy) + length (inside (cli Demo.busy)) = CLI_SLOTS.
Proof.
  destruct (tools_never_wait Demo.busy Demo.busy_reachable) as (H1 & _ & H2 & _).
  exact (conj H1 H2).
Defined.
