(* ===== verification/Orchestrator.v ===== *)
(** * Running a job (orchestrator/service.py)

    [JobOrchestratorService]: claims a job, copies the context a refinement
    inherits, lets the retry executor find a plan that can be executed, and
    records how it ended.  The model client, the parser, the runner and the
    two halves of the concurrency gate are parameters. *)
From S2P Require Import Prelude PyStr Exceptions FileSystem FsFacts Realpath FsOps Storage StorageFacts Attempts.
From S2P Require Import Schemas Database DatabaseFacts Repository Scad PolicyValidator ArgValidator Retry.
From S2P Require Import World JobService Executor.
Local Open Scope eff_scope.
Import Local.

Definition INHERITED_FILES : list pystr := Eval vm_compute in [py "model.scad"; py "design-spec.md"].
Definition ALLOWED_ACTIONS : list pystr :=
  [CREATE_DIRECTORY; WRITE_FILE; RUN_TOOL; CREATE_ARTIFACT].

Section service.
Context {X : Type} `{UnicodeData} (base_dir : apath) (guess_type : pystr → option pystr).
Context (client : LLMRequest → eff exn (world X) pystr).
Context (parse : pystr → outcome exn (list action)).
Context (run_tool : uuid → pystr → list pystr → eff exn (world X * session) Z).
Context (sleep : Z → eff exn (world X) unit).
(** [f"{type(exc).__name__}. Detail: {str(exc)}"] *)
Context (describe : exn → pystr).
(** [async with self._gate.slot()] *)
Context (acquire release : eff exn (world X) unit).

(** The loop that copies and reads the inherited files *)
Fixpoint copy_context (parent_id job_id : uuid) (files : list pystr)
    : eff exn (world X) (list (pystr * pystr)) :=
  match files with
  | [] => ret []
  | filename :: files' =>
      in_fs (Local.copy_workspace_file base_dir parent_id job_id filename) ;;;
      data <- in_fs (Local.read_file base_dir job_id filename) ;;
      text <- of_outcome (match utf8_decode data with
                          | Some t => Ret t
                          | None => Exc UnicodeDecodeError
                          end) ;;
      rest <- copy_context parent_id job_id files' ;;
      ret ((filename, text) :: rest)
  end.

Definition inherited_context (job : JobRecord) : eff exn (world X) (list (pystr * pystr)) :=
  match record_parent_job_id job with
  | None => ret []
  | Some parent_id =>
      context <- copy_context parent_id (record_id job) INHERITED_FILES ;;
      in_db (append_event (record_id job) (py "REFINEMENT_CONTEXT_COPIED")
               (py "Parent design context copied.")) ;;;
      ret context
  end.

Definition validation_cb (job_id : uuid) (acts : list action) : eff exn (world X * session) unit :=
  m <- gets (λ ws, w_fs ws.1) ;;
  on_session (validate_actions base_dir m acts job_id).

Definition execution_cb (job_id : uuid) (acts : list action) : eff exn (world X * session) unit :=
  on_world (execute_attempt base_dir guess_type run_tool job_id acts
              (Some (in_db (save_action_plan job_id acts)))).

Definition on_attempt (job_id : uuid) (attempt : nat) : eff exn (world X * session) unit :=
  on_world (in_db (append_event job_id (py "LLM_ATTEMPT")
    (py "LLM plan request attempt " ++ str_of_nat attempt ++ py "."))).

Definition generate (job_id : uuid) (request : LLMRequest)
    : eff exn (world X) (option (list action)) :=
  in_session (generate_actions (λ r, on_world (client r)) parse RETRY_DELAYS_SECONDS
    (λ t, on_world (sleep t)) (Some (on_attempt job_id))
    (Some (validation_cb job_id)) (Some (execution_cb job_id)) request).

(** The [try] block of [_run_in_slot] *)
Definition orchestrate (job_id : uuid) : eff exn (world X) bool :=
  found <- in_db (get_job job_id) ;;
  match found with
  | None => raise (RuntimeError (py "Job disappeared after orchestration start."))
  | Some job =>
      context <- inherited_context job ;;
      let request := {| req_prompt := record_prompt job; req_context := context;
                        req_allowed_actions := ALLOWED_ACTIONS; req_retry_feedback := None |} in
      _actions <- generate job_id request ;;
      in_db (append_event job_id (py "PLAN_EXECUTED")
               (py "Final action plan validated, executed, and persisted.")) ;;;
      _done <- in_db (transition job_id [RUNNING] COMPLETED (py "ORCHESTRATION_COMPLETED")
                        (py "Orchestration completed.")) ;;
      ret true
  end.

(** The [except] block *)
Definition record_failure (job_id : uuid) (exc : exn) : eff exn (world X) bool :=
  try_catch
    (_done <- in_db (transition job_id [CREATED; RUNNING] FAILED (py "ORCHESTRATION_FAILED")
                       (py "Orchestration failed: " ++ describe exc)) ;; ret tt)
    (λ _, ret tt) ;;;
  ret false.

Definition _run_in_slot (job_id : uuid) : eff exn (world X) bool :=
  started <- in_db (transition job_id [CREATED] RUNNING (py "ORCHESTRATION_STARTED")
                      (py "Orchestration started.")) ;;
  if negb started then ret false
  else try_catch (orchestrate job_id) (record_failure job_id).

Definition run (job_id : uuid) : eff exn (world X) bool :=
  try_catch
    (acquire ;;; try_finally (_run_in_slot job_id) release)
    (λ e, match e with
          | OrchestrationQueueTimeoutError =>
              _done <- in_db (transition job_id [CREATED] FAILED (py "ORCHESTRATION_QUEUE_TIMEOUT")
                                (py "Job exceeded the orchestration queue wait limit.")) ;;
              ret false
          | _ => raise e
          end).
End service.
