(* ===== verification/OrchestratorFacts.v ===== *)
(** * Every orchestrated job ends

    On a database that answers and that nobody else uses, a claimed job ends
    COMPLETED or FAILED, and [run] tells which.  Between the claim and the
    end nothing touches the status of any job: the parts of the orchestration
    are [calm]. *)
From S2P Require Import Prelude PyStr Exceptions FileSystem FsFacts Realpath FsOps Storage StorageFacts Attempts.
From S2P Require Import Schemas Database DatabaseFacts Repository Scad PolicyValidator ArgValidator Retry.
From S2P Require Import World JobService Executor Orchestrator.
Local Open Scope eff_scope.
Import Local.

(** ** Calm sessions *)
Definition statuses (t : tables) : gmap uuid status := job_status <$> jobs t.

Definition calm_op (o : op) : Prop :=
  match o with
  | InsertJob _ _ => False
  | UpdateJob _ u => set_status u = None
  | InsertEventLog _ | InsertArtifact _ => True
  end.

Definition calm_row (r : row) : Prop :=
  match r with NewJob _ _ _ _ => False | _ => True end.

Definition calm_session (s : session) : Prop :=
  Forall calm_op (work s) ∧ Forall calm_row (pending s).

Lemma calm_apply_op t o : calm_op o → statuses (apply_op t o) = statuses t.
Proof.
  destruct o as [id j|e|a|id u]; simpl; [done..|]. intros Hu. unfold statuses. simpl.
  apply map_eq. intros i. rewrite !lookup_fmap.
  destruct (decide (id = i)) as [<-|]; [|by rewrite lookup_alter_ne].
  rewrite lookup_alter_eq. destruct (jobs t !! id); simpl; [|done]. by rewrite Hu.
Qed.

Lemma calm_apply_ops t ops : Forall calm_op ops → statuses (apply_ops t ops) = statuses t.
Proof.
  intros Hops. revert t. induction Hops as [|o ops Ho Hops IH]; intros t; simpl; [done|].
  rewrite IH. by apply calm_apply_op.
Qed.

Lemma calm_insert_rows now next t rows next' ops :
  Forall calm_row rows → insert_rows now next t rows = (next', Some ops) → Forall calm_op ops.
Proof.
  intros Hr. revert next t ops. induction Hr as [|r rows Hr Hrs IH]; intros next t ops; simpl.
  { intros [= _ <-]. constructor. }
  destruct (insert_row now next t r) as [n1 [o|]] eqn:Hi; [|done].
  destruct (insert_rows now n1 _ rows) as [n2 [ops'|]] eqn:Hs; [|done].
  intros [= -> <-]. constructor; [|by eapply IH].
  destruct r as [|job_id ty msg|id job_id path name ct]; [done|..]; simpl in Hi.
  - destruct (has_job t job_id); [|done]. by injection Hi as _ <-.
  - destruct (has_job t job_id && _); [|done]. by injection Hi as _ <-.
Qed.

(** ** Relations between states *)

(** Nothing more is going to happen to the database from outside. *)
Definition still (d d' : database) : Prop := script d = [] → script d' = [].
Definition still_conn (c c' : conn) : Prop := still c.1 c'.1.

#[export] Instance still_preorder : PreOrder still.
Proof. split; [by intros d Hd|]. intros d1 d2 d3. unfold still. auto. Qed.

#[export] Instance still_conn_preorder : PreOrder still_conn.
Proof. split; [by intros d Hd|]. intros d1 d2 d3. unfold still_conn, still. auto. Qed.

Lemma still_tick locked d d' r : next_tick locked d = (d', r) → still d d'.
Proof. unfold next_tick, still. intros Ht Hs. rewrite Hs in Ht. by injection Ht as <- _. Qed.

Lemma still_statement {A} (run : eff exn conn A) :
  steps still_conn run → steps still_conn (statement run).
Proof.
  intros Hrun [d s]. unfold statement. simpl. destruct (aborted s); [done|].
  destruct (next_tick _ _) as [d' r] eqn:Ht. apply still_tick in Ht.
  destruct r; [|done..]. etrans; [|apply Hrun]. done.
Qed.

Lemma still_flush : steps still_conn flush.
Proof.
  intros c. unfold flush. case_decide; [destruct (aborted _); reflexivity|].
  revert c H. intros c _. revert c. apply still_statement. intros [d s].
  destruct (insert_rows _ _ _ _) as [n [ops|]]; exact (λ H, H).
Qed.

Lemma still_commit : steps still_conn commit.
Proof.
  apply steps_ebind; [apply _|apply still_flush|]. intros _ [d s]. simpl.
  destruct (started s); [|done]. destruct (next_tick _ _) as [d' r] eqn:Ht.
  apply still_tick in Ht. destruct r; exact Ht.
Qed.

Lemma still_rollback : steps still_conn rollback.
Proof.
  intros [d s]. unfold rollback. simpl. destruct (started s); [|exact (λ H, H)].
  destruct (next_tick _ _) as [d' r] eqn:Ht. apply still_tick in Ht. destruct r; exact Ht.
Qed.

Lemma still_transition id expected target code msg :
  steps still (transition id expected target code msg).
Proof.
  assert (∀ {A} (m : eff exn conn A), steps still_conn m → steps still (with_session m)) as Hses.
  { intros A m Hm d. specialize (Hm (d, fresh_session)). unfold with_session.
    destruct (m _) as [[d' s'] o]. exact Hm. }
  apply Hses. unfold or_rollback. apply steps_catch; [apply _| |].
  - apply steps_ebind; [apply _| |intros n].
    { apply still_statement. intros [d s]. simpl. destruct (jobs _ !! id) as [j|]; [|exact (λ H, H)].
      case_match; exact (λ H, H). }
    destruct (negb _); [apply steps_ebind; [apply _|apply still_rollback|intros _; apply steps_ret, _]|].
    apply steps_ebind; [apply _|intros c; exact (λ H, H)|intros _].
    apply steps_ebind; [apply _|apply still_commit|intros _; apply steps_ret, _].
  - intros e. apply steps_ebind; [apply _|apply still_rollback|intros _; apply steps_raise, _].
Qed.

(** The log only grows, and the new events carry numbers of their own. *)
Definition appends (d d' : database) : Prop :=
  still d d' ∧
  ∃ new, event_logs (committed d') = event_logs (committed d) ++ new ∧
    numbered (next_event_id d) (next_event_id d') new.

(** What a session has added to a log that was [l0], when the next number was
    [n0]: committed events first, then those of its open transaction. *)
Definition added_since (n0 : Z) (l0 : list EventLog) (c : conn) : Prop :=
  ∃ new, event_logs (committed c.1) = l0 ++ new ∧
    numbered n0 (next_event_id c.1) (new ++ omap op_log (work c.2)).

Definition calm_db (d d' : database) : Prop :=
  healthy d →
  healthy d' ∧ statuses (committed d') = statuses (committed d) ∧ appends d d'.

Definition calm_conn (c c' : conn) : Prop :=
  healthy c.1 → calm_session c.2 →
  healthy c'.1 ∧ calm_session c'.2 ∧ statuses (committed c'.1) = statuses (committed c.1) ∧
  still c.1 c'.1 ∧ ∀ n0 l0, added_since n0 l0 c → added_since n0 l0 c'.

#[export] Instance appends_preorder : PreOrder appends.
Proof.
  split.
  { intros d. split; [done|]. exists []. rewrite app_nil_r. split; [done|by apply numbered_nil]. }
  intros d1 d2 d3 (S1 & l1 & E1 & H1) (S2 & l2 & E2 & H2). split; [by etrans|]. exists (l1 ++ l2).
  rewrite E2, E1, <- app_assoc. split; [done|]. by eapply numbered_app.
Qed.

#[export] Instance calm_db_preorder : PreOrder calm_db.
Proof.
  split; [intros d Hd; split_and!; [done..|reflexivity]|]. intros d1 d2 d3 H12 H23 H1.
  destruct (H12 H1) as (H2 & E & A). destruct (H23 H2) as (H3 & E' & A').
  split_and!; [done|congruence|by etrans].
Qed.

#[export] Instance calm_conn_preorder : PreOrder calm_conn.
Proof.
  split; [by intros c|]. intros c1 c2 c3 H12 H23 H1 S1.
  destruct (H12 H1 S1) as (H2 & S2 & E & T & A). destruct (H23 H2 S2) as (H3 & S3 & E' & T' & A').
  split_and!; [done..|congruence|by etrans|auto].
Qed.

(** *** Numbering *)
Lemma numbered_mid n n1 n2 (l1 l2 new : list EventLog) :
  numbered n n1 (l1 ++ l2) → numbered n1 n2 new → numbered n n2 (l1 ++ new ++ l2).
Proof.
  intros H1 H2. destruct (numbered_app _ _ _ _ _ H1 H2) as (Hle & Hnd & Hr).
  assert (l1 ++ new ++ l2 ≡ₚ (l1 ++ l2) ++ new) as Hp by solve_Permutation.
  split_and!; [done|by rewrite Hp|by rewrite Hp].
Qed.

Lemma numbered_prefix n n1 (l1 l2 : list EventLog) : numbered n n1 (l1 ++ l2) → numbered n n1 l1.
Proof.
  intros (? & Hnd & Hr). rewrite fmap_app in Hnd. apply NoDup_app in Hnd as (? & _ & _).
  by apply Forall_app in Hr as [? _].
Qed.

Lemma numbered_le n n1 n2 (l : list EventLog) : (n1 ≤ n2)%Z → numbered n n1 l → numbered n n2 l.
Proof.
  intros Hle (? & ? & Hr). split_and!; [lia|done|]. eapply Forall_impl; [exact Hr|]. simpl. lia.
Qed.

Lemma added_since_same n0 l0 d d' s s' :
  committed d' = committed d → next_event_id d' = next_event_id d → work s' = work s →
  added_since n0 l0 (d, s) → added_since n0 l0 (d', s').
Proof. unfold added_since. simpl. by intros -> -> ->. Qed.

Lemma added_since_forget n0 l0 d d' s s' :
  committed d' = committed d → (next_event_id d ≤ next_event_id d')%Z → work s' = [] →
  added_since n0 l0 (d, s) → added_since n0 l0 (d', s').
Proof.
  unfold added_since. simpl. intros -> Hn -> (new & E & H). exists new. split; [done|].
  simpl. rewrite app_nil_r. eapply numbered_le; [done|]. by eapply numbered_prefix.
Qed.

Lemma added_since_db n0 l0 d d' s :
  appends d d' → added_since n0 l0 (d, s) → added_since n0 l0 (d', s).
Proof.
  unfold added_since. simpl. intros (_ & l & E & Hl) (new & E' & H). exists (new ++ l).
  rewrite E, E', <- !app_assoc. split; [done|]. by eapply numbered_mid.
Qed.

Lemma added_since_fresh d : added_since (next_event_id d) (event_logs (committed d)) (d, fresh_session).
Proof. exists []. rewrite app_nil_r. split; [done|]. by apply numbered_nil. Qed.

Lemma added_since_appends d d' s' :
  still d d' → added_since (next_event_id d) (event_logs (committed d)) (d', s') → appends d d'.
Proof. intros Hs (new & E & H). split; [done|]. exists new. split; [done|]. by eapply numbered_prefix. Qed.

(** *** The session API *)
Lemma calm_statement {A} (run : eff exn conn A) :
  steps calm_conn run → steps calm_conn (statement run).
Proof.
  intros Hrun [d s] Hh Hs. simpl in *. unfold statement. simpl.
  destruct (aborted s); [done|].
  destruct (healthy_tick (is_locked s) d Hh) as (d' & Ht & (Hc & Hn & _) & Hh'). rewrite Ht.
  destruct (Hrun (d', Session (pending s) (work s) (Some (default (clock d') (started s))) false))
    as (? & ? & E & T & Ha); [done|done|]. simpl in E. rewrite E, Hc.
  split_and!; [done..|by etrans; [eapply still_tick|]|].
  intros n0 l0 Hold. apply Ha. by eapply added_since_same.
Qed.

Lemma calm_query {A} (f : tables → A) : steps calm_conn (query f).
Proof. apply calm_statement. intros c. simpl. reflexivity. Qed.

Lemma calm_update id p u :
  (∀ t, set_status (u t) = None) → steps calm_conn (update_where id p u).
Proof.
  intros Hu. apply calm_statement. intros [d s]. simpl.
  destruct (jobs _ !! id) as [j|]; [|reflexivity]. destruct (p j); [|reflexivity].
  intros Hh [Hw Hp]. split_and!; try done.
  - split; [|done]. simpl. apply Forall_app.
    split; [done|]. constructor; [apply Hu|constructor].
  - intros n0 l0 (new & E & H). exists new. simpl. rewrite omap_app. simpl. by rewrite app_nil_r.
Qed.

Lemma calm_add_all rs : Forall calm_row rs → steps calm_conn (add_all rs).
Proof.
  intros Hr [d s] Hh [Hw Hp]. split_and!; try done. split; [done|]. simpl in *.
  by apply Forall_app.
Qed.

Lemma calm_add r : calm_row r → steps calm_conn (add r).
Proof. intros Hr. apply (calm_add_all [r]). by constructor. Qed.

Lemma calm_rollback : steps calm_conn rollback.
Proof.
  intros [d s] Hh _. unfold rollback. simpl in *. destruct (started s).
  - destruct (healthy_tick (is_locked s) d Hh) as (d' & Ht & (Hc & Hn & _) & Hh').
    rewrite Ht. simpl. split; [done|]. split; [done|]. split; [by rewrite Hc|].
    split; [by eapply still_tick in Ht|].
    intros n0 l0. apply added_since_forget; [done|lia|done].
  - split_and!; try done. intros n0 l0. by apply added_since_forget.
Qed.

Lemma calm_flush : steps calm_conn flush.
Proof.
  intros c. unfold flush. case_decide as Hp; [destruct (aborted _); reflexivity|].
  clear Hp. revert c. apply calm_statement. intros [d s] Hh [Hw Hp]. simpl in *.
  pose proof (insert_rows_next (now (d, s)) (next_event_id d) (view (d, s)) (pending s)) as Hle.
  destruct (insert_rows _ _ _ _) as [n [ops|]] eqn:Hi; simpl in *.
  - split_and!; try done; [|exact (λ H, H)|].
    + split; [|constructor]. simpl. apply Forall_app. split; [done|]. by eapply calm_insert_rows.
    + intros n0 l0 (new & E & H). exists new. simpl in *. split; [done|].
      apply insert_rows_ok in Hi as (_ & Hn & _). rewrite omap_app, app_assoc.
      by eapply numbered_app.
  - split_and!; try done; [exact (λ H, H)|]. intros n0 l0. by apply added_since_forget.
Qed.

Lemma calm_commit : steps calm_conn commit.
Proof.
  apply steps_ebind; [apply _|apply calm_flush|]. intros _ [d s] Hh Hs. simpl in *.
  destruct (started s); [|done].
  destruct (healthy_tick (is_locked s) d Hh) as (d' & Ht & (Hc & Hn & _) & Hh'). rewrite Ht. simpl.
  split_and!; try done; [|by eapply still_tick in Ht|].
  - rewrite calm_apply_ops by apply Hs. by rewrite Hc.
  - intros n0 l0 (new & E & H). exists (new ++ omap op_log (work s)). simpl in *.
    rewrite apply_ops_logs, Hc, E, Hn, app_nil_r, <- app_assoc. done.
Qed.

Lemma calm_with_session {A} (m : eff exn conn A) :
  steps calm_conn m → steps calm_db (with_session m).
Proof.
  intros Hm d Hh. specialize (Hm (d, fresh_session)). unfold with_session.
  destruct (m (d, fresh_session)) as [[d' s'] o]. simpl in *.
  destruct Hm as (? & _ & ? & T & Ha); [done|by split|]. split_and!; [done..|].
  eapply added_since_appends, Ha, added_since_fresh. done.
Qed.

Create HintDb calm.
#[export] Hint Resolve calm_query calm_add calm_add_all calm_rollback calm_flush calm_commit calm_with_session
  calm_db_preorder calm_conn_preorder steps_ret steps_raise steps_gets steps_of_outcome : calm.

#[export] Hint Extern 1 (calm_row _) => exact I : calm.

(** Goes through a computation part by part. *)
Ltac calm_parts :=
  repeat first
    [ solve [auto with calm]
    | apply steps_ebind; [apply _| |intros ?] | apply steps_catch; [apply _| |intros ?]
    | case_match | apply steps_if ].

Lemma calm_or_rollback {A} (m : eff exn conn A) :
  steps calm_conn m → steps calm_conn (or_rollback m).
Proof. intros. unfold or_rollback. calm_parts. Qed.

Lemma calm_get_job id : steps calm_db (get_job id).
Proof. unfold get_job. apply calm_with_session. calm_parts. Qed.

Lemma calm_append_event id code msg : steps calm_db (append_event id code msg).
Proof. apply calm_with_session, calm_or_rollback. calm_parts. Qed.

Lemma calm_save_action_plan id acts : steps calm_db (save_action_plan id acts).
Proof.
  apply calm_with_session, calm_or_rollback. apply steps_ebind; [apply _|by apply calm_update|].
  intros n. calm_parts.
Qed.

Lemma calm_violation id msg : steps calm_conn (_log_and_raise_violation id msg).
Proof. unfold _log_and_raise_violation. calm_parts. Qed.

Lemma calm_validate_actions `{UnicodeData} base m acts id :
  steps calm_conn (validate_actions base m acts id).
Proof.
  unfold validate_actions. apply steps_ebind; [apply _|apply steps_of_outcome, _|intros b].
  apply steps_for_each; [apply _|]. intros a.
  destruct a; simpl; unfold validate_path;
    repeat first [ apply calm_violation | apply steps_ebind; [apply _| |intros ?] 
      | apply steps_ret; apply _ | apply steps_of_outcome; apply _ | case_match ].
Qed.
#[export] Hint Resolve calm_get_job calm_append_event calm_save_action_plan
  calm_validate_actions : calm.

(** ** Calm computations on the world *)
Section calm_world.
Context {X : Type}.

Definition calm_w (w w' : world X) : Prop := calm_db (w_db w) (w_db w').
Definition calm_ws (ws ws' : world X * session) : Prop :=
  calm_conn (w_db ws.1, ws.2) (w_db ws'.1, ws'.2).
Definition calm_frame (f f' : frame X) : Prop :=
  calm_ws (f_world f, f_session f) (f_world f', f_session f').

#[export] Instance calm_w_preorder : PreOrder calm_w.
Proof. split; [by intros w|]. intros a b c. unfold calm_w. by etrans. Qed.

#[export] Instance calm_ws_preorder : PreOrder calm_ws.
Proof. split; [by intros w|]. intros a b c. unfold calm_ws. by etrans. Qed.

#[export] Instance calm_frame_preorder : PreOrder calm_frame.
Proof. split; [by intros f|]. intros a b c. unfold calm_frame. by etrans. Qed.

Lemma calm_in_fs {A} (m : eff exn fs A) : steps calm_w (in_fs m).
Proof. intros w. unfold in_fs, zoom. destruct (m _). unfold calm_w. simpl. reflexivity. Qed.

Lemma calm_in_db {A} (m : eff exn database A) : steps calm_db m → steps calm_w (in_db m).
Proof.
  intros Hm w. specialize (Hm (w_db w)). unfold in_db, zoom.
  by destruct (m (w_db w)) as [d o].
Qed.

Lemma calm_fresh_uuid : steps calm_w fresh_uuid.
Proof.
  intros w. unfold fresh_uuid, calm_w. destruct (w_uuids w); simpl; reflexivity.
Qed.

Lemma calm_on_world {A} (m : eff exn (world X) A) : steps calm_w m → steps calm_ws (on_world m).
Proof.
  intros Hm [w s] Hh Hs. specialize (Hm w). unfold on_world, zoom. simpl in *.
  destruct (m w) as [w' o]. simpl in *. destruct (Hm Hh) as (? & ? & Ha).
  split_and!; [done..|apply Ha|]. intros n0 l0. by apply added_since_db.
Qed.

Lemma calm_on_session {A} (m : eff exn conn A) : steps calm_conn m → steps calm_ws (on_session m).
Proof.
  intros Hm [w s]. specialize (Hm (w_db w, s)). unfold on_session, zoom, calm_ws. simpl in *.
  by destruct (m (w_db w, s)) as [[d' s'] o].
Qed.

Lemma calm_in_session {A} (m : eff exn (world X * session) A) :
  steps calm_ws m → steps calm_w (in_session m).
Proof.
  intros Hm w Hh. specialize (Hm (w, fresh_session)). unfold in_session.
  destruct (m (w, fresh_session)) as [[w' s'] o]. simpl in *.
  destruct Hm as (? & _ & ? & T & Ha); [done|by split|]. split_and!; [done..|].
  eapply added_since_appends, Ha, added_since_fresh. done.
Qed.

Lemma calm_with_db {A} (m : eff exn (world X * session) A) :
  steps calm_ws m → steps calm_frame (with_db m).
Proof.
  intros Hm [w s cps]. specialize (Hm (w, s)). unfold with_db, zoom, calm_frame. simpl in *.
  by destruct (m (w, s)) as [[w' s'] o].
Qed.

Lemma calm_on_files {A} (m : eff exn fs A) : steps calm_frame (on_files m).
Proof. apply calm_with_db, calm_on_world, calm_in_fs. Qed.

Lemma calm_register base guess j rel : steps calm_ws (register_artifact (X := X) base guess j rel).
Proof.
  unfold register_artifact.
  repeat first [ apply steps_of_outcome; apply _ | apply steps_gets; apply _
    | apply steps_ret; apply _
    | apply calm_on_session; solve [auto with calm]
    | apply calm_on_world, calm_fresh_uuid
    | apply steps_ebind; [apply _| |intros ?] ].
Qed.

Section attempt.
Context (base : apath) (guess_type : pystr → option pystr).
Context (run_tool : uuid → pystr → list pystr → eff exn (world X * session) Z).
Hypothesis (Hrun : ∀ j tool args, steps calm_ws (run_tool j tool args)).

Lemma calm_execute_actions j actions : steps calm_frame (execute_actions base run_tool j actions).
Proof using Hrun.
  induction actions as [|a actions IH]; simpl; [apply steps_ret, _|].
  destruct a; try done; (apply steps_ebind; [apply _| |done]); simpl; try apply calm_on_files.
  apply steps_ebind; [apply _| |intros _; apply steps_ret, _].
  apply calm_with_db, calm_on_world, calm_in_session, Hrun.
Qed.

Lemma calm_publish j rel : steps calm_frame (publish_artifact (X := X) base guess_type j rel).
Proof using.
  unfold publish_artifact. apply steps_ebind; [apply _|apply calm_on_files|intros _].
  apply steps_ebind; [apply _|apply steps_gets, _|intros m].
  apply steps_ebind; [apply _|apply steps_of_outcome, _|intros p].
  apply steps_ebind; [apply _| |intros _].
  { apply steps_modify. intros [w s cps]. unfold calm_frame. simpl. reflexivity. }
  apply steps_ebind; [apply _|apply calm_with_db, calm_register|intros _; apply steps_ret, _].
Qed.

Lemma calm_undo j token : steps calm_frame (undo_attempt (X := X) base j token).
Proof using.
  unfold undo_attempt. apply steps_ebind; [apply _| |intros _].
  { apply calm_with_db, calm_on_session. auto with calm. }
  apply steps_ebind; [apply _|apply steps_gets, _|intros ps].
  apply steps_ebind; [apply _| |intros _; apply calm_on_files].
  apply steps_for_each; [apply _|]. intros p. unfold remove_copied.
  apply steps_ebind; [apply _|apply steps_gets, _|intros m].
  apply steps_catch; [apply _| |intros _; apply steps_ret, _].
  case_match; [apply calm_on_files|apply steps_ret, _].
Qed.

Lemma calm_execute_attempt j actions (cb : eff exn (world X) unit) :
  steps calm_w cb → steps calm_w (execute_attempt base guess_type run_tool j actions (Some cb)).
Proof using Hrun.
  intros Hcb. unfold execute_attempt. apply steps_ebind; [apply _|apply calm_fresh_uuid|intros u4].
  apply steps_ebind; [apply _|apply calm_in_fs|intros token].
  set (m := _ ;;; _). assert (steps calm_frame m) as Hm.
  { unfold m. apply steps_ebind; [apply _| |intros _; apply calm_on_files].
    apply steps_catch; [apply _| |].
    - unfold attempt_body.
      apply steps_ebind; [apply _|apply calm_execute_actions|intros _].
      apply steps_ebind; [apply _|apply steps_for_each; [apply _|apply calm_publish]|intros _].
      apply steps_ebind; [apply _|apply calm_with_db, calm_on_session; auto with calm|intros _].
      by apply calm_with_db, calm_on_world.
    - intros e. apply steps_ebind; [apply _|apply calm_undo|intros _; apply steps_raise, _]. }
  intros w Hh. specialize (Hm (Frame w fresh_session [])).
  destruct (m _) as [f o]. simpl in *. destruct Hm as (? & _ & ? & T & Ha); [done|by split|].
  split_and!; [done..|]. eapply added_since_appends, Ha, added_since_fresh. done.
Qed.
End attempt.
End calm_world.

(** ** The end of a run *)
Section ending.
Context {X : Type} `{UnicodeData} (base_dir : apath) (guess_type : pystr → option pystr).
Context (client : LLMRequest → eff exn (world X) pystr).
Context (parse : pystr → outcome exn (list action)).
Context (run_tool : uuid → pystr → list pystr → eff exn (world X * session) Z).
Context (sleep : Z → eff exn (world X) unit).
Context (describe : exn → pystr).
(** The model client and [sleep] do not use the database; the runner only
    adds events. *)
Hypothesis (Hclient : ∀ r, steps calm_w (client r)).
Hypothesis (Hsleep : ∀ t, steps calm_w (sleep t)).
Hypothesis (Hrun : ∀ j tool args, steps calm_ws (run_tool j tool args)).

Lemma calm_context parent job files :
  steps calm_w (copy_context (X := X) base_dir parent job files).
Proof using.
  induction files as [|f files IH]; simpl; [apply steps_ret, _|].
  repeat first [ apply calm_in_fs | apply IH | apply steps_of_outcome; apply _
    | apply steps_ret; apply _ | apply steps_ebind; [apply _| |intros ?] ].
Qed.

Lemma calm_generate job request :
  steps calm_w (generate base_dir guess_type client parse run_tool sleep job request).
Proof using Hclient Hsleep Hrun.
  apply calm_in_session, generate_actions_steps; [apply _|..].
  - intros r. apply calm_on_world, Hclient.
  - intros t. apply calm_on_world, Hsleep.
  - intros n. apply calm_on_world, calm_in_db, calm_append_event.
  - intros acts. unfold call, validation_cb. apply steps_ebind; [apply _|apply steps_gets, _|].
    intros m. apply calm_on_session, calm_validate_actions.
  - intros acts. apply calm_on_world, calm_execute_attempt; [apply Hrun|].
    apply calm_in_db, calm_save_action_plan.
Qed.

Definition status_of (w : world X) (id : uuid) : option status :=
  statuses (committed (w_db w)) !! id.

Lemma status_of_job (w : world X) id : status_of w id = job_status <$> jobs (committed (w_db w)) !! id.
Proof. apply lookup_fmap. Qed.

(** A transition from the status a job is in succeeds. *)
Lemma transition_healthy (w : world X) id st expected target code msg :
  healthy (w_db w) → status_of w id = Some st → st ∈ expected →
  ∃ w', in_db (transition id expected target code msg) w = (w', Ret true) ∧
    healthy (w_db w') ∧ status_of w' id = Some target ∧ appends (w_db w) (w_db w').
Proof using.
  intros Hh Hst Hin. rewrite status_of_job in Hst.
  destruct (jobs (committed (w_db w)) !! id) as [j|] eqn:Hj; [|done]. injection Hst as <-.
  destruct (cas_run id (λ j, bool_decide (job_status j ∈ expected)) (status_update target)
    (coded code msg) (w_db w)) as (d' & o & Hrun' & _ & Hh' & _ & Ho); [by apply healthy_isolated|].
  pose proof (still_transition id expected target code msg (w_db w)) as Hstill.
  unfold in_db, zoom. unfold transition in *. rewrite Hrun' in *. destruct o as [[]|e].
  - destruct Ho as (j' & t & _ & _ & _ & Hc & Hnext). eexists. split; [done|].
    split; [by apply Hh'|]. rewrite status_of_job. simpl. unfold appends. rewrite Hc, Hnext.
    split; [by simpl; rewrite lookup_alter_eq, Hj|]. split; [done|]. rewrite apply_ops_logs. eexists.
    split; [done|]. by apply numbered_singleton.
  - destruct Ho as [Hn _]. specialize (Hn j Hj). simpl in Hn. by rewrite bool_decide_true in Hn.
  - by destruct Ho as [[] _].
Qed.

(** [m] completes the job, or raises and leaves it RUNNING. *)
Definition settles (id : uuid) (m : eff exn (world X) bool) : Prop :=
  ∀ w, healthy (w_db w) → status_of w id = Some RUNNING →
    ∃ w' o, m w = (w', o) ∧ healthy (w_db w') ∧ appends (w_db w) (w_db w') ∧
      match o with
      | Ret b => b = true ∧ status_of w' id = Some COMPLETED
      | Exc _ => status_of w' id = Some RUNNING
      end.

Lemma settles_raise id e : settles id (raise e).
Proof using. intros w Hh Hst. by eexists _, _. Qed.

Lemma settles_after {A} id (m : eff exn (world X) A) (k : A → eff exn (world X) bool) :
  steps calm_w m → (∀ a, settles id (k a)) → settles id (ebind m k).
Proof using.
  intros Hm Hk w Hh Hst. destruct (Hm w Hh) as (Hh1 & E1 & Ha1).
  unfold ebind. destruct (m w) as [w1 [a|e]]; simpl in Hh1, E1.
  - destruct (Hk a w1) as (w2 & o & -> & Hh2 & Ha2 & Ho); [done|by unfold status_of; rewrite E1|].
    eexists _, _. split_and!; [done..|by etrans|done].
  - eexists _, _. split_and!; [done..|]. unfold status_of. by rewrite E1.
Qed.

Lemma settles_complete id code msg :
  settles id (_done <- in_db (transition id [RUNNING] COMPLETED code msg) ;; ret true).
Proof using.
  intros w Hh Hst.
  destruct (transition_healthy w id RUNNING [RUNNING] COMPLETED code msg)
    as (w2 & Hrun2 & Hh2 & Hst2 & Ha2); [done|done|left|].
  rewrite (ebind_ret_run _ _ _ _ _ Hrun2). by eexists _, _.
Qed.

Lemma orchestrate_settles id :
  settles id (orchestrate base_dir guess_type client parse run_tool sleep id).
Proof using Hclient Hsleep Hrun.
  unfold orchestrate. apply settles_after; [apply calm_in_db, calm_get_job|].
  intros [job|]; [|apply settles_raise]. apply settles_after.
  { unfold inherited_context. destruct (record_parent_job_id job); [|apply steps_ret, _].
    apply steps_ebind; [apply _|apply calm_context|intros c].
    apply steps_ebind; [apply _|apply calm_in_db, calm_append_event|intros _; apply steps_ret, _]. }
  intros context. apply settles_after; [apply calm_generate|intros r].
  apply settles_after; [apply calm_in_db, calm_append_event|intros _]. apply settles_complete.
Qed.

Lemma run_in_slot_end (w : world X) id :
  healthy (w_db w) → status_of w id = Some CREATED →
  ∃ w' b, _run_in_slot base_dir guess_type client parse run_tool sleep describe id w = (w', Ret b) ∧
    healthy (w_db w') ∧ status_of w' id = Some (if b : bool then COMPLETED else FAILED) ∧
    appends (w_db w) (w_db w').
Proof using Hclient Hsleep Hrun.
  intros Hh Hst. unfold _run_in_slot.
  destruct (transition_healthy w id CREATED [CREATED] RUNNING (py "ORCHESTRATION_STARTED")
    (py "Orchestration started.")) as (w1 & Hrun1 & Hh1 & Hst1 & Ha1); [done|done|set_solver|].
  rewrite (ebind_ret_run _ _ _ _ _ Hrun1). simpl. unfold try_catch.
  destruct (orchestrate_settles id w1 Hh1 Hst1) as (w2 & [b|e] & -> & Hh2 & Ha2 & Ho).
  { destruct Ho as [-> ?]. eexists _, _. split_and!; [done..|by etrans]. }
  unfold record_failure.
  destruct (transition_healthy w2 id RUNNING [CREATED; RUNNING] FAILED (py "ORCHESTRATION_FAILED")
    (py "Orchestration failed: " ++ describe e)) as (w3 & Hrun3 & Hh3 & Hst3 & Ha3);
    [done|done|set_solver|].
  unfold ebind at 1, try_catch. rewrite (ebind_ret_run _ _ _ _ _ Hrun3). simpl.
  eexists _, _. split_and!; [done..|]. etrans; [done|by etrans].
Qed.

(** [run]: the gate lets the job in, or its turn does not come in time. *)
Lemma run_end (acquire release : eff exn (world X) unit) (w : world X) id :
  steps calm_w acquire → steps calm_w release →
  (∀ w, (acquire w).2 = Ret tt ∨ (acquire w).2 = Exc OrchestrationQueueTimeoutError) →
  (∀ w, (release w).2 = Ret tt) →
  healthy (w_db w) → status_of w id = Some CREATED →
  ∃ w' b, run base_dir guess_type client parse run_tool sleep describe acquire release id w
      = (w', Ret b) ∧
    healthy (w_db w') ∧ status_of w' id = Some (if b : bool then COMPLETED else FAILED) ∧
    appends (w_db w) (w_db w').
Proof using Hclient Hsleep Hrun.
  intros Hacq Hrel Hans Hfree Hh Hst.
  specialize (Hacq w Hh). specialize (Hans w).
  unfold run, try_catch, ebind. destruct (acquire w) as [w1 o1]. simpl in *.
  destruct Hacq as (Hh1 & E1 & Ha1).
  assert (status_of w1 id = Some CREATED) as Hst1 by (unfold status_of; by rewrite E1).
  destruct Hans as [->| ->].
  - destruct (run_in_slot_end w1 id Hh1 Hst1) as (w2 & b & Hslot & Hh2 & Hst2 & Ha2).
    unfold try_finally. rewrite Hslot. specialize (Hrel w2 Hh2). specialize (Hfree w2).
    destruct (release w2) as [w3 o3]. simpl in *. subst o3.
    destruct Hrel as (Hh3 & E3 & Ha3). exists w3, b. split_and!; [done..| |].
    + unfold status_of. by rewrite E3.
    + etrans; [done|by etrans].
  - destruct (transition_healthy w1 id CREATED [CREATED] FAILED (py "ORCHESTRATION_QUEUE_TIMEOUT")
      (py "Job exceeded the orchestration queue wait limit."))
      as (w2 & Hrun2 & Hh2 & Hst2 & Ha2); [done|done|set_solver|].
    rewrite Hrun2. exists w2, false. split_and!; [done..|by etrans].
Qed.

(** A job that is not CREATED is left alone. *)
Lemma run_in_slot_taken (w : world X) id :
  healthy (w_db w) → status_of w id ≠ Some CREATED →
  ∃ w', _run_in_slot base_dir guess_type client parse run_tool sleep describe id w = (w', Ret false) ∧
    w_fs w' = w_fs w ∧ committed (w_db w') = committed (w_db w).
Proof using.
  intros Hh Hst. unfold _run_in_slot.
  destruct (cas_run id (λ j, bool_decide (job_status j ∈ [CREATED])) (status_update RUNNING)
    (coded (py "ORCHESTRATION_STARTED") (py "Orchestration started.")) (w_db w))
    as (d' & o & Hrun' & _ & _ & _ & Ho); [by apply healthy_isolated|].
  assert (∃ w', in_db (transition id [CREATED] RUNNING (py "ORCHESTRATION_STARTED")
    (py "Orchestration started.")) w = (w', o) ∧ w_fs w' = w_fs w ∧ w_db w' = d') as (w' & Ht & ? & Hd).
  { unfold in_db, zoom, transition. rewrite Hrun'. by eexists. }
  destruct o as [[]|e].
  - exfalso. destruct Ho as (j & t & Hj & Hp & _). apply Hst. rewrite status_of_job, Hj. simpl.
    apply bool_decide_eq_true, list_elem_of_singleton in Hp. by rewrite Hp.
  - rewrite (ebind_ret_run _ _ _ _ _ Ht). eexists. split; [done|]. split; [done|].
    rewrite Hd. apply Ho.
  - by destruct Ho as [[] _].
Qed.
End ending.

(** ** Properties *)
Module Demo.
Definition base : apath := Storage.Demo.base.
Definition job : uuid := Storage.Demo.job.
Definition m0 : fs := Eval vm_compute in (Local.create_workspace base job Storage.Demo.fs0).1.

Definition db (ks : list tick) : database :=
  Database (Tables {[ job := {| parent_job_id := None; prompt := py "a cube"; job_status := CREATED;
    action_plan := None; job_created_at := 0; updated_at := 0 |} ]} [] []) 1 0 ks.

Definition world_with (ks : list tick) : world unit := World m0 (db ks) [77; 78; 79]%N tt.

(** A model that answers at once, and plans to write one file *)
Definition client (_ : LLMRequest) : eff exn (world unit) pystr := ret (py "plan").
Definition parse (_ : pystr) : outcome exn (list action) :=
  Ret [WriteFileAction (py "notes.txt") (py "hi")].
Definition run_tool (_ : uuid) (_ : pystr) (_ : list pystr) : eff exn (world unit * session) Z :=
  ret 0%Z.
Definition sleep (_ : Z) : eff exn (world unit) unit := ret tt.
Definition describe (_ : exn) : pystr := [].
Definition no_guess (_ : pystr) : option pystr := None.

Definition run_job (w : world unit) : world unit * outcome exn bool :=
  _run_in_slot (H := plain_unicode) base no_guess client parse run_tool sleep describe job w.

Example completes :
  (run_job (world_with [])).2 = Ret true ∧
  status_of (run_job (world_with [])).1 job = Some COMPLETED.
Proof. vm_compute. split; reflexivity. Qed.

(** Another process fails the job as stale while it is being executed: the
    run still returns [True]. *)
Definition overtaken : list tick :=
  replicate 10 (Tick 0 [] Delivered) ++
  [Tick 0 [TxTransition job [RUNNING] FAILED (py "SYSTEM_EVENT") (py "stale")] Delivered].

Example true_but_failed :
  (run_job (world_with overtaken)).2 = Ret true ∧
  status_of (run_job (world_with overtaken)).1 job = Some FAILED.
Proof. vm_compute. split; reflexivity. Qed.
End Demo.

(** C7: Every job that is claimed ends.  On a database that answers and that no
    other session uses, with a client and a runner that leave the statuses of
    jobs alone, [_run_in_slot] on a CREATED job returns a boolean, never an
    exception; the job is COMPLETED exactly when it is [True] and FAILED
    otherwise, whatever the model, the files, the policy or the tools did. *)
Theorem claimed_job_ends {X} `{UnicodeData} base_dir guess_type
    (client : LLMRequest → eff exn (world X) pystr) parse
    (run_tool : uuid → pystr → list pystr → eff exn (world X * session) Z) sleep describe
    (w : world X) id :
  (∀ r, steps calm_w (client r)) → (∀ t, steps calm_w (sleep t)) →
  (∀ j tool args, steps calm_ws (run_tool j tool args)) →
  healthy (w_db w) → status_of w id = Some CREATED →
  ∃ w' b, _run_in_slot base_dir guess_type client parse run_tool sleep describe id w = (w', Ret b) ∧
    status_of w' id = Some (if b : bool then COMPLETED else FAILED).
Proof.
  intros Hc Hs Hr Hh Hst.
  destruct (run_in_slot_end base_dir guess_type client parse run_tool sleep describe Hc Hs Hr w id
    Hh Hst) as (w' & b & ? & _ & ? & _). eauto.
Qed.

Lemma claimed_job_ends_witness :
  ∃ w' b, Demo.run_job (Demo.world_with []) = (w', Ret b) ∧
    status_of w' Demo.job = Some (if b : bool then COMPLETED else FAILED).
Proof.
  apply (claimed_job_ends (H := plain_unicode) Demo.base Demo.no_guess Demo.client Demo.parse
    Demo.run_tool Demo.sleep Demo.describe (Demo.world_with []) Demo.job).
  - intros r. apply steps_ret. apply _.
  - intros t. apply steps_ret. apply _.
  - intros j tool args. apply steps_ret. apply _.
  - constructor.
  - vm_compute. reflexivity.
Defined.

(** A job that is not CREATED is not touched: [_run_in_slot] returns
    [False], and neither the tables nor the file system changed. *)
Theorem taken_job_untouched {X} `{UnicodeData} base_dir guess_type
    (client : LLMRequest → eff exn (world X) pystr) parse
    (run_tool : uuid → pystr → list pystr → eff exn (world X * session) Z) sleep describe
    (w : world X) id :
  healthy (w_db w) → status_of w id ≠ Some CREATED →
  ∃ w', _run_in_slot base_dir guess_type client parse run_tool sleep describe id w = (w', Ret false) ∧
    w_fs w' = w_fs w ∧ committed (w_db w') = committed (w_db w).
Proof. intros Hh Hst. by apply run_in_slot_taken. Qed.

Lemma taken_job_untouched_witness :
  ∃ w', _run_in_slot (H := plain_unicode) Demo.base Demo.no_guess Demo.client Demo.parse
      Demo.run_tool Demo.sleep Demo.describe 5 (Demo.world_with []) = (w', Ret false) ∧
    w_fs w' = Demo.m0 ∧ committed (w_db w') = committed (Demo.db []).
Proof.
  apply (taken_job_untouched (H := plain_unicode) Demo.base Demo.no_guess Demo.client Demo.parse
    Demo.run_tool Demo.sleep Demo.describe (Demo.world_with []) 5); [constructor|].
  vm_compute. discriminate.
Defined.
