(* ===== verification/Sse.v ===== *)
(** * The event stream (sse/)

    [ConnectionRegistry], the encoder, [EventLogPollingRepository] and
    [SSEStreamService].  A stream runs on a database that changes under it;
    what it yields is collected in its state, so it survives exceptions.  The
    client may go away at any point where the generator is suspended.
    Times are in milliseconds; [isoformat] renders a timestamp. *)
From S2P Require Import Prelude PyStr Exceptions Schemas Database DatabaseFacts JobService.
Local Open Scope eff_scope.

(** ** sse/config.py *)
Definition MAX_CONNECTIONS : Z := 20.
Definition POLL_INTERVAL_SECONDS : Z := 500.
Definition EVENT_BATCH_SIZE : nat := 100.
Definition MAX_STREAM_DURATION_SECONDS : Z := 600000.
Definition RETRY_DELAYS_SECONDS : list Z := [500; 1000; 2000]%Z.
Definition TERMINAL_JOB_STATUSES : list status := [COMPLETED; FAILED].

(** ** sse/connection_registry.py *)
Record ConnectionRegistry := Registry { _max_connections : Z; _active_connections : Z }.

Definition new_registry (max_connections : Z) : outcome exn ConnectionRegistry :=
  if (max_connections <? 1)%Z then Exc (ValueError (py "max_connections must be at least 1"))
  else Ret (Registry max_connections 0).

(** Each method holds the lock from its first to its last statement. *)
Definition try_acquire (r : ConnectionRegistry) : ConnectionRegistry * bool :=
  if (_max_connections r <=? _active_connections r)%Z then (r, false)
  else (Registry (_max_connections r) (_active_connections r + 1), true).

Definition release (r : ConnectionRegistry) : ConnectionRegistry :=
  if (0 <? _active_connections r)%Z
  then Registry (_max_connections r) (_active_connections r - 1) else r.

(** ** sse/encoder.py *)
Definition _safe_event_name (value : pystr) : pystr := remove_char 10 (remove_char 13 value).

(** [json.dumps] of a string with [ensure_ascii=False] *)
Definition json_char (c : N) : pystr :=
  if (c =? 34)%N then py "\" ++ [34%N]
  else if (c =? 92)%N then py "\\"
  else if (c =? 10)%N then py "\n"
  else if (c =? 13)%N then py "\r"
  else if (c =? 9)%N then py "\t"
  else if (c =? 12)%N then py "\f"
  else if (c =? 8)%N then py "\b"
  else if (c <? 32)%N then py "\u" ++ hex_digits 4 c
  else [c].
Definition json_string (s : pystr) : pystr := [34%N] ++ concat (map json_char s) ++ [34%N].

Inductive json_field := FStr (s : pystr) | FInt (z : Z).
Definition json_value (v : json_field) : pystr :=
  match v with FStr s => json_string s | FInt z => str_of_Z z end.

(** [json.dumps(payload, ensure_ascii=False, separators=(",", ":"))] *)
Definition _json_data (payload : list (pystr * json_field)) : pystr :=
  py "{" ++ str_join (py ",") (map (λ '(k, v), json_string k ++ py ":" ++ json_value v) payload)
  ++ py "}".

Section encoder.
Context (isoformat : Z → pystr).

Definition encode_event (e : EventLog) : pystr :=
  let payload :=
    [ (py "job_id", FStr (uuid_str (event_job_id e))); (py "event_id", FInt (event_id e));
      (py "event_type", FStr (event_type e)); (py "message", FStr (message e));
      (py "created_at", FStr (isoformat (event_created_at e))) ] in
  py "id: " ++ str_of_Z (event_id e) ++ [10%N]
  ++ py "event: " ++ _safe_event_name (event_type e) ++ [10%N]
  ++ py "data: " ++ _json_data payload ++ [10%N; 10%N].
End encoder.

Definition encode_control (event_name : pystr) (job_id : uuid) (data : list (pystr * pystr)) : pystr :=
  let payload := (py "job_id", FStr (uuid_str job_id)) :: map (λ '(k, v), (k, FStr v)) data in
  py "event: " ++ _safe_event_name event_name ++ [10%N]
  ++ py "data: " ++ _json_data payload ++ [10%N; 10%N].

(** ** sse/repository.py *)
Record PollSnapshot := { events : list EventLog; poll_status : option status }.

Definition sse_job_exists (job_id : uuid) : eff exn database bool :=
  with_session (query (λ t, has_job t job_id)).

Definition resolve_cursor (job_id : uuid) (candidate : option Z) : eff exn database Z :=
  match candidate with
  | None => ret 0%Z
  | Some c =>
      if (c <=? 0)%Z then ret 0%Z
      else
        event_exists <- with_session (query (λ t,
          existsb (λ e, bool_decide (event_job_id e = job_id ∧ event_id e = c)) (event_logs t))) ;;
        ret (if event_exists : bool then c else 0%Z)
  end.

(** [filter(job_id, id > last_seen).order_by(id).limit(limit)] *)
Definition events_after (job_id : uuid) (last_seen_id : Z) (t : tables) : list EventLog :=
  sort_by_id (filter (λ e, event_job_id e = job_id ∧ (last_seen_id < event_id e)%Z) (event_logs t)).

Definition fetch_snapshot (job_id : uuid) (last_seen_id : Z) (limit : nat)
    : eff exn database PollSnapshot :=
  with_session (
    job_status_row <- query (λ t, job_status <$> jobs t !! job_id) ;;
    match job_status_row with
    | None => ret {| events := []; poll_status := None |}
    | Some st =>
        rows <- query (λ t, take limit (events_after job_id last_seen_id t)) ;;
        ret {| events := rows; poll_status := Some st |}
    end).

(** ** sse/service.py *)
Inductive item :=
  | ItemEvent (e : EventLog)
  | ItemControl (name : pystr) (data : list (pystr * pystr)).

Record stream_state := Stream {
  st_db : database;
  st_time : Z;                    (* [self._clock()] *)
  st_registry : ConnectionRegistry;
  st_out : list item;             (* what was yielded *)
  st_patience : option nat        (* suspensions until the client goes away *)
}.

Definition on_db {A} : eff exn database A → eff exn stream_state A :=
  zoom st_db (λ d s, Stream d (st_time s) (st_registry s) (st_out s) (st_patience s)).

(** The generator is suspended, at a [yield] or an [await].  When the client
    is gone it is resumed with an exception: the task is cancelled, or the
    generator is closed. *)
Definition suspend : eff exn stream_state unit := λ s,
  match st_patience s with
  | None => (s, Ret tt)
  | Some O => (s, Exc CancelledError)
  | Some (S n) => (Stream (st_db s) (st_time s) (st_registry s) (st_out s) (Some n), Ret tt)
  end.

Definition yield (i : item) : eff exn stream_state unit :=
  modify (λ s, Stream (st_db s) (st_time s) (st_registry s) (st_out s ++ [i]) (st_patience s)) ;;;
  suspend.

(** [await asyncio.sleep(t)] *)
Definition sse_sleep (t : Z) : eff exn stream_state unit :=
  modify (λ s, Stream (st_db s) (st_time s + t) (st_registry s) (st_out s) (st_patience s)) ;;;
  suspend.

(** [await run_in_threadpool(...)]: a cancellation waits for the thread. *)
Definition run_sync {A} (m : eff exn database A) : eff exn stream_state A :=
  a <- on_db m ;; suspend ;;; ret a.

Definition _is_transient (exc : exn) : bool :=
  match exc with
  | OperationalError => true
  | DBAPIError connection_invalidated => connection_invalidated
  | _ => false
  end.

Section service.
Context (poll_interval : Z) (batch_size : nat) (max_duration : Z) (retry_delays : list Z).
Context (job_id : uuid).

(** The loop of [_fetch_with_retry], on the delays that are left *)
Fixpoint fetch_retrying (delays : list Z) (last_seen_id : Z) : eff exn stream_state PollSnapshot :=
  try_catch (run_sync (fetch_snapshot job_id last_seen_id batch_size)) (λ exc,
    if is_dbapi_error exc && _is_transient exc then
      match delays with
      | delay :: delays' => sse_sleep delay ;;; fetch_retrying delays' last_seen_id
      | [] => raise exc
      end
    else raise exc).

Definition _fetch_with_retry (last_seen_id : Z) : eff exn stream_state PollSnapshot :=
  fetch_retrying retry_delays last_seen_id.

Definition JOB_NOT_FOUND := ItemControl (py "STREAM_ERROR") [(py "code", py "JOB_NOT_FOUND")].
Definition RECONNECT := ItemControl (py "STREAM_RECONNECT") [(py "reason", py "MAX_DURATION")].
Definition STREAM_END (st : status) :=
  ItemControl (py "STREAM_END") [(py "status", status_str st)].

(** [for event in snapshot.events: yield ...; cursor = event.event_id] *)
Fixpoint yield_events (evs : list EventLog) (cursor : Z) : eff exn stream_state Z :=
  match evs with
  | [] => ret cursor
  | e :: evs' => yield (ItemEvent e) ;;; yield_events evs' (event_id e)
  end.

(** The [while True] loop; [None]: out of fuel *)
Fixpoint stream_loop (fuel : nat) (started_at : Z) (cursor : Z) : eff exn stream_state (option unit) :=
  match fuel with
  | O => ret None
  | S fuel' =>
      t <- gets st_time ;;
      if (max_duration <=? t - started_at)%Z then yield RECONNECT ;;; ret (Some tt)
      else
        snapshot <- _fetch_with_retry cursor ;;
        match poll_status snapshot with
        | None => yield JOB_NOT_FOUND ;;; ret (Some tt)
        | Some st =>
            cursor' <- yield_events (events snapshot) cursor ;;
            if bool_decide (st ∈ TERMINAL_JOB_STATUSES)
               && (length (events snapshot) <? batch_size)%nat
            then yield (STREAM_END st) ;;; ret (Some tt)
            else if (batch_size <=? length (events snapshot))%nat
            then stream_loop fuel' started_at cursor'
            else
              t' <- gets st_time ;;
              let remaining := (max_duration - (t' - started_at))%Z in
              sse_sleep (Z.min poll_interval (Z.max 0 remaining)) ;;;
              stream_loop fuel' started_at cursor'
        end
  end.

Definition stream_error (code : pystr) : item :=
  ItemControl (py "STREAM_ERROR") [(py "code", code)].

Definition release_slot : eff exn stream_state unit :=
  modify (λ s, Stream (st_db s) (st_time s) (release (st_registry s)) (st_out s) (st_patience s)).

Definition stream (fuel : nat) (last_seen_id : Z) : eff exn stream_state (option unit) :=
  started_at <- gets st_time ;;
  try_finally
    (try_catch (stream_loop fuel started_at last_seen_id) (λ e,
       if bool_decide (e = CancelledError) then raise e
       else if is_sqlalchemy_error e
       then yield (stream_error (py "DATABASE_UNAVAILABLE")) ;;; ret (Some tt)
       else yield (stream_error (py "INTERNAL_ERROR")) ;;; ret (Some tt)))
    release_slot.
End service.
