(* ===== verification/SseFacts.v ===== *)
(** * The event stream is exact

    Connection slots are conserved, an encoded event is one event whatever
    its text, and a stream delivers the events of its job in order, each
    once, none missing when it says it has ended. *)
From stdpp Require Import pretty sorting.
From Stdlib Require Import Sorted.
From S2P Require Import Prelude PyStr Exceptions Schemas Database DatabaseFacts JobService Sse.
Local Open Scope eff_scope.

(** ** Connection slots *)

(** The registry with the number of streams that hold a slot *)
Inductive slot_step : relation (ConnectionRegistry * Z) :=
  | slot_open r h r' : try_acquire r = (r', true) → slot_step (r, h) (r', h + 1)%Z
  | slot_refused r h r' : try_acquire r = (r', false) → slot_step (r, h) (r', h)
  | slot_close r h : (0 < h)%Z → slot_step (r, h) (release r, h - 1)%Z.

Definition slots_ok (max : Z) (x : ConnectionRegistry * Z) : Prop :=
  _max_connections x.1 = max ∧ _active_connections x.1 = x.2 ∧ (0 ≤ x.2 ≤ max)%Z.

Lemma slot_step_ok max x y : slots_ok max x → slot_step x y → slots_ok max y.
Proof.
  intros (Hm & Ha & Hr) Hs. destruct Hs as [r h r' Ht|r h r' Ht|r h Hh]; simpl in *.
  - unfold try_acquire in Ht. destruct (Z.leb_spec (_max_connections r) (_active_connections r));
      simplify_eq/=. split_and!; simpl; lia.
  - unfold try_acquire in Ht. destruct (Z.leb_spec (_max_connections r) (_active_connections r));
      simplify_eq/=. by split_and!; simpl; try lia.
  - unfold release. rewrite (proj2 (Z.ltb_lt _ _)) by lia. split_and!; simpl; lia.
Qed.

Lemma slot_steps_ok max x y : slots_ok max x → rtc slot_step x y → slots_ok max y.
Proof. induction 2; eauto using slot_step_ok. Qed.

(** ** Encoding *)
Definition no_break (s : pystr) : Prop := Forall (λ c, c ≠ 10 ∧ c ≠ 13)%N s.

Lemma no_break_b s : forallb (λ c, negb (c =? 10)%N && negb (c =? 13)%N) s = true → no_break s.
Proof.
  unfold no_break. rewrite forallb_forall, Forall_forall. intros H c Hc%list_elem_of_In.
  apply H in Hc. by rewrite andb_true_iff, !negb_true_iff, !N.eqb_neq in Hc.
Qed.

Lemma pretty_N_go_chars (x : N) (s : string) :
  no_break (ascii_codes s) → no_break (ascii_codes (pretty_N_go x s)).
Proof.
  revert s. induction (N.lt_wf_0 x) as [x _ IH]. intros s Hs.
  destruct (decide (x = 0)%N) as [->|Hx]; [done|].
  rewrite pretty_N_go_step by lia. apply IH; [apply N.div_lt; lia|].
  simpl. constructor; [|done]. unfold pretty_N_char. repeat case_match; done.
Qed.

Lemma no_break_str_of_Z z : no_break (str_of_Z z).
Proof.
  assert (∀ n : N, no_break (ascii_codes (pretty n))) as HN.
  { intros n. unfold pretty, pretty_N. case_decide; [by apply no_break_b|].
    apply pretty_N_go_chars. constructor. }
  unfold str_of_Z, pretty, pretty_Z. destruct z; [by apply no_break_b|apply HN|].
  simpl. constructor; [done|apply HN].
Qed.

Lemma no_break_app s t : no_break (s ++ t) ↔ no_break s ∧ no_break t.
Proof. apply Forall_app. Qed.

Lemma no_break_hex k n : no_break (hex_digits k n).
Proof.
  eapply Forall_impl; [apply hex_digits_chars|]. intros c Hc. simpl in Hc.
  split; intros ->; by vm_compute in Hc.
Qed.

Lemma no_break_json_string s : no_break (json_string s).
Proof.
  unfold json_string. rewrite !no_break_app. split_and!; [by apply no_break_b| |by apply no_break_b].
  induction s as [|c s IH]; simpl; [constructor|]. apply no_break_app. split; [|done].
  unfold json_char. repeat case_match; try (by apply no_break_b).
  - apply no_break_app. split; [by apply no_break_b|apply no_break_hex].
  - constructor; [|constructor]. by rewrite <-!N.eqb_neq.
Qed.

Lemma no_break_join sep l : no_break sep → Forall no_break l → no_break (str_join sep l).
Proof.
  intros Hs Hl. induction Hl as [|x [|y l] Hx Hl IH]; simpl in *; [constructor|done|].
  rewrite !no_break_app. done.
Qed.

Lemma no_break_json_data payload : no_break (_json_data payload).
Proof.
  unfold _json_data. rewrite !no_break_app. split_and!; [by apply no_break_b| |by apply no_break_b].
  apply no_break_join; [by apply no_break_b|]. apply Forall_map, Forall_forall.
  intros [k v] _. rewrite !no_break_app.
  split_and!; [apply no_break_json_string|by apply no_break_b|].
  destruct v; [apply no_break_json_string|apply no_break_str_of_Z].
Qed.

Lemma no_break_event_name s : no_break (_safe_event_name s).
Proof.
  apply Forall_forall. intros c. unfold _safe_event_name, remove_char.
  rewrite !list_elem_of_filter. tauto.
Qed.

Lemma split_on_app sep a b : sep ∉ a → split_on sep (a ++ sep :: b) = a :: split_on sep b.
Proof.
  intros Ha. induction a as [|c a IH]; simpl.
  - by rewrite N.eqb_refl.
  - apply not_elem_of_cons in Ha as [Hc Ha]. rewrite IH by done.
    destruct (N.eqb_spec c sep) as [->|_]; done.
Qed.

Lemma no_break_notin s : no_break s → (10%N) ∉ s.
Proof. intros Hs Hin. unfold no_break in Hs. rewrite Forall_forall in Hs. by apply Hs in Hin as []. Qed.

(** A line of a frame *)
Lemma frame_line field value rest :
  no_break field → no_break value →
  split_on 10 (field ++ value ++ [10%N] ++ rest) = (field ++ value) :: split_on 10 rest.
Proof.
  intros Hf Hv. rewrite (app_assoc field). apply split_on_app, no_break_notin, no_break_app. done.
Qed.

(** ** Sorting *)
Definition in_order (l : list EventLog) : Prop :=
  StronglySorted (λ e e', event_id e < event_id e')%Z l.

Lemma insert_by_id_perm e l : insert_by_id e l ≡ₚ e :: l.
Proof.
  induction l as [|e' l IH]; simpl; [done|]. case_match; [done|].
  rewrite IH. by constructor.
Qed.

Lemma sort_perm l : sort_by_id l ≡ₚ l.
Proof. induction l as [|e l IH]; simpl; [done|]. by rewrite insert_by_id_perm, IH. Qed.

Lemma insert_in_order e l :
  in_order l → event_id e ∉ event_id <$> l → in_order (insert_by_id e l).
Proof.
  intros Hl. induction Hl as [|e' l Hl IH He]; simpl; intros Hni.
  { constructor; constructor. }
  apply not_elem_of_cons in Hni as [Hne Hni].
  destruct (Z.leb_spec (event_id e) (event_id e')) as [Hle|Hlt].
  - constructor; [by constructor|]. constructor; [lia|].
    eapply Forall_impl; [exact He|]. simpl. lia.
  - constructor; [by apply IH|]. change (Forall (λ x, event_id e' < event_id x)%Z (insert_by_id e l)).
    rewrite insert_by_id_perm. by constructor.
Qed.

Lemma sort_in_order l : NoDup (event_id <$> l) → in_order (sort_by_id l).
Proof.
  induction l as [|e l IH]; simpl; [constructor|]. intros [Hni Hnd]%NoDup_cons.
  apply insert_in_order; [by apply IH|]. by rewrite sort_perm.
Qed.

Lemma in_order_NoDup l : in_order l → NoDup l.
Proof.
  induction 1 as [|e l Hl IH He]; constructor; [|done]. intros Hin.
  rewrite Forall_forall in He. apply He in Hin. lia.
Qed.

Lemma in_order_unique l1 l2 :
  in_order l1 → in_order l2 → (∀ e, e ∈ l1 ↔ e ∈ l2) → l1 = l2.
Proof.
  intros H1 H2 Hin. apply (StronglySorted_unique_strong (λ e e', event_id e < event_id e')%Z); [|exact H1|exact H2|].
  - intros x y _ _ ? ?. simpl in *. lia.
  - apply NoDup_Permutation; auto using in_order_NoDup.
Qed.

Lemma in_order_app l1 l2 :
  in_order (l1 ++ l2) ↔ in_order l1 ∧ in_order l2 ∧
    ∀ e1 e2, e1 ∈ l1 → e2 ∈ l2 → (event_id e1 < event_id e2)%Z.
Proof.
  induction l1 as [|e l1 IH]; simpl.
  - split; [intros ?; split_and!; [constructor|done|by intros ???%not_elem_of_nil]|tauto].
  - split.
    + intros H. apply StronglySorted_inv in H as [H He].
      apply IH in H as (? & ? & ?). apply Forall_app in He as [? He2].
      split_and!; [by constructor|done|]. intros e1 e2 [->|?]%elem_of_cons Hin; [|by auto].
      rewrite Forall_forall in He2. by apply He2.
    + intros (H1 & H2 & H12). apply StronglySorted_inv in H1 as [H1 He].
      constructor.
      * apply IH. split_and!; [done..|]. intros; apply H12; [by right|done].
      * apply Forall_app. split; [done|]. apply Forall_forall. intros e2 ?. apply H12; [by left|done].
Qed.

(** ** One fetch *)
Definition is_new (job_id : uuid) (cursor : Z) (t : tables) (e : EventLog) : Prop :=
  e ∈ event_logs t ∧ event_job_id e = job_id ∧ (cursor < event_id e)%Z.

Lemma elem_of_events_after job_id cursor t e :
  e ∈ events_after job_id cursor t ↔ is_new job_id cursor t e.
Proof.
  unfold events_after, is_new. rewrite sort_perm, list_elem_of_filter. tauto.
Qed.

Lemma events_after_in_order job_id cursor t n :
  ids_ok (event_logs t) n → in_order (events_after job_id cursor t).
Proof.
  intros [Hnd _]. apply sort_in_order.
  eapply sublist_NoDup; [exact Hnd|]. apply fmap_sublist, sublist_filter.
Qed.

Definition cursor_after (cursor : Z) (evs : list EventLog) : Z :=
  match last evs with Some e => event_id e | None => cursor end.

(** A batch is the next events, in order. *)
Lemma batch_spec job_id cursor t n limit evs :
  ids_ok (event_logs t) n → (cursor < n)%Z →
  evs = take limit (events_after job_id cursor t) →
  let cursor' := cursor_after cursor evs in
  in_order evs ∧ (cursor ≤ cursor' < n)%Z ∧
  (∀ e, e ∈ evs ↔ is_new job_id cursor t e ∧ (event_id e ≤ cursor')%Z) ∧
  (length evs < limit → ∀ e, is_new job_id cursor t e → e ∈ evs)%nat.
Proof.
  intros Hids Hn ->. set (all := events_after job_id cursor t).
  pose proof (events_after_in_order job_id cursor t n Hids) as Ho. fold all in Ho.
  assert (∀ e, e ∈ all ↔ is_new job_id cursor t e) as Hall by apply elem_of_events_after.
  pose proof (take_drop limit all) as Hsplit.
  rewrite <-Hsplit in Ho. apply in_order_app in Ho as (Ho & Ho2 & H12).
  assert (Hlen : (length (take limit all) < limit)%nat → drop limit all = []).
  { intros Hl. rewrite length_take in Hl. apply nil_length_inv. rewrite length_drop. lia. }
  set (evs := take limit all) in *. clearbody evs. simpl.
  assert (∀ e, e ∈ evs → is_new job_id cursor t e) as Hnew.
  { intros e He. apply Hall. rewrite <-Hsplit. apply elem_of_app. by left. }
  assert (Hlast : ∀ e, e ∈ evs → (event_id e ≤ cursor_after cursor evs)%Z).
  { intros e He. unfold cursor_after. destruct (last evs) as [e'|] eqn:Hl.
    - apply last_Some in Hl as [l ->].
      apply elem_of_app in He as [He| ->%list_elem_of_singleton]; [|done].
      apply in_order_app in Ho as (_ & _ & Hlt). apply Z.lt_le_incl, Hlt; [done|by left].
    - apply last_None in Hl as ->. by apply not_elem_of_nil in He. }
  split; [done|]. split; [|split; [split|]].
  - unfold cursor_after. destruct (last evs) as [e|] eqn:Hl; [|lia].
    apply last_Some in Hl as [l ->].
    destruct (Hnew e) as (Hin & _ & Hgt); [apply elem_of_app; right; left|].
    destruct Hids as [_ Hlt]. rewrite Forall_forall in Hlt. specialize (Hlt _ Hin). lia.
  - intros He. auto.
  - intros [He Hle]. apply Hall in He as Hin. rewrite <-Hsplit in Hin.
    apply elem_of_app in Hin as [?|Hd]; [done|]. exfalso. revert Hle. unfold cursor_after.
    destruct (last evs) as [e'|] eqn:Hl.
    + apply last_Some in Hl as [l ->]. intros Hle.
      assert (event_id e' < event_id e)%Z; [|lia].
      apply H12; [apply elem_of_app; right; left|done].
    + destruct He as (_ & _ & ?). lia.
  - intros Hl e He. apply Hall in He. rewrite <-Hsplit, (Hlen Hl), app_nil_r in He. done.
Qed.

(** ** What has been delivered *)
Definition events_of (out : list item) : list EventLog :=
  omap (λ i, match i with ItemEvent e => Some e | ItemControl _ _ => None end) out.

Lemma events_of_app out1 out2 : events_of (out1 ++ out2) = events_of out1 ++ events_of out2.
Proof. apply omap_app. Qed.

(** [evs] are exactly the events of the job after [last_seen] up to [cursor]. *)
Definition delivered (job_id : uuid) (last_seen cursor : Z) (t : tables) (evs : list EventLog) : Prop :=
  in_order evs ∧ (last_seen ≤ cursor)%Z ∧
  ∀ e, e ∈ evs ↔ is_new job_id last_seen t e ∧ (event_id e ≤ cursor)%Z.

Definition nobody (_ : uuid) : bool := false.

Lemma delivered_drift job_id last_seen cursor d d' evs :
  drift nobody d d' → (cursor < next_event_id d)%Z →
  delivered job_id last_seen cursor (committed d) evs →
  delivered job_id last_seen cursor (committed d') evs.
Proof.
  intros (_ & _ & _ & new & Hlogs & _ & _ & Hnew) Hc (Ho & Hle & Hin).
  split_and!; [done..|]. intros e. rewrite Hin. unfold is_new. rewrite Hlogs, elem_of_app.
  split; [tauto|]. intros [([?|He] & ? & ?) ?]; [tauto|].
  rewrite Forall_forall in Hnew. apply Hnew in He. lia.
Qed.

Lemma delivered_batch job_id last_seen cursor t n limit evs batch :
  ids_ok (event_logs t) n → (cursor < n)%Z → delivered job_id last_seen cursor t evs →
  batch = take limit (events_after job_id cursor t) →
  delivered job_id last_seen (cursor_after cursor batch) t (evs ++ batch) ∧
  (cursor_after cursor batch < n)%Z ∧
  (length batch < limit →
     ∀ e, is_new job_id last_seen t e → e ∈ evs ++ batch)%nat.
Proof.
  intros Hids Hn (Ho & Hle & Hin) Hb.
  destruct (batch_spec job_id cursor t n limit batch Hids Hn Hb) as (Hob & Hcur & Hinb & Hall).
  assert (∀ e, is_new job_id cursor t e ↔ is_new job_id last_seen t e ∧ (cursor < event_id e)%Z)
    as Hsplit by (intros e; unfold is_new; lia || (split; [intros (?&?&?)|intros ((?&?&?)&?)]; split_and!; auto; lia)).
  split; [|split; [lia|]].
  - split_and!; [|lia|].
    + apply in_order_app. split_and!; [done..|]. intros e1 e2 [_ ?]%Hin [(_&_&?) _]%Hinb. lia.
    + intros e. rewrite elem_of_app, Hin, Hinb, Hsplit.
      destruct (Z.le_gt_cases (event_id e) cursor); split; [|tauto| |tauto];
        intros; destruct_or?; destruct_and?; split_and?; try done; lia.
  - intros Hl e He. apply elem_of_app. destruct (Z.le_gt_cases (event_id e) cursor).
    + left. by apply Hin.
    + right. apply Hall; [done|]. by apply Hsplit.
Qed.

(** ** Fetching while the database moves *)
Lemma tick_ok d d' r :
  db_ok d → next_tick (is_locked fresh_session) d = (d', r) → db_ok d' ∧ drift nobody d d'.
Proof.
  intros [Hs Hids] Ht. apply next_tick_drift in Ht as [Hs' Hd]; [|done]. split; [|done].
  split; [done|]. destruct Hd as (_ & _ & _ & new & -> & Hnum).
  rewrite <-(app_nil_r new). eapply ids_ok_extend; [by rewrite app_nil_r|done].
Qed.

Lemma fetch_snapshot_spec job_id cursor limit d d' o :
  db_ok d → fetch_snapshot job_id cursor limit d = (d', o) →
  db_ok d' ∧ drift nobody d d' ∧
  match o with
  | Ret snap =>
      match poll_status snap with
      | Some st =>
          events snap = take limit (events_after job_id cursor (committed d')) ∧
          ∃ j, jobs (committed d') !! job_id = Some j ∧ reach st (job_status j)
      | None => events snap = []
      end
  | Exc _ => True
  end.
Proof.
  intros Hok. unfold fetch_snapshot, with_session, ebind, query, statement. simpl.
  destruct (next_tick _ d) as [d1 r1] eqn:Ht1. apply tick_ok in Ht1 as [Hok1 Hd1]; [|done].
  destruct r1 as [|e|e]; [|by intros [= <- <-]..]. simpl.
  unfold view at 1. simpl. destruct (jobs (committed d1) !! job_id) as [j|] eqn:Hj; simpl;
    [|by intros [= <- <-]].
  change (is_locked _) with (is_locked fresh_session).
  destruct (next_tick _ d1) as [d2 r2] eqn:Ht2. apply tick_ok in Ht2 as [Hok2 Hd2]; [|done].
  destruct r2 as [|e|e]; simpl; intros [= <- <-]; (split; [done|split; [by etrans|]]); [|done..].
  simpl. split; [done|]. destruct Hd2 as ((Hev & _) & _).
  destruct (Hev _ _ Hj) as (j' & Hj' & Hreach & _). exists j'. split; [exact Hj'|exact Hreach].
Qed.

(** A step of the stream that yields nothing *)
Definition polled (s s' : stream_state) : Prop :=
  db_ok (st_db s') ∧ drift nobody (st_db s) (st_db s') ∧ st_out s' = st_out s ∧
  st_registry s' = st_registry s.

(** The client stays, or it is gone. *)
Definition stays {A} (o : outcome exn A) (a : A) : Prop := o = Ret a ∨ o = Exc CancelledError.

Lemma suspend_run s :
  ∃ p o, suspend s = (Stream (st_db s) (st_time s) (st_registry s) (st_out s) p, o) ∧ stays o tt.
Proof.
  unfold suspend, stays. destruct s as [d t r o [[|n]|]]; simpl; eexists _, _; (split; [done|]); auto.
Qed.

Lemma run_sync_run {A} (m : eff exn database A) s :
  ∃ p o, run_sync m s = (Stream (m (st_db s)).1 (st_time s) (st_registry s) (st_out s) p, o) ∧
    (o = (m (st_db s)).2 ∨ o = Exc CancelledError).
Proof.
  unfold run_sync, ebind, on_db, zoom. destruct (m (st_db s)) as [d [a|e]]; simpl; [|eauto].
  set (s1 := Stream d _ _ _ _). destruct (suspend_run s1) as (p & o & -> & [->| ->]); eauto.
Qed.

Lemma yield_run i s :
  ∃ p o, yield i s = (Stream (st_db s) (st_time s) (st_registry s) (st_out s ++ [i]) p, o) ∧ stays o tt.
Proof. unfold yield. run. set (s1 := Stream _ _ _ _ _). apply (suspend_run s1). Qed.

Lemma sleep_run t s :
  ∃ p o, sse_sleep t s = (Stream (st_db s) (st_time s + t) (st_registry s) (st_out s) p, o) ∧ stays o tt.
Proof. unfold sse_sleep. run. set (s1 := Stream _ _ _ _ _). apply (suspend_run s1). Qed.

Lemma fetch_retrying_spec batch_size job_id delays cursor s s' o :
  db_ok (st_db s) → fetch_retrying batch_size job_id delays cursor s = (s', o) →
  polled s s' ∧
  match o with
  | Ret snap =>
      match poll_status snap with
      | Some st =>
          events snap = take batch_size (events_after job_id cursor (committed (st_db s'))) ∧
          ∃ j, jobs (committed (st_db s')) !! job_id = Some j ∧ reach st (job_status j)
      | None => events snap = []
      end
  | Exc _ => True
  end.
Proof.
  revert s. induction delays as [|t delays IH]; intros s Hok; simpl; unfold try_catch.
  all: destruct (run_sync_run (fetch_snapshot job_id cursor batch_size) s) as (p & o1 & -> & Ho);
    destruct (fetch_snapshot job_id cursor batch_size (st_db s)) as [d1 o2] eqn:Hf;
    apply fetch_snapshot_spec in Hf as (Hok1 & Hd1 & Ho1); try done; simpl in *;
    destruct Ho as [->| ->]; [|by intros [= <- <-]];
    destruct o2 as [snap|e]; try (by intros [= <- <-]);
    destruct (is_dbapi_error e && _is_transient e); try (by intros [= <- <-]).
  unfold ebind. set (s1 := Stream d1 _ _ _ p).
  destruct (sleep_run t s1) as (p' & o3 & -> & [->| ->]); [|by intros [= <- <-]].
  intros H. apply IH in H as [(? & Hd2 & Hout & Hreg) Ho]; [|done].
  split; [|done]. split_and!; [done|by etrans|done|done].
Qed.

(** ** The loop *)
(** ** How many events there will be *)
Definition tx_size (x : transaction) : nat :=
  match x with TxInsert rows => length rows | TxTransition _ _ _ _ _ => 1 | TxPlan _ _ => 0 end.

(** A bound on the events there will ever be *)
Definition capacity (d : database) : nat :=
  length (event_logs (committed d)) +
  sum_list_with (λ k, sum_list_with tx_size (others k)) (script d).

Lemma insert_rows_count now next t rows next' ops :
  insert_rows now next t rows = (next', Some ops) → (length (omap op_log ops) ≤ length rows)%nat.
Proof.
  revert next t ops. induction rows as [|r rows IH]; intros next t ops; simpl.
  { by intros [= _ <-]. }
  destruct (insert_row now next t r) as [n1 [o|]]; [|done].
  destruct (insert_rows now n1 _ rows) as [n2 [ops'|]] eqn:Hs; [|done].
  intros [= -> <-]. apply IH in Hs. change (o :: ops') with ([o] ++ ops').
  rewrite omap_app, length_app. simpl. destruct (op_log o); simpl; lia.
Qed.

Lemma commit_other_count locked d x :
  (length (event_logs (committed (commit_other locked d x))) ≤
   length (event_logs (committed d)) + tx_size x)%nat.
Proof.
  destruct x as [rows|id expected target ty msg|id plan]; simpl.
  - destruct (existsb _ rows); [simpl; lia|].
    destruct (insert_rows _ _ _ rows) as [n [ops|]] eqn:Hr; simpl; [|lia].
    apply insert_rows_count in Hr. rewrite apply_ops_logs, length_app. lia.
  - destruct (jobs _ !! id); [|simpl; lia]. destruct (_ && _); simpl; [|lia].
    rewrite length_app. simpl. lia.
  - destruct (jobs _ !! id); [|simpl; lia]. destruct (_ && _); simpl; lia.
Qed.

Lemma next_tick_capacity locked d d' r :
  next_tick locked d = (d', r) → (capacity d' ≤ capacity d)%nat.
Proof.
  unfold next_tick, capacity. destruct (script d) as [|k ks] eqn:Hs.
  { intros [= <- _]. rewrite Hs. lia. }
  intros [= <- _]. rewrite commit_others_script. simpl.
  assert (∀ xs d0, (length (event_logs (committed (foldl (commit_other locked) d0 xs))) ≤
    length (event_logs (committed d0)) + sum_list_with tx_size xs)%nat) as Hx.
  { intros xs. induction xs as [|x xs IH]; intros d0; simpl; [lia|].
    specialize (IH (commit_other locked d0 x)). pose proof (commit_other_count locked d0 x). lia. }
  specialize (Hx (others k) (elapse k ks d)). simpl in Hx. lia.
Qed.

Section loop.
Context (poll_interval : Z) (batch_size : nat) (max_duration : Z) (retry_delays : list Z).
Context (job_id : uuid) (last_seen : Z).
Abbreviation loop := (stream_loop poll_interval batch_size max_duration retry_delays job_id).

Definition loop_inv (s : stream_state) (cursor : Z) : Prop :=
  db_ok (st_db s) ∧ (cursor < next_event_id (st_db s))%Z ∧
  delivered job_id last_seen cursor (committed (st_db s)) (events_of (st_out s)).

(** The stream said that it is over, and is right. *)
Definition ended (s : stream_state) (st : status) : Prop :=
  terminal st = true ∧
  (∃ j, jobs (committed (st_db s)) !! job_id = Some j ∧ job_status j = st) ∧
  ∀ e, is_new job_id last_seen (committed (st_db s)) e → e ∈ events_of (st_out s).

Definition loop_post (s s' : stream_state) : Prop :=
  st_registry s' = st_registry s ∧ (∃ cursor, loop_inv s' cursor) ∧
  ∃ new, st_out s' = st_out s ++ new ∧ ∀ st, STREAM_END st ∈ new → ended s' st.

Lemma loop_post_trans s1 s2 s3 new :
  st_registry s2 = st_registry s1 → st_out s2 = st_out s1 ++ new → (∀ st, STREAM_END st ∉ new) →
  loop_post s2 s3 → loop_post s1 s3.
Proof.
  intros Hr Ho Hn (Hr' & Hi & new' & Ho' & Hend). split_and!; [congruence|done|].
  exists (new ++ new'). rewrite Ho', Ho, app_assoc. split; [done|].
  intros st [?|?]%elem_of_app; [by destruct (Hn st)|by apply Hend].
Qed.

(** Yields an item that is neither an event nor the end. *)
Lemma loop_post_control s cursor i p :
  loop_inv s cursor → (∀ e, i ≠ ItemEvent e) → (∀ st, i ≠ STREAM_END st) →
  loop_post s (Stream (st_db s) (st_time s) (st_registry s) (st_out s ++ [i]) p).
Proof.
  intros (Hok & Hc & Hd) Hne Hns. split_and!; [done| |].
  - exists cursor. split_and!; [done..|]. simpl. rewrite events_of_app.
    destruct i as [e|]; [by destruct (Hne e)|]. simpl. by rewrite app_nil_r.
  - exists [i]. split; [done|]. intros st Hin%list_elem_of_singleton. by destruct (Hns st).
Qed.

Lemma loop_inv_polled s s' cursor : loop_inv s cursor → polled s s' → loop_inv s' cursor.
Proof.
  intros (Hok & Hc & Hd) (Hok' & Hdr & Ho & _). split_and!; [done| |].
  - destruct Hdr as (_ & _ & _ & _ & _ & ? & _). lia.
  - rewrite Ho. by eapply delivered_drift.
Qed.

(** The events of a batch have been yielded. *)
Definition after_batch (s : stream_state) (batch : list EventLog) (p : option nat) : stream_state :=
  Stream (st_db s) (st_time s) (st_registry s) (st_out s ++ map ItemEvent batch) p.

Lemma yield_events_run evs cursor s :
  ∃ k p o, yield_events evs cursor s = (after_batch s (take k evs) p, o) ∧
    (o = Ret (cursor_after cursor evs) ∧ take k evs = evs ∨ o = Exc CancelledError).
Proof.
  revert cursor s. induction evs as [|e evs IH]; intros cursor s; simpl.
  - exists 0%nat, (st_patience s), (Ret cursor). split; [|by left].
    unfold after_batch. simpl. rewrite app_nil_r. by destruct s.
  - unfold ebind. destruct (yield_run (ItemEvent e) s) as (p & o & -> & [->| ->]).
    + destruct (IH (event_id e) (Stream (st_db s) (st_time s) (st_registry s) (st_out s ++ [ItemEvent e]) p))
        as (k & p' & o' & -> & Ho). exists (S k), p', o'. unfold after_batch. simpl.
      rewrite <-app_assoc. split; [done|]. destruct Ho as [[-> Hk]|Ho]; [left|by right].
      rewrite Hk. split; [|done]. unfold cursor_after. rewrite last_cons. by destruct (last evs).
    + exists 1%nat, p, (Exc CancelledError). split; [|by right]. unfold after_batch. done.
Qed.

Lemma events_of_map evs : events_of (map ItemEvent evs) = evs.
Proof. induction evs as [|e evs IH]; simpl; [done|]. by rewrite IH. Qed.

Lemma end_not_event st evs : STREAM_END st ∉ map ItemEvent evs.
Proof. rewrite list_elem_of_In, in_map_iff. by intros (e & [=] & _). Qed.

Lemma loop_post_end s cursor st p :
  loop_inv s cursor → terminal st = true →
  (∃ j, jobs (committed (st_db s)) !! job_id = Some j ∧ job_status j = st) →
  (∀ e, is_new job_id last_seen (committed (st_db s)) e → e ∈ events_of (st_out s)) →
  loop_post s (Stream (st_db s) (st_time s) (st_registry s) (st_out s ++ [STREAM_END st]) p).
Proof.
  intros Hinv Hts Hj Hall.
  assert (events_of (st_out s ++ [STREAM_END st]) = events_of (st_out s)) as Heq.
  { rewrite events_of_app. simpl. apply app_nil_r. }
  split_and!; [done|exists cursor|].
  - split_and!; [apply Hinv..|]. simpl. rewrite Heq. apply Hinv.
  - exists [STREAM_END st]. split; [done|]. intros st' Hin%list_elem_of_singleton.
    assert (st' = st) as -> by (injection Hin as Hn; destruct st, st'; done || by vm_compute in Hn).
    split_and!; [done|done|]. simpl. by rewrite Heq.
Qed.

Lemma terminal_listed st : st ∈ TERMINAL_JOB_STATUSES ↔ terminal st = true.
Proof.
  split; [by intros [->|[->|?%not_elem_of_nil]%elem_of_cons]%elem_of_cons|].
  destruct st; try done; intros _; [left|right; left].
Qed.

Lemma loop_post_refl s cursor : loop_inv s cursor → loop_post s s.
Proof.
  intros Hinv. split_and!; [done|by exists cursor|]. exists []. rewrite app_nil_r.
  split; [done|]. by intros st ?%not_elem_of_nil.
Qed.

Lemma round_ok s cursor s1 snap st k p :
  loop_inv s cursor →
  fetch_retrying batch_size job_id retry_delays cursor s = (s1, Ret snap) →
  poll_status snap = Some st →
  let batch := take k (events snap) in
  loop_inv (after_batch s1 batch p) (cursor_after cursor batch) ∧
  (∃ j, jobs (committed (st_db s1)) !! job_id = Some j ∧ reach st (job_status j)) ∧
  (batch = events snap → length (events snap) < batch_size →
     ∀ e, is_new job_id last_seen (committed (st_db s1)) e →
       e ∈ events_of (st_out (after_batch s1 batch p)))%nat.
Proof.
  intros Hinv Hf Hst batch. apply fetch_retrying_spec in Hf as [Hp Ho]; [|apply Hinv].
  pose proof (loop_inv_polled _ _ _ Hinv Hp) as (Hok & Hc & Hd). pose proof Hok as [_ Hids].
  rewrite Hst in Ho. destruct Ho as [Hev Hj].
  assert (batch = take (k `min` batch_size) (events_after job_id cursor (committed (st_db s1)))) as Hb
    by (unfold batch; by rewrite Hev, take_take).
  destruct (delivered_batch _ _ _ _ _ _ _ _ Hids Hc Hd Hb) as (Hd2 & Hc2 & _).
  destruct (delivered_batch _ _ _ _ _ _ _ _ Hids Hc Hd Hev) as (_ & _ & Hall).
  unfold after_batch, loop_inv; simpl. rewrite events_of_app, events_of_map.
  split_and!; try done. by intros ->.
Qed.

Lemma after_batch_post s batch p s' :
  loop_post (after_batch s batch p) s' → loop_post s s'.
Proof.
  apply loop_post_trans with (new := map ItemEvent batch); [done|done|].
  intros. apply end_not_event.
Qed.

Lemma polled_post s s1 s' : polled s s1 → loop_post s1 s' → loop_post s s'.
Proof.
  intros (_ & _ & Hout & Hreg). apply loop_post_trans with (new := []); [done|by rewrite app_nil_r|].
  by intros st ?%not_elem_of_nil.
Qed.

(** A control frame, then the end, unless the client is gone *)
Lemma yield_then_ret {A} i (a : A) s s' o :
  (yield i ;;; ret a) s = (s', o) →
  ∃ p, s' = Stream (st_db s) (st_time s) (st_registry s) (st_out s ++ [i]) p ∧ stays o a.
Proof.
  unfold ebind. destruct (yield_run i s) as (p & o1 & -> & [->| ->]); intros [= <- <-];
    exists p; (split; [done|]); [by left|by right].
Qed.

Lemma stream_loop_post fuel started cursor s s' o :
  loop_inv s cursor → loop fuel started cursor s = (s', o) → loop_post s s'.
Proof.
  revert cursor s. induction fuel as [|fuel IH]; intros cursor s Hinv; simpl.
  { intros [= <- <-]. by eapply loop_post_refl. }
  run. destruct (max_duration <=? _)%Z.
  { intros (p & -> & _)%yield_then_ret. eapply loop_post_control; [done|done|]. by intros st [=]. }
  intros Hrun. unfold ebind at 1, _fetch_with_retry in Hrun.
  destruct (fetch_retrying _ _ _ _ s) as [s1 o1] eqn:Hf.
  pose proof Hf as [Hp _]%fetch_retrying_spec; [|apply Hinv]. apply (polled_post _ _ _ Hp).
  pose proof (loop_inv_polled _ _ _ Hinv Hp) as Hinv1.
  destruct o1 as [snap|e]; [|by injection Hrun as <- <-; eapply loop_post_refl].
  destruct (poll_status snap) as [st|] eqn:Hst; cycle 1.
  { apply yield_then_ret in Hrun as (p & -> & _).
    eapply loop_post_control; [done|done|]. by intros st [=]. }
  destruct (yield_events_run (events snap) cursor s1) as (k & p & o2 & Hy & Ho2).
  destruct (round_ok _ _ _ _ _ k p Hinv Hf Hst) as (Hinv2 & (j & Hj & Hreach) & Hall).
  apply (after_batch_post _ (take k (events snap)) p). unfold ebind at 1 in Hrun.
  rewrite Hy in Hrun. destruct Ho2 as [[-> Hk]| ->]; cycle 1.
  { injection Hrun as <- <-. by eapply loop_post_refl. }
  rewrite Hk in *. specialize (Hall eq_refl).
  destruct (bool_decide (st ∈ TERMINAL_JOB_STATUSES) && _) eqn:Hterm.
  { apply andb_true_iff in Hterm as [Ht%bool_decide_eq_true Hl%Nat.ltb_lt].
    apply terminal_listed in Ht. apply yield_then_ret in Hrun as (p' & -> & _).
    eapply (loop_post_end (after_batch s1 (events snap) p)); [exact Hinv2|done| |by apply Hall].
    exists j. split; [done|]. by apply reach_terminal. }
  destruct (batch_size <=? _)%nat; [by eapply IH|]. run in Hrun. unfold ebind in Hrun.
  set (t := Z.min _ _) in Hrun.
  destruct (sleep_run t (after_batch s1 (events snap) p)) as (p' & o3 & Hs & Ho3).
  rewrite Hs in Hrun.
  eapply (loop_post_trans _ (Stream _ _ _ _ p') _ []); [| | |destruct Ho3 as [->| ->];
    [eapply IH, Hrun; exact Hinv2|injection Hrun as <- <-; eapply loop_post_refl; exact Hinv2]];
    [done|by rewrite app_nil_r|by intros ? ?%not_elem_of_nil].
Qed.

(** ** The loop ends *)
Lemma fetch_snapshot_capacity cursor limit d :
  (capacity (fetch_snapshot job_id cursor limit d).1 ≤ capacity d)%nat.
Proof using.
  unfold fetch_snapshot, with_session, ebind, query, statement. simpl.
  destruct (next_tick _ d) as [d1 r1] eqn:Ht1. apply next_tick_capacity in Ht1.
  destruct r1 as [|e|e]; simpl; [|done..]. destruct (jobs _ !! job_id); simpl; [|done].
  destruct (next_tick _ d1) as [d2 r2] eqn:Ht2. apply next_tick_capacity in Ht2.
  destruct r2; simpl; lia.
Qed.

Lemma fetch_retrying_measure delays cursor s :
  Forall (λ t, 0 ≤ t)%Z delays →
  let s' := (fetch_retrying batch_size job_id delays cursor s).1 in
  (capacity (st_db s') ≤ capacity (st_db s))%nat ∧ (st_time s ≤ st_time s')%Z.
Proof using.
  intros Hd. revert s. induction Hd as [|t delays Ht Hd IH]; intros s; simpl; unfold try_catch.
  all: destruct (run_sync_run (fetch_snapshot job_id cursor batch_size) s) as (p & o1 & -> & Ho);
    pose proof (fetch_snapshot_capacity cursor batch_size (st_db s)) as Hc;
    destruct (fetch_snapshot job_id cursor batch_size (st_db s)) as [d1 o2]; simpl in *;
    destruct o1 as [snap|e]; try done; destruct (_ && _); try done.
  unfold ebind. set (s1 := Stream d1 _ _ _ p).
  destruct (sleep_run t s1) as (p' & o & -> & [->| ->]); simpl; [|lia].
  set (s2 := Stream _ _ _ _ p'). destruct (IH s2) as [? ?]. simpl in *. lia.
Qed.

(** Sleeps that are left *)
Definition sleeps_left (started : Z) (s : stream_state) : nat :=
  Z.to_nat ((max_duration - (st_time s - started) + poll_interval - 1) / poll_interval).

Definition work_left (started : Z) (s : stream_state) : nat :=
  (capacity (st_db s) - length (events_of (st_out s))) + sleeps_left started s + 1.

Lemma delivered_count cursor s :
  loop_inv s cursor → (length (events_of (st_out s)) ≤ length (event_logs (committed (st_db s))))%nat.
Proof using.
  intros (_ & _ & Ho & _ & Hin). apply submseteq_length, NoDup_submseteq.
  - apply (NoDup_fmap_1 event_id). clear -Ho. induction Ho as [|e l Hl IH He]; simpl; [constructor|].
    constructor; [|done]. intros (e' & Heq & Hin)%list_elem_of_fmap.
    rewrite Forall_forall in He. apply He in Hin. lia.
  - intros e He. by apply Hin in He as [[? _] _].
Qed.

Hypotheses (Hpoll : (0 < poll_interval)%Z) (Hbatch : (0 < batch_size)%nat)
  (Hdelays : Forall (λ t, 0 ≤ t)%Z retry_delays).

Lemma sleeps_left_mono started s s' :
  (st_time s ≤ st_time s')%Z → (sleeps_left started s' ≤ sleeps_left started s)%nat.
Proof using Hpoll.
  clear Hbatch Hdelays.
  intros Ht. unfold sleeps_left.
  assert ((max_duration - (st_time s' - started) + poll_interval - 1) / poll_interval ≤
    (max_duration - (st_time s - started) + poll_interval - 1) / poll_interval)%Z
    by (apply Z.div_le_mono; lia). lia.
Qed.

(** A poll that sleeps uses one up. *)
Lemma sleeps_left_sleep started s s1 s2 :
  (st_time s - started < max_duration)%Z → (st_time s ≤ st_time s1)%Z →
  st_time s2 = (st_time s1 + Z.min poll_interval (Z.max 0 (max_duration - (st_time s1 - started))))%Z →
  (sleeps_left started s2 < sleeps_left started s)%nat.
Proof using Hpoll.
  clear Hbatch Hdelays.
  intros Hs Hm H2. unfold sleeps_left.
  assert (0 < (max_duration - (st_time s - started) + poll_interval - 1) / poll_interval)%Z
    by (apply Z.div_str_pos; lia).
  enough ((max_duration - (st_time s2 - started) + poll_interval - 1) / poll_interval <
    (max_duration - (st_time s - started) + poll_interval - 1) / poll_interval)%Z by lia.
  destruct (Z.le_gt_cases (max_duration - (st_time s1 - started)) poll_interval).
  - assert (max_duration ≤ st_time s2 - started)%Z by lia.
    eapply Z.le_lt_trans; [|eassumption].
    apply Z.lt_succ_r, Z.div_lt_upper_bound; lia.
  - assert ((max_duration - (st_time s2 - started) + poll_interval - 1) =
            (max_duration - (st_time s1 - started) + poll_interval - 1) + (-1) * poll_interval)%Z as -> by lia.
    rewrite Z.div_add by lia.
    assert ((max_duration - (st_time s1 - started) + poll_interval - 1) / poll_interval ≤
            (max_duration - (st_time s - started) + poll_interval - 1) / poll_interval)%Z
      by (apply Z.div_le_mono; lia). lia.
Qed.

Lemma yield_ret_not_none i s : ((yield i ;;; ret (Some tt)) s).2 ≠ Ret None.
Proof using.
  unfold ebind. by destruct (yield_run i s) as (p & o & -> & [->| ->]).
Qed.

Lemma stream_loop_ends fuel started cursor s :
  loop_inv s cursor → (work_left started s ≤ fuel)%nat →
  (loop fuel started cursor s).2 ≠ Ret None.
Proof using Hpoll Hbatch Hdelays.
  revert cursor s. induction fuel as [|fuel IH]; intros cursor s Hinv Hw; simpl.
  { unfold work_left in Hw. lia. }
  run. destruct (Z.leb_spec max_duration (st_time s - started)) as [|Htime].
  { apply yield_ret_not_none. }
  pose proof (fetch_retrying_measure retry_delays cursor s Hdelays) as [Hcap Hmono].
  unfold ebind at 1, _fetch_with_retry.
  destruct (fetch_retrying _ _ _ _ s) as [s1 [snap|e]] eqn:Hf; [|done]. simpl in Hcap, Hmono.
  pose proof Hf as [(_ & _ & Hout & _) _]%fetch_retrying_spec; [|apply Hinv].
  destruct (poll_status snap) as [st|] eqn:Hst; [|apply yield_ret_not_none].
  destruct (yield_events_run (events snap) cursor s1) as (k & p & o2 & Hy & Ho2).
  destruct (round_ok _ _ _ _ _ k p Hinv Hf Hst) as (Hinv2 & _ & _).
  unfold ebind at 1. rewrite Hy. destruct Ho2 as [[-> Hk]| ->]; [|done]. rewrite Hk in *.
  destruct (bool_decide _ && _); [apply yield_ret_not_none|].
  pose proof (delivered_count _ _ Hinv2) as Hcount.
  assert (length (events_of (st_out (after_batch s1 (events snap) p))) =
    length (events_of (st_out s)) + length (events snap))%nat as Hlen.
  { simpl. by rewrite events_of_app, events_of_map, length_app, Hout. }
  rewrite Hlen in Hcount. unfold work_left in *. change (st_db (after_batch _ _ _)) with (st_db s1) in Hcount.
  destruct (Nat.leb_spec batch_size (length (events snap))) as [Hfull|Hpart].
  - apply IH; [done|]. rewrite Hlen.
    change (sleeps_left started (after_batch _ _ _)) with (sleeps_left started s1).
    pose proof (sleeps_left_mono started s s1 Hmono).
    change (st_db (after_batch _ _ _)) with (st_db s1). unfold capacity in *. lia.
  - run. unfold ebind. set (t := Z.min _ _).
    destruct (sleep_run t (after_batch s1 (events snap) p)) as (p' & o3 & -> & [->| ->]); [|done].
    apply IH; [exact Hinv2|].
    change (st_out (Stream _ _ _ ?o _)) with o. rewrite Hlen.
    change (st_db (Stream ?d _ _ _ _)) with d. change (st_db (after_batch _ _ _)) with (st_db s1).
    match goal with |- context [sleeps_left started ?x] =>
      assert (sleeps_left started x < sleeps_left started s)%nat
        by (by eapply (sleeps_left_sleep _ _ s1)) end. lia.
Qed.
End loop.

(** ** The stream as a whole *)
Section whole.
Context (poll_interval : Z) (batch_size : nat) (max_duration : Z) (retry_delays : list Z).
Context (job_id : uuid).
Abbreviation run_stream := (stream poll_interval batch_size max_duration retry_delays job_id).

(** Where a client that saw [evs] resumes *)
Definition resume_at (last_seen : Z) (evs : list EventLog) : Z := cursor_after last_seen evs.

Lemma delivered_resume last_seen cursor t evs :
  delivered job_id last_seen cursor t evs →
  delivered job_id last_seen (resume_at last_seen evs) t evs ∧ (resume_at last_seen evs ≤ cursor)%Z.
Proof.
  intros (Ho & Hle & Hin). unfold resume_at, cursor_after.
  destruct (last evs) as [e|] eqn:Hl.
  - apply last_Some in Hl as [l ->].
    destruct (proj1 (Hin e)) as [(_ & _ & Hgt) Hec]; [apply elem_of_app; right; left|].
    apply in_order_app in Ho as Ho'. destruct Ho' as (_ & _ & Hlt).
    split; [|lia]. split_and!; [done|lia|]. intros e'. split.
    + intros He'. split; [by apply Hin|].
      apply elem_of_app in He' as [He'| ->%list_elem_of_singleton]; [|done].
      apply Z.lt_le_incl, Hlt; [done|by left].
    + intros [Hn ?]. apply Hin. split; [done|lia].
  - apply last_None in Hl as ->. split; [|done]. split_and!; [done|lia|].
    intros e. split; [by intros ?%not_elem_of_nil|]. intros [[_ [_ ?]] ?]. lia.
Qed.

Lemma delivered_join last_seen c1 c2 t evs1 evs2 :
  delivered job_id last_seen c1 t evs1 → delivered job_id c1 c2 t evs2 →
  delivered job_id last_seen c2 t (evs1 ++ evs2).
Proof.
  intros (Ho1 & Hle1 & Hin1) (Ho2 & Hle2 & Hin2). split_and!; [|lia|].
  - apply in_order_app. split_and!; [done..|]. intros e1 e2 [_ ?]%Hin1 [(_&_&?) _]%Hin2. lia.
  - intros e. rewrite elem_of_app, Hin1, Hin2. unfold is_new. split.
    + intros [[(?&?&?) ?]|[(?&?&?) ?]]; split_and!; try done; lia.
    + intros [(?&?&?) ?]. destruct (Z.le_gt_cases (event_id e) c1); [left|right]; split_and!; done || lia.
Qed.

(** A stream that was opened on a slot *)
Definition opened (last_seen : Z) (s : stream_state) : Prop :=
  db_ok (st_db s) ∧ (last_seen < next_event_id (st_db s))%Z ∧ st_out s = [].

Lemma opened_inv last_seen s : opened last_seen s → loop_inv job_id last_seen s last_seen.
Proof.
  intros (Hok & Hc & Hout). split_and!; [done..|]. rewrite Hout. split_and!; [constructor|done|].
  intros e. split; [by intros ?%not_elem_of_nil|]. intros [[_ [_ ?]] ?]. lia.
Qed.

(** The frame that reports an exception *)
Definition error_frame (e : exn) : item :=
  stream_error (if is_sqlalchemy_error e then py "DATABASE_UNAVAILABLE" else py "INTERNAL_ERROR").

Definition closed (s : stream_state) (out : list item) (p : option nat) : stream_state :=
  Stream (st_db s) (st_time s) (release (st_registry s)) out p.

(** The loop, then the handlers and [finally] *)
Lemma stream_run fuel last_seen s :
  let '(s1, o1) := stream_loop poll_interval batch_size max_duration retry_delays job_id
                     fuel (st_time s) last_seen s in
  ∃ p o, match o1 with
  | Exc CancelledError =>
      run_stream fuel last_seen s = (closed s1 (st_out s1) p, Exc CancelledError)
  | Exc e => run_stream fuel last_seen s = (closed s1 (st_out s1 ++ [error_frame e]) p, o) ∧
      stays o (Some tt)
  | Ret r => run_stream fuel last_seen s = (closed s1 (st_out s1) p, Ret r)
  end.
Proof.
  destruct (stream_loop _ _ _ _ _ _ _ _ s) as [s1 o1] eqn:Hl. unfold stream. run.
  unfold try_finally, try_catch. rewrite Hl.
  destruct o1 as [r|e]; [by exists (st_patience s1), (Ret (Some tt))|].
  destruct (decide (e = CancelledError)) as [->|Hne].
  { rewrite bool_decide_eq_true_2 by done. by exists (st_patience s1), (Ret (Some tt)). }
  rewrite bool_decide_eq_false_2 by done.
  destruct (yield_run (error_frame e) s1) as (p & o & Hy & Ho).
  exists p, (match o with Ret _ => Ret (Some tt) | Exc e => Exc e end).
  assert (stays (match o with Ret _ => Ret (Some tt) | Exc e => Exc e end) (Some tt))
    by (destruct Ho as [->| ->]; by constructor).
  unfold error_frame in *. unfold ebind.
  destruct e; try done; simpl in Hy |- *; rewrite Hy; destruct Ho as [->| ->]; done.
Qed.

(** What a stream that started at [last_seen] leaves *)
Definition streamed (last_seen : Z) (s s' : stream_state) : Prop :=
  st_registry s' = release (st_registry s) ∧
  db_ok (st_db s') ∧ (resume_at last_seen (events_of (st_out s')) < next_event_id (st_db s'))%Z ∧
  delivered job_id last_seen (resume_at last_seen (events_of (st_out s')))
    (committed (st_db s')) (events_of (st_out s')) ∧
  ∀ st, STREAM_END st ∈ st_out s' → ended job_id last_seen s' st.

Lemma stream_run_frames fuel last_seen s s1 o1 s' o :
  stream_loop poll_interval batch_size max_duration retry_delays job_id
    fuel (st_time s) last_seen s = (s1, o1) →
  run_stream fuel last_seen s = (s', o) →
  ∃ out p, s' = closed s1 (st_out s1 ++ out) p ∧ (out = [] ∨ ∃ e, out = [error_frame e]).
Proof.
  intros Hl Hrun. pose proof (stream_run fuel last_seen s) as Hs. rewrite Hl in Hs.
  destruct Hs as (p & o' & Hs). destruct o1 as [r|e].
  - rewrite Hs in Hrun. injection Hrun as <- <-. exists [], p. rewrite app_nil_r. auto.
  - destruct (decide (e = CancelledError)) as [->|Hne].
    + rewrite Hs in Hrun. injection Hrun as <- <-. exists [], p. rewrite app_nil_r. auto.
    + assert (run_stream fuel last_seen s = (closed s1 (st_out s1 ++ [error_frame e]) p, o')) as Hs'
        by (by destruct e; (done || apply Hs)).
      rewrite Hs' in Hrun. injection Hrun as <- <-. exists [error_frame e], p. eauto.
Qed.

Lemma stream_streamed fuel last_seen s s' o :
  opened last_seen s → run_stream fuel last_seen s = (s', o) → streamed last_seen s s'.
Proof.
  intros Hop Hrun.
  destruct (stream_loop poll_interval batch_size max_duration retry_delays job_id
              fuel (st_time s) last_seen s) as [s1 o1] eqn:Hl.
  destruct (stream_run_frames fuel last_seen s s1 o1 s' o Hl Hrun) as (out & p & -> & Hcontrol).
  apply (stream_loop_post _ _ _ _ _ last_seen) in Hl as (Hreg & (c & Hok & Hc & Hd) & new & Hout & Hend);
    [|by apply opened_inv].
  destruct Hop as (_ & _ & Hnil). rewrite Hnil in Hout. simpl in Hout. subst new.
  apply delivered_resume in Hd as [Hd Hle].
  assert (resume_at last_seen (events_of (st_out s1)) < next_event_id (st_db s1))%Z as Hn by lia.
  assert (events_of (st_out s1 ++ out) = events_of (st_out s1)) as Heq.
  { rewrite events_of_app. destruct Hcontrol as [->|[e ->]]; apply app_nil_r. }
  unfold streamed, closed, ended. simpl. rewrite Heq, Hreg. split_and!; [done..|].
  intros st [Hin|Hin]%elem_of_app; [by apply Hend|].
  destruct Hcontrol as [->|[e ->]]; [by apply not_elem_of_nil in Hin|].
  apply list_elem_of_singleton in Hin. unfold error_frame in Hin.
  by destruct (is_sqlalchemy_error e).
Qed.

(** ** A finished job, on a database nobody writes to *)
Lemma events_after_drop last_seen t n limit :
  ids_ok (event_logs t) n → (last_seen < n)%Z →
  events_after job_id (cursor_after last_seen (take limit (events_after job_id last_seen t))) t =
  drop limit (events_after job_id last_seen t).
Proof.
  intros Hids Hn. set (all := events_after job_id last_seen t).
  destruct (batch_spec job_id last_seen t n limit (take limit all) Hids Hn eq_refl)
    as (_ & Hcur & Hin & _).
  set (c := cursor_after last_seen (take limit all)) in *.
  pose proof (events_after_in_order job_id last_seen t n Hids) as Ho. fold all in Ho.
  rewrite <-(take_drop limit all) in Ho. apply in_order_app in Ho as (_ & Hd & H12).
  apply in_order_unique; [by eapply events_after_in_order|done|].
  intros e. rewrite elem_of_events_after. split.
  - intros (He & Hj & Hgt). assert (is_new job_id last_seen t e) as Hnew by (split_and!; [done..|lia]).
    apply elem_of_events_after in Hnew. fold all in Hnew. rewrite <-(take_drop limit all) in Hnew.
    apply elem_of_app in Hnew as [Ht|?]; [|done]. apply Hin in Ht. lia.
  - intros He. assert (e ∈ all) as (? & ? & ?)%elem_of_events_after.
    { rewrite <-(take_drop limit all). apply elem_of_app. by right. }
    split_and!; [done..|]. apply Z.nle_gt. intros Hle.
    assert (e ∈ take limit all) as Ht by (by apply Hin). specialize (H12 _ _ Ht He). lia.
Qed.

Lemma yield_events_patient evs cursor s :
  st_patience s = None →
  yield_events evs cursor s = (after_batch s evs None, Ret (cursor_after cursor evs)).
Proof.
  revert cursor s. induction evs as [|e evs IH]; intros cursor s Hp; simpl.
  - unfold after_batch. rewrite app_nil_r. destruct s. simpl in Hp. by subst.
  - unfold yield. run. unfold suspend, ebind. simpl. rewrite Hp, IH by done. unfold after_batch. simpl.
    rewrite <-app_assoc. do 2 f_equal. unfold cursor_after. rewrite last_cons. by destruct (last evs).
Qed.

Lemma fetch_quiet delays cursor s j :
  st_patience s = None → script (st_db s) = [] → jobs (committed (st_db s)) !! job_id = Some j →
  fetch_retrying batch_size job_id delays cursor s =
  (s, Ret {| events := take batch_size (events_after job_id cursor (committed (st_db s)));
             poll_status := Some (job_status j) |}).
Proof.
  intros Hp Hs Hj. assert (fetch_snapshot job_id cursor batch_size (st_db s) =
    (st_db s, Ret {| events := take batch_size (events_after job_id cursor (committed (st_db s)));
                     poll_status := Some (job_status j) |})) as Hf.
  { unfold fetch_snapshot, with_session, ebind, query, statement, next_tick. simpl.
    rewrite Hs. simpl. unfold view; simpl. rewrite Hj. simpl. by rewrite Hs. }
  assert (run_sync (fetch_snapshot job_id cursor batch_size) s =
    (s, Ret {| events := take batch_size (events_after job_id cursor (committed (st_db s)));
               poll_status := Some (job_status j) |})) as Hr.
  { unfold run_sync, ebind, on_db, zoom, suspend. rewrite Hf. simpl. rewrite Hp. by destruct s; simpl in Hp; subst. }
  destruct delays; simpl; unfold try_catch; by rewrite Hr.
Qed.

Lemma stream_loop_replays fuel started cursor s j :
  st_patience s = None →
  script (st_db s) = [] → ids_ok (event_logs (committed (st_db s))) (next_event_id (st_db s)) →
  jobs (committed (st_db s)) !! job_id = Some j → terminal (job_status j) = true →
  (0 < batch_size)%nat → (st_time s - started < max_duration)%Z →
  (cursor < next_event_id (st_db s))%Z →
  (length (events_after job_id cursor (committed (st_db s))) < fuel)%nat →
  stream_loop poll_interval batch_size max_duration retry_delays job_id fuel started cursor s =
  (Stream (st_db s) (st_time s) (st_registry s)
     (st_out s ++ map ItemEvent (events_after job_id cursor (committed (st_db s)))
        ++ [STREAM_END (job_status j)]) None, Ret (Some tt)).
Proof.
  intros Hp Hs Hids Hj Hterm Hb Ht. revert cursor s Hp Hs Hids Hj Ht.
  induction fuel as [|fuel IH]; intros cursor s Hp Hs Hids Hj Ht Hc Hfuel; [lia|]. simpl. run.
  rewrite (proj2 (Z.leb_gt _ _)) by lia. unfold _fetch_with_retry.
  rewrite (ebind_ret_run _ _ _ _ _ (fetch_quiet _ _ _ _ Hp Hs Hj)).
  cbv beta iota delta [poll_status events]. set (all := events_after job_id cursor (committed (st_db s))) in *.
  rewrite (ebind_ret_run _ _ _ _ _ (yield_events_patient (take batch_size all) cursor s Hp)).
  rewrite bool_decide_eq_true_2 by (by apply terminal_listed).
  destruct (Nat.ltb_spec (length (take batch_size all)) batch_size) as [Hl|Hl].
  - rewrite take_ge in * by (rewrite length_take in Hl; lia). unfold yield, suspend, ebind, modify, ret. simpl.
    by rewrite <-app_assoc.
  - rewrite (proj2 (Nat.leb_le _ _)) by done.
    pose proof (events_after_drop cursor _ _ batch_size Hids Hc) as Hdrop. fold all in Hdrop.
    destruct (batch_spec job_id cursor _ _ batch_size _ Hids Hc eq_refl) as (_ & Hcur & _).
    fold all in Hcur. rewrite length_take in Hl.
    cbv beta iota delta [andb].
    rewrite (IH _ (after_batch s (take batch_size all) None)); [|done..|simpl; lia|]; simpl; rewrite Hdrop.
    + rewrite <-!app_assoc, (app_assoc (map _ _)), <-map_app, take_drop. done.
    + rewrite length_drop. lia.
Qed.
End whole.

Lemma resolve_cursor_ok job_id candidate d d' c :
  db_ok d → (0 < next_event_id d)%Z → resolve_cursor job_id candidate d = (d', Ret c) →
  db_ok d' ∧ drift nobody d d' ∧ (0 ≤ c < next_event_id d')%Z ∧
  (c ≠ 0 → candidate = Some c ∧ ∃ e, e ∈ event_logs (committed d') ∧
     event_job_id e = job_id ∧ event_id e = c)%Z.
Proof.
  intros Hok Hn. unfold resolve_cursor.
  destruct candidate as [k|]; [|by intros [= <- <-]; split_and!; try done; lia].
  destruct (Z.leb_spec k 0); [by intros [= <- <-]; split_and!; try done; lia|].
  unfold with_session, ebind, query, statement. simpl.
  destruct (next_tick _ d) as [d1 r1] eqn:Ht. apply tick_ok in Ht as [Hok1 Hd]; [|done].
  assert (next_event_id d ≤ next_event_id d1)%Z.
  { destruct Hd as (_ & _ & _ & new & _ & Hnum & _). done. }
  destruct r1; simpl; [|done..]. intros [= <- <-]. split; [done|]. split; [done|].
  unfold view; simpl. destruct (existsb _ _) eqn:He; [|split; [lia|done]].
  apply existsb_exists in He as (e & Hin%list_elem_of_In & [Hj Hk]%bool_decide_eq_true).
  destruct Hok1 as [_ [_ Hlt]]. rewrite Forall_forall in Hlt. specialize (Hlt _ Hin).
  split; [lia|]. intros _. split; [done|]. by exists e.
Qed.

(** The job has an event with this number. *)
Definition has_event (job_id : uuid) (c : Z) (d : database) : Prop :=
  ∃ e, e ∈ event_logs (committed d) ∧ event_job_id e = job_id ∧ event_id e = c.

Lemma has_event_drift job_id c d d' : drift nobody d d' → has_event job_id c d → has_event job_id c d'.
Proof.
  intros (_ & _ & _ & new & Hlogs & _) (e & He & Hj). exists e. split; [|done].
  rewrite Hlogs. apply elem_of_app. by left.
Qed.

(** A number the job has is accepted as it is. *)
Lemma resolve_cursor_known job_id k d d' c :
  db_ok d → (0 < k)%Z → has_event job_id k d →
  resolve_cursor job_id (Some k) d = (d', Ret c) → c = k.
Proof.
  intros Hok Hk He. unfold resolve_cursor. rewrite (proj2 (Z.leb_gt k 0)) by done.
  unfold with_session, ebind, query, statement. simpl.
  destruct (next_tick _ d) as [d1 r1] eqn:Ht. apply tick_ok in Ht as [_ Hd]; [|done].
  destruct r1; simpl; [|done..]. intros [= _ <-]. unfold view. simpl.
  destruct (has_event_drift job_id k d d1 Hd He) as (e & Hin & Hj & <-).
  assert (existsb (λ e0, bool_decide (event_job_id e0 = job_id ∧ event_id e0 = event_id e))
    (event_logs (committed d1)) = true) as ->; [|done].
  apply existsb_exists. exists e. split; [by apply list_elem_of_In|]. by apply bool_decide_eq_true.
Qed.

(** The Last-Event-ID of a client that first sent [candidate] and then saw [evs] *)
Definition last_event_id (candidate : option Z) (evs : list EventLog) : option Z :=
  match last evs with Some e => Some (event_id e) | None => candidate end.

Lemma last_event_id_accepted job_id candidate c0 evs d d' c :
  db_ok d → (0 ≤ c0)%Z → default 0%Z candidate = c0 → (c0 ≠ 0%Z → has_event job_id c0 d) →
  (∀ e, e ∈ evs → is_new job_id c0 (committed d) e) →
  resolve_cursor job_id (last_event_id candidate evs) d = (d', Ret c) → c = resume_at c0 evs.
Proof.
  intros Hok Hpos Hc0 Hev Hin. unfold last_event_id, resume_at, cursor_after.
  destruct (last evs) as [e|] eqn:Hl.
  - apply last_Some_elem_of in Hl. apply Hin in Hl as (He & Hj & Hgt).
    apply resolve_cursor_known; [done|lia|by exists e].
  - destruct candidate as [k|]; simpl in Hc0; subst; [|by intros [= _ <-]].
    destruct (decide (c0 = 0%Z)) as [->|Hne]; [by intros [= _ <-]|].
    apply resolve_cursor_known; [done|lia|by apply Hev].
Qed.

(** ** The database only drifts under a stream *)
Definition stream_drifts (s s' : stream_state) : Prop :=
  db_ok (st_db s) → db_ok (st_db s') ∧ drift nobody (st_db s) (st_db s').

#[export] Instance stream_drifts_preorder : PreOrder stream_drifts.
Proof.
  split; [intros s Hs; by split|]. intros s1 s2 s3 H12 H23 H1.
  destruct (H12 H1) as [H2 ?]. destruct (H23 H2) as [? ?]. split; [done|by etrans].
Qed.

Lemma steps_fetch_retrying batch_size job_id delays cursor :
  steps stream_drifts (fetch_retrying batch_size job_id delays cursor).
Proof.
  intros s Hok. destruct (fetch_retrying _ _ _ _ s) as [s' o] eqn:Hf.
  apply fetch_retrying_spec in Hf as [(? & ? & _) _]; done.
Qed.

Lemma steps_yield i : steps stream_drifts (yield i).
Proof. intros s Hs. destruct (yield_run i s) as (p & o & -> & _). by split. Qed.

Lemma steps_sse_sleep t : steps stream_drifts (sse_sleep t).
Proof. intros s Hs. destruct (sleep_run t s) as (p & o & -> & _). by split. Qed.

#[export] Hint Resolve steps_fetch_retrying steps_yield steps_sse_sleep : eff.

Lemma steps_yield_events evs cursor : steps stream_drifts (yield_events evs cursor).
Proof. revert cursor. induction evs; intros; simpl; eauto with eff. Qed.
#[export] Hint Resolve steps_yield_events : eff.

Lemma steps_stream_loop pi bs md rd job_id fuel started cursor :
  steps stream_drifts (stream_loop pi bs md rd job_id fuel started cursor).
Proof.
  revert cursor. induction fuel as [|fuel IH]; intros cursor; simpl; [eauto with eff|].
  apply steps_ebind; [exact _|eauto with eff|intros t]. apply steps_if; [eauto with eff|].
  apply steps_ebind; [exact _|apply steps_fetch_retrying|intros snap].
  destruct (poll_status snap); eauto 10 with eff.
Qed.
#[export] Hint Resolve steps_stream_loop : eff.

Lemma stream_drift pi bs md rd job_id fuel last_seen s s' o :
  db_ok (st_db s) → stream pi bs md rd job_id fuel last_seen s = (s', o) →
  drift nobody (st_db s) (st_db s').
Proof.
  intros Hok Hrun. enough (stream_drifts s s') as [_ Hd]; [done..|].
  enough (steps stream_drifts (stream pi bs md rd job_id fuel last_seen)) as Hs
    by (specialize (Hs s); by rewrite Hrun in Hs).
  apply steps_ebind; [exact _|eauto with eff|intros t]. apply steps_finally; [exact _| |].
  - eauto 10 with eff.
  - apply steps_modify. intros s0 Hs0. by split.
Qed.

Lemma drift_next locked d d' : drift locked d d' → (next_event_id d ≤ next_event_id d')%Z.
Proof. by intros (_ & _ & _ & new & _ & Hnum & _). Qed.

(** A loop that returned closed with a control frame. *)
Lemma stream_loop_last pi bs md rd job_id fuel started cursor s s' :
  stream_loop pi bs md rd job_id fuel started cursor s = (s', Ret (Some tt)) →
  ∃ out name data, st_out s' = out ++ [ItemControl name data].
Proof.
  revert cursor s. induction fuel as [|fuel IH]; intros cursor s; simpl; [done|].
  run. case_match; [intros (p & -> & _)%yield_then_ret; by eexists _, _, _|].
  intros [(s1 & snap & _ & Hrun)|(e & _ & ?)]%ebind_inv; [|done].
  destruct (poll_status snap); [|apply yield_then_ret in Hrun as (p & -> & _); by eexists _, _, _].
  apply ebind_inv in Hrun as [(s2 & c & _ & Hrun)|(e & _ & ?)]; [|done].
  case_match; [apply yield_then_ret in Hrun as (p & -> & _); by eexists _, _, _|].
  case_match; [by eapply IH|]. run in Hrun.
  apply ebind_inv in Hrun as [(s3 & [] & _ & Hrun)|(e & _ & ?)]; [by eapply IH|done].
Qed.

(** ** A client that stays is not cancelled *)
Definition patient (s : stream_state) : Prop := st_patience s = None ∧ honest (st_db s).

Definition staying {A} (m : eff exn stream_state A) : Prop :=
  ∀ s s' o, patient s → m s = (s', o) → patient s' ∧ o ≠ Exc CancelledError.

Lemma staying_ret {A} (a : A) : staying (ret a).
Proof. by intros s s' o Hs [= <- <-]. Qed.

Lemma staying_gets {A} (f : stream_state → A) : staying (gets f).
Proof. by intros s s' o Hs [= <- <-]. Qed.

Lemma staying_ebind {A B} (m : eff exn stream_state A) (k : A → eff exn stream_state B) :
  staying m → (∀ a, staying (k a)) → staying (ebind m k).
Proof.
  intros Hm Hk s s' o Hs Hrun. apply ebind_inv in Hrun as [(s1 & a & H1 & H2)|(e & H1 & ->)].
  - apply Hm in H1 as [H1 _]; [|done]. by eapply Hk.
  - apply Hm in H1 as [H1 He]; [|done]. split; [done|]. intros [= ->]. by apply He.
Qed.

Lemma staying_catch {A} (m : eff exn stream_state A) (h : exn → eff exn stream_state A) :
  staying m → (∀ e, e ≠ CancelledError → staying (h e)) → staying (try_catch m h).
Proof.
  intros Hm Hh s s' o Hs. unfold try_catch. destruct (m s) as [s1 [a|e]] eqn:Hrun;
    apply Hm in Hrun as [Hs1 He]; try done; [by intros [= <- <-]|].
  apply Hh; [|done]. intros ->. by apply He.
Qed.

Lemma staying_finally {A} (m : eff exn stream_state A) (f : eff exn stream_state unit) :
  staying m → staying f → staying (try_finally m f).
Proof.
  intros Hm Hf s s' o Hs. unfold try_finally. destruct (m s) as [s1 o1] eqn:Hrun.
  apply Hm in Hrun as [Hs1 Ho]; [|done]. destruct (f s1) as [s2 o2] eqn:Hrun2.
  apply Hf in Hrun2 as [Hs2 Ho2]; [|done]. destruct o2 as [|e]; intros [= <- <-]; split; try done.
  intros [= ->]. by apply Ho2.
Qed.

Lemma staying_raise {A} e : e ≠ CancelledError → staying (raise (A := A) e).
Proof. intros He s s' o Hs [= <- <-]. split; [done|]. by intros [= ->]. Qed.

Lemma staying_modify f : (∀ s, patient s → patient (f s)) → staying (modify f).
Proof. intros Hf s s' o Hs [= <- <-]. auto. Qed.

Lemma staying_suspend : staying suspend.
Proof. intros s s' o [Hp Hh]. unfold suspend. rewrite Hp. by intros [= <- <-]. Qed.

Create HintDb staying.
#[export] Hint Resolve staying_ret staying_gets staying_ebind staying_suspend staying_modify : staying.

Lemma staying_yield i : staying (yield i).
Proof. unfold yield. auto with staying. Qed.

Lemma staying_sleep t : staying (sse_sleep t).
Proof. unfold sse_sleep. auto with staying. Qed.

Lemma honest_quiet d : script d = [] → honest d.
Proof. unfold honest. intros ->. constructor. Qed.

Lemma fetch_snapshot_honest job_id cursor limit d d' o :
  honest d → fetch_snapshot job_id cursor limit d = (d', o) →
  honest d' ∧ match o with Ret _ => True | Exc e => driver_error e = true end.
Proof.
  intros Hh. unfold fetch_snapshot, with_session, ebind, query, statement. simpl.
  destruct (next_tick _ d) as [d1 r1] eqn:Ht1. apply next_tick_honest in Ht1 as [Hh1 Hr1]; [|done].
  destruct r1 as [|e|e]; [|by intros [= <- <-]..]. simpl.
  destruct (jobs _ !! job_id); simpl; [|by intros [= <- <-]].
  destruct (next_tick _ d1) as [d2 r2] eqn:Ht2. apply next_tick_honest in Ht2 as [Hh2 Hr2]; [|done].
  destruct r2 as [|e|e]; by intros [= <- <-].
Qed.

Lemma staying_fetch batch_size job_id delays cursor :
  staying (fetch_retrying batch_size job_id delays cursor).
Proof.
  assert (staying (run_sync (fetch_snapshot job_id cursor batch_size))) as Hq.
  { apply staying_ebind; [|auto with staying]. intros s s' o [Hp Hh]. unfold on_db, zoom.
    destruct (fetch_snapshot _ _ _ _) as [d1 o1] eqn:Hf. apply fetch_snapshot_honest in Hf as [Hh1 Ho]; [|done].
    intros [= <- <-]. split; [done|]. by intros ->. }
  induction delays as [|t delays IH]; simpl; (apply staying_catch; [done|]; intros e He);
    destruct (_ && _); eauto using staying_ebind, staying_sleep, staying_raise.
Qed.
#[export] Hint Resolve staying_yield staying_sleep staying_fetch : staying.

Lemma staying_yield_events evs cursor : staying (yield_events evs cursor).
Proof. revert cursor. induction evs; intros; simpl; auto with staying. Qed.
#[export] Hint Resolve staying_yield_events : staying.

Lemma staying_loop pi bs md rd job_id fuel started cursor :
  staying (stream_loop pi bs md rd job_id fuel started cursor).
Proof.
  revert cursor. induction fuel as [|fuel IH]; intros cursor; simpl; [auto with staying|].
  apply staying_ebind; [auto with staying|intros t]. case_match; [auto with staying|].
  apply staying_ebind; [apply staying_fetch|intros snap].
  destruct (poll_status snap); [|auto with staying].
  apply staying_ebind; [auto with staying|intros c]. repeat case_match; auto 10 with staying.
Qed.

Lemma staying_stream pi bs md rd job_id fuel last_seen :
  staying (stream pi bs md rd job_id fuel last_seen).
Proof.
  apply staying_ebind; [auto with staying|intros t]. apply staying_finally.
  - apply staying_catch; [apply staying_loop|]. intros e He.
    rewrite bool_decide_eq_false_2 by done. case_match; auto with staying.
  - apply staying_modify. by intros s [Hp Hh].
Qed.

Lemma ended_or_cancelled {A} (P Q : Prop) (o : outcome exn A) (a : A) :
  (P → o ≠ Exc CancelledError) → (o = Exc CancelledError ∨ o = Ret a ∧ Q) →
  (o = Exc CancelledError ∨ o = Ret a ∧ Q) ∧ (P → o = Ret a).
Proof. intros HP Ho. split; [done|]. intros Hp. destruct Ho as [->|[-> _]]; [|done]. by destruct (HP Hp). Qed.

Lemma deployed_loop_ends job_id fuel last_seen s :
  opened last_seen s → (capacity (st_db s) + 1201 ≤ fuel)%nat →
  (stream_loop POLL_INTERVAL_SECONDS EVENT_BATCH_SIZE MAX_STREAM_DURATION_SECONDS
     RETRY_DELAYS_SECONDS job_id fuel (st_time s) last_seen s).2 ≠ Ret None.
Proof.
  intros Hop Hfuel. apply (stream_loop_ends _ _ _ _ _ last_seen);
    [done|unfold EVENT_BATCH_SIZE; lia|repeat constructor; done|by apply opened_inv|].
  destruct Hop as (_ & _ & Hout). unfold work_left, sleeps_left.
  rewrite Hout, Z.sub_diag. change (length (events_of [])) with 0%nat.
  change (Z.to_nat _) with 1200%nat. lia.
Qed.

Module Demo.
Definition event (i : Z) (msg : pystr) : EventLog :=
  {| event_id := i; event_job_id := 1%N; event_type := py "SYSTEM"; message := msg;
     event_created_at := 0 |}.

Definition job (st : status) : Job :=
  {| parent_job_id := None; prompt := py "a cube"; job_status := st; action_plan := None;
     job_created_at := 0; updated_at := 0 |}.

Definition table (st : status) : tables :=
  Tables (<[1%N := job st]> ∅) [event 1 (py "a"); event 2 (py "b"); event 3 (py "c")] [].

(** A running job; the first poll fails, the second sees two events, and the
    job ends before the third. *)
Definition live : database :=
  Database (table RUNNING) 4 0
    [Tick 1 [] (Refused OperationalError); Tick 1 [] Delivered; Tick 1 [] Delivered;
     Tick 1 [TxTransition 1 [RUNNING] COMPLETED (py "SYSTEM") (py "done")] Delivered].

Definition start (d : database) : stream_state := Stream d 0 (Registry 20 1) [] None.

Example live_stream :
  let s' := (stream 500 2 600000 [500; 1000; 2000]%Z 1%N 50 1 (start live)).1 in
  (map event_id (events_of (st_out s')), last (st_out s'), st_time s') =
  ([2; 3; 4]%Z, Some (STREAM_END COMPLETED), 500%Z).
Proof. vm_compute. reflexivity. Qed.

(** The client goes away after the first frame: the slot is free again. *)
Example client_gone :
  let s := Stream live 0 (Registry 20 1) [] (Some 3%nat) in
  let r := stream 500 2 600000 [500; 1000; 2000]%Z 1%N 50 1 s in
  (map event_id (events_of (st_out r.1)), st_registry r.1, r.2)
  = ([2; 3]%Z, Registry 20 0, Exc CancelledError).
Proof. vm_compute. reflexivity. Qed.

Lemma ids_ok_table st : ids_ok (event_logs (table st)) 4.
Proof.
  split; [|repeat constructor].
  change (NoDup [1; 2; 3]%Z). apply (bool_decide_unpack _). vm_compute. exact I.
Qed.

Lemma opened_live : opened 1 (start live).
Proof.
  split_and!; [|done|done]. split; [|apply ids_ok_table].
  repeat constructor. apply rtc_once. constructor.
Qed.

Definition finished : database := Database (table COMPLETED) 4 0 [].
End Demo.

(** ** Properties *)

(** C37: Connection slots are conserved.  However opening and closing of
    streams interleave, the registry's counter is the number of streams that
    hold a slot, it never exceeds the limit and never goes below zero, and a
    new stream is refused exactly when every slot is taken. *)
Theorem slots_conserved max r0 r held :
  new_registry max = Ret r0 → rtc slot_step (r0, 0%Z) (r, held) →
  _active_connections r = held ∧ (0 ≤ held ≤ max)%Z ∧
  ((try_acquire r).2 = false ↔ held = max).
Proof.
  unfold new_registry. destruct (Z.ltb_spec max 1); intros [= <-] Hs.
  apply (slot_steps_ok max) in Hs as (Hm & Ha & Hr); [|split_and!; simpl; lia]. simpl in *.
  split_and!; [lia..|]. unfold try_acquire.
  destruct (Z.leb_spec (_max_connections r) (_active_connections r)); simpl; split; try done; lia.
Qed.

Lemma slots_conserved_witness :
  _active_connections (Registry 1 1) = 1%Z ∧ (0 ≤ 1 ≤ 1)%Z ∧
  ((try_acquire (Registry 1 1)).2 = false ↔ 1%Z = 1%Z).
Proof.
  refine (slots_conserved 1 (Registry 1 0) (Registry 1 1) 1 eq_refl _).
  apply rtc_once. exact (slot_open (Registry 1 0) 0 (Registry 1 1) eq_refl).
Defined.

(** C38: An encoded event is one event.  Whatever the text of the event (its
    message may hold line breaks, an event type too), the frame is three
    lines, the id, the name and the data, and the blank line that ends it: no
    text can end the frame early or add a field to it. *)
Theorem event_is_one_frame isoformat e :
  ∃ name data,
    split_on 10 (encode_event isoformat e) =
      [py "id: " ++ str_of_Z (event_id e); py "event: " ++ name; py "data: " ++ data; []; []] ∧
    no_break (str_of_Z (event_id e)) ∧ no_break name ∧ no_break data.
Proof.
  exists (_safe_event_name (event_type e)). eexists. unfold encode_event.
  pose proof (no_break_str_of_Z (event_id e)) as Hid.
  pose proof (no_break_event_name (event_type e)) as Hname.
  split; [|split_and!; [done..|apply no_break_json_data]].
  rewrite !frame_line by (done || by apply no_break_b). do 2 f_equal.
  change [10%N; 10%N] with ([10%N] ++ [10%N]).
  by rewrite frame_line by (apply no_break_json_data || by apply no_break_b).
Qed.

(** C6: A stream is exact.  While other sessions write to the database, polls
    fail and are retried and the client may go away at any time, the events a
    stream yields are in order, each once, and they are exactly the events of
    its job after the client's cursor up to the last one yielded; STREAM_END is yielded only when the
    job has that terminal status and none of its events is missing; and the
    connection slot is released once, however the stream ends. *)
Theorem stream_exact poll_interval batch_size max_duration retry_delays job_id fuel last_seen s s' o :
  opened last_seen s →
  stream poll_interval batch_size max_duration retry_delays job_id fuel last_seen s = (s', o) →
  let evs := events_of (st_out s') in
  in_order evs ∧
  (∀ e, e ∈ evs ↔ is_new job_id last_seen (committed (st_db s')) e ∧
                  (event_id e ≤ resume_at last_seen evs)%Z) ∧
  (∀ st, STREAM_END st ∈ st_out s' → ended job_id last_seen s' st) ∧
  st_registry s' = release (st_registry s).
Proof.
  intros Hop Hrun. apply stream_streamed in Hrun as (Hr & _ & _ & (Ho & _ & Hin) & Hend); [|done].
  split_and!; done.
Qed.

Lemma stream_exact_witness :
  let s' := (stream 500 2 600000 [500; 1000; 2000]%Z 1%N 50 1 (Demo.start Demo.live)).1 in
  let evs := events_of (st_out s') in
  in_order evs ∧
  (∀ e, e ∈ evs ↔ is_new 1%N 1 (committed (st_db s')) e ∧ (event_id e ≤ resume_at 1 evs)%Z) ∧
  (∀ st, STREAM_END st ∈ st_out s' → ended 1%N 1 s' st) ∧
  st_registry s' = release (st_registry (Demo.start Demo.live)).
Proof.
  exact (stream_exact 500 2 600000 [500; 1000; 2000]%Z 1%N 50 1 (Demo.start Demo.live) _ _
    Demo.opened_live (surjective_pairing _)).
Defined.

(** C17: A reconnecting client misses nothing and sees nothing twice.  A client
    opens a stream with a Last-Event-ID that [resolve_cursor] accepts (or with
    none); the stream ends, for whatever reason (also because the client went
    away in the middle of a batch); the client comes back with the id of the
    last event it saw, and the route hands what [resolve_cursor] makes of it
    to a second stream.  Then the events of both streams together are in
    order, each once, and are exactly the job's events after the first
    cursor up to the last one yielded; and when the second stream closes with
    STREAM_END they are all of the job's events after the first cursor. *)
Theorem reconnect_exact poll_interval batch_size max_duration retry_delays job_id fuel1 fuel2
    candidate d0 d1 c0 t1 r1 p1 s1' o1 d2 d3 c t2 r2 p2 s2' o2 :
  let run := stream poll_interval batch_size max_duration retry_delays job_id in
  db_ok d0 → (0 < next_event_id d0)%Z →
  resolve_cursor job_id candidate d0 = (d1, Ret c0) → default 0%Z candidate = c0 →
  run fuel1 c0 (Stream d1 t1 r1 [] p1) = (s1', o1) →
  drift nobody (st_db s1') d2 → db_ok d2 →
  resolve_cursor job_id (last_event_id candidate (events_of (st_out s1'))) d2 = (d3, Ret c) →
  run fuel2 c (Stream d3 t2 r2 [] p2) = (s2', o2) →
  let evs := events_of (st_out s1') ++ events_of (st_out s2') in
  in_order evs ∧
  (∀ e, e ∈ evs ↔ is_new job_id c0 (committed (st_db s2')) e ∧
     (event_id e ≤ resume_at c (events_of (st_out s2')))%Z) ∧
  (∀ st, STREAM_END st ∈ st_out s2' →
     ∀ e, e ∈ evs ↔ is_new job_id c0 (committed (st_db s2')) e).
Proof.
  intros run Hok0 Hn0 Hres0 Hc0 H1 Hdrift Hok2 Hres H2 evs.
  apply resolve_cursor_ok in Hres0 as (Hok1 & Hd01 & Hc0r & Hknown); [|done..].
  assert (drift nobody d1 (st_db s1')) as Hd12 by (by eapply stream_drift in H1).
  apply stream_streamed in H1 as (_ & _ & Hn & Hd1 & _); [|split_and!; simpl; [done|lia|done]].
  assert (c = resume_at c0 (events_of (st_out s1'))) as Hc.
  { eapply last_event_id_accepted; [exact Hok2|lia|exact Hc0| | |exact Hres].
    - intros Hne. apply (has_event_drift _ _ d1); [by etrans|]. by destruct (Hknown Hne).
    - intros e He. apply Hd1 in He as [(He & Hj & Hgt) _]. destruct Hdrift as (_ & _ & _ & new & Hlogs & _).
      split_and!; [|done..]. rewrite Hlogs. apply elem_of_app. by left. }
  assert (0 < next_event_id d2)%Z as Hn2.
  { apply drift_next in Hd01, Hd12, Hdrift. lia. }
  apply resolve_cursor_ok in Hres as (Hok3 & Hd23 & Hcr & _); [|done..].
  assert (drift nobody d3 (st_db s2')) as Hd34 by (by eapply stream_drift in H2).
  apply stream_streamed in H2 as (_ & _ & _ & Hd2 & Hend); [|split_and!; simpl; [done|lia|done]].
  eapply (delivered_drift _ _ _ _ (st_db s2')) in Hd1; [|by do 2 (etrans; [done|])|done].
  rewrite <- Hc in Hd1. pose proof Hd2 as (_ & Hle & _).
  destruct (delivered_join _ _ _ _ _ _ _ Hd1 Hd2) as (Ho & _ & Hin). split_and!; [done..|].
  intros st Hst e. fold evs in Hin. rewrite Hin. split; [by intros [? _]|]. intros He.
  split; [done|]. destruct (Z.le_gt_cases (event_id e) c) as [?|Hgt]; [lia|].
  destruct (Hend st Hst) as (_ & _ & Hall). destruct He as (He & Hj & _).
  destruct Hd2 as (_ & _ & Hin2). by apply Hin2, Hall.
Qed.

(** The first stream is cut off after a batch of two, the second resumes and
    closes. *)
Lemma reconnect_exact_witness :
  let run := stream 500 2 600000 [500]%Z 1%N in
  let s1' := (run 1%nat 0%Z (Demo.start Demo.finished)).1 in
  let s2' := (run 5%nat (resume_at 0 (events_of (st_out s1')))
    (Stream (st_db s1') 7 (Registry 20 1) [] None)).1 in
  let evs := events_of (st_out s1') ++ events_of (st_out s2') in
  STREAM_END COMPLETED ∈ st_out s2' ∧
  ∀ e, e ∈ evs ↔ is_new 1%N 0 (committed (st_db s2')) e.
Proof.
  assert (Hok : db_ok Demo.finished) by (split; [constructor|apply Demo.ids_ok_table]).
  intros run s1' s2' evs.
  assert (Hend : STREAM_END COMPLETED ∈ st_out s2').
  { assert (Hlast : last (st_out s2') = Some (STREAM_END COMPLETED)) by (vm_compute; reflexivity).
    exact (last_Some_elem_of _ _ Hlast). }
  destruct (reconnect_exact 500 2 600000 [500]%Z 1%N 1 5 None Demo.finished Demo.finished 0
    0 (Registry 20 1) None s1' (run 1%nat 0%Z (Demo.start Demo.finished)).2 (st_db s1') (st_db s1')
    (resume_at 0 (events_of (st_out s1'))) 7 (Registry 20 1) None s2'
    (run 5%nat (resume_at 0 (events_of (st_out s1'))) (Stream (st_db s1') 7 (Registry 20 1) [] None)).2)
    as (_ & _ & Hall).
  - exact Hok.
  - reflexivity.
  - reflexivity.
  - reflexivity.
  - apply surjective_pairing.
  - reflexivity.
  - exact Hok.
  - vm_compute. reflexivity.
  - apply surjective_pairing.
  - exact (conj Hend (Hall COMPLETED Hend)).
Defined.

(** C18: Every stream ends.  With the deployed configuration, whatever the
    database does, the generator ends within the polls its duration allows
    (one every half second for ten minutes) plus one per event there is to
    deliver.  Either it was cancelled, which happens only when the client went
    away, or it returned, and the last frame it yielded is a control frame
    that tells the client why. *)
Theorem stream_ends job_id fuel last_seen s :
  opened last_seen s → (capacity (st_db s) + 1201 ≤ fuel)%nat →
  ∃ s' o,
    stream POLL_INTERVAL_SECONDS EVENT_BATCH_SIZE MAX_STREAM_DURATION_SECONDS RETRY_DELAYS_SECONDS
      job_id fuel last_seen s = (s', o) ∧
    (o = Exc CancelledError ∨
     o = Ret (Some tt) ∧ ∃ out name data, st_out s' = out ++ [ItemControl name data]) ∧
    (patient s → o = Ret (Some tt)).
Proof.
  intros Hop Hfuel.
  pose proof (stream_run POLL_INTERVAL_SECONDS EVENT_BATCH_SIZE MAX_STREAM_DURATION_SECONDS
    RETRY_DELAYS_SECONDS job_id fuel last_seen s) as Hrun.
  pose proof (deployed_loop_ends job_id fuel last_seen s Hop Hfuel) as Ho.
  destruct (stream _ _ _ _ _ _ _ s) as [s' o] eqn:Hs.
  exists s', o. split; [done|]. apply ended_or_cancelled.
  - intros Hp. by destruct (staying_stream _ _ _ _ _ _ _ _ _ _ Hp Hs).
  - destruct (stream_loop _ _ _ _ _ _ _ _ s) as [s1 o1] eqn:Hl. simpl in Ho.
    destruct Hrun as (p & o' & Hrun). destruct o1 as [[[]|]|e]; [|done|].
    + injection Hrun as -> ->. right. split; [done|]. exact (stream_loop_last _ _ _ _ _ _ _ _ _ _ Hl).
    + destruct (decide (e = CancelledError)) as [->|Hne]; [left; by injection Hrun as _ ->|].
      assert ((s', o) = (closed s1 (st_out s1 ++ [error_frame e]) p, o') ∧ stays o' (Some tt)) as [[= -> ->] [->| ->]]
        by (destruct e; first [done|exact Hrun]); [right|by left].
      split; [done|]. by eexists _, _, _.
Qed.

Lemma stream_ends_witness :
  ∃ s',
    stream POLL_INTERVAL_SECONDS EVENT_BATCH_SIZE MAX_STREAM_DURATION_SECONDS RETRY_DELAYS_SECONDS
      1%N 2000 1 (Demo.start Demo.live) = (s', Ret (Some tt)).
Proof.
  destruct (stream_ends 1%N 2000 1 (Demo.start Demo.live) Demo.opened_live) as (s' & o & H & _ & Hp).
  - apply Nat.leb_le. vm_compute. reflexivity.
  - exists s'. rewrite <- Hp; [exact H|]. split; [reflexivity|]. repeat constructor.
Defined.

(** The stream of a finished job replays its log.  When nobody writes to
    the database, the stream of a COMPLETED or FAILED job yields every event
    of the job after the cursor, by id, then STREAM_END with the status, and
    frees its slot, whatever the batch size. *)
Theorem finished_job_replayed poll_interval batch_size max_duration retry_delays job_id fuel last_seen s j :
  st_patience s = None → script (st_db s) = [] → opened last_seen s →
  jobs (committed (st_db s)) !! job_id = Some j → terminal (job_status j) = true →
  (0 < batch_size)%nat → (0 < max_duration)%Z →
  (length (events_after job_id last_seen (committed (st_db s))) < fuel)%nat →
  stream poll_interval batch_size max_duration retry_delays job_id fuel last_seen s =
  (Stream (st_db s) (st_time s) (release (st_registry s))
     (map ItemEvent (events_after job_id last_seen (committed (st_db s)))
        ++ [STREAM_END (job_status j)]) None, Ret (Some tt)).
Proof.
  intros Hp Hs ([_ Hids] & Hc & Hout) Hj Ht Hb Hm Hfuel.
  pose proof (stream_run poll_interval batch_size max_duration retry_delays job_id fuel last_seen s) as Hrun.
  rewrite (stream_loop_replays _ _ _ _ _ _ _ _ _ j) in Hrun by (done || lia).
  destruct Hrun as (p & o & Hrun). rewrite Hrun.
  destruct (staying_stream _ _ _ _ _ _ _ s _ _ (conj Hp (honest_quiet _ Hs)) Hrun) as [[Hp' _] _].
  simpl in Hp'. subst p. unfold closed. simpl. by rewrite Hout.
Qed.

Lemma finished_job_replayed_witness :
  stream 500 2 600000 [500]%Z 1%N 4 0 (Demo.start Demo.finished) =
  (Stream Demo.finished 0 (Registry 20 0)
     (map ItemEvent (events_after 1%N 0 (Demo.table COMPLETED)) ++ [STREAM_END COMPLETED]) None, Ret (Some tt)).
Proof.
  refine (finished_job_replayed 500 2 600000 [500]%Z 1%N 4 0 (Demo.start Demo.finished)
    (Demo.job COMPLETED) eq_refl eq_refl _ eq_refl eq_refl _ _ _).
  - split; [split; [constructor|apply Demo.ids_ok_table]|done].
  - lia.
  - lia.
  - apply Nat.ltb_lt. vm_compute. reflexivity.
Defined.
