(* ===== verification/Streams.v ===== *)
(** * Collecting the output of a tool (runner/service.py, [_collect_streams])

    Two [drain] coroutines read the pipes of a process in chunks, cut the
    bytes into lines, store every line as an event and keep a bounded tail.
    A coroutine gives up control only when it waits for the next chunk, so
    their interleaving is the order in which reads complete. *)
From stdpp Require Import functions.
From S2P Require Import Prelude PyStr Exceptions Schemas Database DatabaseFacts.
Local Open Scope eff_scope.

(** ** [bytes.decode("utf-8", errors="replace")]

    Each longest prefix of an ill-formed sequence that could begin a
    character becomes one U+FFFD. *)
Section decode.
Local Open Scope N_scope.

Definition second_of_three (b0 b1 : N) : bool :=
  is_cont b1 && (negb (b0 =? 0xE0) || (0xA0 <=? b1)) && (negb (b0 =? 0xED) || (b1 <? 0xA0)).

Definition second_of_four (b0 b1 : N) : bool :=
  is_cont b1 && (negb (b0 =? 0xF0) || (0x90 <=? b1)) && (negb (b0 =? 0xF4) || (b1 <? 0x90)).

Fixpoint decode_replace (bs : bytes) : pystr :=
  match bs with
  | [] => []
  | b0 :: r0 =>
      if b0 <? 0x80 then b0 :: decode_replace r0
      else if b0 <? 0xC2 then 0xFFFD :: decode_replace r0
      else if b0 <? 0xE0 then
        match r0 with
        | [] => [0xFFFD]
        | b1 :: r1 =>
            if is_cont b1 then (b0 - 0xC0) * 64 + (b1 - 0x80) :: decode_replace r1
            else 0xFFFD :: decode_replace r0
        end
      else if b0 <? 0xF0 then
        match r0 with
        | [] => [0xFFFD]
        | b1 :: r1 =>
            if second_of_three b0 b1 then
              match r1 with
              | [] => [0xFFFD]
              | b2 :: r2 =>
                  if is_cont b2
                  then (b0 - 0xE0) * 4096 + (b1 - 0x80) * 64 + (b2 - 0x80) :: decode_replace r2
                  else 0xFFFD :: decode_replace r1
              end
            else 0xFFFD :: decode_replace r0
        end
      else if b0 <? 0xF5 then
        match r0 with
        | [] => [0xFFFD]
        | b1 :: r1 =>
            if second_of_four b0 b1 then
              match r1 with
              | [] => [0xFFFD]
              | b2 :: r2 =>
                  if is_cont b2 then
                    match r2 with
                    | [] => [0xFFFD]
                    | b3 :: r3 =>
                        if is_cont b3
                        then (b0 - 0xF0) * 262144 + (b1 - 0x80) * 4096
                             + (b2 - 0x80) * 64 + (b3 - 0x80) :: decode_replace r3
                        else 0xFFFD :: decode_replace r2
                    end
                  else 0xFFFD :: decode_replace r1
              end
            else 0xFFFD :: decode_replace r0
        end
      else 0xFFFD :: decode_replace r0
  end.
End decode.

Example replace_ex :
  decode_replace [0x61; 0xE4; 0xB8; 0x62; 0xFF; 0xE2; 0x82; 0xAC; 0xF0; 0x9F]%N
  = [0x61; 0xFFFD; 0x62; 0xFFFD; 0x20AC; 0xFFFD]%N.
Proof. reflexivity. Qed.

(** ** The drains *)
Definition _TAIL_MAX_LINES : nat := 20.
Definition _TAIL_MAX_LINE_CHARS : nat := 500.
Definition CLI_OUTPUT : pystr := Eval vm_compute in py "CLI_OUTPUT".
Definition LF : N := 10.

Inductive pipe := Stdout | Stderr.
#[export] Instance pipe_eq_dec : EqDecision pipe.
Proof. solve_decision. Defined.

(** The locals of a [drain] *)
Record drain_state := Drain { line_buffer : bytes; tail : list pystr; at_eof : bool }.
Definition new_drain : drain_state := Drain [] [] false.

Definition shorten (line : pystr) : pystr :=
  if (length line <=? _TAIL_MAX_LINE_CHARS)%nat then line
  else take _TAIL_MAX_LINE_CHARS line ++ py "...".

(** [deque(maxlen=n)], the newest last *)
Definition last_n {A} (n : nat) (l : list A) : list A := drop (length l - n) l.

Definition nonempty_lines (lines : list pystr) : list pystr := filter (λ l, l ≠ []) lines.

Definition decode_line (line : bytes) : pystr :=
  rstrip_by (λ c, (c =? 13)%N) (decode_replace line).

Section collect.
Context (job_id : uuid).

(** [persist]: the events first, then the tail *)
Definition persist (lines : list pystr) (st : drain_state) : eff exn conn drain_state :=
  let records := NewEventLog job_id CLI_OUTPUT <$> nonempty_lines lines in
  (if decide (records = []) then ret tt else add_all records ;;; commit) ;;;
  ret (Drain (line_buffer st)
         (last_n _TAIL_MAX_LINES (tail st ++ (shorten <$> nonempty_lines lines))) (at_eof st)).

(** What a [drain] does when a read completes; an empty chunk is the end. *)
Definition drain_read (chunk : bytes) (st : drain_state) : eff exn conn drain_state :=
  if decide (chunk = []) then
    st' <- (if decide (line_buffer st = []) then ret st
            else persist [decode_line (line_buffer st)] st) ;;
    ret (Drain (line_buffer st') (tail st') true)
  else
    let raw_lines := split_on LF (line_buffer st ++ chunk) in
    persist (decode_line <$> removelast raw_lines)
      (Drain (default [] (last raw_lines)) (tail st) false).

(** The two drains, on the reads in the order in which they complete *)
Fixpoint collect (reads : list (pipe * bytes)) (drains : pipe → drain_state)
    : eff exn conn (pipe → drain_state) :=
  match reads with
  | [] => ret drains
  | (p, chunk) :: reads' =>
      if at_eof (drains p) then collect reads' drains
      else st <- drain_read chunk (drains p) ;; collect reads' (<[p := st]> drains)
  end.

(** [None]: a pipe is still open when the reads are over. *)
Definition _collect_streams (reads : list (pipe * bytes)) : eff exn conn (option (pystr * pystr)) :=
  drains <- collect reads (λ _, new_drain) ;;
  if at_eof (drains Stdout) && at_eof (drains Stderr)
  then ret (Some (str_join [LF] (tail (drains Stdout)), str_join [LF] (tail (drains Stderr))))
  else ret None.
End collect.

(** ** Chunks do not matter

    The reference: the bytes of a pipe as a whole, cut at line feeds. *)
Definition lines_of (b : bytes) : list pystr := nonempty_lines (decode_line <$> split_on LF b).

(** Complete lines of the bytes seen so far *)
Definition complete_lines (b : bytes) : list pystr :=
  nonempty_lines (decode_line <$> removelast (split_on LF b)).

(** What a pipe delivers before its end *)
Fixpoint bytes_of (p : pipe) (reads : list (pipe * bytes)) : bytes :=
  match reads with
  | [] => []
  | (q, chunk) :: reads' =>
      if decide (p = q) then if decide (chunk = []) then [] else chunk ++ bytes_of p reads'
      else bytes_of p reads'
  end.

Definition closed (p : pipe) (reads : list (pipe * bytes)) : bool := bool_decide ((p, []) ∈ reads).

Definition tail_of (lines : list pystr) : list pystr := last_n _TAIL_MAX_LINES (shorten <$> lines).

(** A drain that has seen [b] *)
Definition drain_inv (b : bytes) (st : drain_state) : Prop :=
  if at_eof st then tail st = tail_of (lines_of b)
  else last (split_on LF b) = Some (line_buffer st) ∧ tail st = tail_of (complete_lines b).

Lemma split_on_snoc sep a : ∃ l x, split_on sep a = l ++ [x].
Proof.
  destruct (split_on_cons sep a) as (w & ws & E). rewrite E.
  destruct (exists_last (l := w :: ws)) as (l & x & ->); [done|]. by exists l, x.
Qed.

Lemma split_on_extend sep a b l x :
  split_on sep a = l ++ [x] → split_on sep (a ++ b) = l ++ split_on sep (x ++ b).
Proof.
  revert l x. induction a as [|c a IH]; intros l x H; simpl in H.
  { apply (app_inj_tail [] l) in H as [<- <-]. done. }
  destruct (split_on_snoc sep a) as (l0 & x0 & E). specialize (IH _ _ E). rewrite E in H.
  simpl. rewrite IH. destruct (c =? sep)%N eqn:Hc.
  - apply (app_inj_tail ([] :: l0) l) in H as [<- <-]. done.
  - destruct l0 as [|y l0].
    + apply (app_inj_tail [] l) in H as [<- <-]. simpl. by rewrite Hc.
    + apply (app_inj_tail ((c :: y) :: l0) l) in H as [<- <-]. done.
Qed.

Lemma nonempty_lines_app l1 l2 : nonempty_lines (l1 ++ l2) = nonempty_lines l1 ++ nonempty_lines l2.
Proof. apply filter_app. Qed.

Lemma complete_lines_extend b chunk buf :
  last (split_on LF b) = Some buf →
  let raw := split_on LF (buf ++ chunk) in
  complete_lines (b ++ chunk) =
    complete_lines b ++ nonempty_lines (decode_line <$> removelast raw) ∧
  last (split_on LF (b ++ chunk)) = Some (default [] (last raw)).
Proof.
  intros Hl raw. destruct (split_on_snoc LF b) as (l & x & E). rewrite E, last_snoc in Hl.
  injection Hl as ->. unfold complete_lines. rewrite (split_on_extend _ _ _ _ _ E), E.
  fold raw. rewrite removelast_last. destruct (split_on_snoc LF (buf ++ chunk)) as (l' & x' & E').
  fold raw in E'. rewrite E'. rewrite removelast_last, app_assoc, removelast_last, !last_snoc.
  by rewrite fmap_app, nonempty_lines_app.
Qed.

Lemma lines_of_complete b buf :
  last (split_on LF b) = Some buf →
  lines_of b = complete_lines b ++ nonempty_lines [decode_line buf].
Proof.
  intros Hl. destruct (split_on_snoc LF b) as (l & x & E). rewrite E, last_snoc in Hl.
  injection Hl as ->. unfold lines_of, complete_lines. rewrite E, removelast_last, fmap_app.
  apply nonempty_lines_app.
Qed.

Lemma last_n_app {A} n (l1 l2 : list A) : last_n n (last_n n l1 ++ l2) = last_n n (l1 ++ l2).
Proof.
  unfold last_n. rewrite !length_app, length_drop.
  destruct (decide (length l1 ≤ n)) as [Hle|Hgt].
  { replace (length l1 - n) with 0 by lia. rewrite drop_0. f_equal. lia. }
  replace (l1 ++ l2) with (take (length l1 - n) l1 ++ drop (length l1 - n) l1 ++ l2)
    by (by rewrite app_assoc, take_drop).
  rewrite (drop_app_ge (take _ _)).
  - f_equal. rewrite length_take. lia.
  - rewrite length_take. lia.
Qed.

Lemma tail_of_app l1 l2 :
  last_n _TAIL_MAX_LINES (tail_of l1 ++ (shorten <$> l2)) = tail_of (l1 ++ l2).
Proof. unfold tail_of. by rewrite last_n_app, fmap_app. Qed.

(** ** What a drain has done

    The lines of a pipe that these reads complete *)
Definition output (p : pipe) (reads : list (pipe * bytes)) : list pystr :=
  if closed p reads then lines_of (bytes_of p reads) else complete_lines (bytes_of p reads).

Lemma closed_cons p q chunk reads :
  closed p ((q, chunk) :: reads) = bool_decide (p = q ∧ chunk = []) || closed p reads.
Proof.
  unfold closed. apply eq_bool_prop_intro. rewrite orb_True, !bool_decide_spec, elem_of_cons.
  split; (intros [?|?]; [left|by right]); naive_solver.
Qed.

Lemma closed_app p r1 r2 : closed p (r1 ++ r2) = closed p r1 || closed p r2.
Proof.
  unfold closed. apply eq_bool_prop_intro. by rewrite orb_True, !bool_decide_spec, elem_of_app.
Qed.

Lemma bytes_of_app p r1 r2 :
  closed p r1 = false → bytes_of p (r1 ++ r2) = bytes_of p r1 ++ bytes_of p r2.
Proof.
  induction r1 as [|[q chunk] r1 IH]; [done|]. rewrite closed_cons. simpl.
  intros [Hne Hc]%orb_false_iff. apply bool_decide_eq_false in Hne.
  case_decide; [|auto]. case_decide; [tauto|]. rewrite IH by done. by rewrite app_assoc.
Qed.

Lemma bytes_of_closed p r1 r2 : closed p r1 = true → bytes_of p (r1 ++ r2) = bytes_of p r1.
Proof.
  induction r1 as [|[q chunk] r1 IH]; [by intros ?%bool_decide_eq_true%not_elem_of_nil|].
  rewrite closed_cons. simpl. destruct (decide (p = q)) as [->|Hne].
  - case_decide as Hc; [done|]. rewrite bool_decide_eq_false_2 by tauto. simpl. intros H.
    by rewrite IH.
  - rewrite bool_decide_eq_false_2 by tauto. simpl. apply IH.
Qed.

(** A pipe that is closed, or another pipe, is not concerned by a read. *)
Lemma skip_read p q rs chunk :
  p ≠ q ∨ closed p rs = true →
  closed p (rs ++ [(q, chunk)]) = closed p rs ∧ bytes_of p (rs ++ [(q, chunk)]) = bytes_of p rs.
Proof.
  intros Hne. rewrite closed_app. destruct (closed p rs) eqn:Hc; [by rewrite bytes_of_closed|].
  destruct Hne as [Hne|?]; [|done]. rewrite bytes_of_app by done. simpl.
  rewrite closed_cons, bool_decide_eq_false_2 by tauto. rewrite decide_False by done.
  by rewrite app_nil_r.
Qed.

(** The read of an open pipe *)
Lemma own_read p rs chunk :
  closed p rs = false →
  closed p (rs ++ [(p, chunk)]) = bool_decide (chunk = []) ∧
  bytes_of p (rs ++ [(p, chunk)]) = bytes_of p rs ++ chunk.
Proof.
  intros Hc. rewrite closed_app, Hc, bytes_of_app, closed_cons by done. simpl. split.
  - change (closed p []) with false. rewrite orb_false_r. apply bool_decide_ext. naive_solver.
  - rewrite decide_True by done. case_decide as Hn; [by rewrite Hn|]. by rewrite app_nil_r.
Qed.

Lemma output_skip p q rs chunk :
  p ≠ q ∨ closed p rs = true → output p (rs ++ [(q, chunk)]) = output p rs.
Proof. intros [Hc Hb]%(skip_read _ _ _ chunk). unfold output. by rewrite Hc, Hb. Qed.

(** A drain that has handled these reads *)
Definition handled (p : pipe) (rs : list (pipe * bytes)) (st : drain_state) : Prop :=
  at_eof st = closed p rs ∧ drain_inv (bytes_of p rs) st.

Lemma handled_skip p q rs chunk st :
  p ≠ q ∨ closed p rs = true → handled p rs st → handled p (rs ++ [(q, chunk)]) st.
Proof. intros [Hc Hb]%(skip_read _ _ _ chunk). unfold handled. by rewrite Hc, Hb. Qed.

Lemma handled_new p : handled p [] new_drain.
Proof. done. Qed.

Section reads.
Context (job_id : uuid).

Lemma persist_ret lines st c c' st' :
  persist job_id lines st c = (c', Ret st') →
  st' = Drain (line_buffer st)
    (last_n _TAIL_MAX_LINES (tail st ++ (shorten <$> nonempty_lines lines))) (at_eof st).
Proof.
  unfold persist. intros [(c1 & [] & _ & H)|(e & _ & ?)]%ebind_inv; [|done].
  unfold ret in H. by injection H as _ <-.
Qed.

(** One read: the lines it completes are what it stores, and when they are
    stored the drain has handled it. *)
Lemma drain_read_inv p rs chunk st c c' o :
  handled p rs st → at_eof st = false → drain_read job_id chunk st c = (c', o) →
  ∃ lines st0,
    output p (rs ++ [(p, chunk)]) = output p rs ++ nonempty_lines lines ∧
    match o with
    | Ret st' => handled p (rs ++ [(p, chunk)]) st' ∧ ∃ st1, persist job_id lines st0 c = (c', Ret st1)
    | Exc e => persist job_id lines st0 c = (c', Exc e)
    end.
Proof.
  intros [He Hi] Heof. unfold drain_inv in Hi. rewrite Heof in He, Hi. destruct Hi as [Hl Ht].
  unfold handled, output. destruct (own_read p rs chunk) as [-> ->]; [done|]. rewrite <- He.
  set (b := bytes_of p rs) in *. unfold drain_read. destruct (decide (chunk = [])) as [->|Hc].
  - rewrite bool_decide_eq_true_2, app_nil_r by done.
    set (lines := if decide (line_buffer st = []) then [] else [decode_line (line_buffer st)]).
    assert (lines_of b = complete_lines b ++ nonempty_lines lines) as Hlines.
    { rewrite (lines_of_complete b _ Hl). unfold lines. by case_decide as Hb; [rewrite Hb|]. }
    intros H. exists lines, st. split; [done|].
    assert (∃ o0, persist job_id lines st c = (c', o0) ∧ match o0 with
      | Ret st0 => o = Ret (Drain (line_buffer st0) (tail st0) true)
      | Exc e => o = Exc e end) as (o0 & Hp & Ho).
    { unfold lines. case_decide as Hb.
      - run in H. injection H as <- <-. eexists. split; [done|]. simpl.
        change (nonempty_lines []) with (@nil pystr). rewrite app_nil_r. f_equal. f_equal.
        rewrite Ht. pose proof (tail_of_app (complete_lines b) []) as Hlast.
        rewrite !app_nil_r in Hlast. exact (eq_sym Hlast).
      - apply ebind_inv in H as [(c1 & st0 & Hp & H)|(e & Hp & ->)]; [|by eexists].
        injection H as <- <-. by eexists. }
    destruct o0 as [st0|e]; subst o; [|done]. split; [|by eexists]. split; [done|].
    unfold drain_inv. simpl. apply persist_ret in Hp as ->. simpl.
    by rewrite Ht, tail_of_app, Hlines.
  - rewrite bool_decide_eq_false_2 by done. intros H.
    destruct (complete_lines_extend b chunk _ Hl) as [Hcl Hlast].
    eexists _, _. split; [exact Hcl|]. destruct o as [st'|e]; [|exact H].
    split; [|by eexists]. apply persist_ret in H as ->. split; [done|].
    unfold drain_inv. simpl. split; [done|]. by rewrite Ht, tail_of_app, Hcl.
Qed.

Definition by_pipe (p : pipe) (msgs : list (pipe * pystr)) : list pystr :=
  omap (λ x, if decide (p = x.1) then Some x.2 else None) msgs.

Lemma by_pipe_read p q lines msgs :
  by_pipe p (((q,.) <$> lines) ++ msgs) = (if decide (p = q) then lines else []) ++ by_pipe p msgs.
Proof.
  unfold by_pipe. rewrite omap_app. f_equal. destruct (decide (p = q)) as [->|Hne];
    (induction lines as [|m lines IH]; [done|]); simpl.
  - rewrite decide_True by done. by f_equal.
  - by rewrite decide_False.
Qed.

(** ** The two drains together

    [I] holds of the connections between two reads, and [stores msgs] is what
    storing lines successfully does to them. *)
Section collected.
Context (I : conn → Prop) (stores : list pystr → conn → conn → Prop).
Hypothesis stores_nil : ∀ c, I c → stores [] c c.
Hypothesis stores_app : ∀ m1 m2 c1 c2 c3,
  stores m1 c1 c2 → stores m2 c2 c3 → stores (m1 ++ m2) c1 c3.
Hypothesis persist_stores : ∀ lines st c c' st',
  I c → persist job_id lines st c = (c', Ret st') → I c' ∧ stores (nonempty_lines lines) c c'.

(** The lines stored are those that the reads complete; a run that raises
    stopped at the read whose lines could not be stored. *)
Definition collected (before reads : list (pipe * bytes)) (c c' : conn)
    (o : outcome exn (pipe → drain_state)) : Prop :=
  match o with
  | Ret drains =>
      I c' ∧ (∀ p, handled p (before ++ reads) (drains p)) ∧
      ∃ msgs, stores msgs.*2 c c' ∧
        ∀ p, output p (before ++ reads) = output p before ++ by_pipe p msgs
  | Exc e =>
      ∃ reads1 p chunk reads2 msgs c1 lines st,
        reads = reads1 ++ (p, chunk) :: reads2 ∧ I c1 ∧ stores msgs.*2 c c1 ∧
        (∀ q, output q (before ++ reads1) = output q before ++ by_pipe q msgs) ∧
        persist job_id lines st c1 = (c', Exc e) ∧
        output p ((before ++ reads1) ++ [(p, chunk)]) = output p (before ++ reads1) ++ nonempty_lines lines
  end.

(** One more read, before *)
Lemma collected_cons before p chunk reads lines c c1 c' o :
  stores lines c c1 →
  (∀ q, output q (before ++ [(p, chunk)]) = output q before ++ if decide (q = p) then lines else []) →
  collected (before ++ [(p, chunk)]) reads c1 c' o → collected before ((p, chunk) :: reads) c c' o.
Proof using stores_app.
  intros Hst Hout. unfold collected. destruct o as [drains|e].
  - rewrite <-app_assoc. intros (HI & Hh & msgs & Hs & Hm). split_and!; [done..|].
    exists (((p,.) <$> lines) ++ msgs). rewrite fmap_app, <-list_fmap_compose.
    rewrite (list_fmap_ext _ id), list_fmap_id by done. split; [by eapply stores_app|].
    intros q. by rewrite Hm, Hout, by_pipe_read, app_assoc.
  - intros (r1 & q & ch & r2 & msgs & c2 & ls & st & -> & HI & Hs & Hm & Hp & Hl).
    exists ((p, chunk) :: r1), q, ch, r2, (((p,.) <$> lines) ++ msgs), c2, ls, st.
    rewrite fmap_app, <-list_fmap_compose. rewrite (list_fmap_ext _ id), list_fmap_id by done.
    assert ((before ++ [(p, chunk)]) ++ r1 = before ++ (p, chunk) :: r1) as E by (by rewrite <-app_assoc).
    rewrite E in Hl. split_and!; [done|done|by eapply stores_app| |done|done].
    intros q'. specialize (Hm q'). rewrite E in Hm. by rewrite Hm, Hout, by_pipe_read, app_assoc.
Qed.

Lemma collect_spec before reads drains c c' o :
  I c → (∀ p, handled p before (drains p)) → collect job_id reads drains c = (c', o) →
  collected before reads c c' o.
Proof using All.
  revert before drains c. induction reads as [|[p chunk] reads IH]; intros before drains c HI Hh.
  { intros [= <- <-]. unfold collected. rewrite app_nil_r. split_and!; [done..|].
    exists []. split; [by apply stores_nil|]. intros p. by rewrite app_nil_r. }
  cbn [collect]. destruct (at_eof (drains p)) eqn:Hf.
  - intros Hrun. assert (∀ q, q ≠ p ∨ closed q before = true) as Hskip.
    { intros q. destruct (decide (q = p)) as [->|?]; [right|by left]. by rewrite <-(proj1 (Hh p)). }
    apply (collected_cons before p chunk reads [] c c); [by apply stores_nil| |].
    + intros q. rewrite output_skip by done. by case_decide; rewrite app_nil_r.
    + eapply IH; [done| |exact Hrun]. intros q. by apply handled_skip.
  - unfold ebind. destruct (drain_read job_id chunk (drains p) c) as [c1 o1] eqn:Hr.
    destruct (drain_read_inv p before chunk _ _ _ _ (Hh p) Hf Hr) as (lines & st0 & Hout & Ho).
    destruct o1 as [st|e].
    + intros Hrun. destruct Ho as (Hst & st1 & Hp). destruct (persist_stores _ _ _ _ _ HI Hp) as [HI1 Hs].
      eapply collected_cons; [exact Hs| |].
      * intros q. case_decide as Hq; [by subst|]. rewrite app_nil_r. apply output_skip. by left.
      * eapply IH; [done| |exact Hrun]. intros q. destruct (decide (p = q)) as [<-|Hne].
        -- by rewrite fn_lookup_insert.
        -- rewrite fn_lookup_insert_ne by done. apply handled_skip; [left; congruence|done].
    + intros [= <- <-]. exists [], p, chunk, reads, [], c, lines, st0.
      rewrite app_nil_r. split_and!; [done|done|by apply stores_nil| |done|done].
      intros q. by rewrite app_nil_r.
Qed.
End collected.

(** ** Whatever the database does *)

(** Storing a batch of lines that succeeds leaves them in the log, in order,
    whatever other sessions commit before and in between; one that raises has
    met an error of the database. *)
Definition entry (e : EventLog) : uuid * pystr * pystr := (event_job_id e, event_type e, message e).

Lemma insert_events now next t job ty (msgs : list pystr) :
  has_job t job = true →
  ∃ ops evs, insert_rows now next t (NewEventLog job ty <$> msgs) =
      ((next + Z.of_nat (length msgs))%Z, Some ops) ∧
    jobs (apply_ops t ops) = jobs t ∧ event_logs (apply_ops t ops) = event_logs t ++ evs ∧
    entry <$> evs = (λ m, (job, ty, m)) <$> msgs.
Proof.
  revert next t. induction msgs as [|m msgs IH]; intros next t Hj.
  { exists [], []. rewrite app_nil_r. split_and!; try done. simpl. f_equal. lia. }
  rewrite fmap_cons. cbn [insert_rows insert_row]. rewrite Hj. cbv iota. set (e := {| event_id := next |}).
  destruct (IH (next + 1)%Z (apply_op t (InsertEventLog e)))
    as (ops & evs & Hins & Hjobs & Hlogs & Hev); [done|].
  rewrite Hins. exists (InsertEventLog e :: ops), (e :: evs).
  change (apply_ops t (InsertEventLog e :: ops)) with (apply_ops (apply_op t (InsertEventLog e)) ops).
  rewrite Hjobs, Hlogs. split_and!; [|done| |by rewrite !fmap_cons, Hev].
  - rewrite length_cons. simpl. f_equal. lia.
  - simpl. by rewrite <-app_assoc.
Qed.

Lemma insert_events_inv now next t job ty (msgs : list pystr) next' ops :
  insert_rows now next t (NewEventLog job ty <$> msgs) = (next', Some ops) →
  ∃ evs, (∀ t', event_logs (apply_ops t' ops) = event_logs t' ++ evs) ∧
    entry <$> evs = (λ m, (job, ty, m)) <$> msgs.
Proof.
  revert next t next' ops. induction msgs as [|m msgs IH]; intros next t next' ops.
  { intros [= _ <-]. exists []. split; [|done]. intros t'. by rewrite app_nil_r. }
  rewrite fmap_cons. cbn [insert_rows insert_row]. destruct (has_job t job); [|done].
  set (e := {| event_id := next |}).
  destruct (insert_rows _ _ _ _) as [next2 [ops2|]] eqn:Hins; [|done]. intros [= _ <-].
  apply IH in Hins as (evs & Hlogs & Hev). exists (e :: evs). split; [|by rewrite !fmap_cons, Hev].
  intros t'. change (apply_ops t' (InsertEventLog e :: ops2)) with
    (apply_ops (apply_op t' (InsertEventLog e)) ops2).
  rewrite Hlogs. simpl. by rewrite <-app_assoc.
Qed.

(** The log of [d'] goes on with these output lines, among others. *)
Definition stored (msgs : list pystr) (d d' : database) : Prop :=
  script d' `suffix_of` script d ∧
  ∃ new, event_logs (committed d') = event_logs (committed d) ++ new ∧
    ((λ m, (job_id, CLI_OUTPUT, m)) <$> msgs) `sublist_of` (entry <$> new).

Lemma stored_nil d : stored [] d d.
Proof. split; [done|]. exists []. by rewrite app_nil_r. Qed.

Lemma stored_app m1 m2 d1 d2 d3 : stored m1 d1 d2 → stored m2 d2 d3 → stored (m1 ++ m2) d1 d3.
Proof.
  intros (Hs1 & n1 & Hl1 & He1) (Hs2 & n2 & Hl2 & He2). split; [by etrans|].
  exists (n1 ++ n2). rewrite Hl2, Hl1, app_assoc, !fmap_app. split; [done|by apply sublist_app].
Qed.

Lemma next_tick_stored locked d d' r : next_tick locked d = (d', r) → stored [] d d'.
Proof.
  intros Ht. split; [by apply next_tick_errors in Ht as [? _]|].
  assert (event_logs (committed d) `prefix_of` event_logs (committed d')) as [new Hnew].
  { revert Ht. unfold next_tick. destruct (script d) as [|k ks]; intros [= <- _]; [done|].
    apply (commit_others_logs locked (others k) (elapse k ks d)). }
  exists new. split; [done|]. apply sublist_nil_l.
Qed.

(** The commit of a batch of lines *)
Lemma commit_stored msgs d c' o :
  NewEventLog job_id CLI_OUTPUT <$> msgs ≠ [] →
  commit (d, Session (NewEventLog job_id CLI_OUTPUT <$> msgs) [] None false) = (c', o) →
  match o with
  | Ret _ => c'.2 = fresh_session ∧ stored msgs d c'.1
  | Exc _ => stored [] d c'.1
  end.
Proof.
  intros Hne. unfold commit, ebind, flush, statement. cbn [fst snd pending work started aborted].
  rewrite decide_False by done.
  destruct (next_tick _ d) as [d1 r1] eqn:Ht1. apply next_tick_stored in Ht1.
  destruct r1 as [|e|e]; [|intros [= <- <-]; exact Ht1..]. unfold view, now. simpl.
  destruct (insert_rows _ _ _ _) as [n [ops|]] eqn:Hins; [|intros [= <- <-]; exact Ht1].
  apply insert_events_inv in Hins as (evs & Hlogs & Hevs). simpl.
  set (d2 := Database (committed d1) n (clock d1) (script d1)).
  assert (stored [] d d2) as Hd2 by exact Ht1. clearbody d2. clear Ht1.
  destruct (next_tick _ d2) as [d3 r3] eqn:Ht3. apply next_tick_stored in Ht3.
  pose proof (stored_app [] [] _ _ _ Hd2 Ht3) as Hd3. simpl in Hd3.
  assert (∀ s, stored msgs d (publish d3 (Session [] ops s false))) as Hpub.
  { intros s. apply (stored_app [] msgs _ _ _ Hd3). split; [done|]. exists evs.
    simpl. rewrite Hlogs. split; [done|]. by rewrite Hevs. }
  assert (∀ d4, stored msgs d d4 → stored [] d d4) as Hweak.
  { intros d4 (Hs & new & Hl & _). split; [done|]. exists new. split; [done|apply sublist_nil_l]. }
  destruct r3 as [|e|e]; intros [= <- <-]; simpl.
  - split; [done|apply Hpub].
  - exact Hd3.
  - apply Hweak, Hpub.
Qed.

Lemma persist_stored lines st d c' o :
  persist job_id lines st (d, fresh_session) = (c', o) →
  match o with
  | Ret _ => c'.2 = fresh_session ∧ stored (nonempty_lines lines) d c'.1
  | Exc e => db_error d e ∧ stored [] d c'.1
  end.
Proof.
  unfold persist. set (msgs := nonempty_lines lines).
  destruct (decide (NewEventLog job_id CLI_OUTPUT <$> msgs = [])) as [Hn|Hn].
  { apply fmap_nil_inv in Hn. rewrite Hn. run. intros [= <- <-]. split; [done|apply stored_nil]. }
  unfold add_all. rewrite run_assoc. run. intros [(c1 & [] & Hc & H)|(e & Hc & ->)]%ebind_inv.
  - injection H as <- <-. by apply commit_stored in Hc.
  - split; [by apply commit_errors in Hc|]. by apply commit_stored in Hc.
Qed.

Lemma handled_tail p rs st :
  handled p rs st → closed p rs = true → tail st = tail_of (lines_of (bytes_of p rs)).
Proof. intros [He Hi] Hc. unfold drain_inv in Hi. by rewrite He, Hc in Hi. Qed.

(** The two drains from the start *)
Lemma collect_stored reads d c' o :
  collect job_id reads (λ _, new_drain) (d, fresh_session) = (c', o) →
  match o with
  | Ret drains =>
      (∀ p, handled p reads (drains p)) ∧
      ∃ msgs, stored msgs.*2 d c'.1 ∧ ∀ p, by_pipe p msgs = output p reads
  | Exc e =>
      db_error d e ∧
      ∃ reads1 p chunk reads2 msgs, reads = reads1 ++ (p, chunk) :: reads2 ∧
        stored msgs.*2 d c'.1 ∧ ∀ q, by_pipe q msgs = output q reads1
  end.
Proof.
  intros Hrun. eapply (collect_spec (λ c, c.2 = fresh_session) (λ m c c', stored m c.1 c'.1) _ _ _ [])
    in Hrun; [|done|intros p; apply handled_new].
  destruct o as [drains|e].
  - destruct Hrun as (_ & Hh & msgs & Hs & Hm). split; [done|]. exists msgs. split; [done|].
    intros p. by rewrite Hm.
  - destruct Hrun as (r1 & p & ch & r2 & msgs & [d1 s1] & lines & st & -> & Hfr & Hs & Hm & Hp & _).
    simpl in Hfr. subst s1. apply persist_stored in Hp as [He Hs2]. split.
    { eapply db_error_later; [apply Hs|done]. }
    exists r1, p, ch, r2, msgs. split_and!; [done| |by intros q; rewrite Hm].
    rewrite <-(app_nil_r msgs.*2). by eapply stored_app.
  Unshelve.
  + intros c _. apply stored_nil.
  + intros m1 m2 c1 c2 c3. apply stored_app.
  + intros lines st [d1 s1] c1 st' Hfr Hp. simpl in Hfr. subst s1. by apply persist_stored in Hp.
Qed.

(** ** On a database nobody else uses *)
Definition quiet (d : database) : Prop := script d = [] ∧ has_job (committed d) job_id = true.

(** The log grew by these output lines. *)
Definition logged (msgs : list pystr) (d d' : database) : Prop :=
  jobs (committed d') = jobs (committed d) ∧
  ∃ evs, event_logs (committed d') = event_logs (committed d) ++ evs ∧
    entry <$> evs = (λ m, (job_id, CLI_OUTPUT, m)) <$> msgs.

Lemma logged_nil d : logged [] d d.
Proof. split; [done|]. exists []. by rewrite app_nil_r. Qed.

Lemma logged_app m1 m2 d1 d2 d3 : logged m1 d1 d2 → logged m2 d2 d3 → logged (m1 ++ m2) d1 d3.
Proof.
  intros (Hj1 & e1 & Hl1 & He1) (Hj2 & e2 & Hl2 & He2). split; [congruence|].
  exists (e1 ++ e2). rewrite Hl2, Hl1, app_assoc, !fmap_app. split; [done|by f_equal].
Qed.

Lemma persist_quiet lines st d :
  quiet d → ∃ d', quiet d' ∧ logged (nonempty_lines lines) d d' ∧
    persist job_id lines st (d, fresh_session) = ((d', fresh_session),
      Ret (Drain (line_buffer st)
        (last_n _TAIL_MAX_LINES (tail st ++ (shorten <$> nonempty_lines lines))) (at_eof st))).
Proof.
  intros [Hs Hj]. unfold persist. set (msgs := nonempty_lines lines).
  destruct (decide (NewEventLog job_id CLI_OUTPUT <$> msgs = [])) as [Hn|Hn].
  { apply fmap_nil_inv in Hn. exists d. rewrite Hn. split_and!; [done|apply logged_nil|done]. }
  destruct (insert_events (clock d) (next_event_id d) (committed d) job_id CLI_OUTPUT msgs Hj)
    as (ops & evs & Hins & Hjobs & Hlogs & Hev).
  exists (Database (apply_ops (committed d) ops) (next_event_id d + Z.of_nat (length msgs)) (clock d) []).
  split_and!; [|split; [done|by exists evs]|].
  { split; [done|]. unfold has_job in *. simpl. by rewrite Hjobs. }
  unfold add_all, commit, flush, statement, next_tick, ebind, modify; simpl.
  rewrite decide_False by done. rewrite Hs. simpl. unfold view, now; simpl. rewrite Hins. simpl.
  rewrite Hs. done.
Qed.

Definition quiet_conn (c : conn) : Prop := quiet c.1 ∧ c.2 = fresh_session.
Definition logged_conn (msgs : list pystr) (c c' : conn) : Prop := logged msgs c.1 c'.1.

(** Nothing fails, and the log grows by the lines alone. *)
Lemma collect_quiet before reads drains d :
  quiet d → (∀ p, handled p before (drains p)) →
  ∃ d' drains' msgs,
    collect job_id reads drains (d, fresh_session) = ((d', fresh_session), Ret drains') ∧
    logged msgs.*2 d d' ∧
    ∀ p, output p (before ++ reads) = output p before ++ by_pipe p msgs.
Proof.
  intros Hq Hh. destruct (collect job_id reads drains (d, fresh_session)) as [c' o] eqn:Hrun.
  eapply (collect_spec quiet_conn logged_conn) in Hrun; [|..|by split|exact Hh].
  - destruct o as [drains'|e].
    + destruct c' as [d' s']. destruct Hrun as ([_ Hs] & _ & msgs & Hlog & Hm). simpl in Hs. subst s'.
      by exists d', drains', msgs.
    + destruct Hrun as (? & ? & ? & ? & ? & [d1 s1] & lines & st & _ & [Hq1 Hs] & _ & _ & Hp & _).
      simpl in *. subst s1. destruct (persist_quiet lines st d1 Hq1) as (d2 & _ & _ & Hp'). congruence.
  - intros c _. apply logged_nil.
  - intros m1 m2 c1 c2 c3. apply logged_app.
  - intros lines st [d1 s1] c1 st' [Hq1 Hs] Hp. simpl in *. subst s1.
    destruct (persist_quiet lines st d1 Hq1) as (d2 & Hq2 & Hl & Hp'). rewrite Hp in Hp'.
    by injection Hp' as -> _.
Qed.
End reads.

Module Demo.
Definition job : Job :=
  {| parent_job_id := None; prompt := []; job_status := RUNNING; action_plan := None;
     job_created_at := 0; updated_at := 0 |}.
Definition db : database := Database (Tables {[ 1%N := job ]} [] []) 1 0 [].

(** A line cut by a chunk border, even inside a character *)
Definition reads : list (pipe * bytes) :=
  [(Stdout, ascii_codes "EC" ++ [0xC3%N]); (Stderr, ascii_codes "WARN");
   (Stdout, [0xA9; 13; 10; 10]%N ++ ascii_codes "x"); (Stdout, []); (Stderr, [])].

(** The server refuses the second statement of the first batch. *)
Definition refusing : database :=
  Database (committed db) 1 0 [Tick 0 [] Delivered; Tick 0 [] (Refused OperationalError)].

Example interleaved :
  let '(c, o) := _collect_streams 1 reads (db, fresh_session) in
  (message <$> event_logs (committed c.1), o) =
  ([py "EC" ++ [0xE9%N]; py "x"; py "WARN"],
   Ret (Some (py "EC" ++ [0xE9; 10]%N ++ py "x", py "WARN"))).
Proof. vm_compute. reflexivity. Qed.
End Demo.

(** ** Properties *)


