(* ===== verification/Detached.v ===== *)
(** * The drain that is left behind (runner/service.py)

    [asyncio.gather] in [_collect_streams] raises the first exception of its
    two drains and lets the other one run on, with the same session.  Until the
    exception has reached [_execute_action], a few turns of the event loop
    later, that session waits for a rollback and refuses everything
    ([before_close]); then it is closed, and what the other drain stores after
    that opens a new transaction ([detached]).  An exception of the other drain
    is never retrieved. *)
From stdpp Require Import functions.
From S2P Require Import Prelude PyStr Exceptions Database DatabaseFacts Repository Streams.
Local Open Scope eff_scope.

(** The drains at the failure, and the reads of the other pipe to come *)
Record leftover := Leftover {
  left_drains : pipe → drain_state;
  left_reads : list (pipe * bytes)
}.

Section gather.
Context (job_id : uuid).

Fixpoint gather (reads : list (pipe * bytes)) (drains : pipe → drain_state) (c : conn)
    : conn * (outcome exn (pipe → drain_state) * option leftover) :=
  match reads with
  | [] => (c, (Ret drains, None))
  | (p, chunk) :: reads' =>
      if at_eof (drains p) then gather reads' drains c
      else
        match drain_read job_id chunk (drains p) c with
        | (c', Ret st) => gather reads' (<[p := st]> drains) c'
        | (c', Exc e) => (c', (Exc e, Some (Leftover drains (filter (λ r, r.1 ≠ p) reads'))))
        end
  end.

(** The first [early] of those reads complete before the session is closed. *)
Definition before_close (early : nat) (l : leftover) : eff exn conn leftover :=
  drains <- collect job_id (take early (left_reads l)) (left_drains l) ;;
  ret (Leftover drains (drop early (left_reads l))).

(** The others, after that *)
Definition detached (l : leftover) : eff exn database unit :=
  with_session (try_catch (_d <- collect job_id (left_reads l) (left_drains l) ;; ret tt)
                  (λ _, ret tt)).

(** ** [gather] is [collect] *)
Lemma gather_collect reads drains c :
  ((gather reads drains c).1, (gather reads drains c).2.1) = collect job_id reads drains c.
Proof using.
  revert drains c. induction reads as [|[p chunk] reads IH]; intros drains c; simpl; [done|].
  destruct (at_eof (drains p)); [apply IH|]. unfold ebind.
  destruct (drain_read job_id chunk (drains p) c) as [c' [st|e]]; [apply IH|done].
Qed.

(** ** Which lines the reads of the other pipe complete *)
Lemma output_prefix p rs rs' : output p rs `prefix_of` output p (rs ++ rs').
Proof using.
  induction rs' as [|[q chunk] rs' IH] using rev_ind; [by rewrite app_nil_r|].
  etrans; [exact IH|]. rewrite app_assoc. set (r := rs ++ rs'). clearbody r. clear IH.
  destruct (decide (p = q ∧ closed p r = false)) as [[<- Hc]|Hne].
  2: { rewrite output_skip; [done|]. destruct (closed p r); [by right|left; tauto]. }
  unfold output. destruct (own_read p r chunk Hc) as [-> ->]. rewrite Hc.
  destruct (split_on_snoc LF (bytes_of p r)) as (ls & buf & E).
  assert (last (split_on LF (bytes_of p r)) = Some buf) as Hl by (by rewrite E, last_snoc).
  destruct (complete_lines_extend _ chunk _ Hl) as [Hcl Hl'].
  case_bool_decide; [rewrite (lines_of_complete _ _ Hl')|]; rewrite Hcl, <- ?app_assoc;
    by apply prefix_app_r.
Qed.

Lemma output_others p before rs :
  Forall (λ r, r.1 ≠ p) rs → output p (before ++ rs) = output p before.
Proof using.
  intros Hrs. induction rs as [|[q chunk] rs IH] using rev_ind; [by rewrite app_nil_r|].
  apply Forall_app in Hrs as [Hrs Hq]. apply Forall_cons in Hq as [Hq _]. rewrite app_assoc.
  rewrite output_skip by (left; intros ->; by apply Hq). auto.
Qed.

Lemma bytes_of_other p q rs :
  p ≠ q → bytes_of p (filter (λ r, r.1 ≠ q) rs) = bytes_of p rs ∧
  closed p (filter (λ r, r.1 ≠ q) rs) = closed p rs.
Proof using.
  intros Hne. induction rs as [|[q' chunk] rs [IH1 IH2]]; [done|]. rewrite filter_cons. simpl.
  destruct (decide (q' = q)) as [->|Hq].
  - rewrite (decide_False (P := ¬ q = q)) by tauto. rewrite closed_cons, decide_False by done.
    by rewrite bool_decide_eq_false_2 by tauto.
  - rewrite (decide_True (P := ¬ q' = q)), !closed_cons by done. simpl. by rewrite IH1, IH2.
Qed.

Lemma output_filter p q before chunk rs :
  p ≠ q → output p (before ++ (q, chunk) :: rs) = output p (before ++ filter (λ r, r.1 ≠ q) rs).
Proof using.
  intros Hne. destruct (bytes_of_other p q rs Hne) as [Hb Hc]. unfold output.
  rewrite !closed_app, Hc, closed_cons, bool_decide_eq_false_2 by tauto. simpl.
  destruct (closed p before) eqn:Hcl; [by rewrite !bytes_of_closed|].
  rewrite !bytes_of_app by done. simpl. by rewrite decide_False, Hb.
Qed.

Lemma only_pipe p q msgs : q ≠ p → by_pipe p msgs = [] → msgs.*2 = by_pipe q msgs.
Proof using.
  intros Hne. induction msgs as [|[r m] msgs IH]; [done|]. unfold by_pipe in *. simpl.
  destruct (decide (p = r)) as [->|Hr]; [done|]. intros H. rewrite decide_True.
  - f_equal. by apply IH.
  - by destruct p, q, r.
Qed.

(** ** Where a failing [gather] stopped *)
Lemma persist_aborts lines st c c' e :
  persist job_id lines st c = (c', Exc e) → aborted c'.2 = true.
Proof using.
  unfold persist. intros [(c1 & [] & _ & [=])|(e1 & H & _)]%ebind_inv. revert H.
  case_decide; [done|]. unfold add_all. run. apply commit_aborts.
Qed.

Lemma gather_failed before reads drains c c' e l :
  (∀ p, handled p before (drains p)) → gather reads drains c = (c', (Exc e, Some l)) →
  aborted c'.2 = true ∧
  ∃ reads1 p chunk reads2, reads = reads1 ++ (p, chunk) :: reads2 ∧
    left_reads l = filter (λ r, r.1 ≠ p) reads2 ∧
    ∀ q, handled q (before ++ reads1) (left_drains l q).
Proof using.
  revert before drains c. induction reads as [|[p chunk] reads IH]; intros before drains c Hh H;
    simpl in H; [done|].
  assert (∀ drains', (∀ q, handled q (before ++ [(p, chunk)]) (drains' q)) → ∀ c0,
    gather reads drains' c0 = (c', (Exc e, Some l)) →
    aborted c'.2 = true ∧
    ∃ reads1 p' chunk' reads2, (p, chunk) :: reads = reads1 ++ (p', chunk') :: reads2 ∧
      left_reads l = filter (λ r, r.1 ≠ p') reads2 ∧
      ∀ q, handled q (before ++ reads1) (left_drains l q)) as Hnext.
  { intros drains' Hh' c0 H'. apply (IH _ _ _ Hh') in H' as (Ha & r1 & p' & ch & r2 & -> & Hl & Hd).
    split; [done|]. exists ((p, chunk) :: r1), p', ch, r2. split_and!; [done..|]. intros q.
    specialize (Hd q). by rewrite <- app_assoc in Hd. }
  destruct (at_eof (drains p)) eqn:Hf.
  - apply (Hnext drains) in H; [done|]. intros q. apply handled_skip; [|done].
    destruct (decide (q = p)) as [->|?]; [right|by left]. by rewrite <- (proj1 (Hh p)).
  - destruct (drain_read job_id chunk (drains p) c) as [c1 o1] eqn:Hr.
    destruct (drain_read_inv job_id p before chunk _ _ _ _ (Hh p) Hf Hr) as (lines & st0 & _ & Ho).
    destruct o1 as [st|e1].
    + eapply Hnext; [|exact H]. intros q. destruct (decide (p = q)) as [<-|Hne].
      * rewrite fn_lookup_insert. apply Ho.
      * rewrite fn_lookup_insert_ne by done. apply handled_skip; [left; congruence|done].
    + injection H as <- _ <-. split; [by eapply persist_aborts|].
      exists [], p, chunk, reads. rewrite app_nil_r. split_and!; done.
Qed.

(** ** On a session that has failed *)
Lemma persist_aborted lines st c c' o :
  aborted c.2 = true → persist job_id lines st c = (c', o) →
  match o with
  | Ret _ => nonempty_lines lines = [] ∧ c' = c
  | Exc e => nonempty_lines lines ≠ [] ∧ e = OtherSQLAlchemyError ∧ c'.1 = c.1
  end.
Proof using.
  intros Ha. unfold persist. case_decide as Hn.
  - apply fmap_nil_inv in Hn. rewrite Hn. run. by intros [= <- <-].
  - unfold add_all. rewrite run_assoc. run. set (c1 := (c.1, _)).
    rewrite (ebind_exc_run _ _ _ _ _ (commit_aborted c1 Ha)). intros [= <- <-].
    split; [|done]. intros E. by rewrite E in Hn.
Qed.

(** The reads complete no line and change nothing, or the first that does
    raises. *)
Lemma collect_aborted before rds drains c c' o :
  aborted c.2 = true → (∀ p, handled p before (drains p)) →
  collect job_id rds drains c = (c', o) →
  match o with
  | Ret drains' =>
      c' = c ∧ (∀ p, handled p (before ++ rds) (drains' p)) ∧
      ∀ p, output p (before ++ rds) = output p before
  | Exc e =>
      e = OtherSQLAlchemyError ∧ c'.1 = c.1 ∧ ∃ p, output p (before ++ rds) ≠ output p before
  end.
Proof using.
  intros Ha Hh Hrun.
  eapply (collect_spec job_id (λ c, aborted c.2 = true) (λ m c c', m = [] ∧ c' = c)) in Hrun;
    [|done|by intros m1 m2 c1 c2 c3 [-> ->] [-> ->]| |done|exact Hh].
  2: { intros lines st c0 c0' st' H0 [Hn ->]%persist_aborted; done. }
  destruct o as [drains'|e].
  - destruct Hrun as (_ & Hh' & msgs & [Hm ->] & Hout). apply fmap_nil_inv in Hm as ->.
    split_and!; [done..|]. intros p. rewrite Hout. apply app_nil_r.
  - destruct Hrun as (r1 & p & ch & r2 & msgs & c1 & lines & st & -> & Ha1 & [Hm ->] & Hout & Hp & Hl).
    apply fmap_nil_inv in Hm as ->. apply persist_aborted in Hp as (Hne & -> & Hc); [|done].
    split_and!; [done..|]. exists p. intros E.
    assert (before ++ r1 ++ (p, ch) :: r2 = ((before ++ r1) ++ [(p, ch)]) ++ r2) as Happ
      by (by rewrite <- !app_assoc).
    destruct (output_prefix p ((before ++ r1) ++ [(p, ch)]) r2) as [k Hk].
    rewrite <- Happ, E, Hl, Hout in Hk. apply (f_equal length) in Hk. rewrite !length_app in Hk.
    destruct (nonempty_lines lines); [done|]. simpl in Hk. lia.
Qed.

Lemma steps_collect rds drains : steps conn_step (collect job_id rds drains).
Proof using.
  assert (∀ lines st, steps conn_step (persist job_id lines st)) as Hp.
  { intros lines st. unfold persist. case_decide; eauto with eff. }
  revert drains. induction rds as [|[p chunk] rds IH]; intros drains; simpl; [eauto with eff|].
  destruct (at_eof _); [done|]. apply steps_ebind; [apply _| |intros st; apply IH].
  unfold drain_read. case_decide; [|apply Hp].
  apply steps_ebind; [apply _| |intros st; eauto with eff]. case_decide; eauto with eff.
Qed.

(** ** The drain that goes on after the session was closed *)
Lemma detached_stores p q before l d :
  q ≠ p → Forall (λ r, r.1 ≠ p) (left_reads l) → (∀ p, handled p before (left_drains l p)) →
  script d = [] → has_job (committed d) job_id = true →
  ∃ d' msgs, detached l d = (d', Ret tt) ∧ logged job_id msgs d d' ∧
    output q (before ++ left_reads l) = output q before ++ msgs.
Proof using.
  intros Hqp Hrs Hh Hs Hj.
  destruct (collect_quiet job_id before (left_reads l) (left_drains l) d)
    as (d' & drains' & msgs & Hrun & Hlog & Hout); [done|done|].
  exists d', msgs.*2. split_and!; [|done|].
  - unfold detached, with_session, try_catch. by rewrite (ebind_ret_run _ _ _ _ _ Hrun).
  - rewrite (only_pipe p q); [apply Hout|done|].
    pose proof (Hout p) as Hp. rewrite output_others in Hp by done.
    apply (app_inv_head (output p before)). by rewrite <- Hp, app_nil_r.
Qed.

Lemma steps_detached l : steps db_step (detached l).
Proof using.
  apply steps_with_session, steps_catch; [apply _| |intros; apply steps_ret, _].
  apply steps_ebind; [apply _|apply steps_collect|intros; apply steps_ret, _].
Qed.
End gather.

(** C21: What becomes of the other pipe when storing the output of one fails.
    [gather] raises; the other drain goes on with the same session, which
    refuses everything until it is closed some turns of the event loop later.
    If a read that completes before that (the first [early] of those to come)
    finishes a line of the other pipe, its drain dies with SQLAlchemy's
    error, and none of its remaining lines is stored.  Otherwise it goes on
    alone on the closed session: with a database that answers again it
    stores, in order, exactly the lines of its pipe that were not stored
    before the failure, as output of the same job, and changes no job; and
    whatever the database does meanwhile it is one more session that only
    moves jobs forward and the log onward. *)
Theorem other_pipe_is_kept job_id reads c c' e l early :
  gather job_id reads (λ _, new_drain) c = (c', (Exc e, Some l)) →
  collect job_id reads (λ _, new_drain) c = (c', Exc e) ∧
  ∃ reads1 p chunk reads2 q,
    reads = reads1 ++ (p, chunk) :: reads2 ∧ q ≠ p ∧
    left_reads l = filter (λ r, r.1 ≠ p) reads2 ∧
    match before_close job_id early l c' with
    | (c1, Exc e1) =>
        output q (reads1 ++ take early (left_reads l)) ≠ output q reads1 ∧
        e1 = OtherSQLAlchemyError ∧ c1.1 = c'.1
    | (c1, Ret l1) =>
        output q (reads1 ++ take early (left_reads l)) = output q reads1 ∧ c1 = c' ∧
        (∀ d, script d = [] → has_job (committed d) job_id = true →
           ∃ d' msgs, detached job_id l1 d = (d', Ret tt) ∧ logged job_id msgs d d' ∧
             output q reads = output q reads1 ++ msgs) ∧
        steps db_step (detached job_id l1)
    end.
Proof.
  intros Hg. split; [by rewrite <- gather_collect, Hg|].
  apply (gather_failed job_id []) in Hg as (Ha & reads1 & p & chunk & reads2 & -> & Hl & Hh);
    [|intros p; apply handled_new].
  set (q := match p with Stdout => Stderr | Stderr => Stdout end).
  assert (q ≠ p) as Hqp by (by destruct p).
  assert (Forall (λ r, r.1 ≠ p) (left_reads l)) as Hrs.
  { rewrite Hl. apply Forall_forall. by intros r [? _]%list_elem_of_filter. }
  exists reads1, p, chunk, reads2, q. split_and!; [done..|].
  rewrite (output_filter q p) by done. rewrite <- Hl.
  assert (left_reads l = take early (left_reads l) ++ drop early (left_reads l)) as Hsplit
    by (by rewrite take_drop).
  rewrite Hsplit in Hrs. apply Forall_app in Hrs as [Hrs1 Hrs2]. unfold before_close, ebind.
  destruct (collect job_id _ (left_drains l) c') as [c1 o] eqn:Hc.
  apply (collect_aborted job_id reads1) in Hc; [|done|exact Hh]. destruct o as [drains|e1].
  - destruct Hc as (-> & Hh1 & Hout). simpl. split_and!; [apply Hout|done| |apply steps_detached].
    intros d Hs Hj.
    destruct (detached_stores job_id p q (reads1 ++ take early (left_reads l))
      (Leftover drains (drop early (left_reads l))) d) as (d' & msgs & Hrun & Hlog & Hm); [done..|].
    exists d', msgs. split_and!; [done..|]. rewrite <- Hout, <- Hm. simpl.
    by rewrite <- app_assoc, take_drop.
  - destruct Hc as (-> & Hd & r & Hne). split_and!; [|done..]. destruct (decide (r = p)) as [->|Hr].
    + destruct Hne. by apply output_others.
    + assert (r = q) as -> by (by destruct p, r). done.
Qed.

(** The server refuses the first statement; the error stream goes on. *)
Module Demo.
Definition refusing : database :=
  Database (committed Streams.Demo.db) 1 0 [Tick 0 [] (Refused OperationalError)].

Definition reads : list (pipe * bytes) :=
  [(Stderr, ascii_codes "WAR"); (Stdout, ascii_codes "out" ++ [10%N]);
   (Stdout, ascii_codes "more"); (Stderr, ascii_codes "NING" ++ [10%N]); (Stdout, []); (Stderr, [])].

Definition failed : conn * (outcome exn (pipe → drain_state) * option leftover) :=
  gather 1 reads (λ _, new_drain) (refusing, fresh_session).

Definition rest : leftover := Leftover (<[Stderr := Drain (ascii_codes "WAR") [] false]> (λ _, new_drain))
  [(Stderr, ascii_codes "NING" ++ [10%N]); (Stderr, [])].

Example goes_on :
  message <$> event_logs (committed (detached 1 rest Streams.Demo.db).1) = [py "WARNING"].
Proof. vm_compute. reflexivity. Qed.
(** The error stream completes a line before the session is closed. *)
Example too_early : (before_close 1 1 rest failed.1).2 = Exc OtherSQLAlchemyError.
Proof. vm_compute. reflexivity. Qed.
End Demo.

Lemma other_pipe_is_kept_witness :
  (∃ c1, before_close 1 1 Demo.rest Demo.failed.1 = (c1, Exc OtherSQLAlchemyError) ∧
     c1.1 = Demo.failed.1.1) ∧
  ∃ d' msgs, detached 1 Demo.rest Streams.Demo.db = (d', Ret tt) ∧ logged 1 msgs Streams.Demo.db d'.
Proof.
  assert (Hg : gather 1 Demo.reads (λ _, new_drain) (Demo.refusing, fresh_session)
    = (Demo.failed.1, (Exc OperationalError, Some Demo.rest))) by reflexivity.
  split.
  - destruct (other_pipe_is_kept 1 Demo.reads _ _ _ _ 1 Hg)
      as (_ & r1 & p & ch & r2 & q & _ & _ & _ & H).
    pose proof Demo.too_early as He. destruct (before_close _ _ _ _) as [c1 o] eqn:Hb in H, He |- *.
    simpl in He. subst o. destruct H as (_ & _ & Hd). exists c1. exact (conj eq_refl Hd).
  - destruct (other_pipe_is_kept 1 Demo.reads _ _ _ _ 0 Hg)
      as (_ & r1 & p & ch & r2 & q & _ & _ & _ & _ & _ & H & _).
    destruct (H Streams.Demo.db eq_refl eq_refl) as (d' & msgs & H1 & H2 & _).
    exists d', msgs. exact (conj H1 H2).
Defined.
