(* ===== verification/Runner.v ===== *)
(** * Running a tool (runner/service.py)

    [CLIExecutionRunner.run_tool]: the arguments are checked, the workspace is
    copied to a temporary directory, the tool runs there, its output is
    collected until it exits or the deadline comes, and the files it made are
    copied back.  The operating system and the tool are parameters: the name
    of the temporary directory, whether a process can be started, what it
    writes, when it exits, and the modification times of files.

    What the process writes is one [effect], before its output is collected.
    On the paths on which the code waits for the process (it exits, or it is
    killed at the deadline) nothing is written later.  When storing a line of
    output fails the process is not killed, and may still run while its
    directory is removed: [effect] is then what it has written until that
    moment, and a file it adds during the removal is not modelled. *)
From S2P Require Import Prelude PyStr Exceptions FileSystem FsFacts Realpath FsOps Storage.
From S2P Require Import Schemas Database DatabaseFacts World Regex ArgValidator Streams.
Local Open Scope eff_scope.

Definition _MAX_LAUNCH_RETRIES : nat := 2.
Definition DASH_O : pystr := Eval vm_compute in py "-o".
Definition SCAD_SUFFIX : pystr := Eval vm_compute in py ".scad".
Definition TIMEOUT_TEXT : pystr := Eval vm_compute in py "30.0".

(** What the operating system and the tool do during one run *)
Record execution := Execution {
  mkdtemp : apath;                       (* the directory [TemporaryDirectory] makes *)
  spawn : nat → option exn;              (* what start attempt [n] raises *)
  effect : fs → fs;                      (* the files, when it exited or was killed *)
  reads : list (pipe * bytes);           (* reads that complete before the deadline *)
  returncode : option Z;                 (* [None]: still running at the deadline *)
  mtime_before : apath → Z;              (* [st_mtime] below the directory *)
  mtime_after : apath → Z
}.

(** [p.glob("**/")]: the directory and the directories below it *)
Definition glob_dirs (m : fs) (p : apath) : list apath :=
  [] :: filter (λ rel, is_dir_at m (p ++ rel) = true) (rglob m p).

(** [p.glob("**/*.scad")] *)
Definition glob_scad (m : fs) (p : apath) : list apath :=
  filter (λ rel, endswith (default [] (last rel)) SCAD_SUFFIX = true) (rglob m p).

Section files.
Abbreviation IO A := (eff exn fs A).

Definition launch_error (message : pystr) (target : apath) : exn :=
  CLIError (CLIExecutionLaunchError message (path_str target) 0).

Definition execution_error (message : pystr) : exn :=
  CLIError (CLIExecutionError message None [] []).

(** Both checks of steps 1 and 2: the source and the target it maps to *)
Definition mapped_path (what : pystr) (workspace tmp rel : apath) : IO apath :=
  m <- gets id ;;
  source <- of_outcome (resolve m (workspace ++ rel)) ;;
  root <- of_outcome (resolve m workspace) ;;
  if negb (is_relative_to source root)
  then raise (launch_error (what ++ py " path traversal attempt detected: "
                            ++ path_str (workspace ++ rel)) (workspace ++ rel))
  else
    target <- of_outcome (resolve m (tmp ++ rel)) ;;
    tmp_root <- of_outcome (resolve m tmp) ;;
    if negb (is_relative_to target tmp_root)
    then raise (launch_error (what ++ py " traversal outside tmp path: " ++ path_str target) target)
    else ret target.

(** The bodies of the loops of steps 1 and 2 *)
Definition copy_dir_in (workspace tmp rel : apath) : IO unit :=
  m <- gets id ;;
  if is_dir m (workspace ++ rel) && bool_decide (rel ≠ []) then
    target_dir <- mapped_path (py "Directory") workspace tmp rel ;;
    mkdir_p target_dir
  else ret tt.

Definition copy_file_in (workspace tmp rel : apath) : IO unit :=
  m <- gets id ;;
  if is_file m (workspace ++ rel) then
    dest_file <- mapped_path (py "File") workspace tmp rel ;;
    mkdir_p (parent dest_file) ;;;
    copyfile (workspace ++ rel) dest_file
  else ret tt.

(** The argument after the first ["-o"] that has one *)
Fixpoint output_arg (args : list pystr) : option pystr :=
  match args with
  | [] => None
  | arg :: args' =>
      if decide (arg = DASH_O) then
        match args' with
        | path :: _ => Some path
        | [] => None
        end
      else output_arg args'
  end.

(** [output_file_path], when it is not empty *)
Definition output_path (args : list pystr) : option pystr :=
  match output_arg args with Some [] => None | o => o end.

(** Step 3 *)
Definition make_output_dir (tmp : apath) (output : option pystr) : IO unit :=
  match output with
  | None => ret tt
  | Some out =>
      if is_absolute out || bool_decide (DOTDOT ∈ path_parts out)
      then raise (CLIArgumentValidationError out)
      else
        m <- gets id ;;
        dest_dir <- of_outcome (resolve m (tmp ++ parent (path_parts out))) ;;
        tmp_root <- of_outcome (resolve m tmp) ;;
        if negb (is_relative_to dest_dir tmp_root) then raise (CLIArgumentValidationError out)
        else mkdir_p dest_dir
  end.

(** [f.stat().st_size] of a file *)
Definition size_of (m : fs) (p : apath) : nat :=
  match stat m p with Some (NFile d) => length d | _ => 0%nat end.

(** Is [tmp/rel] a file, and inside the temporary directory? *)
Definition own_file (m : fs) (tmp rel : apath) : outcome exn bool :=
  if is_file m (tmp ++ rel) then
    match resolve m (tmp ++ rel), resolve m tmp with
    | Ret file, Ret root => Ret (is_relative_to file root)
    | Exc e, _ | _, Exc e => Exc e
    end
  else Ret false.

(** Step 4: [before_snapshot] *)
Fixpoint snapshot (m : fs) (tmp : apath) (mtime : apath → Z) (rels : list apath)
    : outcome exn (gmap apath (nat * Z)) :=
  match rels with
  | [] => Ret ∅
  | rel :: rels' =>
      match own_file m tmp rel with
      | Exc e => Exc e
      | Ret own =>
          match snapshot m tmp mtime rels' with
          | Exc e => Exc e
          | Ret snap => Ret (if own then <[rel := (size_of m (tmp ++ rel), mtime rel)]> snap else snap)
          end
      end
  end.

Definition is_new_or_modified (m : fs) (tmp : apath) (mtime : apath → Z)
    (before : gmap apath (nat * Z)) (rel : apath) : bool :=
  match before !! rel with
  | None => true
  | Some (old_size, old_mtime) =>
      negb (size_of m (tmp ++ rel) =? old_size)%nat || negb (mtime rel =? old_mtime)%Z
  end.

(** [is_explicit_output] *)
Definition is_explicit_output (m : fs) (workspace : apath) (output : option pystr) (target : apath)
    : outcome exn bool :=
  match output with
  | None => Ret false
  | Some out =>
      match resolve m (join_path workspace out) with
      | Ret p => Ret (bool_decide (target = p))
      | Exc e => Exc e
      end
  end.

(** The body of the loop of step 5 *)
Definition copy_back (workspace tmp : apath) (mtime : apath → Z) (before : gmap apath (nat * Z))
    (output : option pystr) (rel : apath) : IO unit :=
  m <- gets id ;;
  own <- of_outcome (own_file m tmp rel) ;;
  if own && is_new_or_modified m tmp mtime before rel then
    workspace_target <- of_outcome (resolve m (workspace ++ rel)) ;;
    root <- of_outcome (resolve m workspace) ;;
    if negb (is_relative_to workspace_target root)
    then raise (execution_error (py "Target path traversal attempt during copy: "
                                 ++ path_str workspace_target))
    else
      explicit <- (if path_exists m workspace_target
                   then of_outcome (is_explicit_output m workspace output workspace_target)
                   else ret true) ;;
      if negb explicit
      then raise (execution_error
             (py "Access denied: Attempted to overwrite existing non-output file in workspace: "
              ++ str_join [SLASH] rel))
      else
        mkdir_p (parent workspace_target) ;;;
        copyfile (tmp ++ rel) workspace_target
  else ret tt.

(** [TemporaryDirectory.cleanup]: a directory that is gone is not an error. *)
Definition cleanup (tmp : apath) : IO unit :=
  try_catch (rmtree tmp) (λ e, match e with FileNotFoundError _ => ret tt | _ => raise e end).
End files.

Section runner.
Context {X : Type} `{UnicodeData} (base_dir : apath) (_openscad_bin : pystr).
(** [str(e)] of an [OSError] *)
Context (str_oserror : exn → pystr).
(** The run a command line leads to *)
Context (os : list pystr → world X → execution).
Abbreviation M A := (eff exn (world X * session) A).

Definition files {A} (m : eff exn fs A) : M A := on_world (in_fs m).

Definition _resolve_job_workspace (job_id : uuid) : eff exn fs apath :=
  m <- gets id ;;
  jobs_root <- of_outcome (resolve m (join_path base_dir Local.JOBS)) ;;
  workspace <- of_outcome (resolve m (join_path jobs_root (uuid_str job_id))) ;;
  if negb (is_relative_to workspace jobs_root)
  then raise (launch_error (py "Job workspace is outside the configured jobs root: "
                            ++ path_str workspace) workspace)
  else if negb (is_dir m workspace)
  then raise (launch_error (py "Job workspace does not exist or is not a directory: "
                            ++ path_str workspace) workspace)
  else ret workspace.

(** [for attempt in range(_MAX_LAUNCH_RETRIES + 1)], on the attempts left;
    an exception that is not an [OSError] is not caught. *)
Fixpoint launch_from (try_spawn : nat → option exn) (cmd0 : pystr) (attempt left : nat)
    (last_error : pystr) : outcome exn nat :=
  match left with
  | O => Exc (CLIError (CLIExecutionLaunchError
           (py "Failed to launch CLI tool after " ++ str_of_nat (_MAX_LAUNCH_RETRIES + 1)
            ++ py " attempts. Last error: " ++ last_error)
           cmd0 (Z.of_nat _MAX_LAUNCH_RETRIES + 1)))
  | S left' =>
      match try_spawn attempt with
      | None => Ret (attempt + 1)%nat
      | Some e =>
          if is_os_error e then launch_from try_spawn cmd0 (attempt + 1) left' (str_oserror e)
          else Exc e
      end
  end.

(** The number of attempts it took *)
Definition _launch_with_retry (try_spawn : nat → option exn) (cmd0 : pystr) : outcome exn nat :=
  launch_from try_spawn cmd0 0 (_MAX_LAUNCH_RETRIES + 1) (py "None").

Definition _write_system_marker (job_id : uuid) (marker_type message : pystr) : eff exn conn unit :=
  add (NewEventLog job_id (py "SYSTEM_EVENT") (py "[" ++ marker_type ++ py "] " ++ message)) ;;;
  commit.

(** Steps 1 to 3 *)
Definition prepare (workspace tmp : apath) (output : option pystr) : eff exn fs unit :=
  m <- gets id ;;
  for_each (glob_dirs m workspace) (copy_dir_in workspace tmp) ;;;
  m <- gets id ;;
  for_each (glob_scad m workspace) (copy_file_in workspace tmp) ;;;
  make_output_dir tmp output.

(** The branch for [asyncio.TimeoutError] *)
Definition timed_out (job_id : uuid) : M Z :=
  on_session (_write_system_marker job_id (py "TIMEOUT")
    (py "[SYSTEM] Process killed: execution exceeded " ++ TIMEOUT_TEXT ++ py "s timeout.")) ;;;
  raise (CLIError (CLIExecutionTimeoutError
    (py "OpenSCAD tool execution timed out after " ++ TIMEOUT_TEXT
     ++ py " seconds. Process terminated.") 30)).

(** The body of [with tempfile.TemporaryDirectory(...)] *)
Definition run_in (job_id : uuid) (workspace : apath) (x : execution) (args : list pystr) : M Z :=
  let tmp := mkdtemp x in
  let output := output_path args in
  files (prepare workspace tmp output) ;;;
  m <- gets (λ ws, w_fs ws.1) ;;
  before <- of_outcome (snapshot m tmp (mtime_before x) (rglob m tmp)) ;;
  of_outcome (_launch_with_retry (spawn x) _openscad_bin) ;;;
  files (modify (effect x)) ;;;
  captured <- on_session (_collect_streams job_id (reads x)) ;;
  match captured, returncode x with
  | Some (stdout_tail, stderr_tail), Some exit_code =>
      if (exit_code =? 0)%Z then
        m <- gets (λ ws, w_fs ws.1) ;;
        files (for_each (rglob m tmp) (copy_back workspace tmp (mtime_after x) before output)) ;;;
        ret exit_code
      else
        raise (CLIError (CLIExecutionError
          (py "OpenSCAD tool execution failed with exit code " ++ str_of_Z exit_code ++ py ".")
          (Some exit_code) stdout_tail stderr_tail))
  | _, _ => timed_out job_id
  end.

Definition _execute_with_timeout (job_id : uuid) (args : list pystr) : M Z :=
  workspace <- files (_resolve_job_workspace job_id) ;;
  w <- gets fst ;;
  let x := os (_openscad_bin :: args) w in
  files (os_mkdir (mkdtemp x)) ;;;
  try_finally (run_in job_id workspace x args) (files (cleanup (mkdtemp x))).

(** [run_tool]; [tool_name] is not used. *)
Definition run_tool (job_id : uuid) (tool_name : pystr) (args : list pystr) : M Z :=
  of_outcome (ArgumentValidator_validate args) ;;;
  _execute_with_timeout job_id args.
End runner.
