(* ===== verification/RunnerFacts.v ===== *)
(** * A tool run stays in its workspace

    With a tool that only writes below its temporary directory, [run_tool]
    changes nothing outside the workspace of its job, overwrites no existing
    file there but the output named on the command line, and leaves no
    temporary directory behind: the promise [execute_attempt] relies on. *)
From S2P Require Import Prelude PyStr Exceptions FileSystem FsFacts Realpath FsOps Storage StorageFacts Attempts.
From S2P Require Import Schemas Database DatabaseFacts World JobService Executor ExecutorFacts.
From S2P Require Import Regex ArgValidator Streams Runner.
Local Open Scope eff_scope.
Import Local.

#[local] Opaque uuid_str.

Lemma dir_link_free m p : fs_wf m → m !! p = Some NDir → link_free m p.
Proof.
  intros Hwf Hp q [k ->]. unfold is_link_at. by rewrite (fs_wf_dir_prefix m q k).
Qed.

(** The tool, seen from the file system *)
Record sandboxed (base : apath) (m : fs) (x : execution) : Prop := {
  sb_normal : normal (mkdtemp x);
  sb_fresh : m !! mkdtemp x = None;
  sb_parent : m !! parent (mkdtemp x) = Some NDir;
  sb_apart : ¬ base `prefix_of` mkdtemp x;
  sb_wf : ∀ m1, fs_wf m1 → m1 !! mkdtemp x = Some NDir → fs_wf (effect x m1);
  sb_names : ∀ m1 q, is_Some (effect x m1 !! q) → is_Some (m1 !! q) ∨ normal q;
  sb_frame : ∀ m1 q, (∀ w k, q ≠ mkdtemp x ++ w :: k) → effect x m1 !! q = m1 !! q
}.

Section sandbox.
Context (base : apath) (Hbase : normal base) (job_id : uuid).
Context (tmp : apath) (Htmp : normal tmp) (Hapart : ¬ base `prefix_of` tmp)
  (Hapart' : ¬ tmp `prefix_of` base).
Context (output : option pystr).
Abbreviation workspace := (root_of base job_id JOBS).

Definition running (m : fs) : Prop := ready base job_id m ∧ m !! tmp = Some NDir.

(** The one file a run may overwrite *)
Definition declared_output (q : apath) : Prop :=
  ∃ out, output = Some out ∧ q = workspace ++ path_parts out.

(** What a part of a run may do *)
Definition work (m m' : fs) : Prop :=
  running m → running m' ∧
  (∀ q, ¬ tmp `prefix_of` q → outside_trees base job_id q → m' !! q = m !! q) ∧
  (∀ q d, ¬ tmp `prefix_of` q → ¬ declared_output q → m !! q = Some (NFile d) → m' !! q = Some (NFile d)).

#[export] Instance work_preorder : PreOrder work.
Proof using.
  split; [by intros m|]. intros m1 m2 m3 H12 H23 H1.
  destruct (H12 H1) as (H2 & E12 & K12). destruct (H23 H2) as (H3 & E23 & K23).
  split_and!; [done| |auto]. intros q Hq Ho. by rewrite E23, E12.
Qed.

Lemma running_wf m : running m → fs_wf m.
Proof using. intros [[Ht _] _]. by apply (tidy_wf base). Qed.

Lemma running_tmp m : running m → realpath m tmp = tmp.
Proof using Htmp.
  intros Hr. apply realpath_link_free; [done|]. apply dir_link_free; [by apply running_wf|apply Hr].
Qed.

Lemma below_apart q : tmp `prefix_of` q → ¬ base `prefix_of` q.
Proof using Hapart Hapart'.
  intros Ht Hb. destruct (prefix_weak_total tmp base q); done.
Qed.

(** Changes below the temporary directory *)
Lemma tmp_work p m m' :
  tmp `prefix_of` p → resolved m p → (running m → confined_at p tmp m m') → work m m'.
Proof using.
  intros Hp Hr Hc Hrun. destruct (Hc Hrun (running_wf m Hrun) Hr) as (Hwf' & Hl & Hcf & Hg).
  assert (∀ q, ¬ tmp `prefix_of` q → m' !! q = m !! q) as Hsame.
  { intros q Hq. destruct (Hcf q) as [?|[?|([k Hk] & Hn & _)]]; [done..|].
    pose proof (running_wf m Hrun) as Hwf. destruct Hrun as [_ Hd]. rewrite Hk in Hd.
    apply fs_wf_dir_prefix in Hd; [congruence|done]. }
  split; [split; [by eapply ready_grows; [apply Hrun|..]|by apply Hg, Hrun]|].
  split; [by auto|]. intros q d Hq _ Hd. by rewrite Hsame.
Qed.

(** A path that passed a check against the temporary directory *)
Lemma tmp_checked m p q root :
  running m → (∀ n, n ∈ p → SLASH ∉ n) → resolve m p = Ret q → resolve m tmp = Ret root →
  is_relative_to q root = true → tmp `prefix_of` q ∧ resolved m q.
Proof using Htmp.
  intros Hr Hp Hq Ht Hrel. apply resolve_inv in Hq as ->. apply resolve_inv in Ht as ->.
  rewrite (running_tmp m Hr) in Hrel. apply bool_decide_eq_true in Hrel. split; [done|by exists p].
Qed.

Lemma no_slash_app (p q : apath) :
  normal p → (∀ n, n ∈ q → SLASH ∉ n) → ∀ n, n ∈ p ++ q → SLASH ∉ n.
Proof using. intros Hp Hq n [?|?]%elem_of_app; [by eapply normal_no_slash|auto]. Qed.

Lemma mapped_path_inv what ws rel m m' o :
  mapped_path what ws tmp rel m = (m', o) →
  m' = m ∧ ∀ p, o = Ret p → running m → (∀ n, n ∈ rel → SLASH ∉ n) → tmp `prefix_of` p ∧ resolved m p.
Proof using Htmp.
  unfold mapped_path. run.
  destruct (resolve m (ws ++ rel)) as [s|e]; run; [|by intros [= <- <-]].
  destruct (resolve m ws) as [r|e]; run; [|by intros [= <- <-]].
  destruct (negb _); [by intros [= <- <-]|].
  destruct (resolve m (tmp ++ rel)) as [t|e] eqn:Ht; run; [|by intros [= <- <-]].
  destruct (resolve m tmp) as [tr|e] eqn:Htr; run; [|by intros [= <- <-]].
  destruct (is_relative_to t tr) eqn:Hrel; simpl; [|by intros [= <- <-]].
  intros [= <- <-]. split; [done|]. intros p [= <-] Hr Hsl.
  eapply tmp_checked; [done| |done..]. by apply no_slash_app.
Qed.

Definition plain (rel : apath) : Prop := ∀ n, n ∈ rel → SLASH ∉ n.

Lemma work_copy_dir_in ws rel : plain rel → steps work (copy_dir_in ws tmp rel).
Proof using Htmp.
  intros Hrel m. unfold copy_dir_in. run. destruct (_ && _); [|reflexivity].
  unfold ebind. destruct (mapped_path _ _ _ _ m) as [m1 o] eqn:Hm.
  apply mapped_path_inv in Hm as [-> Hp]. destruct o as [p|e]; [|reflexivity].
  intros Hrun. destruct (Hp p eq_refl Hrun Hrel) as [Hpre Hres]. revert Hrun.
  apply (tmp_work p); [done..|]. intros _. by apply mkdir_p_confined.
Qed.

Lemma work_copy_file_in ws rel : plain rel → steps work (copy_file_in ws tmp rel).
Proof using Htmp.
  intros Hrel m. unfold copy_file_in. run. destruct (is_file _ _); [|reflexivity].
  unfold ebind at 1. destruct (mapped_path _ _ _ _ m) as [m1 o] eqn:Hm.
  apply mapped_path_inv in Hm as [-> Hp]. destruct o as [p|e]; [|reflexivity].
  intros Hrun. destruct (Hp p eq_refl Hrun Hrel) as [Hpre Hres]. revert Hrun.
  apply (tmp_work p); [done..|]. intros _.
  apply (steps_ebind (confined_at p tmp)); [by apply mkdir_p_confined, parent_prefix|].
  intros _. by apply copyfile_confined.
Qed.

Definition output_ok : Prop :=
  ∀ out, output = Some out → is_absolute out = false ∧ DOTDOT ∉ path_parts out.

Lemma work_make_output_dir m m' o :
  make_output_dir tmp output m = (m', o) → work m m' ∧ (is_ret o = true → output_ok).
Proof using Htmp.
  unfold make_output_dir, output_ok. destruct output as [out|]; [|by intros [= <- <-]].
  destruct (is_absolute out || _) eqn:Hb; [by intros [= <- <-]|].
  apply orb_false_iff in Hb as [Ha Hd%bool_decide_eq_false]. intros Hrun.
  split; [|by intros _ ? [= <-]]. revert Hrun. run.
  destruct (resolve m (tmp ++ _)) as [t|e] eqn:Ht; run; [|by intros [= <- <-]].
  destruct (resolve m tmp) as [tr|e] eqn:Htr; run; [|by intros [= <- <-]].
  destruct (is_relative_to t tr) eqn:Hrel; simpl; [|by intros [= <- <-]]. intros Hmk Hrun.
  assert (∀ n, n ∈ tmp ++ parent (path_parts out) → SLASH ∉ n) as Hsl.
  { apply no_slash_app; [done|]. intros n Hn. eapply path_parts_no_slash.
    eapply elem_of_prefix; [exact Hn|apply parent_prefix]. }
  destruct (tmp_checked m _ t tr Hrun Hsl Ht Htr Hrel) as [Hpre Hres].
  revert Hrun. apply (tmp_work t); [done..|]. intros _.
  pose proof (mkdir_p_confined t tmp t Hpre (reflexivity t) m) as Hc. by rewrite Hmk in Hc.
Qed.

(** *** Copying back *)
Definition keeps_entries (m m' : fs) : Prop := ∀ q n, m !! q = Some n → m' !! q = Some n.
#[export] Instance keeps_entries_preorder : PreOrder keeps_entries.
Proof using. split; [by intros m q|]. intros m1 m2 m3 H1 H2 q n Hq. auto. Qed.

Lemma mkdir_p_keeps p : steps keeps_entries (mkdir_p p).
Proof using.
  apply mkdir_p_steps; [apply _|]. intros q _ m. destruct (os_mkdir q m) as [m' o] eqn:E.
  apply os_mkdir_inv in E as [(e & -> & _)|(r & w & _ & _ & _ & Hn & -> & _)]; [done|].
  intros x n Hx. simpl. rewrite lookup_insert_ne; [done|]. intros <-. congruence.
Qed.

Lemma copyfile_only src p m q :
  fs_wf m → resolved m p → q ≠ p → (copyfile src p m).1 !! q = m !! q.
Proof using.
  intros Hwf Hr Hq. destruct (copyfile src p m) as [m' o] eqn:E.
  apply copyfile_inv in E as [(e & -> & _)|(d & _ & E)]; [done|].
  apply write_bytes_inv in E as [(e & -> & _)|(r & Hk & _ & _ & -> & _)]; [done|].
  assert (r = p) as -> by (by eapply (resolved_final m p p)). simpl. by rewrite lookup_insert_ne.
Qed.

Lemma workspace_path m rel :
  running m → normal rel → realpath m (workspace ++ rel) = workspace ++ rel ∧
    stat m (workspace ++ rel) = m !! (workspace ++ rel) ∧ resolved m (workspace ++ rel).
Proof using.
  intros [[Ht _] _] Hrel. assert (normal (workspace ++ rel)) as Hn.
  { apply Forall_app. split; [by eapply root_normal; [|left]|done]. }
  assert (base `prefix_of` workspace ++ rel) as Hb by (apply prefix_app_r, base_prefix_root).
  assert (link_free m (workspace ++ rel)) as Hl by (by apply (tidy_link_free base)).
  split_and!; [by apply realpath_link_free|by apply (tidy_stat base)|by apply link_free_resolved].
Qed.

Lemma path_parts_normal out : DOTDOT ∉ path_parts out → normal (path_parts out).
Proof using.
  intros Hd. apply Forall_forall. intros n Hn. pose proof (path_parts_no_slash out n Hn).
  unfold path_parts in Hn. apply list_elem_of_filter in Hn as [[? ?] Hn'].
  split_and!; try done. intros ->. apply Hd. apply list_elem_of_filter. done.
Qed.

(** An existing target is the declared output. *)
Lemma explicit_declared m p e :
  running m → output_ok → is_explicit_output m workspace output p = Ret e → e = true →
  declared_output p.
Proof using.
  intros Hrun Hok. unfold is_explicit_output, declared_output.
  destruct output as [out|] eqn:Ho; [|by intros [= <-]].
  destruct (resolve m _) as [p'|] eqn:Hp; [|done]. intros [= <-] Hb%bool_decide_eq_true. subst p'.
  apply resolve_inv in Hp as ->. exists out. split; [done|].
  destruct (Hok out Ho) as [Ha Hd]. unfold join_path. rewrite Ha.
  by apply workspace_path, path_parts_normal.
Qed.

Lemma workspace_kept src p m q n :
  fs_wf m → resolved m p → q ≠ p → m !! q = Some n →
  (ebind (mkdir_p (parent p)) (λ _, copyfile src p) m).1 !! q = Some n.
Proof using.
  intros Hwf Hres Hq Hn. unfold ebind.
  pose proof (mkdir_p_keeps (parent p) m q n Hn) as Hk.
  pose proof (mkdir_p_wf (parent p) m Hwf) as Hwf1.
  pose proof (mkdir_p_links (parent p) m) as Hl1.
  destruct (mkdir_p (parent p) m) as [m1 [[]|e]]; simpl in *; [|done].
  rewrite copyfile_only; [done|done|by eapply resolved_same_links|done].
Qed.

Lemma workspace_work src rel m :
  running m → normal rel →
  (is_Some (m !! (workspace ++ rel)) → declared_output (workspace ++ rel)) →
  work m (ebind (mkdir_p (parent (workspace ++ rel))) (λ _, copyfile src (workspace ++ rel)) m).1.
Proof using.
  intros Hrun Hrel Hdecl _. destruct (workspace_path m rel Hrun Hrel) as (_ & _ & Hres).
  pose proof (running_wf m Hrun) as Hwf. set (p := workspace ++ rel) in *.
  assert (workspace `prefix_of` p) as Hp by (by apply prefix_app_r).
  assert (steps (confined_at p workspace) (ebind (mkdir_p (parent p)) (λ _, copyfile src p))) as Hst.
  { apply steps_ebind; [apply _|by apply mkdir_p_confined, parent_prefix|].
    intros _. by apply copyfile_confined. }
  destruct (Hst m Hwf Hres) as (Hwf' & Hl & Hc). pose proof (proj2 Hc) as Hg.
  destruct (confined_inside base job_id JOBS m _ (or_introl eq_refl) (proj1 Hrun) Hwf' Hl Hc)
    as [Hready Hout].
  split; [split; [done|by apply Hg, Hrun]|]. split; [by auto|].
  intros q d _ Hnd Hq. apply workspace_kept; [done..| |done]. intros ->. by apply Hnd, Hdecl; eauto.
Qed.

Lemma work_copy_back mtime before rel :
  output_ok → normal rel → steps work (copy_back workspace tmp mtime before output rel).
Proof using.
  intros Hok Hrel m. unfold copy_back. run.
  destruct (own_file m tmp rel) as [own|e]; run; [|reflexivity].
  destruct (own && _); [|reflexivity]. intros Hrun. revert Hrun.
  destruct (resolve m (workspace ++ rel)) as [p|e] eqn:Hp; run; [|by intros; apply work_preorder].
  destruct (resolve m workspace) as [r|e]; run; [|by intros; apply work_preorder].
  destruct (negb _); [by intros; apply work_preorder|]. intros Hrun.
  apply resolve_inv in Hp. destruct (workspace_path m rel Hrun Hrel) as (Hreal & Hstat & _).
  rewrite Hreal in Hp. subst p. unfold path_exists. rewrite Hstat.
  destruct (bool_decide (is_Some _)) eqn:Hex.
  - apply bool_decide_eq_true in Hex.
    destruct (is_explicit_output m workspace output (workspace ++ rel)) as [[]|e] eqn:He; run;
      [|by apply work_preorder..].
    apply workspace_work; [done..| |done]. intros _. by eapply explicit_declared.
  - apply bool_decide_eq_false in Hex. run. by apply workspace_work.
Qed.

Lemma running_rglob m rel : running m → rel ∈ rglob m tmp → normal rel.
Proof using Htmp.
  intros Hrun Hin. pose proof (running_wf m Hrun) as Hwf.
  rewrite elem_of_rglob in Hin.
  - destruct Hin as [_ Hs]. destruct Hrun as [[Ht _] _].
    apply (tidy_names base m Ht) in Hs. by apply Forall_app in Hs as [_ ?].
  - eapply kwalk_existing; [done..| |apply Hrun]. apply dir_link_free; [done|apply Hrun].
Qed.

Lemma work_copy_back_all mtime before m :
  output_ok →
  work m (for_each (rglob m tmp) (copy_back workspace tmp mtime before output) m).1.
Proof using Htmp.
  intros Hok Hrun.
  enough (steps work (for_each (rglob m tmp) (copy_back workspace tmp mtime before output))) as Hst
    by (by apply Hst).
  apply steps_for_each_in; [apply _|]. intros rel Hin.
  apply work_copy_back; [done|by eapply running_rglob].
Qed.

(** *** Copying in *)
Lemma workspace_rglob m rel : running m → rel ∈ rglob m workspace → plain rel.
Proof using.
  intros Hrun Hin n Hn. destruct (workspace_path m [] Hrun) as (_ & _ & Hres); [constructor|].
  rewrite app_nil_r in Hres. destruct Hrun as [(Ht & Hj & _) _].
  rewrite elem_of_rglob in Hin.
  - destruct Hin as [_ Hs%(tidy_names base m Ht)]. apply Forall_app in Hs as [_ Hs].
    by eapply normal_no_slash.
  - eapply kwalk_existing; [by apply (tidy_wf base)| |
      by apply (tidy_link_free base), base_prefix_root|exact Hj].
    by eapply root_normal; [|left].
Qed.

Lemma work_loop {A} (l : fs → list A) (body : A → eff exn fs unit) :
  (∀ m, running m → ∀ x, x ∈ l m → steps work (body x)) →
  steps work (m <- gets id ;; for_each (l m) body).
Proof using.
  intros Hb m Hrun. run.
  enough (steps work (for_each (l m) body)) as Hst by (by apply Hst).
  apply steps_for_each_in; [apply _|]. intros x Hx. by eapply Hb.
Qed.

Lemma work_prepare m m' o :
  prepare workspace tmp output m = (m', o) → work m m' ∧ (is_ret o = true → output_ok).
Proof using Htmp.
  unfold prepare. intros Hrun.
  assert (steps work (m <- gets id ;; for_each (glob_dirs m workspace) (copy_dir_in workspace tmp))) as H1.
  { apply work_loop. intros m0 Hr rel [->|Hin]%elem_of_cons.
    - apply work_copy_dir_in. by intros n ?%not_elem_of_nil.
    - apply list_elem_of_filter in Hin as [_ Hin]. by eapply work_copy_dir_in, workspace_rglob. }
  assert (steps work (m <- gets id ;; for_each (glob_scad m workspace) (copy_file_in workspace tmp))) as H2.
  { apply work_loop. intros m0 Hr rel [_ Hin]%list_elem_of_filter.
    by eapply work_copy_file_in, workspace_rglob. }
  specialize (H1 m). run in H1. run in Hrun.
  apply ebind_inv in Hrun as [(m1 & [] & E1 & Hrun)|(e & E1 & ->)]; rewrite E1 in H1; [|done].
  specialize (H2 m1). run in H2. run in Hrun. simpl in H1.
  apply ebind_inv in Hrun as [(m2 & [] & E2 & Hrun)|(e & E2 & ->)]; rewrite E2 in H2; simpl in H2;
    [|by split; [etrans|]].
  apply work_make_output_dir in Hrun as [H3 Hok]. split; [|done]. by do 2 (etrans; [eassumption|]).
Qed.

Lemma work_effect m x : mkdtemp x = tmp → sandboxed base m x → steps work (modify (E := exn) (effect x)).
Proof using Hapart Hapart'.
  intros Hx [_ _ _ _ Hwf Hnames Hframe] m1 Hrun. rewrite Hx in *. simpl.
  assert (∀ q, ¬ tmp `prefix_of` q → effect x m1 !! q = m1 !! q) as Hout.
  { intros q Hq. apply Hframe. intros w k ->. apply Hq. by apply prefix_app_r. }
  assert (∀ q, base `prefix_of` q → effect x m1 !! q = m1 !! q) as Hin.
  { intros q Hq. apply Hout. intros Ht. by eapply below_apart. }
  pose proof Hrun as [([] & Hj & Ha) Hd]. split; [|split; [by auto|]].
  - split; [split; [split|split]|].
    + by apply Hwf.
    + by rewrite Hin.
    + intros q Hq. unfold is_link_at. rewrite Hin by done. by apply tidy_links.
    + intros q [?|?]%Hnames; auto.
    + by rewrite Hin by apply base_prefix_root.
    + by rewrite Hin by apply base_prefix_root.
    + rewrite Hframe; [done|]. intros w k Hk%(f_equal length). rewrite length_app in Hk. simpl in Hk. lia.
  - intros q d Hq _ Hf. by rewrite Hout.
Qed.
End sandbox.

(** ** The whole run *)
Section runs.
Context {X : Type} `{UnicodeData} (base : apath) (Hbase : normal base) (job_id : uuid).
Context (bin : pystr) (str_oserror : exn → pystr).
Abbreviation workspace := (root_of base job_id JOBS).
Abbreviation M A := (eff exn (world X * session) A).

Definition fs_step (R : relation fs) (ws ws' : world X * session) : Prop := R (w_fs ws.1) (w_fs ws'.1).

#[export] Instance fs_step_preorder (R : relation fs) `{!PreOrder R} : PreOrder (fs_step R).
Proof. split; [intros ws; unfold fs_step; reflexivity|]. intros a b c. unfold fs_step. apply transitivity. Qed.

Lemma files_run {A} (c : eff exn fs A) (ws : world X * session) :
  files c ws = ((set_fs (c (w_fs ws.1)).1 ws.1, ws.2), (c (w_fs ws.1)).2).
Proof. unfold files, on_world, in_fs, zoom. destruct ws as [w s]. simpl. by destruct (c (w_fs w)). Qed.

Lemma fs_step_files (R : relation fs) {A} (c : eff exn fs A) : steps R c → steps (fs_step R) (files c).
Proof. intros Hc ws. rewrite files_run. unfold fs_step. simpl. apply Hc. Qed.

Lemma fs_step_session (R : relation fs) `{!PreOrder R} {A} (c : eff exn conn A) : steps (fs_step R) (on_session c).
Proof. intros ws. unfold fs_step. rewrite same_fs_on_session. reflexivity. Qed.

Section body.
Context (x : execution) (args : list pystr) (m0 : fs) (Hsb : sandboxed base m0 x)
  (Hapart' : ¬ mkdtemp x `prefix_of` base).
Abbreviation tmp := (mkdtemp x).
Abbreviation step := (fs_step (work base job_id tmp (output_path args))).

Lemma step_timed_out : steps step (timed_out (X := X) job_id).
Proof using.
  apply steps_ebind; [apply _|apply fs_step_session, _|]. intros _. apply steps_raise, _.
Qed.

Lemma step_copy_back_all before :
  output_ok (output_path args) →
  steps step (m <- gets (λ ws : world X * session, w_fs ws.1) ;;
    files (for_each (rglob m tmp) (copy_back workspace tmp (mtime_after x) before (output_path args)))).
Proof using Hsb.
  intros Hok ws. run. rewrite files_run. unfold fs_step. simpl.
  apply work_copy_back_all; [apply Hsb|done].
Qed.

Lemma step_run_in ws ws' o :
  run_in bin str_oserror job_id workspace x args ws = (ws', o) → step ws ws'.
Proof using Hsb Hapart' Hbase.
  unfold run_in. intros Hrun. unfold ebind at 1 in Hrun. rewrite files_run in Hrun.
  destruct (prepare workspace tmp (output_path args) (w_fs ws.1)) as [m1 o1] eqn:Hp.
  apply (work_prepare base job_id) in Hp as [Hw1 Hok]; [|apply Hsb]. simpl in Hrun.
  set (ws1 := (set_fs m1 ws.1, ws.2)) in *.
  assert (step ws ws1) as Hs1 by exact Hw1.
  destruct o1 as [[]|e]; [|by injection Hrun as <- <-]. specialize (Hok eq_refl).
  etrans; [exact Hs1|]. run in Hrun.
  match type of Hrun with ?c ws1 = _ => enough (steps step c) as Hst
    by (specialize (Hst ws1); by rewrite Hrun in Hst) end.
  apply steps_ebind; [apply _|apply steps_of_outcome, _|intros before].
  apply steps_ebind; [apply _|apply steps_of_outcome, _|intros _].
  apply steps_ebind; [apply _|eapply fs_step_files, work_effect; [apply Hsb|done..]|intros _].
  apply steps_ebind; [apply _|apply fs_step_session, _|intros captured].
  destruct captured as [[out err]|]; [|apply step_timed_out].
  destruct (returncode x) as [code|]; [|apply step_timed_out].
  destruct (code =? 0)%Z; [|apply steps_raise, _]. intros ws2. run.
  pose proof (step_copy_back_all before Hok ws2) as Hcb. run in Hcb. revert Hcb. unfold ebind.
  destruct (files _ ws2) as [ws3 [[]|e]]; simpl; done.
Qed.
End body.

Lemma resolve_job_workspace_inv m m' o :
  ready base job_id m → _resolve_job_workspace base job_id m = (m', o) →
  m' = m ∧ ∀ ws, o = Ret ws → ws = workspace.
Proof using Hbase.
  intros [Ht _]. unfold _resolve_job_workspace. run.
  assert (∀ l, Forall normal_name l → realpath m (base ++ l) = base ++ l) as Hreal.
  { intros l Hl. apply realpath_link_free; [by apply Forall_app|].
    apply (tidy_link_free base); [done|by apply prefix_app_r]. }
  assert (normal_name JOBS) as HJ by (by apply dir_name_normal; left).
  rewrite normal_join_path by done.
  destruct (resolve m (base ++ [JOBS])) as [jr|e] eqn:Hjr; run; [|by intros [= <- <-]].
  apply resolve_inv in Hjr as ->. rewrite Hreal by (by constructor).
  rewrite normal_join_path by apply uuid_str_normal. rewrite <-app_assoc. simpl.
  destruct (resolve m (base ++ [JOBS; uuid_str job_id])) as [w|e] eqn:Hw; run; [|by intros [= <- <-]].
  apply resolve_inv in Hw as ->.
  rewrite Hreal by (repeat constructor; try apply HJ; apply uuid_str_normal).
  destruct (negb _); [by intros [= <- <-]|]. destruct (negb _); [by intros [= <- <-]|].
  intros [= <- <-]. split; [done|]. by intros ws [= <-].
Qed.

(** What a run does to the files, in all *)
Definition run_ok (output : option pystr) (m m' : fs) : Prop :=
  ready base job_id m →
  ready base job_id m' ∧ (∀ q, outside_trees base job_id q → m' !! q = m !! q) ∧
  (∀ q d, m !! q = Some (NFile d) → ¬ declared_output base job_id output q → m' !! q = Some (NFile d)).

Lemma run_ok_refl output m : run_ok output m m.
Proof using. intros Hr. split; [done|]. by split; auto. Qed.

Lemma cleanup_run p w m :
  fs_wf m → normal (p ++ [w]) → m !! (p ++ [w]) = Some NDir →
  cleanup (p ++ [w]) m = (filter (λ kv, ¬ p ++ [w] `prefix_of` kv.1) m, Ret tt).
Proof using.
  intros Hwf Hn Hd. unfold cleanup, try_catch, rmtree.
  assert (m !! p = Some NDir) as Hp by (by eapply fs_wf_prefix).
  rewrite (ebind_ret_run _ _ _ m (p ++ [w])); [run; by rewrite Hd|].
  apply Forall_app in Hn as [Hn _]. apply parent_walk_dir; [done..|by apply dir_link_free|done].
Qed.

(** The temporary directory comes and goes. *)
Lemma sandbox_ok output x m m2 p w :
  mkdtemp x = p ++ [w] → sandboxed base m x → ready base job_id m →
  work base job_id (p ++ [w]) output (<[p ++ [w] := NDir]> m) m2 →
  run_ok output m (cleanup (p ++ [w]) m2).1 ∧ is_ret (cleanup (p ++ [w]) m2).2 = true.
Proof using.
  intros Hx [Hn Hfresh Hparent Hapart _ _ _] Hr Hwork. rewrite Hx in *.
  unfold parent in Hparent. rewrite removelast_last in Hparent.
  pose proof Hr as ([] & Hj & Ha).
  assert (∀ q n, m !! q = Some n → q ≠ p ++ [w]) as Hne by (intros q n Hq ->; congruence).
  assert (running base job_id (p ++ [w]) (<[p ++ [w] := NDir]> m)) as Hrun.
  { split; [|by rewrite lookup_insert_eq]. apply (ready_grows base job_id m); [done|..].
    - by apply fs_wf_insert_dir.
    - apply same_links_insert; [|done]. unfold is_link_at. by rewrite Hfresh.
    - apply grows_insert; [done|by left]. }
  destruct (Hwork Hrun) as (Hrun2 & Hout & Hkeep). pose proof (running_wf _ _ _ _ Hrun2) as Hwf2.
  rewrite cleanup_run by (done || apply Hrun2). split; [|done]. intros _. simpl.
  assert (∀ q, p ++ [w] `prefix_of` q → m !! q = None) as Hnone.
  { intros q [k ->]. by apply wf_none_below. }
  assert (∀ q, base `prefix_of` q → ¬ p ++ [w] `prefix_of` q) as Hbelow.
  { intros q Hq Hp. destruct (prefix_weak_total (p ++ [w]) base q Hp Hq) as [Hpb|?]; [|done].
    rewrite Hnone in tidy_base; done. }
  split_and!.
  - destruct Hrun2 as [([W2 B2 L2 N2] & J2 & A2) _].
    assert (∀ q, base `prefix_of` q →
      filter (λ kv, ¬ p ++ [w] `prefix_of` kv.1) m2 !! q = m2 !! q) as Hb.
    { intros q Hq. rewrite lookup_rmtree, decide_False; auto. }
    split; [split|split]; rewrite ?Hb by (done || apply base_prefix_root); try done.
    + apply fs_wf_rmtree; [done|]. by destruct p.
    + intros q Hq. unfold is_link_at. rewrite Hb by done. by apply L2.
    + intros q [n [Hq _]%map_lookup_filter_Some]. apply N2. by eexists.
  - intros q Ho. rewrite lookup_rmtree. case_decide as Hp; [by rewrite Hnone|].
    rewrite Hout by done. apply lookup_insert_ne. intros <-. by apply Hp.
  - intros q d Hq Hnd. rewrite lookup_rmtree, decide_False.
    + apply Hkeep; [by intros Hp; rewrite Hnone in Hq|done|].
      rewrite lookup_insert_ne; [done|]. intros <-. congruence.
    + intros Hp. by rewrite Hnone in Hq.
Qed.

Context (os : list pystr → world X → execution).
Context (Hos : ∀ cmd w, ready base job_id (w_fs w) → sandboxed base (w_fs w) (os cmd w)).

Lemma mkdir_sandbox x m m' o :
  sandboxed base m x → fs_wf m → os_mkdir (mkdtemp x) m = (m', o) →
  (m' = m ∧ is_ret o = false) ∨ (m' = <[mkdtemp x := NDir]> m ∧ o = Ret tt).
Proof using.
  intros [Hn _ Hparent _ _ _ _] Hwf Hmk.
  apply os_mkdir_inv in Hmk as [(e & -> & ->)|(r & w & Hl & Hk & _ & _ & -> & ->)]; [by left|right].
  apply last_Some in Hl as [p Hp]. unfold parent in Hparent. rewrite Hp in *.
  rewrite removelast_last in *. apply Forall_app in Hn as [Hn _].
  rewrite (kwalk_existing m p NDir) in Hk by (done || by apply dir_link_free). by injection Hk as ->.
Qed.

Lemma execute_ok args :
  steps (fs_step (run_ok (output_path args)))
    (_execute_with_timeout (X := X) base bin str_oserror os job_id args).
Proof using Hbase Hos.
  intros ws. match goal with |- ?G =>
    enough (ready base job_id (w_fs ws.1) → G) as Hg by (intros Hr; exact (Hg Hr Hr)) end.
  intros Hr. unfold _execute_with_timeout, ebind at 1. rewrite files_run.
  destruct (_resolve_job_workspace base job_id (w_fs ws.1)) as [m1 o1] eqn:Hw.
  apply resolve_job_workspace_inv in Hw as [-> Hws]; [|done]. simpl.
  destruct o1 as [wsp|e]; [|exact (run_ok_refl _ _)]. rewrite (Hws wsp eq_refl). clear Hws wsp.
  run. simpl. set (x := os (bin :: args) _).
  assert (Hsb : sandboxed base (w_fs ws.1) x) by (exact (Hos _ (set_fs (w_fs ws.1) ws.1) Hr)).
  assert (fs_wf (w_fs ws.1)) as Hwf by (apply (tidy_wf base), Hr).
  unfold ebind at 1. rewrite files_run. simpl.
  destruct (os_mkdir (mkdtemp x) (w_fs ws.1)) as [m2 o2] eqn:Hmk.
  apply mkdir_sandbox in Hmk as [[-> Ho]|[-> ->]]; [| |done..].
  - destruct o2; [done|]. exact (run_ok_refl _ _).
  - simpl. unfold try_finally.
    destruct (run_in _ _ _ _ _ _ _) as [ws3 o3] eqn:Hrun.
    destruct (last (mkdtemp x)) as [w|] eqn:Hl; cycle 1.
    { apply last_None in Hl. destruct Hsb as [_ Hf _ _ _ _ _]. rewrite Hl in Hf.
      by rewrite (proj1 Hwf) in Hf. }
    apply last_Some in Hl as [p Hp].
    apply (step_run_in x args (w_fs ws.1)) in Hrun; [|done|]; cycle 1.
    { intros Hpre. destruct Hr as [[_ Hb _ _] _]. destruct Hpre as [k Hk]. rewrite Hk in Hb.
      destruct Hsb as [_ Hf _ _ _ _ _]. by rewrite (wf_none_below _ _ k Hwf Hf) in Hb. }
    unfold fs_step in Hrun. simpl in Hrun. rewrite Hp in *. rewrite files_run.
    destruct (sandbox_ok (output_path args) x (w_fs ws.1) (w_fs ws3.1) p w) as [Hok Hret];
      [done..|]. destruct (cleanup (p ++ [w]) (w_fs ws3.1)) as [m4 [[]|e]]; [|done]. simpl in *.
    exact Hok.
Qed.

Lemma run_tool_ok tool args :
  steps (fs_step (run_ok (output_path args))) (run_tool (X := X) base bin str_oserror os job_id tool args).
Proof using Hbase Hos.
  intros ws. unfold run_tool. destruct (ArgumentValidator_validate args) as [[]|e]; run.
  - apply execute_ok.
  - exact (run_ok_refl _ _).
Qed.
End runs.

(** ** Starting a process *)
Lemma launch_from_spec str_oserror try_spawn cmd0 attempt left last_error :
  match launch_from str_oserror try_spawn cmd0 attempt left last_error with
  | Ret n => (attempt < n ≤ attempt + left)%nat ∧ try_spawn (n - 1)%nat = None ∧
      ∀ i, (attempt ≤ i < n - 1)%nat → ∃ e, try_spawn i = Some e ∧ is_os_error e = true
  | Exc e =>
      (∃ i, (attempt ≤ i < attempt + left)%nat ∧ try_spawn i = Some e ∧ is_os_error e = false) ∨
      ((∃ msg, e = CLIError (CLIExecutionLaunchError msg cmd0 3)) ∧
       ∀ i, (attempt ≤ i < attempt + left)%nat → ∃ e, try_spawn i = Some e ∧ is_os_error e = true)
  end.
Proof.
  revert attempt last_error. induction left as [|left IH]; intros attempt last_error; simpl.
  { right. split; [by eexists|]. lia. }
  destruct (try_spawn attempt) as [e|] eqn:He; cycle 1.
  { replace (attempt + 1 - 1)%nat with attempt by lia. split_and!; [lia..|done|lia]. }
  destruct (is_os_error e) eqn:Hos; [|left; exists attempt; split_and!; [lia..|done|done]].
  specialize (IH (attempt + 1)%nat (str_oserror e)).
  assert (∀ i, i = attempt → ∃ e, try_spawn i = Some e ∧ is_os_error e = true) as Hi
    by (intros i ->; by exists e).
  destruct (launch_from _ _ _ _ _ _) as [n|e'].
  - destruct IH as (Hn & Hs & Hall). split_and!; [lia..|done|]. intros i Hr.
    destruct (decide (i = attempt)); [auto|apply Hall; lia].
  - destruct IH as [(i & Hr & Hs)|[Hmsg Hall]]; [left; exists i; split; [lia|done]|right].
    split; [done|]. intros i Hr. destruct (decide (i = attempt)); [auto|apply Hall; lia].
Qed.

Lemma max_list_elem_of_le' {A} (f : A → nat) (l : list A) (a : A) :
  a ∈ l → (f a ≤ max_list_with f l)%nat.
Proof. induction 1; simpl; lia. Qed.

Module Demo.
(** A run in a fresh directory below the root: the tool writes [out.stl]. *)
Definition tmp_name (m : fs) : pystr :=
  116%N :: replicate (max_list_with (λ e : apath * node, max_list_with length e.1) (map_to_list m)) 109%N.

Definition out_file (m : fs) : apath := [tmp_name m; py "out.stl"].

Definition tool_effect (m : fs) (m1 : fs) : fs :=
  if bool_decide (m1 !! [tmp_name m] = Some NDir ∧ m1 !! out_file m = None)
  then <[out_file m := NFile (ascii_codes "solid")]> m1 else m1.

Definition os (_ : list pystr) (w : world unit) : execution := {|
  mkdtemp := [tmp_name (w_fs w)];
  spawn := λ _, None;
  effect := tool_effect (w_fs w);
  reads := [(Stdout, []); (Stderr, [])];
  returncode := Some 0%Z;
  mtime_before := λ _, 0%Z;
  mtime_after := λ _, 0%Z |}.

Definition args : list pystr := [py "-o"; py "out.stl"; py "model.scad"].
#[export] Instance unicode : UnicodeData := plain_unicode.

Definition run (ws : world unit * session) :=
  run_tool (X := unit) ExecutorFacts.Demo.base (py "openscad") (λ _, []) os
    ExecutorFacts.Demo.job (py "openscad") args ws.

Definition ws0 : world unit * session := (ExecutorFacts.Demo.w0, fresh_session).

Example copied_back :
  let '(ws, o) := run ws0 in
  (o, w_fs ws.1 !! (root_of ExecutorFacts.Demo.base ExecutorFacts.Demo.job JOBS ++ [py "out.stl"]))
  = (Ret 0%Z, Some (NFile (ascii_codes "solid"))).
Proof. vm_compute. reflexivity. Qed.

Lemma tmp_name_normal m : normal_name (tmp_name m).
Proof.
  unfold tmp_name. split_and!; try done. intros [?|Hin]%elem_of_cons; [done|].
  by apply elem_of_replicate in Hin as [? _].
Qed.

Lemma tmp_name_fresh m : m !! [tmp_name m] = None.
Proof.
  destruct (m !! [tmp_name m]) as [n|] eqn:E; [|done]. exfalso.
  apply elem_of_map_to_list in E.
  assert (length (tmp_name m) ≤
    max_list_with (λ e : apath * node, max_list_with length e.1) (map_to_list m))%nat as Hle.
  { etrans; [|apply (max_list_elem_of_le' _ _ _ E)]. simpl. lia. }
  unfold tmp_name in Hle. rewrite length_cons, length_replicate in Hle. lia.
Qed.
End Demo.
#[local] Existing Instance Demo.unicode.

Lemma demo_sandboxed cmd w :
  ready ExecutorFacts.Demo.base ExecutorFacts.Demo.job (w_fs w) →
  sandboxed ExecutorFacts.Demo.base (w_fs w) (Demo.os cmd w).
Proof.
  intros Hr. set (m := w_fs w) in *. assert (fs_wf m) as Hwf by (by eapply tidy_wf, Hr).
  split; simpl; fold m.
  - constructor; [apply Demo.tmp_name_normal|constructor].
  - apply Demo.tmp_name_fresh.
  - apply Hwf.
  - intros [k Hk]. destruct Hr as [[_ Hb _ _] _].
    assert (Demo.tmp_name m = py "srv") as Hn
      by (apply (f_equal (λ l, default [] (head l))) in Hk; exact Hk).
    pose proof (Demo.tmp_name_fresh m) as Hf. rewrite Hn in Hf.
    assert (m !! [py "srv"] = Some NDir) by exact Hb. congruence.
  - intros m1 Hwf1 _. unfold Demo.tool_effect. case_bool_decide as Hc; [|done].
    destruct Hc as [Hd Hn]. apply fs_wf_insert_file; [done|by rewrite Hn|].
    exists [Demo.tmp_name m], (py "out.stl"). done.
  - intros m1 q. unfold Demo.tool_effect. case_bool_decide; [|by left].
    rewrite lookup_insert. case_decide as Hq; [|by left]. intros _. right. subst q.
    constructor; [apply Demo.tmp_name_normal|]. constructor; [|constructor].
    apply (bool_decide_unpack (normal_name (py "out.stl"))). vm_compute. exact I.
  - intros m1 q Hq. unfold Demo.tool_effect. case_bool_decide; [|done].
    apply lookup_insert_ne. intros <-. by apply (Hq (py "out.stl") []).
Qed.

(** ** Properties *)

(** C8: A tool run stays in its workspace.  Whatever the arguments, the output
    and the outcome, when the tool itself only writes below its temporary
    directory (and no longer when that is removed), [run_tool] leaves the temporary directory removed and every
    path outside the two trees of its job as it was, and inside them no
    existing file is changed but the one named after [-o]. *)
Theorem tool_run_confined {X} `{UnicodeData} base job_id bin str_oserror
    (os : list pystr → world X → execution) tool args ws :
  normal base →
  (∀ cmd w, ready base job_id (w_fs w) → sandboxed base (w_fs w) (os cmd w)) →
  ready base job_id (w_fs ws.1) →
  let m := w_fs ws.1 in
  let m' := w_fs (run_tool base bin str_oserror os job_id tool args ws).1.1 in
  ready base job_id m' ∧ (∀ q, outside_trees base job_id q → m' !! q = m !! q) ∧
  (∀ q d, m !! q = Some (NFile d) → ¬ declared_output base job_id (output_path args) q →
     m' !! q = Some (NFile d)).
Proof.
  intros Hb Hos Hr. exact (run_tool_ok base Hb job_id bin str_oserror os Hos tool args ws Hr).
Qed.

Lemma tool_run_confined_witness :
  let m := w_fs Demo.ws0.1 in
  let m' := w_fs (Demo.run Demo.ws0).1.1 in
  let base := ExecutorFacts.Demo.base in
  let job_id := ExecutorFacts.Demo.job in
  ready base job_id m' ∧ (∀ q, outside_trees base job_id q → m' !! q = m !! q) ∧
  (∀ q d, m !! q = Some (NFile d) → ¬ declared_output base job_id (output_path Demo.args) q →
     m' !! q = Some (NFile d)).
Proof.
  refine (tool_run_confined ExecutorFacts.Demo.base ExecutorFacts.Demo.job (py "openscad") (λ _, [])
    Demo.os (py "openscad") Demo.args Demo.ws0 _ demo_sandboxed ExecutorFacts.Demo.ready_m0).
  apply (bool_decide_unpack (normal ExecutorFacts.Demo.base)). vm_compute. exact I.
Defined.

(** C11: A plan that runs tools is all or nothing.  With the real runner and a
    tool that stays in its temporary directory, [execute_attempt] comes to an
    end; when it raises, every path but the directories that hold snapshots
    is what it was before, unless the [db.rollback()] of the handler raised
    itself, and when it returns, or in that case, only the job's trees changed
    (and the snapshot that was not taken back). *)
Theorem attempt_with_tools {X} `{UnicodeData} base guess_type job_id bin str_oserror
    (os : list pystr → world X → execution) actions (on_success : option (eff exn (world X) unit))
    w uuid4 us :
  normal base → encodable base = true →
  (∀ cmd w, ready base job_id (w_fs w) → sandboxed base (w_fs w) (os cmd w)) →
  (∀ cb w, on_success = Some cb → w_fs (cb w).1 = w_fs w) →
  w_uuids w = uuid4 :: us → ready base job_id (w_fs w) →
  clear (w_fs w) (snapshot_root base job_id) →
  w_fs w !! snapshot_of base job_id uuid4 = None →
  ∃ w' o,
    execute_attempt base guess_type (run_tool base bin str_oserror os) job_id actions on_success w
      = (w', o) ∧
    let kept q := ¬ q `prefix_of` snapshot_root base job_id → w_fs w' !! q = w_fs w !! q in
    match o with
    | Ret _ => ∀ q, outside_trees base job_id q → kept q
    | Exc e =>
        (∀ q, kept q) ∨
        (rollback_raised base guess_type job_id (run_tool base bin str_oserror os) actions
           on_success w us e ∧
         ∀ q, outside_trees base job_id q → ¬ snapshot_of base job_id uuid4 `prefix_of` q → kept q)
    end.
Proof.
  intros Hb He Hos Hcb Hu Hr Hc Hf.
  destruct (execute_attempt_run base Hb He guess_type job_id (run_tool base bin str_oserror os))
    with (actions := actions) (cb := on_success) (w := w) (uuid4 := uuid4) (us := us)
    as (w' & o & Hrun & _ & Ho); [|done..|].
  - intros tool args ws Hrd. destruct (run_tool_ok base Hb job_id bin str_oserror os Hos tool args ws Hrd)
      as (? & ? & _). done.
  - exists w', o. split; [done|]. destruct o as [a|e]; [exact (proj2 Ho)|].
    destruct Ho as [Ho|(? & _ & Ho)]; [by left|by right].
Qed.

Lemma attempt_with_tools_witness :
  let actions := [WriteFileAction (py "model.scad") (py "cube(1);"); RunToolAction (py "openscad") Demo.args;
    CreateArtifactAction (py "out.stl")] in
  ∃ w' o,
    execute_attempt ExecutorFacts.Demo.base ExecutorFacts.Demo.no_guess
      (run_tool ExecutorFacts.Demo.base (py "openscad") (λ _, []) Demo.os)
      ExecutorFacts.Demo.job actions None ExecutorFacts.Demo.w0 = (w', o) ∧
    ∀ q, ¬ q `prefix_of` snapshot_root ExecutorFacts.Demo.base ExecutorFacts.Demo.job →
      outside_trees ExecutorFacts.Demo.base ExecutorFacts.Demo.job q → o = Ret tt →
      w_fs w' !! q = w_fs ExecutorFacts.Demo.w0 !! q.
Proof.
  intros actions.
  destruct (attempt_with_tools ExecutorFacts.Demo.base ExecutorFacts.Demo.no_guess
    ExecutorFacts.Demo.job (py "openscad") (λ _, []) Demo.os actions None ExecutorFacts.Demo.w0
    ExecutorFacts.Demo.token [78%N]) as (w' & o & Hrun & Ho).
  - apply (bool_decide_unpack (normal ExecutorFacts.Demo.base)). vm_compute. exact I.
  - vm_compute. reflexivity.
  - exact demo_sandboxed.
  - discriminate.
  - reflexivity.
  - exact ExecutorFacts.Demo.ready_m0.
  - exact ExecutorFacts.Demo.clear_m0.
  - vm_compute. reflexivity.
  - exists w', o. split; [exact Hrun|]. intros q Hq Hout ->. exact (Ho q Hout Hq).
Defined.

(** Starting the tool is tried at most three times.  It succeeds at the
    first attempt that does not fail, after failures that were all [OSError]s;
    another exception is passed on at once; and when three attempts failed,
    [CLIExecutionLaunchError] reports three attempts. *)
Theorem launch_bounded str_oserror try_spawn cmd0 :
  match _launch_with_retry str_oserror try_spawn cmd0 with
  | Ret n => (1 ≤ n ≤ 3)%nat ∧ try_spawn (n - 1)%nat = None ∧
      ∀ i, (i < n - 1)%nat → ∃ e, try_spawn i = Some e ∧ is_os_error e = true
  | Exc e =>
      (∃ i, (i < 3)%nat ∧ try_spawn i = Some e ∧ is_os_error e = false) ∨
      ((∃ msg, e = CLIError (CLIExecutionLaunchError msg cmd0 3)) ∧
       ∀ i, (i < 3)%nat → ∃ e, try_spawn i = Some e ∧ is_os_error e = true)
  end.
Proof.
  pose proof (launch_from_spec str_oserror try_spawn cmd0 0 3 (py "None")) as Hl.
  unfold _launch_with_retry. change (_MAX_LAUNCH_RETRIES + 1)%nat with 3%nat.
  destruct (launch_from _ _ _ _ _ _) as [n|e].
  - destruct Hl as (Hn & Hs & Hall). split_and!; [lia..|done|]. intros i Hi. apply Hall. lia.
  - destruct Hl as [(i & Hi & Hs)|[Hm Hall]]; [left; exists i; split; [lia|done]|right].
    split; [done|]. intros i Hi. apply Hall. lia.
Qed.
