(* ===== verification/Json.v ===== *)
(** * [json.loads] and [json.dumps]

    The decoder of Python's [json] module, on the rest of the text: a failure
    carries how much of the text was left at the position a
    [JSONDecodeError] reports.  Numbers that are not integers keep their
    literal.  Python refuses integer literals of more than 4300 digits with a
    plain [ValueError], and an array or object that is nested deeper than the
    interpreter's stack allows with [RecursionError]. *)
From stdpp Require Import pretty.
From S2P Require Import Prelude PyStr Schemas.
Local Open Scope N_scope.

Inductive json_error :=
  | DecodeError (left : nat)        (* [JSONDecodeError], [left] characters before the end *)
  | IntTooLong                      (* [ValueError] of [int()] *)
  | TooDeep                         (* [RecursionError] *)
  | OutOfFuel.
#[export] Instance json_error_eq_dec : EqDecision json_error.
Proof. solve_decision. Defined.

(** How deep the decoder may nest when it is called: the interpreter's limit
    on recursive calls, less what the callers use. *)
Class RecursionLimit := {
  max_nesting : nat;
  max_nesting_pos : (0 < max_nesting)%nat
}.

(** A limit that is set to a hundred *)
Definition limit_100 : RecursionLimit :=
  {| max_nesting := 100; max_nesting_pos := Nat.lt_0_succ 99 |}.

Abbreviation result A := (outcome json_error (A * pystr)).

Definition fail {A} (at_ : pystr) : result A := Exc (DecodeError (length at_)).

Definition is_json_space (c : N) : bool := (c =? 32) || (c =? 9) || (c =? 10) || (c =? 13).
Definition skip_ws (s : pystr) : pystr := lstrip_by is_json_space s.

(** ** Strings *)
Definition hex_value (c : N) : option N :=
  if is_digit_ascii c then Some (c - 48)
  else if (97 <=? c) && (c <=? 102) then Some (c - 87)
  else if (65 <=? c) && (c <=? 70) then Some (c - 55)
  else None.

Definition hex4 (a b c d : N) : option N :=
  match hex_value a, hex_value b, hex_value c, hex_value d with
  | Some a, Some b, Some c, Some d => Some (a * 4096 + b * 256 + c * 16 + d)
  | _, _, _, _ => None
  end.

Definition simple_escape (c : N) : option N :=
  if (c =? 34) || (c =? 92) || (c =? 47) then Some c
  else if c =? 98 then Some 8
  else if c =? 102 then Some 12
  else if c =? 110 then Some 10
  else if c =? 114 then Some 13
  else if c =? 116 then Some 9
  else None.

Definition is_high (c : N) : bool := (0xD800 <=? c) && (c <=? 0xDBFF).
Definition is_low (c : N) : bool := (0xDC00 <=? c) && (c <=? 0xDFFF).
Definition join_surrogates (hi lo : N) : N := 0x10000 + (hi - 0xD800) * 1024 + (lo - 0xDC00).

Definition cons_result (c : N) (r : result pystr) : result pystr :=
  match r with Ret (s, rest) => Ret (c :: s, rest) | Exc e => Exc e end.

(** A [\u] escape whose digits are read, before the rest [s3]: a high
    surrogate takes the low one that follows it. *)
Definition second_half (hi : N) (s3 : pystr) : option (outcome json_error (N * pystr)) :=
  match s3 with
  | b1 :: u1 :: a :: b :: c :: d :: ((_ :: _) as s4) =>
      if is_high hi && (b1 =? 92) && (u1 =? 117) then
        match hex4 a b c d with
        | None => Some (fail (drop 1 s3))
        | Some lo => if is_low lo then Some (Ret (join_surrogates hi lo, s4)) else None
        end
      else None
  | _ => None
  end.

(** After the opening quote; [start] is the text from that quote on, and
    [skip] characters are already read. *)
Fixpoint scanstring (start : pystr) (skip : nat) (s : pystr) : result pystr :=
  match s with
  | [] => fail start
  | c :: s1 =>
      match skip with
      | S skip' => scanstring start skip' s1
      | O =>
          if c =? 34 then Ret ([], s1)
          else if c =? 92 then
            match s1 with
            | [] => fail start
            | e :: s2 =>
                if e =? 117 then
                  match s2 with
                  | h1 :: h2 :: h3 :: h4 :: ((_ :: _) as s3) =>
                      match hex4 h1 h2 h3 h4 with
                      | None => fail s1
                      | Some hi =>
                          match second_half hi s3 with
                          | None => cons_result hi (scanstring start 5 s1)
                          | Some (Ret (c', _)) => cons_result c' (scanstring start 11 s1)
                          | Some (Exc err) => Exc err
                          end
                      end
                  | _ => fail s1
                  end
                else
                  match simple_escape e with
                  | Some c' => cons_result c' (scanstring start 1 s1)
                  | None => fail s
                  end
            end
          else if c <? 32 then fail s
          else cons_result c (scanstring start 0 s1)
      end
  end.

(** ** Numbers *)
Fixpoint span (f : N → bool) (s : pystr) : pystr * pystr :=
  match s with
  | c :: s' => if f c then let '(a, b) := span f s' in (c :: a, b) else ([], s)
  | [] => ([], [])
  end.

Definition digits_value (ds : pystr) : Z :=
  foldl (λ acc d, acc * 10 + Z.of_N (d - 48))%Z 0%Z ds.

Definition MAX_INT_DIGITS : nat := 4300.

(** An integer part, then an optional fraction and exponent, each taken only
    when a digit follows *)
Definition scan_fraction (s : pystr) : pystr * pystr :=
  match s with
  | c :: s1 =>
      match c =? 46, span is_digit_ascii s1 with
      | true, ((_ :: _) as ds, s2) => (c :: ds, s2)
      | _, _ => ([], s)
      end
  | [] => ([], s)
  end.

Definition scan_exponent (s : pystr) : pystr * pystr :=
  match s with
  | c :: s1 =>
      if (c =? 101) || (c =? 69) then
        let '(sign, s2) :=
          match s1 with
          | d :: s2 => if (d =? 43) || (d =? 45) then ([d], s2) else ([], s1)
          | [] => ([], s1)
          end in
        match span is_digit_ascii s2 with
        | ((_ :: _) as ds, s3) => (c :: sign ++ ds, s3)
        | _ => ([], s)
        end
      else ([], s)
  | [] => ([], s)
  end.

(** [s] starts at the number, after its sign [neg]; [at_] at the value. *)
Definition scan_number (at_ : pystr) (neg : bool) (s : pystr) : result json :=
  match s with
  | c :: s1 =>
      let '(ds, s2) :=
        if c =? 48 then ([c], s1)
        else if is_digit_ascii c then span is_digit_ascii s else ([], s) in
      match ds with
      | [] => fail at_
      | _ =>
          let '(frac, s3) := scan_fraction s2 in
          let '(expo, s4) := scan_exponent s3 in
          match frac ++ expo with
          | [] =>
              if (MAX_INT_DIGITS <? length ds)%nat then Exc IntTooLong
              else Ret (JInt (if neg then - digits_value ds else digits_value ds)%Z, s4)
          | fe => Ret (JFloat ((if neg then [45] else []) ++ ds ++ fe), s4)
          end
      end
  | [] => fail at_
  end.

(** ** Values *)
Definition NULL : pystr := Eval vm_compute in py "null".
Definition TRUE : pystr := Eval vm_compute in py "true".
Definition FALSE : pystr := Eval vm_compute in py "false".
Definition NAN : pystr := Eval vm_compute in py "NaN".
Definition INFINITY : pystr := Eval vm_compute in py "Infinity".

(** [dict] update: a key that is there keeps its place. *)
Fixpoint dict_set (k : pystr) (v : json) (items : list (pystr * json)) : list (pystr * json) :=
  match items with
  | [] => [(k, v)]
  | (k', v') :: items' => if decide (k = k') then (k, v) :: items' else (k', v') :: dict_set k v items'
  end.

Definition scan_atom (s : pystr) : result json :=
  if startswith s NULL then Ret (JNull, drop 4 s)
  else if startswith s TRUE then Ret (JBool true, drop 4 s)
  else if startswith s FALSE then Ret (JBool false, drop 5 s)
  else if startswith s NAN then Ret (JFloat NAN, drop 3 s)
  else if startswith s INFINITY then Ret (JFloat INFINITY, drop 8 s)
  else
    match s with
    | c :: s1 =>
        if c =? 45 then
          if startswith s1 INFINITY then Ret (JFloat (45 :: INFINITY), drop 8 s1)
          else scan_number s true s1
        else scan_number s false s
    | [] => fail s
    end.

Definition is_char (c : N) (s : pystr) : bool :=
  match s with d :: _ => d =? c | [] => false end.

Section scan.
(** [scan_once] with less fuel *)
Context (scan : pystr → result json).

(** The elements of an array; [acc] holds those read, the last first. *)
Fixpoint scan_array (fuel : nat) (acc : list json) (s : pystr) : result json :=
  match fuel with
  | O => Exc OutOfFuel
  | S fuel' =>
      match scan s with
      | Exc e => Exc e
      | Ret (v, s1) =>
          let s2 := skip_ws s1 in
          if is_char 93 s2 then Ret (JArr (rev (v :: acc)), drop 1 s2)
          else if is_char 44 s2 then
            let s3 := skip_ws (drop 1 s2) in
            if is_char 93 s3 then fail s2 else scan_array fuel' (v :: acc) s3
          else fail s2
      end
  end.

Fixpoint scan_object (fuel : nat) (acc : list (pystr * json)) (s : pystr) : result json :=
  match fuel with
  | O => Exc OutOfFuel
  | S fuel' =>
      if negb (is_char 34 s) then fail s
      else
        match scanstring s 0 (drop 1 s) with
        | Exc e => Exc e
        | Ret (key, s1) =>
            let s2 := skip_ws s1 in
            if negb (is_char 58 s2) then fail s2
            else
              match scan (skip_ws (drop 1 s2)) with
              | Exc e => Exc e
              | Ret (v, s3) =>
                  let acc' := dict_set key v acc in
                  let s4 := skip_ws s3 in
                  if is_char 125 s4 then Ret (JObj acc', drop 1 s4)
                  else if is_char 44 s4 then
                    let s5 := skip_ws (drop 1 s4) in
                    if is_char 125 s5 then fail s4 else scan_object fuel' acc' s5
                  else fail s4
              end
        end
  end.
End scan.

(** [depth] more brackets may be opened. *)
Fixpoint scan_once (fuel depth : nat) (s : pystr) : result json :=
  match fuel with
  | O => Exc OutOfFuel
  | S fuel' =>
      match s with
      | [] => fail s
      | c :: s1 =>
          if c =? 34 then
            match scanstring s 0 s1 with
            | Ret (str, s2) => Ret (JStr str, s2)
            | Exc e => Exc e
            end
          else if c =? 91 then
            match depth with
            | O => Exc TooDeep
            | S depth' =>
                let s2 := skip_ws s1 in
                if is_char 93 s2 then Ret (JArr [], drop 1 s2)
                else scan_array (scan_once fuel' depth') fuel' [] s2
            end
          else if c =? 123 then
            match depth with
            | O => Exc TooDeep
            | S depth' =>
                let s2 := skip_ws s1 in
                if is_char 125 s2 then Ret (JObj [], drop 1 s2)
                else scan_object (scan_once fuel' depth') fuel' [] s2
            end
          else scan_atom s
      end
  end.

(** [json.loads(s)]; the fuel covers every text, see [loads_total]. *)
Definition json_loads `{RecursionLimit} (s : pystr) : outcome json_error json :=
  if is_char 0xFEFF s then Exc (DecodeError (length s))
  else
    match scan_once (S (length s)) max_nesting (skip_ws s) with
    | Exc e => Exc e
    | Ret (v, rest) =>
        match skip_ws rest with
        | [] => Ret v
        | r => Exc (DecodeError (length r))
        end
    end.

Example loads_ex :
  json_loads (H := limit_100) (py " [1, -2.5e3, {} , null]") =
  Ret (JArr [JInt 1; JFloat (py "-2.5e3"); JObj []; JNull]).
Proof. vm_compute. reflexivity. Qed.
Example trailing_comma_ex : json_loads (H := limit_100) (py "[1, ]") = Exc (DecodeError 3).
Proof. vm_compute. reflexivity. Qed.
Example surrogate_ex :
  json_loads (H := limit_100) ([34] ++ py "\ud83d\ude00\u00e9\ud83dx" ++ [34]) = Ret (JStr [0x1F600; 0xE9; 0xD83D; 120]).
Proof. vm_compute. reflexivity. Qed.
Example duplicate_key_ex :
  json_loads (H := limit_100) (py "{'a':1,'b':2,'a':3}" ≫= λ c, if c =? 39 then [34] else [c])
  = Ret (JObj [(py "a", JInt 3); (py "b", JInt 2)]).
Proof. vm_compute. reflexivity. Qed.
Example nested_ex :
  json_loads (H := limit_100) (replicate 100 91 ++ replicate 100 93)
  = Ret (Nat.iter 99 (λ v, JArr [v]) (JArr [])).
Proof. vm_compute. reflexivity. Qed.
Example too_deep_ex :
  json_loads (H := limit_100) (replicate 101 91 ++ replicate 101 93) = Exc TooDeep.
Proof. vm_compute. reflexivity. Qed.

(** ** The decoder is total *)
Definition shorter {A} (s : pystr) (r : result A) : Prop :=
  match r with
  | Ret (_, rest) => (length rest < length s)%nat
  | Exc e => e ≠ OutOfFuel
  end.

Lemma shorter_le {A} s s' (r : result A) : (length s' ≤ length s)%nat → shorter s' r → shorter s r.
Proof. destruct r as [[v rest]|e]; simpl; [lia|done]. Qed.

Lemma shorter_cons c s r : shorter s r → shorter s (cons_result c r).
Proof. by destruct r as [[v rest]|e]. Qed.

Lemma scanstring_shorter start skip s : shorter s (scanstring start skip s).
Proof.
  revert skip. induction s as [|c s IH]; intros skip; [done|].
  assert (∀ k, shorter (c :: s) (scanstring start k s)) as Hk
    by (intros k; eapply shorter_le; [|apply IH]; simpl; lia).
  cbn [scanstring]. destruct skip; [|apply Hk].
  destruct (c =? 34); [simpl; lia|]. destruct (c =? 92).
  - destruct s as [|e s2]; [done|]. destruct (e =? 117).
    + destruct s2 as [|h1 [|h2 [|h3 [|h4 [|h5 s3]]]]]; try done.
      destruct (hex4 h1 h2 h3 h4); [|done].
      destruct (second_half _ _) as [[[c' ?]|err]|] eqn:Hs; try (by apply shorter_cons, Hk).
      enough (err ≠ OutOfFuel) by done. intros ->. clear -Hs.
      unfold second_half, fail in Hs. by repeat case_match.
    + destruct (simple_escape e); [by apply shorter_cons, Hk|done].
  - destruct (c <? 32); [done|by apply shorter_cons, Hk].
Qed.

Lemma span_app f s a b : span f s = (a, b) → s = a ++ b.
Proof.
  revert a b. induction s as [|c s IH]; intros a b; simpl; [by intros [= <- <-]|].
  destruct (f c); [|by intros [= <- <-]]. destruct (span f s) as [a' b'] eqn:Hs.
  intros [= <- <-]. simpl. f_equal. by apply IH.
Qed.

Lemma scan_fraction_app s a b : scan_fraction s = (a, b) → s = a ++ b.
Proof.
  unfold scan_fraction. destruct s as [|c s]; [by intros [= <- <-]|].
  destruct (c =? 46); [|by intros [= <- <-]].
  destruct (span is_digit_ascii s) as [[|d ds] s2] eqn:Hs; intros [= <- <-]; [done|].
  apply span_app in Hs as ->. done.
Qed.

Lemma scan_exponent_app s a b : scan_exponent s = (a, b) → s = a ++ b.
Proof.
  unfold scan_exponent. destruct s as [|c s]; [by intros [= <- <-]|].
  destruct (_ || _); [|by intros [= <- <-]].
  assert (∃ sign s2, match s with d :: s2 => if (d =? 43) || (d =? 45) then ([d], s2) else ([], s)
    | [] => ([], s) end = (sign, s2) ∧ s = sign ++ s2) as (sign & s2 & -> & ->).
  { destruct s as [|d s]; [by eexists _, _|]. destruct (_ || _); by eexists _, _. }
  destruct (span is_digit_ascii s2) as [[|d ds] s3] eqn:Hs; intros [= <- <-]; [done|].
  apply span_app in Hs as ->. simpl. by rewrite <-app_assoc.
Qed.

Lemma scan_number_shorter at_ neg s : shorter s (scan_number at_ neg s).
Proof.
  unfold scan_number. destruct s as [|c s1]; [done|].
  assert (∃ ds s2, (if c =? 48 then ([c], s1) else if is_digit_ascii c then span is_digit_ascii (c :: s1)
    else ([], c :: s1)) = (ds, s2) ∧ c :: s1 = ds ++ s2) as (ds & s2 & -> & Hds).
  { destruct (c =? 48); [by eexists _, _|]. destruct (is_digit_ascii c); [|by eexists _, _].
    destruct (span is_digit_ascii (c :: s1)) as [ds s2] eqn:Hs. apply span_app in Hs. by eexists _, _. }
  destruct ds as [|d ds]; [done|]. rewrite Hds.
  destruct (scan_fraction s2) as [frac s3] eqn:Hf. apply scan_fraction_app in Hf as ->.
  destruct (scan_exponent s3) as [expo s4] eqn:He. apply scan_exponent_app in He as ->.
  destruct (frac ++ expo); [case_match|]; simpl; try done; rewrite !length_app; lia.
Qed.

Lemma startswith_length s p : startswith s p = true → (length p ≤ length s)%nat.
Proof. intros [t ->]%startswith_spec. rewrite length_app. lia. Qed.

Lemma scan_atom_shorter s : shorter s (scan_atom s).
Proof.
  unfold scan_atom.
  repeat match goal with |- context [if startswith s ?p then _ else _] =>
    let Hp := fresh in destruct (startswith s p) eqn:Hp;
      [apply startswith_length in Hp; simpl in Hp; simpl; rewrite length_drop; lia|clear Hp] end.
  destruct s as [|c s]; [done|]. destruct (c =? 45); [|apply scan_number_shorter].
  destruct (startswith s INFINITY) eqn:Hp.
  - simpl. rewrite length_drop. lia.
  - eapply shorter_le; [|apply scan_number_shorter]. simpl; lia.
Qed.

Lemma skip_ws_le s : (length (skip_ws s) ≤ length s)%nat.
Proof.
  destruct (lstrip_by_suffix is_json_space s) as (t & Hs & _). unfold skip_ws.
  rewrite Hs at 2. rewrite length_app. lia.
Qed.

Lemma is_char_pos c s : is_char c s = true → (length (drop 1 s) < length s)%nat.
Proof. destruct s; simpl; [done|]. rewrite drop_0. lia. Qed.

Section total.
Context (scan : pystr → result json) (n : nat).
Context (Hscan : ∀ s, (length s < n)%nat → shorter s (scan s)).

Lemma scan_array_shorter fuel acc s :
  (length s < fuel)%nat → (length s < n)%nat → shorter s (scan_array scan fuel acc s).
Proof using Hscan.
  revert acc s. induction fuel as [|fuel IH]; intros acc s Hf Hn; [lia|]. simpl.
  specialize (Hscan s Hn). destruct (scan s) as [[v s1]|e]; [|done]. simpl in Hscan.
  pose proof (skip_ws_le s1) as H1. set (s2 := skip_ws s1) in *.
  destruct (is_char 93 s2) eqn:H93; [apply is_char_pos in H93; simpl; lia|].
  destruct (is_char 44 s2) eqn:H44; [|done]. apply is_char_pos in H44.
  pose proof (skip_ws_le (drop 1 s2)).
  destruct (is_char 93 (skip_ws (drop 1 s2))); [done|].
  eapply shorter_le; [|apply IH]; lia.
Qed.

Lemma scan_object_shorter fuel acc s :
  (length s < fuel)%nat → (length s < n)%nat → shorter s (scan_object scan fuel acc s).
Proof using Hscan.
  revert acc s. induction fuel as [|fuel IH]; intros acc s Hf Hn; [lia|]. simpl.
  destruct (is_char 34 s) eqn:H34; [|done]. apply is_char_pos in H34. simpl negb. cbv iota.
  pose proof (scanstring_shorter s 0 (drop 1 s)) as Hstr.
  destruct (scanstring s 0 (drop 1 s)) as [[key s1]|e]; [|done]. simpl in Hstr.
  pose proof (skip_ws_le s1). set (s2 := skip_ws s1) in *.
  destruct (is_char 58 s2) eqn:H58; [|done]. apply is_char_pos in H58. simpl negb. cbv iota.
  pose proof (skip_ws_le (drop 1 s2)).
  pose proof (Hscan (skip_ws (drop 1 s2)) ltac:(lia)) as Hv.
  destruct (scan _) as [[v s3]|e]; [|done]. simpl in Hv.
  pose proof (skip_ws_le s3). set (s4 := skip_ws s3) in *.
  destruct (is_char 125 s4) eqn:H125; [apply is_char_pos in H125; simpl; lia|].
  destruct (is_char 44 s4) eqn:H44; [|done]. apply is_char_pos in H44.
  pose proof (skip_ws_le (drop 1 s4)).
  destruct (is_char 125 (skip_ws (drop 1 s4))); [done|].
  eapply shorter_le; [|apply IH]; lia.
Qed.
End total.

Lemma scan_once_shorter fuel depth s : (length s < fuel)%nat → shorter s (scan_once fuel depth s).
Proof.
  revert depth s. induction fuel as [|fuel IH]; intros depth s Hf; [lia|]. simpl.
  destruct s as [|c s1]; [done|]. simpl in Hf. pose proof (skip_ws_le s1).
  destruct (c =? 34).
  { pose proof (scanstring_shorter (c :: s1) 0 s1) as Hs.
    destruct (scanstring _ _ _) as [[str s2]|e]; [simpl in *; lia|done]. }
  destruct (c =? 91).
  { destruct depth as [|depth]; [done|].
    destruct (is_char 93 _) eqn:H93; [apply is_char_pos in H93; simpl; lia|].
    eapply shorter_le; [|apply (scan_array_shorter _ fuel)]; simpl; try lia. intros; apply IH; lia. }
  destruct (c =? 123).
  { destruct depth as [|depth]; [done|].
    destruct (is_char 125 _) eqn:H125; [apply is_char_pos in H125; simpl; lia|].
    eapply shorter_le; [|apply (scan_object_shorter _ fuel)]; simpl; try lia. intros; apply IH; lia. }
  apply scan_atom_shorter.
Qed.

Lemma loads_total `{RecursionLimit} s : json_loads s ≠ Exc OutOfFuel.
Proof.
  unfold json_loads. destruct (is_char _ s); [done|].
  pose proof (scan_once_shorter (S (length s)) max_nesting (skip_ws s)) as Hs.
  pose proof (skip_ws_le s). specialize (Hs ltac:(lia)).
  destruct (scan_once _ _) as [[v rest]|e]; simpl in Hs; [|congruence]. by destruct (skip_ws rest).
Qed.
