(* ===== verification/SseJson.v ===== *)
(** * The data of an event is JSON

    What [_json_data] prints, [json.loads] reads back: a client of the
    stream recovers the fields of every event, whatever their text. *)
From stdpp Require Import pretty.
From S2P Require Import Prelude PyStr Exceptions Schemas Json Database JobService Sse SseFacts.
Local Open Scope N_scope.

(** ** Strings *)
Lemma scanstring_skip start a b : scanstring start (length a) (a ++ b) = scanstring start 0 b.
Proof. induction a as [|c a IH]; [done|]. exact IH. Qed.

Definition escape_ok (c : N) : bool :=
  match hex_digits 4 c with
  | [a; b; d; e] => bool_decide (hex4 a b d e = Some c) && negb (is_high c)
  | _ => false
  end.

Lemma escape_control c : c < 32 → escape_ok c = true.
Proof.
  intros Hc. assert (forallb (λ n, escape_ok (N.of_nat n)) (seq 0 32) = true) as Hall by (vm_compute; reflexivity).
  rewrite forallb_forall in Hall. rewrite <-(N2Nat.id c). apply Hall, list_elem_of_In, elem_of_seq. lia.
Qed.

Lemma scan_simple start e c s :
  (e =? 117) = false → simple_escape e = Some c →
  scanstring start 0 (92 :: e :: s) = cons_result c (scanstring start 0 s).
Proof. intros He Hc. cbn [scanstring]. simpl. by rewrite He, Hc. Qed.

Lemma scanstring_char start c s :
  s ≠ [] → scanstring start 0 (json_char c ++ s) = cons_result c (scanstring start 0 s).
Proof.
  intros Hs. unfold json_char.
  destruct (N.eqb_spec c 34) as [->|]; [exact (scan_simple start 34 34 s eq_refl eq_refl)|].
  destruct (N.eqb_spec c 92) as [->|]; [exact (scan_simple start 92 92 s eq_refl eq_refl)|].
  destruct (N.eqb_spec c 10) as [->|]; [exact (scan_simple start 110 10 s eq_refl eq_refl)|].
  destruct (N.eqb_spec c 13) as [->|]; [exact (scan_simple start 114 13 s eq_refl eq_refl)|].
  destruct (N.eqb_spec c 9) as [->|]; [exact (scan_simple start 116 9 s eq_refl eq_refl)|].
  destruct (N.eqb_spec c 12) as [->|]; [exact (scan_simple start 102 12 s eq_refl eq_refl)|].
  destruct (N.eqb_spec c 8) as [->|]; [exact (scan_simple start 98 8 s eq_refl eq_refl)|].
  destruct (N.ltb_spec c 32) as [Hc|Hc].
  - pose proof (escape_control c Hc) as He. unfold escape_ok in He.
    destruct (hex_digits 4 c) as [|h1 [|h2 [|h3 [|h4 [|]]]]] eqn:Hd; try done.
    apply andb_true_iff in He as [Hx%bool_decide_eq_true Hh%negb_true_iff].
    destruct s as [|x s]; [done|].
    assert (second_half c (x :: s) = None) as Hn.
    { unfold second_half. rewrite Hh. simpl. by repeat case_match. }
    change (py "\u") with [92; 117].
    change (scanstring start 0 (([92; 117] ++ [h1; h2; h3; h4]) ++ x :: s)) with
      (match hex4 h1 h2 h3 h4 with
       | None => fail ([117; h1; h2; h3; h4] ++ x :: s)
       | Some hi =>
           match second_half hi (x :: s) with
           | None => cons_result hi (scanstring start (length [117; h1; h2; h3; h4])
               ([117; h1; h2; h3; h4] ++ x :: s))
           | Some (Ret (c', _)) => cons_result c' (scanstring start 11 ([117; h1; h2; h3; h4] ++ x :: s))
           | Some (Exc err) => Exc err
           end
       end).
    by rewrite Hx, Hn, scanstring_skip.
  - cbn [scanstring app]. rewrite (proj2 (N.eqb_neq c 34)), (proj2 (N.eqb_neq c 92)) by done.
    by rewrite (proj2 (N.ltb_ge c 32)).
Qed.

Lemma scanstring_dumps start s rest :
  scanstring start 0 (concat (map json_char s) ++ 34 :: rest) = Ret (s, rest).
Proof.
  induction s as [|c s IH]; [done|]. cbn [map concat]. rewrite <-app_assoc, scanstring_char.
  - by rewrite IH.
  - by destruct (concat _).
Qed.

(** ** Integers *)
Definition is_digits (ds : pystr) : Prop := Forall (λ c, is_digit_ascii c = true) ds.

Lemma digit_code (d : N) : d < 10 →
  ascii_codes (String (pretty_N_char d) EmptyString) = [48 + d] ∧ is_digit_ascii (48 + d) = true.
Proof.
  intros Hd. assert (forallb (λ n : nat, let d := N.of_nat n in
    bool_decide (ascii_codes (String (pretty_N_char d) EmptyString) = [48 + d] ∧
      is_digit_ascii (48 + d) = true)) (seq 0 10) = true) as Hall by (vm_compute; reflexivity).
  rewrite forallb_forall in Hall. rewrite <-(N2Nat.id d).
  apply (bool_decide_eq_true_1 _), Hall, list_elem_of_In, elem_of_seq. lia.
Qed.

Lemma digits_value_snoc ds d : digits_value (ds ++ [d]) = (digits_value ds * 10 + Z.of_N (d - 48))%Z.
Proof. unfold digits_value. by rewrite foldl_app. Qed.

Lemma pretty_N_go_digits (x : N) (s : string) :
  0 < x → ∃ d ds, ascii_codes (pretty_N_go x s) = (d :: ds) ++ ascii_codes s ∧
    is_digits (d :: ds) ∧ digits_value (d :: ds) = Z.of_N x ∧ d ≠ 48.
Proof.
  revert s. induction (N.lt_wf_0 x) as [x _ IH]. intros s Hx.
  rewrite pretty_N_go_step by done.
  pose proof (N.mod_lt x 10 ltac:(lia)) as Hm. destruct (digit_code (x mod 10) Hm) as [Hc Hd].
  assert (∀ t, ascii_codes (String (pretty_N_char (x mod 10)) t) = (48 + x mod 10) :: ascii_codes t) as Hcode.
  { intros t. change (ascii_codes (String ?a t)) with (ascii_codes (String a EmptyString) ++ ascii_codes t).
    by rewrite Hc. }
  pose proof (N.div_mod x 10 ltac:(lia)) as Hdm.
  destruct (decide (x / 10 = 0)) as [H0|H0].
  - rewrite H0, pretty_N_go_0, Hcode. exists (48 + x mod 10), []. split_and!; [done|by repeat constructor| |lia].
    unfold digits_value. simpl. lia.
  - destruct (IH (x / 10) ltac:(apply N.div_lt; lia) (String (pretty_N_char (x mod 10)) s) ltac:(lia))
      as (d & ds & -> & Hds & Hv & Hd0).
    exists d, (ds ++ [48 + x mod 10]). rewrite Hcode. split_and!; [| | |done].
    + by rewrite (app_comm_cons ds), <-app_assoc.
    + unfold is_digits. rewrite (app_comm_cons ds). apply Forall_app. split; [done|by repeat constructor].
    + rewrite (app_comm_cons ds), digits_value_snoc, Hv. lia.
Qed.

Lemma pretty_N_digits (x : N) :
  ∃ d ds, ascii_codes (pretty x) = d :: ds ∧ is_digits (d :: ds) ∧
    digits_value (d :: ds) = Z.of_N x ∧ (d = 48 → ds = []).
Proof.
  unfold pretty, pretty_N. case_decide as Hx.
  - subst x. exists 48, []. split_and!; try done. by repeat constructor.
  - destruct (pretty_N_go_digits x EmptyString ltac:(lia)) as (d & ds & -> & ? & ? & ?).
    exists d, ds. rewrite app_nil_r. split_and!; done.
Qed.

(** What may follow a number without becoming part of it *)
Definition ends_number (s : pystr) : bool :=
  match s with
  | [] => true
  | c :: _ => negb (is_digit_ascii c) && negb (c =? 46) && negb (c =? 101) && negb (c =? 69)
  end.

Lemma span_digits ds s : is_digits ds → ends_number s = true → span is_digit_ascii (ds ++ s) = (ds, s).
Proof.
  intros Hds Hs. induction Hds as [|d ds Hd Hds IH]; simpl.
  - destruct s as [|c s]; [done|]. simpl in *. rewrite !andb_true_iff, negb_true_iff in Hs.
    destruct Hs as [[[-> _] _] _]. done.
  - by rewrite Hd, IH.
Qed.

Lemma scan_number_digits at_ neg d ds s :
  is_digits (d :: ds) → (d = 48 → ds = []) → ends_number s = true →
  (length (d :: ds) ≤ MAX_INT_DIGITS)%nat →
  scan_number at_ neg ((d :: ds) ++ s) =
    Ret (JInt (if neg then - digits_value (d :: ds) else digits_value (d :: ds))%Z, s).
Proof.
  intros Hds H0 Hs Hlen. unfold scan_number. cbn [app].
  assert ((if d =? 48 then ([d], ds ++ s) else
    if is_digit_ascii d then span is_digit_ascii (d :: ds ++ s) else ([], d :: ds ++ s)) = (d :: ds, s)) as ->.
  { destruct (N.eqb_spec d 48) as [->|Hd]; [by rewrite H0|].
    inversion Hds as [|? ? Hdd ?]; subst. rewrite Hdd. by apply (span_digits (d :: ds)). }
  assert (scan_fraction s = ([], s) ∧ scan_exponent s = ([], s)) as [-> ->].
  { destruct s as [|c s]; [done|]. simpl in *. rewrite !andb_true_iff, !negb_true_iff in Hs.
    destruct Hs as [[[_ H46] H101] H69]. by rewrite H46, H101, H69. }
  cbn [app]. rewrite (proj2 (Nat.ltb_ge MAX_INT_DIGITS (length (d :: ds)))) by done. done.
Qed.

Lemma not_keyword c s w : is_char c w = false → w ≠ [] → startswith (c :: s) w = false.
Proof.
  destruct w as [|d w]; [done|]. intros Hd _. apply not_true_is_false.
  intros [t Ht]%startswith_spec. injection Ht as -> _. simpl in Hd. by rewrite N.eqb_refl in Hd.
Qed.

Lemma digit_not c k : is_digit_ascii c = true → is_digit_ascii k = false → (c =? k) = false.
Proof. intros Hc Hk. apply N.eqb_neq. intros ->. congruence. Qed.

Lemma digit_not_char d w :
  is_digit_ascii d = true → from_option is_digit_ascii false (head w) = false → is_char d w = false.
Proof. destruct w as [|c w]; [done|]. simpl. intros Hd Hc. apply N.eqb_neq. intros ->. congruence. Qed.

Lemma scan_once_int fuel depth z s :
  ends_number s = true → (length (str_of_Z z) ≤ MAX_INT_DIGITS)%nat →
  scan_once (S fuel) depth (str_of_Z z ++ s) = Ret (JInt z, s).
Proof.
  intros Hs Hlen.
  assert (∀ (x : N), (length (ascii_codes (pretty x)) ≤ MAX_INT_DIGITS)%nat →
    scan_once (S fuel) depth (ascii_codes (pretty x) ++ s) = Ret (JInt (Z.of_N x), s)) as Hpos.
  { intros x Hx. destruct (pretty_N_digits x) as (d & ds & E & Hds & Hv & H0). rewrite E in *.
    inversion Hds as [|? ? Hd _]; subst.
    change ((d :: ds) ++ s) with (d :: (ds ++ s)). cbn [scan_once].
    rewrite !(digit_not d) by done. unfold scan_atom.
    rewrite !not_keyword by (done || by apply digit_not_char). rewrite (digit_not d 45) by done.
    by rewrite (scan_number_digits _ false d ds s), Hv. }
  destruct z as [|p|p].
  - exact (Hpos 0 Hlen).
  - exact (Hpos (Npos p) Hlen).
  - change (str_of_Z (Zneg p)) with (45 :: ascii_codes (pretty (Npos p))) in *.
    destruct (pretty_N_digits (Npos p)) as (d & ds & E & Hds & Hv & H0). rewrite E in *.
    assert (startswith ((d :: ds) ++ s) INFINITY = false) as Hi.
    { inversion Hds; subst. by apply not_keyword; [apply digit_not_char|]. }
    change (scan_once (S fuel) depth ((45 :: d :: ds) ++ s)) with
      (if startswith ((d :: ds) ++ s) INFINITY
       then Ret (JFloat (45 :: INFINITY), drop 8 ((d :: ds) ++ s))
       else scan_number (45 :: (d :: ds) ++ s) true ((d :: ds) ++ s)).
    rewrite Hi, (scan_number_digits _ true d ds s), Hv; [done..|].
    rewrite length_cons in Hlen. simpl in *. lia.
Qed.

(** ** Objects *)
Definition json_of (v : json_field) : json :=
  match v with FStr s => JStr s | FInt z => JInt z end.

Definition field_ok (v : json_field) : Prop :=
  match v with FStr _ => True | FInt z => (length (str_of_Z z) ≤ MAX_INT_DIGITS)%nat end.

Lemma scan_once_field fuel depth v s :
  field_ok v → ends_number s = true → scan_once (S fuel) depth (json_value v ++ s) = Ret (json_of v, s).
Proof.
  intros Hv Hs. destruct v as [t|z]; [|by apply scan_once_int].
  assert (json_value (FStr t) ++ s = 34 :: (concat (map json_char t) ++ 34 :: s)) as ->.
  { unfold json_value, json_string. cbn [app]. by rewrite <-app_assoc. }
  cbn [scan_once]. change (34 =? 34) with true. cbv iota. by rewrite scanstring_dumps.
Qed.

Lemma str_of_Z_head z : ∃ c cs, str_of_Z z = c :: cs ∧ is_json_space c = false.
Proof.
  assert (∀ x : N, ∃ c cs, ascii_codes (pretty x) = c :: cs ∧ is_json_space c = false) as HN.
  { intros x. destruct (pretty_N_digits x) as (d & ds & E & Hds & _). inversion Hds as [|? ? Hd _]; subst.
    exists d, ds. split; [done|]. unfold is_json_space. by rewrite !(digit_not d). }
  destruct z as [|p|p]; [exact (HN 0)|exact (HN (Npos p))|by eexists _, _].
Qed.

Lemma skip_ws_head c s : is_json_space c = false → skip_ws (c :: s) = c :: s.
Proof. intros Hc. unfold skip_ws. simpl. by rewrite Hc. Qed.

Lemma skip_ws_field v s : skip_ws (json_value v ++ s) = json_value v ++ s.
Proof.
  destruct v as [t|z]; [done|]. destruct (str_of_Z_head z) as (c & cs & E & Hc).
  simpl. rewrite E. by apply skip_ws_head.
Qed.

Lemma dict_set_new k v items : k ∉ items.*1 → dict_set k v items = items ++ [(k, v)].
Proof.
  induction items as [|[k' v'] items IH]; [done|]. intros [Hne Hni]%not_elem_of_cons.
  simpl in *. rewrite decide_False by done. by rewrite IH.
Qed.

Definition print_field (kv : pystr * json_field) : pystr :=
  json_string kv.1 ++ py ":" ++ json_value kv.2.

Lemma scan_object_fields fuel depth n items acc s :
  Forall (λ kv, field_ok kv.2) items → NoDup (acc.*1 ++ items.*1) → items ≠ [] →
  (length items ≤ n)%nat →
  scan_object (scan_once (S fuel) depth) n acc (str_join (py ",") (map print_field items) ++ 125 :: s) =
    Ret (JObj (acc ++ map (λ kv, (kv.1, json_of kv.2)) items), s).
Proof.
  revert n acc. induction items as [|[k v] items IH]; intros n acc Hok Hnd Hne Hn; [done|].
  apply Forall_cons in Hok as [Hv Hok]. destruct n as [|n]; [simpl in Hn; lia|].
  assert (k ∉ acc.*1) as Hk.
  { apply NoDup_app in Hnd as (_ & Hnd & _). intros Hin. by apply (Hnd k Hin); left. }
  set (rest := match items with [] => [] | _ => py "," ++ str_join (py ",") (map print_field items) end
    ++ 125 :: s).
  assert (str_join (py ",") (map print_field ((k, v) :: items)) ++ 125 :: s =
    34 :: (concat (map json_char k) ++ 34 :: (58 :: (json_value v ++ rest)))) as ->.
  { unfold rest. cbn [map]. destruct items as [|i items]; cbn [str_join map]; unfold print_field at 1, json_string at 1;
      simpl fst; simpl snd; change (py ":") with [58]; rewrite <-!app_assoc; cbn [app]; by rewrite <-?app_assoc. }
  cbn [scan_object]. change (is_char 34 (34 :: _)) with true. cbn [negb]. cbv iota.
  change (drop 1 (34 :: ?t)) with t. rewrite scanstring_dumps.
  rewrite skip_ws_head by done. change (is_char 58 (58 :: _)) with true. cbn [negb]. cbv iota.
  change (drop 1 (58 :: ?t)) with t. rewrite skip_ws_field.
  rewrite scan_once_field; [|done|unfold rest; by destruct items].
  rewrite dict_set_new by done. unfold rest. destruct items as [|i items].
  - cbn [app]. rewrite skip_ws_head by done. done.
  - set (J := str_join (py ",") (map print_field (i :: items))) in *.
    change (py ",") with [44]. rewrite <-app_assoc. cbn [app]. rewrite skip_ws_head by done.
    change (is_char 125 (44 :: _)) with false. change (is_char 44 (44 :: _)) with true. cbv iota.
    change (drop 1 (44 :: ?t)) with t.
    assert (∃ t, J ++ 125 :: s = 34 :: t) as [t Ht].
    { unfold J. destruct items; cbn [map str_join]; unfold print_field, json_string; cbn [app]; by eexists. }
    pose proof (IH n (acc ++ [(k, json_of v)])) as IH'. rewrite Ht in IH' |- *.
    rewrite skip_ws_head by done. change (is_char 125 (34 :: t)) with false. cbv iota. rewrite IH'.
    + by rewrite <-app_assoc.
    + done.
    + rewrite fmap_app, <-app_assoc. done.
    + done.
    + simpl in *. lia.
Qed.

Lemma loads_json_data `{Hl : RecursionLimit} items :
  Forall (λ kv, field_ok kv.2) items → NoDup items.*1 → items ≠ [] →
  json_loads (_json_data items) = Ret (JObj (map (λ kv, (kv.1, json_of kv.2)) items)).
Proof.
  intros Hok Hnd Hne. unfold json_loads, _json_data.
  assert (map (λ '(k, v), json_string k ++ py ":" ++ json_value v) items = map print_field items) as ->.
  { apply map_ext. by intros [k v]. }
  set (J := str_join (py ",") (map print_field items)).
  change (py "{" ++ J ++ py "}") with (123 :: (J ++ [125])).
  change (is_char 0xFEFF (123 :: _)) with false. rewrite skip_ws_head by done. cbv iota.
  assert (∃ t, J ++ [125] = 34 :: t) as [t Ht].
  { unfold J. destruct items as [|i [|i' items]]; [done|..]; cbn [map str_join]; unfold print_field, json_string;
      cbn [app]; by eexists. }
  assert (Nat.le (length items) (length (J ++ [125]))) as Hlen.
  { unfold J. clear. induction items as [|i [|i' items] IH]; simpl in *; rewrite ?length_app; simpl; [lia..|].
    rewrite !length_app in *. simpl in *. lia. }
  set (n := length (123 :: J ++ [125])). assert (n = S (length (J ++ [125]))) as Hn by done.
  destruct n as [|n]; [done|]. injection Hn as Hn.
  pose proof max_nesting_pos as Hpos. destruct max_nesting as [|depth]; [lia|].
  assert (scan_once (S (S n)) (S depth) (123 :: (J ++ [125]))
    = scan_object (scan_once (S n) depth) (S n) [] (J ++ [125])) as ->.
  { cbn [scan_once]. change (123 =? 34) with false. change (123 =? 91) with false.
    change (123 =? 123) with true. cbv iota. rewrite Ht, skip_ws_head by done.
    change (is_char 125 (34 :: t)) with false. cbv iota. by rewrite <-Ht. }
  unfold J. rewrite scan_object_fields by (done || lia). done.
Qed.

(** C23: A client recovers every field.  The data line of an encoded event is a
    JSON document that [json.loads] decodes to the five fields of the event,
    whatever characters the texts hold. *)
Theorem event_data_decodes `{RecursionLimit} isoformat e :
  (length (str_of_Z (event_id e)) ≤ MAX_INT_DIGITS)%nat →
  ∃ data,
    split_on 10 (encode_event isoformat e) !! 2%nat = Some (py "data: " ++ data) ∧
    json_loads data = Ret (JObj
      [ (py "job_id", JStr (uuid_str (event_job_id e))); (py "event_id", JInt (event_id e));
        (py "event_type", JStr (event_type e)); (py "message", JStr (message e));
        (py "created_at", JStr (isoformat (event_created_at e))) ]).
Proof.
  intros Hlen. eexists. unfold encode_event.
  rewrite !frame_line by (apply no_break_str_of_Z || apply no_break_event_name || by apply no_break_b).
  change [10; 10] with ([10] ++ [10]).
  rewrite frame_line by (apply no_break_json_data || by apply no_break_b). split; [reflexivity|].
  rewrite loads_json_data; [reflexivity| | |done].
  - repeat apply Forall_cons_2; [exact I|exact Hlen|exact I..|constructor].
  - apply (bool_decide_unpack _). vm_compute. exact I.
Qed.

Lemma event_data_decodes_witness :
  let e := {| event_id := (-12)%Z; event_job_id := 7; event_type := py "CLI_OUTPUT";
              message := [34; 10; 92; 1; 0x1F600]; event_created_at := 3%Z |} in
  ∃ data,
    split_on 10 (encode_event (λ z, str_of_Z z) e) !! 2%nat = Some (py "data: " ++ data) ∧
    json_loads (H := limit_100) data = Ret (JObj
      [ (py "job_id", JStr (uuid_str (event_job_id e))); (py "event_id", JInt (event_id e));
        (py "event_type", JStr (event_type e)); (py "message", JStr (message e));
        (py "created_at", JStr (str_of_Z (event_created_at e))) ]).
Proof.
  intros e. apply (event_data_decodes (H := limit_100) (λ z, str_of_Z z) e). apply Nat.leb_le. vm_compute. reflexivity.
Defined.
