(* ===== verification/Parser.v ===== *)
(** * Reading a plan out of a reply (llm/parser.py)

    [ActionPlanParser.parse_action_plan]: the JSON is looked for in a fenced
    block, or else between the first opening and the last closing bracket,
    decoded, and validated. *)
From S2P Require Import Prelude PyStr Exceptions Regex Schemas Json.
Local Open Scope N_scope.

Definition FENCE : pystr := Eval vm_compute in py "```json".
Definition TICKS : pystr := Eval vm_compute in py "```".
Definition any_char (_ : N) : bool := true.

(** The pattern [```json\s*(.*?)\s*```] with [re.DOTALL] *)
Definition fenced_rest : regex := Seq spaces (lit TICKS).
Definition fenced_body : regex := Seq (Group (LazyStar any_char)) fenced_rest.
Definition json_block_pattern : regex := Seq (lit FENCE) (Seq spaces fenced_body).

(** [text.find("[")], [text.rfind("]")] *)
Definition bracketed (text : pystr) : option pystr :=
  match find_char 91 text, rfind_char 93 text with
  | Some start_idx, Some end_idx =>
      if (start_idx <? end_idx)%nat
      then Some (strip (take (end_idx + 1 - start_idx) (drop start_idx text)))
      else None
  | _, _ => None
  end.

Section parser.
Context `{UnicodeData} {Hlim : RecursionLimit}.
(** The text pydantic's error report is turned into *)
Context (detail_msg : list (pystr * json) → pystr).

(** [json_str] *)
Definition extract (text : pystr) : option pystr :=
  match re_search json_block_pattern text with
  | Some st => Some (strip (ms_group st))
  | None => bracketed text
  end.

(** [e.lineno], [e.colno] of an error in [doc] *)
Definition error_line_col (doc : pystr) (remaining : nat) : nat * nat :=
  let before := take (length doc - remaining) doc in
  let lines := split_on 10 before in
  (length lines, (length (default [] (last lines)) + 1)%nat).

Definition error_pos (doc : pystr) (remaining : nat) : pystr :=
  let '(lineno, colno) := error_line_col doc remaining in
  py "line " ++ str_of_nat lineno ++ py ", col " ++ str_of_nat colno.

Definition VALIDATION_ERROR : pystr := Eval vm_compute in py "VALIDATION_ERROR".

Definition validate_plan (json_obj : json) : outcome exn (list action) :=
  match (match json_obj with
         | JArr l => Some [(PLAN, JArr l)]
         | JObj items => Some items
         | _ => None
         end) with
  | None =>
      Exc (LLMPlanValidationError
             (py "Parsed JSON is not a valid list or dictionary structure.") 400 VALIDATION_ERROR)
  | Some plan_data =>
      match ActionPlan_validate plan_data with
      | Some plan => Ret plan
      | None =>
          Exc (LLMPlanValidationError
                 (py "Pydantic validation failed: " ++ detail_msg plan_data) 400 VALIDATION_ERROR)
      end
  end.

Definition parse_action_plan (text : pystr) : outcome exn (list action) :=
  match extract text with
  | None | Some [] =>
      Exc (LLMPlanRetryableException
             (py "Failed to parse LLM response as a valid Action Plan JSON. No JSON block or array structure found.")
             text (Some (py "Entire text search failed")))
  | Some json_str =>
      match json_loads json_str with
      | Exc (DecodeError remaining) =>
          Exc (LLMPlanRetryableException
                 (py "Failed to parse LLM response as a valid Action Plan JSON. Syntax error.")
                 text (Some (error_pos json_str remaining)))
      | Exc TooDeep => Exc RecursionError
      | Exc _ => Exc (ValueError (py "Exceeds the limit (4300 digits) for integer string conversion"))
      | Ret json_obj => validate_plan json_obj
      end
  end.
End parser.

Module Demo.
#[export] Instance unicode : UnicodeData := plain_unicode.
#[export] Instance limit : RecursionLimit := limit_100.
Definition no_detail (_ : list (pystr * json)) : pystr := [].
Definition dq (s : pystr) : pystr := map (λ c, if c =? 39 then 34 else c) s.
Definition array : pystr := dq (py "[{'action': 'CREATE_DIRECTORY', 'path': 'a'}]").

Example fenced :
  parse_action_plan no_detail (py "Plan: " ++ FENCE ++ [10] ++ array ++ [10] ++ TICKS ++ py " ok [x]")
  = Ret [CreateDirectoryAction (py "a")].
Proof. vm_compute. reflexivity. Qed.
Example bare : parse_action_plan no_detail (py "Plan: " ++ array ++ py ".") = Ret [CreateDirectoryAction (py "a")].
Proof. vm_compute. reflexivity. Qed.
Example broken :
  parse_action_plan no_detail (py "[1," ++ [10] ++ py " x]") =
  Exc (LLMPlanRetryableException
    (py "Failed to parse LLM response as a valid Action Plan JSON. Syntax error.")
    (py "[1," ++ [10] ++ py " x]") (Some (py "line 2, col 2"))).
Proof. vm_compute. reflexivity. Qed.
(** A reply of a hundred and one brackets escapes as [RecursionError]. *)
Example nested :
  parse_action_plan no_detail (replicate 101 91 ++ replicate 101 93) = Exc RecursionError.
Proof. vm_compute. reflexivity. Qed.
End Demo.

(** ** Which text is extracted *)
Section extraction.
Context `{UnicodeData}.

Lemma head_concat {A B} (F : A → list B) x l :
  F x ≠ [] → head (concat (map F (x :: l))) = head (F x).
Proof. intros Hx. simpl. by destruct (F x). Qed.

Lemma concat_skip {A B} (F : A → list B) x l :
  F x = [] → concat (map F (x :: l)) = concat (map F l).
Proof. intros Hx. simpl. by rewrite Hx. Qed.

(** A greedy repetition stops first where it cannot go on. *)
Lemma head_star {B} (F : mstate → list B) f p ws s g :
  Forall (λ c, f c = true) ws → from_option f false (head s) = false →
  F (MState (prev_of p ws) s g) ≠ [] →
  head (concat (map F (star_ends f p (ws ++ s) g))) = head (F (MState (prev_of p ws) s g)).
Proof.
  intros Hws Hs HF. revert p HF. induction Hws as [|c ws Hc Hws IH]; intros p HF.
  - destruct s as [|c s]; simpl in *; [by rewrite app_nil_r|]. rewrite Hs. simpl. by rewrite app_nil_r.
  - simpl. rewrite Hc, map_app, concat_app. rewrite prev_of_cons in *. specialize (IH (Some c) HF).
    destruct (concat (map F (star_ends f (Some c) (ws ++ s) g))) as [|y l] eqn:E; [|done].
    simpl in IH. destruct (F (MState _ s g)); done.
Qed.

(** A lazy repetition stops at the first place where the rest matches. *)
Lemma head_lazy {B} (F : mstate → list B) p a b g :
  (∀ a1 c a2, a = a1 ++ c :: a2 → F (MState (prev_of p a1) (c :: a2 ++ b) g) = []) →
  F (MState (prev_of p a) b g) ≠ [] →
  head (concat (map F (lazy_ends any_char p (a ++ b) g))) = head (F (MState (prev_of p a) b g)).
Proof.
  revert p. induction a as [|c a IH]; intros p Hno HF; simpl app.
  - destruct b; apply head_concat; exact HF.
  - cbn [lazy_ends]. rewrite concat_skip by exact (Hno [] c a eq_refl).
    change (if any_char c then ?x else _) with x. rewrite prev_of_cons in *. apply IH; [|done].
    intros a1 d a2 ->. rewrite <-(prev_of_cons p). exact (Hno (c :: a1) d a2 eq_refl).
Qed.

Lemma ends_lit w p s g : ends (lit w) (MState p (w ++ s) g) = [MState (prev_of p w) s g].
Proof.
  revert p. induction w as [|c w IH]; intros p; [done|]. simpl. rewrite N.eqb_refl. simpl.
  rewrite app_nil_r, prev_of_cons. apply IH.
Qed.

Lemma lit_inv w st st' : rmatch (lit w) st st' → ms_rest st = w ++ ms_rest st'.
Proof.
  revert st. induction w as [|c w IH]; intros st Hm; inversion Hm as [| |? ? ? st2 ? H1 H2| | | | | | | | |]; subst.
  - done.
  - inversion H1 as [|? ? ? ? ? Hc| | | | | | | | | |]; subst. apply N.eqb_eq in Hc as <-.
    apply IH in H2. simpl in *. by rewrite H2.
Qed.

Lemma lit_not w p s g : (∀ t, s ≠ w ++ t) → ends (lit w) (MState p s g) = [].
Proof.
  intros Hs. destruct (ends _ _) as [|st l] eqn:E; [done|]. exfalso.
  assert (rmatch (lit w) (MState p s g) st) as Hm by (apply ends_spec; rewrite E; left).
  apply lit_inv in Hm. by apply (Hs (ms_rest st)).
Qed.

Definition spaces_only (ws : pystr) : Prop := Forall (λ c, is_space c = true) ws.

(** The part after the group matches exactly before white space and ticks. *)
Lemma fenced_rest_not p s g :
  (∀ ws t, spaces_only ws → s ≠ ws ++ TICKS ++ t) → ends fenced_rest (MState p s g) = [].
Proof.
  intros Hs. destruct (ends _ _) as [|st l] eqn:E; [done|]. exfalso.
  assert (rmatch fenced_rest (MState p s g) st) as Hm by (apply ends_spec; rewrite E; left).
  inversion Hm as [| |? ? ? st2 ? H1 H2| | | | | | | | |]; subst.
  apply star_inv in H1 as (ws & Hw & Hsp). apply lit_inv in H2. simpl in Hw.
  apply (Hs ws (ms_rest st)); [done|]. by rewrite Hw, H2.
Qed.

Lemma fenced_rest_ok p ws t g :
  spaces_only ws → ends fenced_rest (MState p (ws ++ TICKS ++ t) g) ≠ [].
Proof.
  intros Hws Hn. assert (MState (prev_of (prev_of p ws) TICKS) t g ∈
    ends fenced_rest (MState p (ws ++ TICKS ++ t) g)) as Hin; [|by rewrite Hn in Hin; apply not_elem_of_nil in Hin].
  apply ends_spec. eapply m_seq; [by apply star_app|]. apply ends_spec. rewrite ends_lit. left.
Qed.

(** *** White space around a text *)
Lemma lstrip_head f s : from_option f false (head (lstrip_by f s)) = false.
Proof. induction s as [|c s IH]; [done|]. simpl. by destruct (f c) eqn:Hc. Qed.

Lemma rstrip_last f s : from_option f false (last (rstrip_by f s)) = false.
Proof.
  unfold rstrip_by.
  replace (last (rev (lstrip_by f (rev s)))) with (head (lstrip_by f (rev s))); [apply lstrip_head|].
  destruct (lstrip_by f (rev s)) as [|c t]; [done|]. simpl. by rewrite last_snoc.
Qed.

Lemma strip_split s :
  ∃ ws1 ws2, s = ws1 ++ strip s ++ ws2 ∧ spaces_only ws1 ∧ spaces_only ws2 ∧
    from_option is_space false (head (strip s ++ ws2)) = false ∧
    from_option is_space false (last (strip s)) = false.
Proof.
  destruct (lstrip_by_suffix is_space s) as (ws1 & H1 & Hw1).
  destruct (rstrip_by_prefix is_space (lstrip_by is_space s)) as (ws2 & H2 & Hw2).
  exists ws1, ws2. unfold strip, rstrip. rewrite <-H2. split_and!; [done..| |].
  - apply lstrip_head.
  - apply rstrip_last.
Qed.

Lemma lstrip_fixed f s : from_option f false (head s) = false → lstrip_by f s = s.
Proof. destruct s as [|c s]; [done|]. simpl. by intros ->. Qed.

Lemma strip_idem s : strip (strip s) = strip s.
Proof.
  destruct (strip_split s) as (ws1 & ws2 & _ & _ & _ & Hh & Hl). set (t := strip s) in *.
  assert (from_option is_space false (head t) = false) as Ht by (by destruct t).
  unfold strip. rewrite (lstrip_fixed _ t Ht). unfold rstrip, rstrip_by.
  rewrite lstrip_fixed, rev_involutive; [done|].
  replace (head (rev t)) with (last t); [done|].
  destruct t as [|x t _] using rev_ind; [done|]. by rewrite last_snoc, rev_app_distr.
Qed.

Lemma find_first c pre s : c ∉ pre → head s = Some c → find_char c (pre ++ s) = Some (length pre).
Proof.
  intros Hni Hs. induction pre as [|d pre IH]; simpl.
  - destruct s; simplify_eq/=. by rewrite N.eqb_refl.
  - apply not_elem_of_cons in Hni as [Hne Hni]. rewrite (proj2 (N.eqb_neq c d)) by done. by rewrite IH.
Qed.

Lemma rfind_none c s : c ∉ s → rfind_char c s = None.
Proof.
  induction s as [|d s IH]; [done|]. intros [Hne Hni]%not_elem_of_cons. simpl.
  rewrite IH by done. by rewrite (proj2 (N.eqb_neq c d)).
Qed.

Lemma rfind_last c s post : c ∉ post → last s = Some c → rfind_char c (s ++ post) = Some (length s - 1)%nat.
Proof.
  intros Hni. induction s as [|d s IH]; [done|]. intros Hl. destruct s as [|d' s].
  - simpl in Hl. injection Hl as ->. simpl. by rewrite (rfind_none c post Hni), N.eqb_refl.
  - rewrite last_cons_cons in Hl.
    change (rfind_char c ((d :: d' :: s) ++ post)) with
      (match rfind_char c ((d' :: s) ++ post) with
       | Some i => Some (S i) | None => if c =? d then Some O else None end).
    rewrite (IH Hl). f_equal. simpl. lia.
Qed.

(** *** The group *)
Lemma star_group f st st' : rmatch (Star f) st st' → ms_group st' = ms_group st.
Proof.
  remember (Star f) as r eqn:Hr. intros Hm. revert Hr. induction Hm; intros Hr; simplify_eq; [done|].
  by apply IHHm.
Qed.

Lemma lit_group w st st' : rmatch (lit w) st st' → ms_group st' = ms_group st.
Proof.
  revert st. induction w as [|c w IH]; intros st Hm; inversion Hm as [| |? ? ? st2 ? H1 H2| | | | | | | | |]; subst;
    [done|]. inversion H1; subst. by apply IH in H2.
Qed.

Lemma fenced_rest_group st st' : head (ends fenced_rest st) = Some st' → ms_group st' = ms_group st.
Proof.
  intros Hm%head_elem%ends_spec. inversion Hm as [| |? ? ? st2 ? H1 H2| | | | | | | | |]; subst.
  apply star_group in H1. apply lit_group in H2. congruence.
Qed.

(** The word [w] does not begin in [s], even when [w] follows it. *)
Definition absent (w s : pystr) : Prop := contains w (s ++ removelast w) = false.

Lemma absent_suffix w a z : absent w (a ++ z) → absent w z.
Proof.
  unfold absent. intros Hc. apply not_true_is_false. intros Hz. apply contains_spec in Hz as (u & v & E).
  rewrite <-app_assoc, E in Hc. apply not_false_iff_true in Hc; [done|].
  apply contains_spec. exists (a ++ u), v. by rewrite app_assoc.
Qed.

Lemma absent_at w z post t : absent w z → w ≠ [] → z ≠ [] → z ++ w ++ post ≠ w ++ t.
Proof.
  intros Hf Hw Hz E. unfold absent in Hf. apply not_false_iff_true in Hf; [done|].
  destruct w as [|x w _] using rev_ind; [done|]. rewrite removelast_last.
  apply (f_equal (take (length (w ++ [x])))) in E. rewrite take_app_length in E.
  apply contains_spec. exists [], (drop (length (w ++ [x])) (z ++ w)). rewrite app_nil_l.
  rewrite <-(take_drop (length (w ++ [x])) (z ++ w)) at 1. f_equal.
  etrans; [|exact E].
  replace (z ++ (w ++ [x]) ++ post) with ((z ++ w) ++ [x] ++ post) by (by rewrite <-!app_assoc).
  rewrite (take_app_le (z ++ w)); [done|]. rewrite !length_app. destruct z; simpl in *; [done|]. lia.
Qed.

Lemma not_all_spaces a1 c a2 ws2 :
  from_option is_space false (last (a1 ++ c :: a2)) = false → ¬ spaces_only (c :: a2 ++ ws2).
Proof.
  rewrite (app_comm_cons a2), last_app. intros Hl [Hsz _]%Forall_app.
  destruct (last (c :: a2)) as [x|] eqn:Hx; [|by apply last_None in Hx].
  apply last_Some_elem_of in Hx. rewrite Forall_forall in Hsz. apply Hsz in Hx. simpl in Hl. congruence.
Qed.

(** The rest cannot match inside the stripped text. *)
Lemma no_early_match mid ws2 post a1 c a2 :
  absent TICKS (mid ++ ws2) → from_option is_space false (last mid) = false → mid = a1 ++ c :: a2 →
  ∀ ws t, spaces_only ws → c :: a2 ++ ws2 ++ TICKS ++ post ≠ ws ++ TICKS ++ t.
Proof.
  intros Hf Hl -> ws t Hws E. apply (not_all_spaces _ _ _ ws2) in Hl. set (z := c :: a2 ++ ws2) in *.
  assert (z ++ TICKS ++ post = ws ++ TICKS ++ t) as E' by (unfold z; by rewrite <-E; simpl; rewrite <-!app_assoc).
  apply app_eq_inv in E' as [(k & Hz & Hk)|(k & Hw & Hk)].
  - destruct k as [|x k]; [rewrite app_nil_r in Hz; by rewrite Hz in Hl|].
    symmetry in Hk. revert Hk. apply absent_at; [|done..].
    apply (absent_suffix _ (a1 ++ ws)). rewrite <-app_assoc, <-Hz. unfold z. by rewrite <-app_assoc in Hf.
  - rewrite Hw in Hws. by apply Forall_app in Hws as [? _].
Qed.

Lemma body_extracted p mid ws2 post :
  absent TICKS (mid ++ ws2) → from_option is_space false (last mid) = false → spaces_only ws2 →
  ∃ st, head (ends fenced_body (MState p (mid ++ ws2 ++ TICKS ++ post) [])) = Some st ∧ ms_group st = mid.
Proof.
  intros Hf Hl Hws. set (st0 := MState p (mid ++ ws2 ++ TICKS ++ post) []).
  set (F := λ st, ends fenced_rest (set_group st0 st)).
  assert (ends fenced_body st0 = concat (map F (lazy_ends any_char p (mid ++ ws2 ++ TICKS ++ post) []))) as ->.
  { unfold fenced_body, F. cbn [ends]. by rewrite map_map. }
  assert (F (MState (prev_of p mid) (ws2 ++ TICKS ++ post) []) ≠ []) as HF.
  { by apply fenced_rest_ok. }
  rewrite head_lazy; [|intros a1 c a2 Ha; apply fenced_rest_not; by eapply no_early_match|done].
  destruct (F _) as [|st l] eqn:E; [done|]. exists st. split; [done|].
  unfold F in E. assert (ms_group st = ms_group (set_group st0 (MState (prev_of p mid) (ws2 ++ TICKS ++ post) []))) as ->.
  { apply fenced_rest_group. by rewrite E. }
  unfold set_group, consumed, st0. cbn [ms_group ms_rest]. rewrite length_app.
  replace (length mid + length (ws2 ++ TICKS ++ post) - length (ws2 ++ TICKS ++ post))%nat with (length mid) by lia.
  apply take_app_length.
Qed.

Lemma block_extracted p body post :
  absent TICKS body →
  ∃ st, head (ends json_block_pattern (MState p (FENCE ++ body ++ TICKS ++ post) [])) = Some st ∧
    ms_group st = strip body.
Proof.
  intros Hf. destruct (strip_split body) as (ws1 & ws2 & Hb & Hw1 & Hw2 & Hh & Hl).
  set (mid := strip body) in *. clearbody mid. subst body.
  assert (absent TICKS (mid ++ ws2)) as Hf2 by (by eapply absent_suffix).
  set (p1 := prev_of p FENCE). destruct (body_extracted (prev_of p1 ws1) mid ws2 post) as (st & Hst & Hg); [done..|].
  exists st. split; [|done]. unfold json_block_pattern.
  change (ends (Seq (lit FENCE) ?r) ?s) with (concat (map (ends r) (ends (lit FENCE) s))).
  rewrite ends_lit. cbn [map concat]. rewrite app_nil_r. fold p1.
  change (ends (Seq spaces ?r) (MState p1 ?s [])) with (concat (map (ends r) (star_ends is_space p1 s []))).
  replace ((ws1 ++ mid ++ ws2) ++ TICKS ++ post) with (ws1 ++ (mid ++ ws2 ++ TICKS ++ post))
    by (by rewrite <-!app_assoc).
  rewrite head_star; [done|done| |by intros E; rewrite E in Hst].
  rewrite (app_assoc mid). by destruct (mid ++ ws2).
Qed.

(** The search passes over a text that has no fence before the block. *)
Lemma search_skips r p a b :
  (∀ a1 c a2, a = a1 ++ c :: a2 → ends r (MState (prev_of p a1) (c :: a2 ++ b) []) = []) →
  search_from r p (a ++ b) = search_from r (prev_of p a) b.
Proof.
  revert p. induction a as [|c a IH]; intros p Hno; [done|]. cbn [app search_from].
  pose proof (Hno [] c a eq_refl) as H0. change (prev_of p []) with p in H0.
  rewrite H0. cbn [head]. rewrite IH, prev_of_cons; [done|].
  intros a1 d a2 ->. rewrite <-(prev_of_cons p). exact (Hno (c :: a1) d a2 eq_refl).
Qed.

Lemma extract_fenced pre body post :
  absent FENCE pre → absent TICKS body → extract (pre ++ FENCE ++ body ++ TICKS ++ post) = Some (strip body).
Proof.
  intros Hpre Hf. unfold extract, re_search. rewrite search_skips.
  - destruct (block_extracted (prev_of None pre) body post Hf) as (st & Hst & Hg).
    assert (search_from json_block_pattern (prev_of None pre) (FENCE ++ body ++ TICKS ++ post) = Some st) as ->.
    { change (FENCE ++ body ++ TICKS ++ post) with (96 :: (drop 1 FENCE ++ body ++ TICKS ++ post)) in *.
      cbn [search_from]. by rewrite Hst. }
    rewrite Hg. f_equal. apply strip_idem.
  - intros a1 c a2 Ha. unfold json_block_pattern.
    change (ends (Seq (lit FENCE) ?r) ?s) with (concat (map (ends r) (ends (lit FENCE) s))).
    rewrite lit_not; [done|]. intros t. subst pre. apply absent_suffix in Hpre.
    exact (absent_at FENCE (c :: a2) (body ++ TICKS ++ post) t Hpre ltac:(done) ltac:(done)).
Qed.

Lemma extract_bare pre mid post :
  contains FENCE (pre ++ mid ++ post) = false → 91 ∉ pre → 93 ∉ post →
  head mid = Some 91 → last mid = Some 93 →
  extract (pre ++ mid ++ post) = Some (strip mid).
Proof.
  intros Hn Hpre Hpost Hh Hl. unfold extract.
  assert (re_search json_block_pattern (pre ++ mid ++ post) = None) as ->.
  { destruct (re_search _ _) as [st|] eqn:E; [|done]. exfalso.
    assert (is_Some (search_from json_block_pattern None (pre ++ mid ++ post))) as Hs by (by eexists).
    apply search_from_spec in Hs as (a & b & st' & Hab & Hm).
    inversion Hm as [| |? ? ? st2 ? H1 H2| | | | | | | | |]; subst. apply lit_inv in H1. simpl in H1.
    apply not_true_iff_false in Hn. apply Hn, contains_spec. exists a, (ms_rest st2). by rewrite Hab, H1. }
  unfold bracketed. rewrite (find_first 91 pre (mid ++ post)); [|done|by destruct mid].
  rewrite (app_assoc pre mid post), (rfind_last 93 (pre ++ mid) post); [|done|by rewrite last_app, Hl].
  assert (length pre < length pre + length mid - 1)%nat as Hlt.
  { destruct mid as [|c [|c' mid]]; simpl in *; [done|congruence|lia]. }
  rewrite length_app, (proj2 (Nat.ltb_lt _ _)) by done.
  rewrite <-app_assoc, drop_app_length.
  replace (length pre + length mid - 1 + 1 - length pre)%nat with (length mid) by lia.
  by rewrite take_app_length.
Qed.
End extraction.

(** ** Properties *)
Section properties.
Context `{UnicodeData} {Hlim : RecursionLimit} (detail_msg : list (pystr * json) → pystr).
Abbreviation parse := (parse_action_plan detail_msg).

(** The plan a decoded document holds *)
Definition plan_in (v : json) : option (list action) :=
  match v with
  | JArr l => ActionPlan_validate [(PLAN, JArr l)]
  | JObj items => ActionPlan_validate items
  | _ => None
  end.

Lemma validate_plan_in v plan : plan_in v = Some plan → validate_plan detail_msg v = Ret plan.
Proof. unfold plan_in, validate_plan. by destruct v; try done; intros ->. Qed.

Lemma parse_extracted text js v plan :
  extract text = Some js → js ≠ [] → json_loads js = Ret v → plan_in v = Some plan →
  parse text = Ret plan.
Proof.
  intros He Hne Hl Hp. unfold parse_action_plan. rewrite He. destruct js; [done|]. rewrite Hl.
  by apply validate_plan_in.
Qed.

(** C22: Every reply is classified.  Parsing always ends: it returns a plan
    whose actions satisfy the field constraints, or raises the retryable
    exception carrying the reply, or the validation error with status 400.
    Two kinds of replies escape with another exception, which no caller
    turns into a retry: a JSON text with an integer literal of more than 4300
    digits ([ValueError]) and one that is nested deeper than the interpreter
    allows ([RecursionError]). *)
Theorem parse_outcome text :
  match parse text with
  | Ret plan => Forall action_ok plan
  | Exc e =>
      (∃ msg pos, e = LLMPlanRetryableException msg text (Some pos)) ∨
      (∃ msg, e = LLMPlanValidationError msg 400 VALIDATION_ERROR) ∨
      ((∃ msg, e = ValueError msg) ∧ ∃ js, extract text = Some js ∧ json_loads js = Exc IntTooLong) ∨
      (e = RecursionError ∧ ∃ js, extract text = Some js ∧ json_loads js = Exc TooDeep)
  end.
Proof.
  unfold parse_action_plan. destruct (extract text) as [[|c js]|]; [by left; eexists _, _| |by left; eexists _, _].
  destruct (json_loads (c :: js)) as [v|[remaining| | |]] eqn:Hl.
  - unfold validate_plan. destruct v; try (right; left; by eexists); simpl.
    + destruct (ActionPlan_validate _) eqn:Hv; [by eapply ActionPlan_validate_ok|right; left; by eexists].
    + destruct (ActionPlan_validate _) eqn:Hv; [by eapply ActionPlan_validate_ok|right; left; by eexists].
  - left. by eexists _, _.
  - do 2 right. left. split; [by eexists|]. by exists (c :: js).
  - do 3 right. split; [done|]. by exists (c :: js).
  - by destruct (loads_total (c :: js)).
Qed.

(** C34: A fenced plan is found.  When a reply holds a fenced [json] block, with
    any text before it that has no such fence and any text after it, and no
    three ticks inside, the plan of the block is returned. *)
Theorem fenced_plan_parsed pre body post v plan :
  absent FENCE pre → absent TICKS body →
  json_loads (strip body) = Ret v → plan_in v = Some plan →
  parse (pre ++ FENCE ++ body ++ TICKS ++ post) = Ret plan.
Proof.
  intros Hpre Hf Hl Hp. eapply parse_extracted; [by apply extract_fenced| |done..].
  intros E. by rewrite E in Hl.
Qed.

(** A bare array is found.  In a reply without a fence, the text from the
    first opening to the last closing bracket is the document, whatever is
    around it, and its plan is returned. *)
Theorem bare_plan_parsed pre mid post v plan :
  contains FENCE (pre ++ mid ++ post) = false → 91 ∉ pre → 93 ∉ post →
  head mid = Some 91 → last mid = Some 93 →
  json_loads (strip mid) = Ret v → plan_in v = Some plan →
  parse (pre ++ mid ++ post) = Ret plan.
Proof.
  intros Hn Hpre Hpost Hh Hlast Hl Hp. eapply parse_extracted; [by apply extract_bare| |done..].
  intros E. by rewrite E in Hl.
Qed.
End properties.

Lemma fenced_plan_parsed_witness :
  parse_action_plan (H := plain_unicode) (Hlim := limit_100) Demo.no_detail
    (py "Here: " ++ FENCE ++ ([10] ++ Demo.array ++ [10]) ++ TICKS ++ py "[done]")
  = Ret [CreateDirectoryAction (py "a")].
Proof.
  apply (fenced_plan_parsed (H := plain_unicode) (Hlim := limit_100) Demo.no_detail (py "Here: ") ([10] ++ Demo.array ++ [10]) (py "[done]")
    (JArr [model_dump (CreateDirectoryAction (py "a"))])).
  - vm_compute. reflexivity.
  - vm_compute. reflexivity.
  - vm_compute. reflexivity.
  - vm_compute. reflexivity.
Defined.

Lemma bare_plan_parsed_witness :
  parse_action_plan (H := plain_unicode) (Hlim := limit_100) Demo.no_detail (py "Plan " ++ Demo.array ++ py " end")
  = Ret [CreateDirectoryAction (py "a")].
Proof.
  apply (bare_plan_parsed (H := plain_unicode) (Hlim := limit_100) Demo.no_detail (py "Plan ") Demo.array (py " end")
    (JArr [model_dump (CreateDirectoryAction (py "a"))])).
  - vm_compute. reflexivity.
  - apply (bool_decide_unpack (91 ∉ py "Plan ")). vm_compute. exact I.
  - apply (bool_decide_unpack (93 ∉ py " end")). vm_compute. exact I.
  - vm_compute. reflexivity.
  - vm_compute. reflexivity.
  - vm_compute. reflexivity.
  - vm_compute. reflexivity.
Defined.
