(* ===== verification/Client.v ===== *)
(** * The model's endpoint (llm/client.py)

    [HttpLLMClient.generate_plan]: the payload it posts, the checks on the
    response while it arrives, and the text it takes out of it.  The HTTP
    library is a parameter: what a request is answered with. *)
From S2P Require Import Prelude PyStr Exceptions Schemas Json ArgValidator Retry.
Local Open Scope eff_scope.

Definition MAX_LLM_RESPONSE_BYTES : Z := 5 * 1024 * 1024.

(** Literals with double quotes, written as section signs *)
Definition q (s : string) : pystr := map (λ c, if (c =? 0xA7)%N then 34%N else c) (py s).
#[global] Arguments q s%_string.

Definition system_prompt (allowed_actions : list pystr) : pystr :=
  str_join [10%N] [
    q "You are an assistant that plans file operations and tool executions to solve user requests.";
    q "You must generate a list of actions. Allowed actions: " ++ str_join (py ", ") allowed_actions ++ q ".";
    q "Your response must be a JSON array containing the action plan inside a ```json ``` block, or just the JSON array itself.";
    [];
    q "STRICT JSON SCHEMA — use EXACTLY these field names, no variations:";
    [];
    q "CREATE_DIRECTORY:";
    q "  { §action§: §CREATE_DIRECTORY§, §path§: §relative/directory/path§ }";
    [];
    q "WRITE_FILE:";
    q "  { §action§: §WRITE_FILE§, §path§: §relative/file/path.ext§, §content§: §file content here§ }";
    [];
    q "RUN_TOOL (IMPORTANT: field name is tool_name, NOT tool; field name is args, NOT inputs or parameters):";
    q "  { §action§: §RUN_TOOL§, §tool_name§: §openscad§, §args§: [§-o§, §output.stl§, §model.scad§] }";
    q "  NOTE: tool_name MUST be exactly §openscad§. No other tools are permitted.";
    q "  OPENSCAD CLI USAGE: openscad -o <output_file> <input_file.scad>";
    q "    - Use '-o' for output file (NOT '--output', NOT '--o')";
    q "    - Input .scad file is a positional argument (last argument, no flag prefix)";
    q "    - Valid output extensions: stl, off, amf, 3mf, csg, dxf, svg, pdf, png";
    q "    - Example for STL: [§-o§, §output.stl§, §model.scad§]";
    q "    - Example for PNG: [§-o§, §preview.png§, §--render§, §model.scad§]";
    [];
    q "CREATE_ARTIFACT:";
    q "  { §action§: §CREATE_ARTIFACT§, §path§: §relative/file/path.ext§ }";
    [];
    q "RULES:";
    q "- All file paths MUST be relative (no leading / or ../)";
    q "- Do NOT invent new field names — use only the fields shown above";
    q "- The JSON array must be the only output inside the ```json ``` block";
    q "- For WRITE_FILE actions targeting .scad files, the §content§ string MUST follow these strict OpenSCAD rules:";
    q "  * Do NOT use Markdown code fences (e.g. ``` or ```scad) inside the scad content itself.";
    q "  * Do NOT include prose, conversational prefixes or explanations (e.g. §Here is§, §The following§, §Below is§, §아래는§, §다음은§, §다음 코드는§) inside the scad content.";
    q "  * Do NOT use vector property access (.x, .y, .z). Access vector indices with bracket syntax ONLY (e.g. v[0], v[1], v[2]).";
    q "  * Do NOT use single quotes (') for strings; always use double quotes (§).";
    q "  * OpenSCAD trigonometric functions use degrees directly; do NOT use radian conversion formulas (180 / PI or PI / 180).";
    q "  * The content must be non-empty and must contain valid OpenSCAD constructs (e.g. module, polyhedron, cube, sphere, translate)."].

Section payload.
Context (_endpoint _model : pystr).

(** [prompt_content] *)
Definition prompt_content (request : LLMRequest) : pystr :=
  let context_str := str_join [10%N]
    (map (λ '(filename, content), py "[" ++ filename ++ py "]:" ++ [10%N] ++ content)
       (req_context request)) in
  req_prompt request
  ++ (if decide (req_context request = []) then []
      else [10; 10]%N ++ py "Context files:" ++ [10%N] ++ context_str)
  ++ match req_retry_feedback request with
     | None | Some [] => []
     | Some feedback => [10; 10]%N ++ py "Retry Feedback:" ++ [10%N] ++ feedback
     end.

Definition message_of (role content : pystr) : json :=
  JObj [(py "role", JStr role); (py "content", JStr content)].

Definition request_payload (request : LLMRequest) : json :=
  if contains (py "chat/completions") _endpoint then
    JObj [ (py "model", JStr _model);
           (py "messages", JArr [ message_of (py "system") (system_prompt (req_allowed_actions request));
                                  message_of (py "user") (prompt_content request) ]) ]
  else
    JObj [ (py "model", JStr _model); (py "prompt", JStr (req_prompt request));
           (py "context", JObj (map (λ '(k, v), (k, JStr v)) (req_context request)));
           (py "allowed_actions", JArr (JStr <$> req_allowed_actions request));
           (py "retry_feedback", match req_retry_feedback request with
                                 | Some f => JStr f | None => JNull end) ].
End payload.

(** ** The response *)
Record http_response := {
  status_code : Z;
  content_length : option pystr;      (* the header *)
  chunks : list bytes;                (* [aiter_bytes()] *)
  cut_off : option exn                (* raised after the chunks *)
}.

(** What the client sees of a request *)
Inductive http_reply := NoResponse (e : exn) | Response (r : http_response).

(** [int(s)] of a header value *)
Fixpoint int_digits (s : pystr) (acc : Z) (after_digit : bool) : option Z :=
  match s with
  | [] => if after_digit then Some acc else None
  | c :: s' =>
      if is_digit_ascii c then int_digits s' (acc * 10 + Z.of_N (c - 48)) true
      else if (c =? 95)%N && after_digit then int_digits s' acc false
      else None
  end.

Definition py_int (s : pystr) : option Z :=
  let body := strip s in
  if (MAX_INT_DIGITS <? length (filter (λ c, is_digit_ascii c = true) body))%nat then None
  else
    match body with
    | c :: body' =>
        if (c =? 45)%N then Z.opp <$> int_digits body' 0 false
        else if (c =? 43)%N then int_digits body' 0 false
        else int_digits body 0 false
    | [] => None
    end.

Section client.
Context {Hlim : RecursionLimit} (_max_response_bytes : Z).

Fixpoint read_body (body : bytes) (chunks : list bytes) (cut : option exn) : outcome exn bytes :=
  match chunks with
  | [] => match cut with Some e => Exc e | None => Ret body end
  | chunk :: chunks' =>
      let body' := body ++ chunk in
      if (_max_response_bytes <? Z.of_nat (length body'))%Z then Exc LLMResponseTooLargeError
      else read_body body' chunks' cut
  end.

(** The body of [async with self._client.stream(...)] *)
Definition receive (r : http_response) : outcome exn bytes :=
  if ((300 <=? status_code r) && (status_code r <? 400))%Z
  then Exc (LLMClientError (py "LLM endpoint redirect was rejected.") false)
  else if (400 <=? status_code r)%Z then
    let retryable := ((status_code r =? 408) || (status_code r =? 429) || (500 <=? status_code r))%Z in
    Exc (LLMClientError (py "LLM endpoint returned HTTP " ++ str_of_Z (status_code r) ++ py ".") retryable)
  else
    match content_length r with
    | Some (c :: declared) =>
        match py_int (c :: declared) with
        | None => Exc (ValueError (py "invalid literal for int()"))
        | Some n =>
            if (_max_response_bytes <? n)%Z then Exc LLMResponseTooLargeError
            else read_body [] (chunks r) (cut_off r)
        end
    | _ => read_body [] (chunks r) (cut_off r)
    end.

Definition invalid_response : exn :=
  LLMClientError (py "LLM endpoint returned an invalid response.") false.

(** The [except] clauses of the first [try] *)
Definition transport_error (e : exn) : exn :=
  match e with
  | HttpxTimeoutException | HttpxNetworkError =>
      LLMClientError (py "LLM endpoint is temporarily unavailable.") true
  | LLMClientError _ _ | LLMResponseTooLargeError => e
  | UnicodeDecodeError | KeyError | TypeError | ValueError _ | UnicodeEncodeError => invalid_response
  | _ => e
  end.

(** [v[key]] for a string key: [None] is a [KeyError] or a [TypeError]. *)
Definition subscript (v : json) (key : pystr) : option json :=
  match v with JObj items => obj_get key items | _ => None end.

(** [content] *)
Definition reply_content (document : json) : option json :=
  match document with
  | JObj items =>
      match obj_get (py "choices") items with
      | Some (JArr (first :: _)) =>
          message ← subscript first (py "message");
          subscript message (py "content")
      | None | Some (JArr []) | Some (JObj []) | Some (JStr []) => obj_get (py "content") items
      | Some _ => None
      end
  | _ => None
  end.

(** The second [try] *)
Definition read_reply (body : bytes) : outcome exn pystr :=
  match utf8_decode body with
  | None => Exc invalid_response
  | Some text =>
      match json_loads text with
      | Exc (DecodeError _) => Exc invalid_response
      | Exc TooDeep => Exc RecursionError
      | Exc _ => Exc (ValueError (py "Exceeds the limit (4300 digits) for integer string conversion"))
      | Ret document =>
          match reply_content document with
          | Some (JStr content) => Ret content
          | _ => Exc invalid_response
          end
      end
  end.

Definition handle_reply (reply : http_reply) : outcome exn pystr :=
  match (match reply with NoResponse e => Exc e | Response r => receive r end) with
  | Exc e => Exc (transport_error e)
  | Ret body => read_reply body
  end.

Definition generate_plan {S} (_endpoint _model : pystr) (post : json → eff exn S http_reply)
    (request : LLMRequest) : eff exn S pystr :=
  reply <- post (request_payload _endpoint _model request) ;;
  of_outcome (handle_reply reply).
End client.

(** ** What the client accepts *)
Lemma read_body_inv max body cs cut b :
  read_body max body cs cut = Ret b →
  b = body ++ concat cs ∧ cut = None ∧ (cs ≠ [] → Z.of_nat (length b) ≤ max)%Z.
Proof.
  revert body. induction cs as [|c cs IH]; intros body; simpl.
  { destruct cut; [done|]. intros [= <-]. by rewrite app_nil_r. }
  destruct (Z.ltb_spec max (Z.of_nat (length (body ++ c)))); [done|].
  intros (-> & -> & Hlen)%IH. rewrite <-app_assoc. split_and!; [done..|]. intros _.
  destruct cs; [simpl; rewrite app_nil_r in *; lia|]. rewrite app_assoc. by apply Hlen.
Qed.

Lemma read_body_too_large max body cs cut :
  (max < Z.of_nat (length (body ++ concat cs)))%Z → (Z.of_nat (length body) ≤ max)%Z →
  read_body max body cs cut = Exc LLMResponseTooLargeError.
Proof.
  revert body. induction cs as [|c cs IH]; intros body Hlen Hb; simpl in *.
  { rewrite app_nil_r in Hlen. lia. }
  destruct (Z.ltb_spec max (Z.of_nat (length (body ++ c)))); [done|].
  apply IH; [by rewrite <-app_assoc|done].
Qed.

(** The header does not announce too much. *)
Definition length_fits (max : Z) (r : http_response) : Prop :=
  match content_length r with
  | None | Some [] => True
  | Some declared => ∃ n, py_int declared = Some n ∧ (n ≤ max)%Z
  end.

Lemma receive_fits max r :
  (status_code r < 300)%Z → length_fits max r → receive max r = read_body max [] (chunks r) (cut_off r).
Proof.
  intros Hs Hf. unfold receive. rewrite (proj2 (Z.leb_gt 300 _)), (proj2 (Z.leb_gt 400 _)) by lia.
  unfold length_fits in Hf. simpl. destruct (content_length r) as [[|c d]|]; [done| |done].
  destruct Hf as (n & -> & Hn). by rewrite (proj2 (Z.ltb_ge _ _)).
Qed.

Lemma receive_inv max r b :
  receive max r = Ret b →
  (status_code r < 300)%Z ∧ length_fits max r ∧ read_body max [] (chunks r) (cut_off r) = Ret b.
Proof.
  unfold receive, length_fits.
  destruct (Z.leb_spec 300 (status_code r)), (Z.leb_spec 400 (status_code r)), (Z.ltb_spec (status_code r) 400);
    simpl; try done; try lia.
  destruct (content_length r) as [[|c d]|]; [done| |done].
  destruct (py_int (c :: d)) as [n|]; [|done]. destruct (Z.ltb_spec max n); [done|].
  intros Hb. split_and!; [done|by exists n|done].
Qed.

Lemma read_body_within max body cs cut :
  (Z.of_nat (length (body ++ concat cs)) ≤ max)%Z →
  read_body max body cs cut = match cut with Some e => Exc e | None => Ret (body ++ concat cs) end.
Proof.
  revert body. induction cs as [|c cs IH]; intros body Hlen; simpl in *; [by rewrite app_nil_r|].
  rewrite (proj2 (Z.ltb_ge _ _)) by (rewrite !length_app in *; lia).
  rewrite IH, <-app_assoc; [done|by rewrite <-app_assoc].
Qed.

(** ** Failures worth another request *)
Definition raised (reply : http_reply) : option exn :=
  match reply with NoResponse e => Some e | Response r => cut_off r end.

Definition temporary (e : exn) : bool :=
  match e with HttpxTimeoutException | HttpxNetworkError => true | _ => false end.

Lemma transport_retryable e :
  is_llm_client_error e = None →
  (∃ msg, (Exc (transport_error e) : outcome exn pystr) = Exc (LLMClientError msg true)) ↔ temporary e = true.
Proof.
  intros He. destruct e; try done; split; intros Hx; try done; try (by eexists);
    destruct Hx as [m Hm]; unfold transport_error, invalid_response in Hm; by simplify_eq.
Qed.

Lemma read_reply_final {Hlim : RecursionLimit} b msg : read_reply b ≠ Exc (LLMClientError msg true).
Proof.
  unfold read_reply. destruct (utf8_decode b); [|done]. destruct (json_loads _) as [d|[]]; [|done..].
  by destruct (reply_content d) as [[]|].
Qed.

Lemma handle_status {Hlim : RecursionLimit} max r :
  (300 ≤ status_code r)%Z →
  ∃ msg, handle_reply max (Response r) = Exc (LLMClientError msg
    ((status_code r =? 408) || (status_code r =? 429) || (500 <=? status_code r))%Z).
Proof.
  intros Hs. unfold handle_reply, receive. rewrite (proj2 (Z.leb_le 300 _)) by done. simpl.
  destruct (Z.ltb_spec (status_code r) 400) as [H4|H4].
  - assert ((status_code r =? 408) || (status_code r =? 429) || (500 <=? status_code r) = false)%Z as ->.
    { rewrite !orb_false_iff, !Z.eqb_neq, Z.leb_gt. lia. }
    by eexists.
  - rewrite (proj2 (Z.leb_le 400 _)) by done. by eexists.
Qed.

Lemma handle_body {Hlim : RecursionLimit} max r msg :
  (0 ≤ max)%Z → (status_code r < 300)%Z →
  handle_reply max (Response r) = Exc (LLMClientError msg true) →
  length_fits max r ∧ (Z.of_nat (length (concat (chunks r))) ≤ max)%Z ∧
  ∃ e, cut_off r = Some e ∧ (Exc (transport_error e) : outcome exn pystr) = Exc (LLMClientError msg true).
Proof.
  intros Hmax Hs. destruct (Z.le_gt_cases (Z.of_nat (length (concat (chunks r)))) max) as [Hl|Hl].
  - unfold handle_reply, receive. rewrite (proj2 (Z.leb_gt 300 _)), (proj2 (Z.leb_gt 400 _)) by lia. simpl.
    rewrite (read_body_within max []) by done. unfold length_fits.
    destruct (content_length r) as [[|c d]|].
    + destruct (cut_off r) as [e|]; [eauto|]. by intros ?%read_reply_final.
    + destruct (py_int (c :: d)) as [n|]; [|done]. destruct (Z.ltb_spec max n); [done|].
      destruct (cut_off r) as [e|]; [eauto 10|]. by intros ?%read_reply_final.
    + destruct (cut_off r) as [e|]; [eauto|]. by intros ?%read_reply_final.
  - unfold handle_reply, receive. rewrite (proj2 (Z.leb_gt 300 _)), (proj2 (Z.leb_gt 400 _)) by lia. simpl.
    rewrite (read_body_too_large max []) by done.
    destruct (content_length r) as [[|c d]|]; [done| |done].
    destruct (py_int (c :: d)) as [n|]; [|done]. by destruct (max <? n)%Z.
Qed.

Module Demo.
#[export] Instance limit : RecursionLimit := limit_100.
Definition body : bytes := map (λ c, if (c =? 39)%N then 34%N else c) (ascii_codes "{'content': 'ok'}").
Definition good : http_response :=
  {| status_code := 200; content_length := Some (py "17"); chunks := [take 5 body; drop 5 body]; cut_off := None |}.
Example good_reply : handle_reply 17 (Response good) = Ret (py "ok").
Proof. vm_compute. reflexivity. Qed.
Example small_limit : handle_reply 16 (Response good) = Exc LLMResponseTooLargeError.
Proof. vm_compute. reflexivity. Qed.

(** An integer literal of 4301 digits escapes the handlers as [ValueError]. *)
Definition long_int : bytes :=
  map (λ c, if (c =? 39)%N then 34%N else c) (ascii_codes "{'content': 'ok', 'n': ")
  ++ replicate (N.to_nat 4301) 49%N ++ ascii_codes "}".
Example long_int_escapes :
  handle_reply MAX_LLM_RESPONSE_BYTES
    (Response {| status_code := 200; content_length := None; chunks := [long_int]; cut_off := None |})
  = Exc (ValueError (py "Exceeds the limit (4300 digits) for integer string conversion")).
Proof. vm_compute. reflexivity. Qed.
End Demo.

#[local] Existing Instance Demo.limit.

(** ** Properties *)

(** C35: Only a complete, small, well-formed reply is accepted.  When the client
    returns a text, the endpoint answered with a status below 300, announced
    and sent no more than the limit, the connection was not cut off, and the
    text is the string found in the decoded JSON document, under
    [choices[0].message.content] or [content]. *)
Theorem accepted_reply {Hlim : RecursionLimit} max reply content :
  (0 ≤ max)%Z → handle_reply max reply = Ret content →
  ∃ r text document,
    reply = Response r ∧ (status_code r < 300)%Z ∧ length_fits max r ∧ cut_off r = None ∧
    (Z.of_nat (length (concat (chunks r))) ≤ max)%Z ∧
    utf8_decode (concat (chunks r)) = Some text ∧ json_loads text = Ret document ∧
    reply_content document = Some (JStr content).
Proof.
  intros Hmax. unfold handle_reply. destruct reply as [e|r]; [done|].
  destruct (receive max r) as [b|e] eqn:Hr; [|done].
  apply receive_inv in Hr as (Hs & Hf & Hb). apply read_body_inv in Hb as (-> & Hcut & Hlen).
  unfold read_reply. simpl. destruct (utf8_decode _) as [text|] eqn:Ht; [|done].
  destruct (json_loads text) as [doc|[]] eqn:Hj; [|done..].
  destruct (reply_content doc) as [[]|] eqn:Hc; try done. intros [= ->].
  exists r, text, doc. split_and!; try done.
  destruct (chunks r); [simpl; lia|]. by apply Hlen.
Qed.

Lemma accepted_reply_witness :
  ∃ r text document,
    Response Demo.good = Response r ∧ (status_code r < 300)%Z ∧ length_fits 17 r ∧ cut_off r = None ∧
    (Z.of_nat (length (concat (chunks r))) ≤ 17)%Z ∧
    utf8_decode (concat (chunks r)) = Some text ∧ json_loads text = Ret document ∧
    reply_content document = Some (JStr (py "ok")).
Proof. apply (accepted_reply 17 (Response Demo.good) (py "ok")); [lia|vm_compute; reflexivity]. Defined.

(** A reply over the limit is refused and not asked for again.  As soon as
    the chunks of an accepted status add up to more than the limit, the
    client stops with [LLMResponseTooLargeError], whatever would follow. *)
Theorem oversize_refused {Hlim : RecursionLimit} max r :
  (0 ≤ max)%Z → (status_code r < 300)%Z → length_fits max r →
  (max < Z.of_nat (length (concat (chunks r))))%Z →
  handle_reply max (Response r) = Exc LLMResponseTooLargeError.
Proof.
  intros Hmax Hs Hf Hlen. unfold handle_reply. rewrite receive_fits by done.
  by rewrite read_body_too_large.
Qed.

Lemma oversize_refused_witness :
  handle_reply 3 (Response {| status_code := 200; content_length := None;
    chunks := [[1; 2]; [3; 4]]%N; cut_off := Some HttpxNetworkError |}) = Exc LLMResponseTooLargeError.
Proof.
  apply (oversize_refused 3 {| status_code := 200; content_length := None;
    chunks := [[1; 2]; [3; 4]]%N; cut_off := Some HttpxNetworkError |}).
  - lia.
  - reflexivity.
  - exact I.
  - reflexivity.
Defined.

(** C36: What is worth another request.  A failure is marked retryable exactly
    when no response came because of a timeout or a network error, the
    endpoint answered 408, 429 or a server error, or the connection broke
    that way while an accepted response of allowed size arrived. *)
Theorem retryable_exactly {Hlim : RecursionLimit} max reply :
  (0 ≤ max)%Z → (∀ e, raised reply = Some e → is_llm_client_error e = None) →
  (∃ msg, handle_reply max reply = Exc (LLMClientError msg true)) ↔
  match reply with
  | NoResponse e => temporary e = true
  | Response r =>
      (status_code r = 408 ∨ status_code r = 429 ∨ 500 ≤ status_code r)%Z ∨
      ((status_code r < 300)%Z ∧ length_fits max r ∧
       (Z.of_nat (length (concat (chunks r))) ≤ max)%Z ∧ from_option temporary false (cut_off r) = true)
  end.
Proof.
  intros Hmax Hraised. destruct reply as [e|r]; [by apply transport_retryable, Hraised|].
  destruct (Z.le_gt_cases 300 (status_code r)) as [Hs|Hs].
  - destruct (handle_status max r Hs) as [msg ->].
    split; [intros [msg' [= _ Hb]]; left|intros [Hc|[? _]]; [exists msg|lia]].
    + rewrite !orb_true_iff, !Z.eqb_eq, Z.leb_le in Hb. lia.
    + do 2 f_equal. rewrite !orb_true_iff, !Z.eqb_eq, Z.leb_le. lia.
  - split.
    + intros [msg Hh]. right. apply handle_body in Hh as (? & ? & e & Hc & ?); [|done..]. rewrite Hc. simpl.
      split_and!; [done..|]. by apply (transport_retryable e (Hraised e Hc)); exists msg.
    + intros [?|(_ & Hf & Hlen & Hcut)]; [lia|]. unfold handle_reply. rewrite receive_fits by done.
      rewrite read_body_within by done. destruct (cut_off r) as [e|] eqn:Hc; [|done].
      apply transport_retryable in Hcut as [msg ->]; [by exists msg|]. apply Hraised. by rewrite <-Hc.
Qed.

Lemma retryable_exactly_witness :
  let r := {| status_code := 200; content_length := None; chunks := [[1; 2]]%N;
              cut_off := Some HttpxTimeoutException |} in
  (∃ msg, handle_reply 3 (Response r) = Exc (LLMClientError msg true)) ↔
  (status_code r = 408 ∨ status_code r = 429 ∨ 500 ≤ status_code r)%Z ∨
  ((status_code r < 300)%Z ∧ length_fits 3 r ∧
   (Z.of_nat (length (concat (chunks r))) ≤ 3)%Z ∧ from_option temporary false (cut_off r) = true).
Proof.
  intros r. refine (retryable_exactly 3 (Response r) _ _); [lia|]. intros e [= <-]. reflexivity.
Defined.
