(* ===== verification/Tokens.v ===== *)
(** * Stream tokens (sse/security.py)

    [StreamTokenService] signs the id of a job with HMAC-SHA-256.  The digest
    function is a parameter of which only the size of its result is used;
    [base64.urlsafe_b64encode], [rstrip] and [hmac.compare_digest] are
    modelled. *)
From S2P Require Import Prelude PyStr Exceptions.
Local Open Scope N_scope.

(** ** [base64.urlsafe_b64encode] *)
Definition EQUALS : N := 61.

Definition b64_char (i : N) : N :=
  if i <? 26 then 65 + i
  else if i <? 52 then 71 + i
  else if i <? 62 then i - 4
  else if i =? 62 then 45 else 95.

Fixpoint urlsafe_b64encode (bs : bytes) : bytes :=
  match bs with
  | [] => []
  | [b0] => [b64_char (b0 / 4); b64_char (b0 mod 4 * 16); EQUALS; EQUALS]
  | [b0; b1] =>
      [b64_char (b0 / 4); b64_char (b0 mod 4 * 16 + b1 / 16); b64_char (b1 mod 16 * 4); EQUALS]
  | b0 :: b1 :: b2 :: r =>
      b64_char (b0 / 4) :: b64_char (b0 mod 4 * 16 + b1 / 16)
        :: b64_char (b1 mod 16 * 4 + b2 / 64) :: b64_char (b2 mod 64) :: urlsafe_b64encode r
  end.

(** [.rstrip(b"=")] *)
Definition strip_padding (s : bytes) : bytes := rstrip_by (λ c, c =? EQUALS) s.

Example b64_ex : urlsafe_b64encode [0x66; 0x6f; 0xfb; 0xff; 0xfe] = py "Zm_7__4=".
Proof. reflexivity. Qed.

(** ** [StreamTokenService] *)
Record StreamTokenService := { _secret : bytes }.

Definition TOKEN_VERSION : pystr := Eval vm_compute in py "v1".
Definition PERIOD : N := 46.

(** [__init__]; [from_environment] passes the environment variable. *)
Definition new_token_service (secret : pystr) : outcome exn StreamTokenService :=
  if decide (strip secret = []) then Exc StreamTokenConfigurationError
  else
    match utf8_encode secret with
    | Some bs => Ret {| _secret := bs |}
    | None => Exc UnicodeEncodeError
    end.

Definition is_ascii (s : pystr) : bool := forallb (λ c, c <? 128) s.

(** [hmac.compare_digest(a, b)] on strings, [a] being ASCII *)
Definition compare_digest (a b : pystr) : outcome exn bool :=
  if is_ascii b then Ret (bool_decide (a = b)) else Exc TypeError.

Section tokens.
(** [hmac.new(key, msg, hashlib.sha256).digest()] *)
Context (hmac_sha256 : bytes → bytes → bytes).

Definition create_token (self : StreamTokenService) (job_id : uuid) : pystr :=
  let digest := hmac_sha256 (_secret self) (uuid_str job_id) in
  let signature := strip_padding (urlsafe_b64encode digest) in
  TOKEN_VERSION ++ PERIOD :: signature.

Definition verify_token (self : StreamTokenService) (job_id : uuid) (provided_token : option pystr)
    : outcome exn bool :=
  match provided_token with
  | None | Some [] => Ret false
  | Some token => compare_digest (create_token self job_id) token
  end.
End tokens.

(** ** The encoding loses nothing *)
Definition octets (bs : bytes) : Prop := Forall (λ b, b < 256) bs.

Definition token_char (c : N) : bool :=
  is_upper_ascii c || is_lower_ascii c || is_digit_ascii c || (c =? 45) || (c =? 95).

Definition sextets : list N := Eval vm_compute in map N.of_nat (seq 0 64).

Lemma sextet_in i : i < 64 → i ∈ sextets.
Proof.
  intros Hi. change sextets with (map N.of_nat (seq 0 64)). apply list_elem_of_In, in_map_iff.
  exists (N.to_nat i). split; [lia|]. apply in_seq. lia.
Qed.

Lemma forall_sextets (P : N → bool) : forallb P sextets = true → ∀ i, i < 64 → P i = true.
Proof.
  intros H i Hi. rewrite forallb_forall in H. by apply H, list_elem_of_In, sextet_in.
Qed.

Lemma b64_char_ok i : i < 64 → token_char (b64_char i) = true.
Proof. revert i. apply forall_sextets. reflexivity. Qed.

Lemma b64_char_inj i j : i < 64 → j < 64 → b64_char i = b64_char j → i = j.
Proof.
  intros Hi Hj He.
  assert (forallb (λ i, forallb (λ j, implb (b64_char i =? b64_char j) (i =? j)) sextets) sextets
          = true) as H by (vm_compute; reflexivity).
  pose proof (forall_sextets _ (forall_sextets _ H i Hi) j Hj) as H'. simpl in H'.
  rewrite He, N.eqb_refl in H'. by apply N.eqb_eq.
Qed.

(** The encoding before the padding *)
Fixpoint b64_body (bs : bytes) : bytes :=
  match bs with
  | [] => []
  | [b0] => [b64_char (b0 / 4); b64_char (b0 mod 4 * 16)]
  | [b0; b1] => [b64_char (b0 / 4); b64_char (b0 mod 4 * 16 + b1 / 16); b64_char (b1 mod 16 * 4)]
  | b0 :: b1 :: b2 :: r =>
      b64_char (b0 / 4) :: b64_char (b0 mod 4 * 16 + b1 / 16)
        :: b64_char (b1 mod 16 * 4 + b2 / 64) :: b64_char (b2 mod 64) :: b64_body r
  end.

(** Induction by groups of three octets *)
Lemma octets_ind (P : bytes → Prop) :
  P [] → (∀ b0, b0 < 256 → P [b0]) → (∀ b0 b1, b0 < 256 → b1 < 256 → P [b0; b1]) →
  (∀ b0 b1 b2 r, b0 < 256 → b1 < 256 → b2 < 256 → octets r → P r → P (b0 :: b1 :: b2 :: r)) →
  ∀ bs, octets bs → P bs.
Proof.
  intros H0 H1 H2 H3 bs. remember (length bs) as n eqn:En. revert bs En.
  induction n as [n IH] using lt_wf_ind. intros [|b0 [|b1 [|b2 r]]] -> Ho; unfold octets in Ho; [done|..].
  - apply Forall_cons in Ho as [? _]. by apply H1.
  - apply Forall_cons in Ho as [? Ho]. apply Forall_cons in Ho as [? _]. by apply H2.
  - apply Forall_cons in Ho as [? Ho]. apply Forall_cons in Ho as [? Ho].
    apply Forall_cons in Ho as [? Ho]. apply H3; try done.
    eapply IH; [|done|done]. simpl. lia.
Qed.

Lemma lstrip_by_none f (s : pystr) : (∀ c, head s = Some c → f c = false) → lstrip_by f s = s.
Proof. destruct s as [|c s]; simpl; [done|]. intros H. by rewrite (H c). Qed.

Lemma rstrip_by_app f (s t : pystr) :
  Forall (λ c, f c = false) s → Forall (λ c, f c = true) t → rstrip_by f (s ++ t) = s.
Proof.
  intros Hs Ht. unfold rstrip_by. rewrite rev_app_distr.
  assert (lstrip_by f (rev t ++ rev s) = rev s) as ->; [|apply rev_involutive].
  apply Forall_rev in Ht. revert Ht. generalize (rev t). intros t' Ht'.
  induction Ht' as [|c t' Hc _ IH]; simpl; [|by rewrite Hc].
  apply lstrip_by_none. intros c Hc. rewrite Forall_forall in Hs. apply Hs.
  apply list_elem_of_In, in_rev, list_elem_of_In. destruct (rev s); simplify_eq/=. by left.
Qed.

Lemma sextet_bounds b0 b1 b2 :
  b0 < 256 → b1 < 256 → b2 < 256 →
  b0 / 4 < 64 ∧ b0 mod 4 * 16 + b1 / 16 < 64 ∧ b1 mod 16 * 4 + b2 / 64 < 64 ∧ b2 mod 64 < 64.
Proof.
  intros H0 H1 H2.
  pose proof (N.mod_upper_bound b0 4). pose proof (N.mod_upper_bound b1 16).
  assert (b1 / 16 < 16) by (apply N.Div0.div_lt_upper_bound; lia).
  assert (b2 / 64 < 4) by (apply N.Div0.div_lt_upper_bound; lia).
  split_and!; [apply N.Div0.div_lt_upper_bound; lia|lia|lia|by apply N.mod_upper_bound].
Qed.

Lemma b64_body_chars bs : octets bs → Forall (λ c, token_char c = true) (b64_body bs).
Proof.
  revert bs. apply octets_ind; simpl.
  - done.
  - intros b0 H0. destruct (sextet_bounds b0 0 0 H0) as (?&?&_); [done..|].
    rewrite <- (N.add_0_r (b0 mod 4 * 16)). repeat constructor; by apply b64_char_ok.
  - intros b0 b1 H0 H1. destruct (sextet_bounds b0 b1 0 H0 H1) as (?&?&?&_); [done|].
    rewrite <- (N.add_0_r (b1 mod 16 * 4)). repeat constructor; by apply b64_char_ok.
  - intros b0 b1 b2 r H0 H1 H2 _ IH. destruct (sextet_bounds b0 b1 b2 H0 H1 H2) as (?&?&?&?).
    repeat (constructor; [by apply b64_char_ok|]). done.
Qed.

Lemma b64_encode_body bs :
  octets bs → ∃ pad, urlsafe_b64encode bs = b64_body bs ++ pad ∧ Forall (λ c, c = EQUALS) pad.
Proof.
  revert bs. apply octets_ind; simpl.
  - by exists [].
  - intros b0 _. exists [EQUALS; EQUALS]. split; [done|by repeat constructor].
  - intros b0 b1 _ _. exists [EQUALS]. split; [done|by repeat constructor].
  - intros b0 b1 b2 r _ _ _ _ (pad & -> & Hp). by exists pad.
Qed.

Lemma strip_padding_body bs : octets bs → strip_padding (urlsafe_b64encode bs) = b64_body bs.
Proof.
  intros Ho. destruct (b64_encode_body bs Ho) as (pad & -> & Hp). apply rstrip_by_app.
  - eapply Forall_impl; [by apply b64_body_chars|]. intros c Hc. simpl.
    apply N.eqb_neq. intros ->. done.
  - eapply Forall_impl; [done|]. by intros c ->.
Qed.

Lemma digit_inj k a b c d : b < k → d < k → a * k + b = c * k + d → a = c ∧ b = d.
Proof.
  intros Hb Hd E. assert (a = c) as ->; [|lia].
  rewrite (N.div_unique (a * k + b) k a b Hb) by lia.
  rewrite (N.div_unique (c * k + d) k c d Hd) by lia. by rewrite E.
Qed.

Lemma div_mod_inj k a b : a / k = b / k → a mod k = b mod k → a = b.
Proof. intros Hd Hm. by rewrite (N.div_mod' a k), (N.div_mod' b k), Hd, Hm. Qed.

Lemma b64_group_inj b0 b1 b2 c0 c1 c2 :
  b0 < 256 → b1 < 256 → b2 < 256 → c0 < 256 → c1 < 256 → c2 < 256 →
  b0 / 4 = c0 / 4 → b0 mod 4 * 16 + b1 / 16 = c0 mod 4 * 16 + c1 / 16 →
  b1 mod 16 * 4 + b2 / 64 = c1 mod 16 * 4 + c2 / 64 → b2 mod 64 = c2 mod 64 →
  b0 = c0 ∧ b1 = c1 ∧ b2 = c2.
Proof.
  intros _ Hb1 Hb2 _ Hc1 Hc2 E0 E1 E2 E3.
  destruct (digit_inj 16 (b0 mod 4) (b1 / 16) (c0 mod 4) (c1 / 16)) as [E0' E1'];
    [apply N.Div0.div_lt_upper_bound; lia..|done|].
  destruct (digit_inj 4 (b1 mod 16) (b2 / 64) (c1 mod 16) (c2 / 64)) as [E1'' E2'];
    [apply N.Div0.div_lt_upper_bound; lia..|done|].
  split_and!; [by apply (div_mod_inj 4)|by apply (div_mod_inj 16)|by apply (div_mod_inj 64)].
Qed.

(** Equal characters come from equal octets. *)
Lemma b64_chars_inj b0 b1 b2 c0 c1 c2 :
  b0 < 256 → b1 < 256 → b2 < 256 → c0 < 256 → c1 < 256 → c2 < 256 →
  b64_char (b0 / 4) = b64_char (c0 / 4) →
  b64_char (b0 mod 4 * 16 + b1 / 16) = b64_char (c0 mod 4 * 16 + c1 / 16) →
  b64_char (b1 mod 16 * 4 + b2 / 64) = b64_char (c1 mod 16 * 4 + c2 / 64) →
  b64_char (b2 mod 64) = b64_char (c2 mod 64) →
  b0 = c0 ∧ b1 = c1 ∧ b2 = c2.
Proof.
  intros Hb0 Hb1 Hb2 Hc0 Hc1 Hc2 E0 E1 E2 E3.
  destruct (sextet_bounds b0 b1 b2 Hb0 Hb1 Hb2) as (?&?&?&?).
  destruct (sextet_bounds c0 c1 c2 Hc0 Hc1 Hc2) as (?&?&?&?).
  apply b64_char_inj in E0, E1, E2, E3; [|done..]. by apply b64_group_inj.
Qed.

Lemma b64_body_inj bs : octets bs →
  ∀ cs, octets cs → length bs = length cs → b64_body bs = b64_body cs → bs = cs.
Proof.
  revert bs. apply (octets_ind (λ bs, ∀ cs, octets cs → length bs = length cs →
    b64_body bs = b64_body cs → bs = cs)).
  - by intros [|? ?].
  - intros b0 H0 [|c0 [|? ?]] Hc Hl; simplify_eq/=. intros [= E0 E1].
    apply Forall_cons in Hc as [? _].
    destruct (b64_chars_inj b0 0 0 c0 0 0) as (-> & _ & _); rewrite ?N.add_0_r; done.
  - intros b0 b1 H0 H1 [|c0 [|c1 [|? ?]]] Hc Hl; simplify_eq/=. intros [= E0 E1 E2].
    apply Forall_cons in Hc as [? Hc]. apply Forall_cons in Hc as [? _].
    destruct (b64_chars_inj b0 b1 0 c0 c1 0) as (-> & -> & _); rewrite ?N.add_0_r; done.
  - intros b0 b1 b2 r H0 H1 H2 Hr IH [|c0 [|c1 [|c2 cs]]] Hc Hl; simplify_eq/=.
    intros [= E0 E1 E2 E3 Er]. apply Forall_cons in Hc as [? Hc].
    apply Forall_cons in Hc as [? Hc]. apply Forall_cons in Hc as [? Hc].
    destruct (b64_chars_inj b0 b1 b2 c0 c1 c2) as (-> & -> & ->); try done.
    do 3 f_equal. by apply IH.
Qed.

(** A digest of SHA-256 has 32 octets. *)
Definition sha256_sized (hmac : bytes → bytes → bytes) : Prop :=
  ∀ key msg, octets (hmac key msg) ∧ length (hmac key msg) = 32%nat.

Lemma create_token_ascii hmac self job_id :
  sha256_sized hmac → is_ascii (create_token hmac self job_id) = true.
Proof.
  intros Hh. destruct (Hh (_secret self) (uuid_str job_id)) as [Ho _].
  unfold create_token. rewrite strip_padding_body by done.
  apply forallb_forall. intros c Hc%list_elem_of_In. apply N.ltb_lt.
  apply elem_of_app in Hc as [Hc|Hc].
  { assert (Forall (λ c, c < 128) TOKEN_VERSION) as Hv by (repeat constructor).
    rewrite Forall_forall in Hv. by apply Hv. }
  apply elem_of_cons in Hc as [->|Hc]; [done|].
  pose proof (b64_body_chars _ Ho) as Hb. rewrite Forall_forall in Hb. apply Hb in Hc.
  unfold token_char, is_upper_ascii, is_lower_ascii, is_digit_ascii in Hc.
  repeat (apply orb_true_iff in Hc as [Hc|Hc]); rewrite ?andb_true_iff, ?N.leb_le, ?N.eqb_eq in Hc; lia.
Qed.

Lemma verify_token_exact hmac self job_id t :
  sha256_sized hmac →
  verify_token hmac self job_id (Some t) = Ret true ↔ t = create_token hmac self job_id.
Proof.
  intros Hh. unfold verify_token, compare_digest. destruct t as [|c t]; [done|].
  destruct (is_ascii (c :: t)) eqn:Ea.
  - split; [by intros [= ->%bool_decide_eq_true]|]. intros ->. by rewrite bool_decide_true.
  - split; [done|]. intros E. by rewrite E, create_token_ascii in Ea.
Qed.

Lemma create_token_inj hmac self job_id job_id' :
  sha256_sized hmac →
  create_token hmac self job_id = create_token hmac self job_id' →
  hmac (_secret self) (uuid_str job_id) = hmac (_secret self) (uuid_str job_id').
Proof.
  intros Hh. destruct (Hh (_secret self) (uuid_str job_id)) as [Ho Hl].
  destruct (Hh (_secret self) (uuid_str job_id')) as [Ho' Hl'].
  unfold create_token. rewrite !strip_padding_body by done.
  intros [= E]%app_inv_head. apply b64_body_inj; [done..|congruence|done].
Qed.

(** C28: A stream token opens the stream of the job it was made for and no
    other.  [verify_token] accepts exactly the token [create_token] gives for
    the job; a missing or empty token is refused; and the tokens of two jobs
    are equal only when their HMAC digests are equal, since the encoding of
    the digest, with its padding removed, loses nothing. *)
Theorem token_exact hmac self job_id job_id' t :
  sha256_sized hmac →
  (verify_token hmac self job_id (Some t) = Ret true ↔ t = create_token hmac self job_id) ∧
  verify_token hmac self job_id None = Ret false ∧
  verify_token hmac self job_id (Some []) = Ret false ∧
  (create_token hmac self job_id = create_token hmac self job_id' →
   hmac (_secret self) (uuid_str job_id) = hmac (_secret self) (uuid_str job_id')).
Proof.
  intros Hh. split_and!; [by apply verify_token_exact|done..|by apply create_token_inj].
Qed.

(** ** With a digest that is not one *)
Module Demo.
(** Thirty-two octets taken from the message, in place of a real digest *)
Definition hmac (_ msg : bytes) : bytes := take 32 (map (λ c, c mod 256) msg ++ replicate 32 0).
Definition service : StreamTokenService := {| _secret := py "secret" |}.

Lemma hmac_sized : sha256_sized hmac.
Proof.
  intros key msg. unfold hmac. split.
  - apply Forall_take, Forall_app. split; [|apply Forall_replicate; lia].
    apply Forall_forall. intros c (b & <- & _)%list_elem_of_In%in_map_iff. lia.
  - rewrite length_take, length_app, length_replicate. lia.
Qed.

(** A header value that is not ASCII is an error, not a refusal. *)
Example non_ascii_token : verify_token hmac service 1 (Some [233]) = Exc TypeError.
Proof. reflexivity. Qed.
End Demo.

Lemma token_exact_witness :
  verify_token Demo.hmac Demo.service 1 (Some (create_token Demo.hmac Demo.service 1)) = Ret true.
Proof.
  apply (proj1 (token_exact Demo.hmac Demo.service 1 2
    (create_token Demo.hmac Demo.service 1) Demo.hmac_sized)). reflexivity.
Defined.
