(* ===== verification/Api.v ===== *)
(** * The HTTP interface (jobs/router.py, jobs/schemas.py, sse/router.py, main.py)

    The routes as computations on the server's state: the world the services
    share, the registry of stream connections and the background tasks of the
    request.  FastAPI has decoded the path, the headers and the JSON body;
    what slowapi decides for a request and the wording of pydantic's errors
    are parameters. *)
From S2P Require Import Prelude PyStr Exceptions FileSystem Storage Schemas Database World JobService.
From S2P Require Import Sse Client Tokens.
Local Open Scope eff_scope.
Import Local.

(** ** Requests and responses *)
Record JobResponse := {
  rs_id : uuid;
  rs_parent_job_id : option uuid;
  rs_prompt : pystr;
  rs_status : status;
  rs_action_plan : option (list json);
  rs_created_at : Z;
  rs_updated_at : Z;
  stream_url : pystr;
  stream_token : pystr
}.

Record ArtifactListResponse := {
  al_id : uuid;
  al_filename : pystr;
  al_content_type : pystr;
  al_created_at : Z
}.

Inductive response :=
  | Created (body : JobResponse)                                (* 201 *)
  | FileResponse (path : apath) (name media_type : pystr)
  | ArtifactList (body : list ArtifactListResponse)
  | EventStream (job_id : uuid) (cursor : Z)
  | Message (text : pystr)
  | Error (status_code : Z) (detail : list (pystr * json))
  | InternalServerError.

Inductive request :=
  | PostJob (limited : option pystr) (body : json)
  | PostRefine (previous_job_id : uuid) (body : json)
  | GetArtifactFile (job_id : uuid) (name : pystr)
  | GetArtifacts (job_id : uuid)
  | GetArtifactDownload (artifact_id : uuid)
  | GetStream (job_id : uuid) (token last_event_id : option pystr)
  | GetRoot
  | NoRoute (status_code : Z) (detail : pystr).     (* 404, 405: the router's own exception *)

Record server {X : Type} := Server {
  sv_world : world X;
  sv_registry : ConnectionRegistry;
  sv_tasks : list uuid              (* [background_tasks.add_task(orchestrator.run, id)] *)
}.
Arguments server : clear implicits.
Arguments Server {X} _ _ _.

(** ** The standard error body *)
Definition STATUS : pystr := Eval vm_compute in py "status".
Definition CODE : pystr := Eval vm_compute in py "code".
Definition MESSAGE : pystr := Eval vm_compute in py "message".
Definition ERROR : pystr := Eval vm_compute in py "error".

Definition _error_detail (code message : pystr) : list (pystr * json) :=
  [(STATUS, JStr ERROR); (CODE, JStr code); (MESSAGE, JStr message)].

(** [HTTPException.detail] *)
Inductive http_detail := DetailDict (items : list (pystr * json)) | DetailStr (s : pystr).

(** ** jobs/schemas.py *)
Definition PROMPT : pystr := Eval vm_compute in py "prompt".

(** [JobCreateRequest], [RefinementRequest]: [min_length=5, max_length=1000] *)
Definition JobCreateRequest_validate (body : json) : option pystr :=
  match body with
  | JObj items =>
      match as_str (obj_get PROMPT items) with
      | Some prompt =>
          if (5 <=? length prompt)%nat && (length prompt <=? 1000)%nat then Some prompt else None
      | None => None
      end
  | _ => None
  end.

Section api.
Context {X : Type} (base_dir : apath) (guess_type : pystr → option pystr).
Context (hmac_sha256 : bytes → bytes → bytes).
(** [exc.errors()]: the location and the text of each error *)
Context (errors : json → list (list pystr * pystr)).
(** [str] of a dictionary *)
Context (str_dict : list (pystr * json) → pystr).
Abbreviation M A := (eff exn (server X) A).
Abbreviation S A := (eff exn (world X * session) A).

Definition on_server {A} : eff exn (world X) A → M A :=
  zoom sv_world (λ w s, Server w (sv_registry s) (sv_tasks s)).

(** [Depends(get_db)]: a session for the request, closed at its end *)
Definition with_get_db {A} (m : S A) : M A := on_server (in_session m).

(** [Depends(get_storage_service)]: [LocalStorageService()] makes its base
    directory when it is missing. *)
Definition get_storage_service : M unit := on_server (in_fs (mkdir_p base_dir)).

Definition add_task (job_id : uuid) : M unit :=
  modify (λ s, Server (sv_world s) (sv_registry s) (sv_tasks s ++ [job_id])).

(** ** jobs/router.py *)
Definition http_exception {E} {A} (status_code : Z) (code message : pystr) : eff exn E A :=
  raise (HTTPException status_code code message).

Definition NOT_FOUND : pystr := Eval vm_compute in py "NOT_FOUND".
Definition BAD_REQUEST : pystr := Eval vm_compute in py "BAD_REQUEST".
Definition FORBIDDEN_ACCESS : pystr := Eval vm_compute in py "FORBIDDEN_ACCESS".

Definition _job_response (token_service : StreamTokenService) (id : uuid) (job : Job) : JobResponse :=
  {| rs_id := id; rs_parent_job_id := parent_job_id job; rs_prompt := prompt job;
     rs_status := job_status job; rs_action_plan := action_plan job;
     rs_created_at := job_created_at job; rs_updated_at := updated_at job;
     stream_url := py "/api/v1/jobs/" ++ uuid_str id ++ py "/stream";
     stream_token := create_token hmac_sha256 token_service id |}.

(** [create_job] *)
Definition create_job_route (token_service : StreamTokenService) (prompt : pystr) : M response :=
  job <- with_get_db (create_job base_dir prompt None) ;;
  add_task job.1 ;;;
  ret (Created (_job_response token_service job.1 job.2)).

(** The [except] clauses of [refine_job] *)
Definition refine_error (exc : exn) : exn :=
  match exc with
  | RefinementNotFoundError msg => HTTPException 404 (py "PARENT_NOT_FOUND") msg
  | RefinementConflictError msg => HTTPException 409 (py "REFINEMENT_CONFLICT") msg
  | RefinementContextTooLargeError msg => HTTPException 413 (py "CONTEXT_TOO_LARGE") msg
  | _ => exc
  end.

Definition refine_job_route (token_service : StreamTokenService) (previous_job_id : uuid)
    (prompt : pystr) : M response :=
  job <- try_catch (with_get_db (create_refinement_job base_dir previous_job_id prompt))
           (λ exc, raise (refine_error exc)) ;;
  add_task job.1 ;;;
  ret (Created (_job_response token_service job.1 job.2)).

Definition job_not_found (job_id : uuid) : pystr :=
  py "Job " ++ uuid_str job_id ++ py " not found.".
Definition artifact_not_found (name : pystr) (job_id : uuid) : pystr :=
  py "Artifact " ++ name ++ py " not found for Job " ++ uuid_str job_id ++ py ".".
Definition TRAVERSAL_DENIED : pystr := Eval vm_compute in
  py "Access denied. Path traversal detected.".

Definition download_artifact (job_id : uuid) (name : pystr) : S response :=
  job <- find_job job_id ;;
  match job with
  | None => http_exception 404 NOT_FOUND (job_not_found job_id)
  | Some job =>
      if bool_decide (job_status job = FAILED) then
        http_exception 400 BAD_REQUEST
          (py "Job " ++ uuid_str job_id ++ py " has failed. Cannot retrieve artifacts.")
      else
        try_catch
          (exists_ <- on_world (in_fs (Local.check_artifact_exists base_dir job_id name)) ;;
           if negb exists_ then http_exception 404 NOT_FOUND (artifact_not_found name job_id)
           else
             file_path <- on_world (in_fs (Local.get_artifact_path base_dir job_id name)) ;;
             ret (FileResponse file_path name OCTET_STREAM))
          (λ e, match e with
                | PermissionError _ => http_exception 403 FORBIDDEN_ACCESS TRAVERSAL_DENIED
                | FileNotFoundError _ => http_exception 404 NOT_FOUND (artifact_not_found name job_id)
                | _ => raise e
                end)
  end.

(** [get_artifacts_by_job_id] and the fields its response model keeps *)
Definition list_artifacts (job_id : uuid) : S response :=
  job <- find_job job_id ;;
  match job with
  | None => http_exception 404 NOT_FOUND (job_not_found job_id)
  | Some job =>
      if negb (bool_decide (job_status job = COMPLETED)) then
        http_exception 400 BAD_REQUEST
          (py "Job " ++ uuid_str job_id ++ py " is in status " ++ status_str (job_status job)
           ++ py ". Artifacts can only be retrieved for COMPLETED jobs.")
      else
        artifacts <- get_artifacts_by_job_id job_id ;;
        ret (ArtifactList (map (λ a,
          {| al_id := artifact_id a; al_filename := filename a;
             al_content_type := content_type a; al_created_at := artifact_created_at a |})
          artifacts))
  end.

Definition download_artifact_by_id (artifact_id : uuid) : S response :=
  try_catch
    (found <- get_artifact_for_download base_dir artifact_id ;;
     let '(file_path, content_type, filename) := found in
     ret (FileResponse file_path filename content_type))
    (λ e, match e with
          | ArtifactNotFoundError _ => http_exception 404 NOT_FOUND (py "Artifact not found.")
          | ArtifactPermissionError _ => http_exception 403 FORBIDDEN_ACCESS (py "Access denied.")
          | _ => raise e
          end).

(** ** sse/router.py *)
Definition in_repository {A} (m : eff exn database A) : M A := on_server (in_db m).

(** [except SQLAlchemyError] around the two queries *)
Definition or_unavailable {A} (m : M A) : M A :=
  try_catch m (λ exc,
    if is_sqlalchemy_error exc
    then http_exception 503 (py "DATABASE_UNAVAILABLE") (py "Database is unavailable.")
    else raise exc).

Definition _parse_last_event_id (value : option pystr) : option Z :=
  match value with None => None | Some s => py_int s end.

Definition acquire_slot : M bool := λ s,
  match try_acquire (sv_registry s) with
  | (r, b) => (Server (sv_world s) r (sv_tasks s), Ret b)
  end.

(** [stream_job_events]; building the service and the response cannot fail. *)
Definition stream_job_events (token_service : StreamTokenService) (job_id : uuid)
    (token last_event_id : option pystr) : M response :=
  exists_ <- or_unavailable (in_repository (sse_job_exists job_id)) ;;
  if negb exists_ then http_exception 404 NOT_FOUND (job_not_found job_id)
  else
    allowed <- of_outcome (verify_token hmac_sha256 token_service job_id token) ;;
    if negb allowed then
      http_exception 403 (py "INVALID_STREAM_TOKEN") (py "Stream access denied.")
    else
      let candidate := _parse_last_event_id last_event_id in
      cursor <- or_unavailable (in_repository (resolve_cursor job_id candidate)) ;;
      acquired <- acquire_slot ;;
      if negb acquired then
        http_exception 503 (py "STREAM_CAPACITY_EXCEEDED")
          (py "SSE connection capacity has been reached.")
      else ret (EventStream job_id cursor).

(** ** main.py *)
Definition rate_limit_exceeded_handler (detail : pystr) : response :=
  Error 429 (_error_detail (py "RATE_LIMIT_EXCEEDED") (py "Rate limit exceeded: " ++ detail)).

Definition validation_exception_handler (errs : list (list pystr * pystr)) : response :=
  let loc_str := str_join (py ".") (default [] (fst <$> head errs)) in
  let msg := default (py "invalid value") (snd <$> head errs) in
  Error 400 (_error_detail (py "VALIDATION_ERROR") (py "Field '" ++ loc_str ++ py "' : " ++ msg)).

Definition permission_exception_handler : response :=
  Error 403 (_error_detail FORBIDDEN_ACCESS TRAVERSAL_DENIED).

Definition http_exception_handler (status_code : Z) (detail : http_detail) : response :=
  match detail with
  | DetailDict items =>
      match obj_get STATUS items with
      | Some _ => Error status_code items
      | None => Error status_code (_error_detail (py "HTTP_EXCEPTION") (str_dict items))
      end
  | DetailStr s => Error status_code (_error_detail (py "HTTP_EXCEPTION") s)
  end.

(** The handler of an exception a route raised; what no handler wants is a
    plain 500. *)
Definition exception_handler (exc : exn) : response :=
  match exc with
  | PermissionError _ => permission_exception_handler
  | HTTPException status_code code message =>
      http_exception_handler status_code (DetailDict (_error_detail code message))
  | _ => InternalServerError
  end.

Definition read_root : response :=
  Message (py "Workspace CLI Execution Platform Backend API is running.").

(** ** The application *)

(** [Depends(get_stream_token_service)]: built from the environment *)
Definition with_tokens {A} (secret : pystr) (k : StreamTokenService → M A) : M A :=
  token_service <- of_outcome (new_token_service secret) ;; k token_service.

(** Dependencies are resolved before the body's errors are reported. *)
Definition with_prompt (body : json) (k : pystr → M response) : M response :=
  match JobCreateRequest_validate body with
  | Some prompt => k prompt
  | None => ret (validation_exception_handler (errors body))
  end.

Definition route (secret : pystr) (r : request) : M response :=
  match r with
  | PostJob limited body =>
      get_storage_service ;;; with_tokens secret (λ ts, with_prompt body (λ prompt,
        match limited with
        | Some detail => ret (rate_limit_exceeded_handler detail)
        | None => create_job_route ts prompt
        end))
  | PostRefine previous_job_id body =>
      get_storage_service ;;;
      with_tokens secret (λ ts, with_prompt body (refine_job_route ts previous_job_id))
  | GetArtifactFile job_id name => get_storage_service ;;; with_get_db (download_artifact job_id name)
  | GetArtifacts job_id => get_storage_service ;;; with_get_db (list_artifacts job_id)
  | GetArtifactDownload artifact_id => get_storage_service ;;; with_get_db (download_artifact_by_id artifact_id)
  | GetStream job_id token last_event_id =>
      with_tokens secret (λ ts, stream_job_events ts job_id token last_event_id)
  | GetRoot => ret read_root
  | NoRoute status_code detail => ret (http_exception_handler status_code (DetailStr detail))
  end.

(** A request with its background tasks, which an error drops *)
Definition handle_request (secret : pystr) (r : request) (s : server X) : server X * response :=
  match route secret r (Server (sv_world s) (sv_registry s) []) with
  | (s', Ret resp) => (s', resp)
  | (s', Exc exc) => (Server (sv_world s') (sv_registry s') [], exception_handler exc)
  end.
End api.

Definition status_code_of (r : response) : Z :=
  match r with
  | Created _ => 201
  | FileResponse _ _ _ | ArtifactList _ | EventStream _ _ => 200
  | Message _ => 200
  | Error s _ => s
  | InternalServerError => 500
  end.
