(* ===== verification/ApiFacts.v ===== *)
(** * What the HTTP interface guarantees

    Downloads stay inside the job's own trees, streams open only with the
    job's token and take exactly one slot, and a posted job can be streamed
    with the token the response carries. *)
From S2P Require Import Prelude PyStr Exceptions FileSystem FsFacts Realpath FsOps Storage StorageFacts StorageProps.
From S2P Require Import Schemas Database DatabaseFacts Repository World JobService Attempts Executor ExecutorFacts JobFacts.
From S2P Require Import Sse SseFacts Client Tokens Api.
Local Open Scope eff_scope.
Import Local.

#[local] Opaque uuid_str create_token.

Section routes.
Context {X : Type} (base_dir : apath) (Hbase : normal base_dir).
Context (guess_type : pystr → option pystr) (hmac_sha256 : bytes → bytes → bytes).
Context (errors : json → list (list pystr * pystr)) (str_dict : list (pystr * json) → pystr).
Implicit Types (s : server X) (w : world X).
Abbreviation handle := (handle_request base_dir hmac_sha256 errors str_dict).

(** A route on the request's session *)
Lemma with_get_db_run {A} (m : eff exn (world X * session) A) s w' ss o :
  m (sv_world s, fresh_session) = ((w', ss), o) →
  with_get_db m s = (Server w' (sv_registry s) (sv_tasks s), o).
Proof. intros H. unfold with_get_db, on_server, zoom, in_session. simpl. by rewrite H. Qed.

Lemma with_get_db_inv {A} (m : eff exn (world X * session) A) s s' o :
  with_get_db m s = (s', o) →
  ∃ ss, m (sv_world s, fresh_session) = ((sv_world s', ss), o) ∧
    sv_registry s' = sv_registry s ∧ sv_tasks s' = sv_tasks s.
Proof.
  unfold with_get_db, on_server, zoom, in_session. simpl.
  destruct (m _) as [[w' ss] o'] eqn:E. intros [= <- <-]. by exists ss.
Qed.

(** The workspace directory exists, so that making it again does nothing. *)
Definition workspace_ready (m : fs) : Prop := mkdir_p base_dir m = (m, Ret tt).

Lemma existing_workspace_ready (m : fs) (p : apath) (name : pystr) :
  base_dir = p ++ [name] → fs_wf m → clear m base_dir → m !! base_dir = Some NDir →
  workspace_ready m.
Proof using Hbase.
  intros Hp Hwf Hc Hd. unfold workspace_ready, mkdir_p. pose proof Hbase as Hn. subst base_dir.
  rewrite rev_app_distr. cbn [rev app mkdir_rev]. rewrite rev_involutive.
  apply Forall_app in Hn as [Hn Hw]. unfold try_catch.
  rewrite os_mkdir_ok, Hd; [|done..| |by eapply fs_wf_dir_prefix].
  - unfold accept_existing_dir, ebind, gets. simpl.
    rewrite is_dir_link_free; [|done|by apply Forall_app|by apply clear_link_free].
    unfold is_dir_at. by rewrite Hd.
  - by eapply clear_prefix.
Qed.

Lemma get_storage_run s :
  workspace_ready (w_fs (sv_world s)) → get_storage_service base_dir s = (s, Ret tt).
Proof.
  unfold workspace_ready, get_storage_service, on_server, in_fs, zoom. intros ->.
  by destruct s as [[] ? ?].
Qed.

(** ** Downloads *)
Lemma download_artifact_inv j f w ss ws' p name mt :
  fs_wf (w_fs w) →
  download_artifact base_dir j f (w, ss) = (ws', Ret (FileResponse p name mt)) →
  w_fs ws'.1 = w_fs w ∧ name = f ∧ mt = OCTET_STREAM ∧
  served_file base_dir (w_fs w) ARTIFACTS j p ∧
  ∃ job, jobs (view (w_db ws'.1, ss)) !! j = Some job ∧ job_status job ≠ FAILED.
Proof using Hbase.
  intros Hwf. unfold download_artifact.
  intros [([w1 s1] & r & Hq & H)|(e & _ & ?)]%ebind_inv; [|done].
  apply session_query_inv in Hq as (Hfs & _ & [(e & ?)|(t & _ & _ & Ha)]); [done|].
  simpl in Hfs. injection Ha as ->.
  destruct (jobs (view (w_db w1, ss)) !! j) as [job|] eqn:Ej; [|done].
  case_bool_decide as Hst; [done|].
  apply catch_inv in H as [(a & H & [= <-])|(ws1 & e & _ & H)].
  2: { by destruct e; unfold http_exception, raise in H; simplify_eq. }
  unfold ebind at 1 in H. rewrite files_pure in H by apply check_artifact_exists_pure.
  destruct (Local.check_artifact_exists base_dir j f (w_fs w1)) as [m1 o1] eqn:Ec.
  simpl in H. destruct o1 as [[]|]; [|done..]. simpl in H.
  apply check_then_get in Ec as (q & Hg & Hpre & Hf).
  rewrite (ebind_ret_run _ _ _ _ _ (files_runs _ w1 s1 _ _ Hg)) in H.
  unfold ret in H. injection H as <- <- <- <-. simpl. rewrite Hfs in *.
  split_and!; [done..| |by exists job].
  apply resolved_file; [done| |done..].
  unfold Local.get_artifact_path in Hg.
  apply ebind_inv in Hg as [(m2 & q' & Hv & Hg)|(e & _ & ?)]; [|done].
  apply validate_safe_path_inv in Hv as (-> & -> & _ & Hu). run in Hg.
  destruct (negb _ || negb _); unfold raise, ret in Hg; simplify_eq.
  apply target_of_resolved; [done..| |done]. right; by left.
Qed.

(** ** Streams *)
Definition keeps (s s' : server X) : Prop :=
  w_fs (sv_world s') = w_fs (sv_world s) ∧ sv_registry s' = sv_registry s ∧
  sv_tasks s' = sv_tasks s ∧ db_step (w_db (sv_world s)) (w_db (sv_world s')).

#[local] Instance keeps_preorder : PreOrder keeps.
Proof.
  split; [by intros s|]. intros s1 s2 s3 (?&?&?&?) (?&?&?&?).
  split_and!; [congruence..|by etrans].
Qed.

Lemma keeps_repository {A} (m : eff exn database A) : steps db_step m → steps keeps (in_repository m).
Proof.
  intros Hm s. specialize (Hm (w_db (sv_world s))).
  unfold in_repository, on_server, in_db, zoom. destruct (m _) as [d o]. by split_and!.
Qed.

Lemma keeps_or_unavailable {A} (m : eff exn (server X) A) :
  steps keeps m → steps keeps (or_unavailable m).
Proof.
  intros Hm. apply steps_catch; [apply _|done|]. intros e.
  destruct (is_sqlalchemy_error e); apply steps_raise, _.
Qed.

Lemma unavailable_ret {A} (m : eff exn (server X) A) s s' a :
  or_unavailable m s = (s', Ret a) → m s = (s', Ret a).
Proof.
  intros [(b & H & [= <-])|(s1 & e & _ & H)]%catch_inv; [done|].
  destruct (is_sqlalchemy_error e); unfold http_exception, raise in H; done.
Qed.

Lemma repository_ret {A} (m : eff exn database A) s s' o :
  in_repository m s = (s', o) → m (w_db (sv_world s)) = (w_db (sv_world s'), o).
Proof.
  unfold in_repository, on_server, in_db, zoom. destruct (m _) as [d o']. by intros [= <- <-].
Qed.

Lemma steps_job_exists j : steps db_step (sse_job_exists j).
Proof. apply steps_with_session, steps_query. Qed.

Lemma steps_resolve_cursor j c : steps db_step (resolve_cursor j c).
Proof.
  unfold resolve_cursor. destruct c as [c|]; [|apply steps_ret, _].
  destruct (c <=? 0)%Z; [apply steps_ret, _|].
  apply steps_ebind; [apply _|apply steps_with_session, steps_query|intros; apply steps_ret, _].
Qed.

Lemma job_exists_ret j d d' : sse_job_exists j d = (d', Ret true) → has_job (committed d') j = true.
Proof.
  unfold sse_job_exists, with_session. destruct (query _ _) as [c o] eqn:E.
  apply query_inv in E as [(e & ->)|(d1 & t & _ & -> & ->)]; [done|]. simpl. by intros [= <- Hj].
Qed.

(** The answers to a request for a stream *)
Definition stream_answer (ts : StreamTokenService) (j : uuid) (tok lid : option pystr)
    (s s' : server X) (resp : response) : Prop :=
  match resp with
  | EventStream j' c =>
      j' = j ∧ tok = Some (create_token hmac_sha256 ts j) ∧
      has_job (committed (w_db (sv_world s'))) j = true ∧
      try_acquire (sv_registry s) = (sv_registry s', true) ∧
      (∀ time p, opened c (Stream (w_db (sv_world s')) time (sv_registry s') [] p)) ∧
      (c ≠ 0%Z → _parse_last_event_id lid = Some c ∧
         ∃ e, e ∈ event_logs (committed (w_db (sv_world s'))) ∧ event_job_id e = j ∧ event_id e = c)
  | Error _ _ | InternalServerError => sv_registry s' = sv_registry s
  | _ => False
  end.

Lemma has_job_progress d d' j :
  progress d d' → has_job (committed d) j = true → has_job (committed d') j = true.
Proof.
  unfold has_job. intros Hp. destruct (jobs (committed d) !! j) as [row|] eqn:E; [|done].
  destruct (progress_status d d' j row Hp E) as (row' & -> & _). done.
Qed.

Lemma progress_next d d' : progress d d' → (next_event_id d ≤ next_event_id d')%Z.
Proof. by intros (_ & ? & _). Qed.

Lemma stream_route_ret ts j tok lid s s' resp :
  sha256_sized hmac_sha256 → db_ok (w_db (sv_world s)) → (0 < next_event_id (w_db (sv_world s)))%Z →
  stream_job_events hmac_sha256 ts j tok lid s = (s', Ret resp) →
  w_fs (sv_world s') = w_fs (sv_world s) ∧ sv_tasks s' = sv_tasks s ∧
  ∃ c, resp = EventStream j c ∧ stream_answer ts j tok lid s s' resp.
Proof.
  intros Hh Hok Hn. unfold stream_job_events.
  intros [(s1 & found & H1 & H)|(e & _ & ?)]%ebind_inv; [|done].
  destruct found; [|done]. simpl in H.
  pose proof (keeps_or_unavailable _ (keeps_repository _ (steps_job_exists j)) s) as Hk1.
  rewrite H1 in Hk1. destruct Hk1 as (Hfs1 & Hr1 & Ht1 & Hd1). simpl in Hfs1, Hr1, Ht1, Hd1.
  apply unavailable_ret, repository_ret, job_exists_ret in H1.
  apply ebind_inv in H as [(s2 & ok & H2 & H)|(e & _ & ?)]; [|done].
  unfold of_outcome in H2. injection H2 as <- Hv. destruct ok; [|done]. simpl in H.
  destruct tok as [tok|]; [|done].
  apply verify_token_exact in Hv as ->; [|done].
  apply ebind_inv in H as [(s2 & c & H2 & H)|(e & _ & ?)]; [|done].
  pose proof (keeps_or_unavailable _ (keeps_repository _
    (steps_resolve_cursor j (_parse_last_event_id lid))) s1) as Hk2.
  rewrite H2 in Hk2. destruct Hk2 as (Hfs2 & Hr2 & Ht2 & Hd2). simpl in Hfs2, Hr2, Ht2, Hd2.
  apply unavailable_ret, repository_ret in H2.
  destruct (Hd1 Hok) as [Hok1 Hp1]. destruct (Hd2 Hok1) as [Hok2 Hp2].
  apply resolve_cursor_ok in H2 as (_ & _ & Hc & Hcur); [|done|by apply progress_next in Hp1; lia].
  apply ebind_inv in H as [(s3 & got & H3 & H)|(e & H3 & _)]; cycle 1.
  { unfold acquire_slot in H3. by destruct (try_acquire _). }
  unfold acquire_slot in H3. destruct (try_acquire (sv_registry s2)) as [r b] eqn:Ea.
  injection H3 as <- <-. destruct b; [|done]. simpl in H. unfold ret in H. injection H as <- <-.
  simpl. rewrite Hfs2, Hfs1, Ht2, Ht1. split_and!; [done..|]. exists c. split; [done|].
  split_and!; try done.
  - by eapply has_job_progress.
  - by rewrite <- Hr1, <- Hr2.
  - intros time p. split_and!; simpl; [done|lia|done].
Qed.

Lemma stream_route_exc ts j tok lid s s' e :
  stream_job_events hmac_sha256 ts j tok lid s = (s', Exc e) → keeps s s'.
Proof.
  unfold stream_job_events.
  pose proof (keeps_or_unavailable _ (keeps_repository _ (steps_job_exists j)) s) as Hk1.
  intros [(s1 & found & H1 & H)|(e1 & H1 & _)]%ebind_inv; rewrite H1 in Hk1; [|done].
  simpl in Hk1. destruct found; simpl in H; [|unfold http_exception, raise in H; by simplify_eq].
  apply ebind_inv in H as [(s2 & ok & H2 & H)|(e1 & H2 & _)];
    unfold of_outcome in H2; [|by simplify_eq].
  injection H2 as <- _. destruct ok; simpl in H; [|unfold http_exception, raise in H; by simplify_eq].
  pose proof (keeps_or_unavailable _ (keeps_repository _
    (steps_resolve_cursor j (_parse_last_event_id lid))) s1) as Hk2.
  apply ebind_inv in H as [(s2 & c & H2 & H)|(e1 & H2 & _)]; rewrite H2 in Hk2; simpl in Hk2;
    [|by etrans].
  unfold ebind, acquire_slot, try_acquire in H.
  destruct (_ <=? _)%Z; [|done]. simpl in H. unfold http_exception, raise in H.
  injection H as <- _. etrans; [done|]. etrans; [exact Hk2|]. by destruct s2.
Qed.

(** ** Which route answers with what *)
Lemma with_tokens_ret {A} secret (k : StreamTokenService → eff exn (server X) A) s s' a :
  with_tokens secret k s = (s', Ret a) → ∃ ts, k ts s = (s', Ret a).
Proof.
  unfold with_tokens. destruct (new_token_service secret) as [ts|e]; run; [|done]. by exists ts.
Qed.

Lemma created_only ts (m : eff exn (server X) (uuid * Job)) s s' resp :
  (job <- m ;; add_task job.1 ;;; ret (Created (_job_response hmac_sha256 ts job.1 job.2))) s
    = (s', Ret resp) → ∃ body, resp = Created body.
Proof.
  intros [(s1 & job & _ & H)|(e & _ & ?)]%ebind_inv; [|done].
  unfold add_task in H. rewrite run_modify in H. unfold ret in H. injection H as _ <-. by eexists.
Qed.

Lemma stream_only ts j tok lid s s' resp :
  stream_job_events hmac_sha256 ts j tok lid s = (s', Ret resp) → ∃ c, resp = EventStream j c.
Proof.
  unfold stream_job_events. intros H. apply ebind_inv in H as [(s1 & found & _ & H)|(e & _ & ?)]; [|done].
  destruct found; [|done]. simpl in H.
  apply ebind_inv in H as [(s2 & ok & _ & H)|(e & _ & ?)]; [|done]. destruct ok; [|done]. simpl in H.
  apply ebind_inv in H as [(s3 & c & _ & H)|(e & _ & ?)]; [|done].
  apply ebind_inv in H as [(s4 & b & _ & H)|(e & _ & ?)]; [|done]. destruct b; [|done].
  unfold ret in H. simpl in H. injection H as _ <-. by eexists.
Qed.

Lemma list_only j (ws ws' : world X * session) resp :
  list_artifacts j ws = (ws', Ret resp) → ∃ l, resp = ArtifactList l.
Proof.
  unfold list_artifacts. intros [(w1 & job & _ & H)|(e & _ & ?)]%ebind_inv; [|done].
  destruct job as [job|]; [|done]. destruct (negb _); [done|].
  apply ebind_inv in H as [(w2 & l & _ & H)|(e & _ & ?)]; [|done].
  unfold ret in H. injection H as _ <-. by eexists.
Qed.

Lemma handler_no_file exc p name mt : exception_handler str_dict exc ≠ FileResponse p name mt.
Proof. by destruct exc. Qed.

(** A file is the answer of one of the two download routes. *)
Lemma file_route secret r s s' p name mt :
  workspace_ready (w_fs (sv_world s)) →
  handle secret r s = (s', FileResponse p name mt) →
  match r with
  | GetArtifactFile j f => ∃ ss, download_artifact base_dir j f (sv_world s, fresh_session)
      = ((sv_world s', ss), Ret (FileResponse p name mt))
  | GetArtifactDownload id => ∃ ss, download_artifact_by_id base_dir id (sv_world s, fresh_session)
      = ((sv_world s', ss), Ret (FileResponse p name mt))
  | _ => False
  end.
Proof.
  intros Hready. pose proof (get_storage_run (Server (sv_world s) (sv_registry s) []) Hready) as Hst.
  unfold handle_request. destruct (route _ _ _ _ _ _ _) as [s1 [resp|exc]] eqn:E;
    [|by intros [= _ H%handler_no_file]].
  intros [= <- ->]. destruct r; simpl in E; try rewrite (ebind_ret_run _ _ _ _ _ Hst) in E.
  - apply with_tokens_ret in E as [ts E]. unfold with_prompt in E.
    destruct (JobCreateRequest_validate body); [|done]. destruct limited; [done|].
    by apply created_only in E as [? ?].
  - apply with_tokens_ret in E as [ts E]. unfold with_prompt in E.
    destruct (JobCreateRequest_validate body); [|done]. by apply created_only in E as [? ?].
  - apply with_get_db_inv in E as (ss & E & _). by exists ss.
  - apply with_get_db_inv in E as (ss & E & _). by apply list_only in E as [? ?].
  - apply with_get_db_inv in E as (ss & E & _). by exists ss.
  - apply with_tokens_ret in E as [ts E]. by apply stream_only in E as [? ?].
  - done.
  - done.
Qed.

Lemma download_by_id_inv id w ss ws' p name mt :
  fs_wf (w_fs w) →
  download_artifact_by_id base_dir id (w, ss) = (ws', Ret (FileResponse p name mt)) →
  w_fs ws'.1 = w_fs w ∧
  ∃ a, a ∈ artifacts (view (w_db ws'.1, ss)) ∧ artifact_id a = id ∧ mt = content_type a ∧
    name = filename a ∧ served_file base_dir (w_fs w) JOBS (artifact_job_id a) p.
Proof using Hbase.
  intros Hwf H. unfold download_artifact_by_id in H.
  apply catch_inv in H as [(a & H & [= <-])|(ws1 & e & _ & H)].
  2: { by destruct e; unfold http_exception, raise in H; simplify_eq. }
  apply ebind_inv in H as [(ws1 & [[q ct] n] & Hd & H)|(e & _ & ?)]; [|done].
  unfold ret in H. injection H as <- <- <- <-. by apply download_inv in Hd.
Qed.

(** ** Runs on a database that answers *)
Lemma job_exists_healthy j d :
  healthy d → has_job (committed d) j = true →
  ∃ d', sse_job_exists j d = (d', Ret true) ∧ same_contents d d'.
Proof.
  intros Hh Hj. destruct (query_healthy (λ t, has_job t j) d fresh_session Hh eq_refl) as (d' & t & Hq & Hs & _).
  exists d'. split; [|done]. unfold sse_job_exists, with_session. rewrite Hq. simpl. by rewrite Hj.
Qed.

Lemma stream_route_run ts j s r :
  sha256_sized hmac_sha256 → healthy (w_db (sv_world s)) →
  has_job (committed (w_db (sv_world s))) j = true → try_acquire (sv_registry s) = (r, true) →
  ∃ s', stream_job_events hmac_sha256 ts j (Some (create_token hmac_sha256 ts j)) None s
        = (s', Ret (EventStream j 0)) ∧ sv_registry s' = r.
Proof.
  intros Hh Hd Hj Ha. destruct (job_exists_healthy j _ Hd Hj) as (d' & He & _).
  set (s1 := Server (set_db d' (sv_world s)) (sv_registry s) (sv_tasks s)).
  assert (or_unavailable (in_repository (sse_job_exists j)) s = (s1, Ret true)) as H1.
  { unfold or_unavailable, try_catch, in_repository, on_server, in_db, zoom. by rewrite He. }
  unfold stream_job_events. rewrite (ebind_ret_run _ _ _ _ _ H1). cbn [negb].
  rewrite (proj2 (verify_token_exact _ ts j _ Hh) eq_refl). run. cbn [negb].
  rewrite (ebind_ret_run _ _ s1 s1 0%Z) by (unfold s1; by destruct s as [[] ? ?]).
  unfold ebind, acquire_slot. simpl. rewrite Ha. by eexists.
Qed.

Lemma create_route_run ts prompt s id us m' :
  healthy (w_db (sv_world s)) → w_uuids (sv_world s) = id :: us →
  jobs (committed (w_db (sv_world s))) !! id = None →
  Local.create_workspace base_dir id (w_fs (sv_world s)) = (m', Ret tt) →
  ∃ d' now, create_job_route base_dir hmac_sha256 ts prompt s =
      (Server (World m' d' us (w_ext (sv_world s))) (sv_registry s) (sv_tasks s ++ [id]),
       Ret (Created (_job_response hmac_sha256 ts id (new_job prompt None now)))) ∧
    job_added id (new_job prompt None now) (w_db (sv_world s)) d'.
Proof.
  intros Hh Hu Hid Hws.
  destruct (create_job_run base_dir prompt None (sv_world s) fresh_session id us m')
    as (d' & ss & now & Hrun & Hadd); [done..|].
  exists d', now. split; [|done]. unfold create_job_route.
  rewrite (ebind_ret_run _ _ _ _ _ (with_get_db_run _ _ _ _ _ Hrun)). unfold add_task. by run.
Qed.
End routes.

(** C12: Downloads stay inside.  Whatever the request, when the answer is a
    file, the request is one of the two download routes, the file system was
    not changed, and the answer is a regular file the kernel finds under
    exactly that path: by name, inside the artifact directory of the job,
    which exists and has not failed; by identifier, inside the workspace of
    the job of the stored artifact, under the name and content type stored. *)
Theorem downloads_confined {X : Type} base_dir hmac errors str_dict secret r (s s' : server X) p name mt :
  normal base_dir → fs_wf (w_fs (sv_world s)) → workspace_ready base_dir (w_fs (sv_world s)) →
  handle_request base_dir hmac errors str_dict secret r s = (s', FileResponse p name mt) →
  let m := w_fs (sv_world s) in
  let t := committed (w_db (sv_world s')) in
  w_fs (sv_world s') = m ∧
  match r with
  | GetArtifactFile j f =>
      name = f ∧ served_file base_dir m ARTIFACTS j p ∧
      ∃ job, jobs t !! j = Some job ∧ job_status job ≠ FAILED
  | GetArtifactDownload id =>
      ∃ a, a ∈ artifacts t ∧ artifact_id a = id ∧ mt = content_type a ∧ name = filename a ∧
        served_file base_dir m JOBS (artifact_job_id a) p
  | _ => False
  end.
Proof.
  intros Hb Hwf Hready H m t. apply file_route in H; [|done]. destruct r; try done; destruct H as [ss H].
  - apply download_artifact_inv in H as (Hfs & -> & _ & Hf & Hj); [|done..]. by split_and!.
  - by apply download_by_id_inv in H.
Qed.

(** C15: A stream opens only for the holder of the job's token, and takes one
    slot.  A request for a stream changes no file and starts no task.  It is
    answered with a stream only for a job that exists, with exactly the token
    of that job, after one slot was taken from the registry, at a cursor that
    is zero or the number of an event of the job the client named; the stream
    then starts from a state in which it is exact.  Every other answer leaves
    the registry as it was. *)
Theorem stream_access {X : Type} base_dir hmac errors str_dict secret ts j tok lid
    (s s' : server X) resp :
  sha256_sized hmac → new_token_service secret = Ret ts →
  db_ok (w_db (sv_world s)) → (0 < next_event_id (w_db (sv_world s)))%Z →
  handle_request base_dir hmac errors str_dict secret (GetStream j tok lid) s = (s', resp) →
  w_fs (sv_world s') = w_fs (sv_world s) ∧ sv_tasks s' = [] ∧
  stream_answer hmac ts j tok lid s s' resp.
Proof.
  intros Hh Hts Hok Hn. unfold handle_request. simpl. unfold with_tokens. rewrite Hts. run.
  destruct (stream_job_events _ _ _ _ _ _) as [s1 [r|e]] eqn:E; intros [= <- <-].
  - apply stream_route_ret in E as (Hfs & Ht & c & -> & Ha); done.
  - apply stream_route_exc in E as (Hfs & Hr & _). simpl in *. split_and!; [done..|].
    by destruct e.
Qed.

(** A posted job can be watched.  On a database that answers, a valid
    request that is not rate limited is answered with the new job: its row is
    stored as CREATED with the prompt, its first event is stored, its
    workspace exists, the orchestrator is scheduled for it once, and a request
    for its stream with the token of the answer opens the stream at its
    beginning when a slot is free. *)
Theorem posted_job_streams {X : Type} base_dir hmac errors str_dict secret ts body prompt
    (s : server X) id us m' :
  workspace_ready base_dir (w_fs (sv_world s)) →
  sha256_sized hmac → new_token_service secret = Ret ts →
  JobCreateRequest_validate body = Some prompt →
  healthy (w_db (sv_world s)) → w_uuids (sv_world s) = id :: us →
  jobs (committed (w_db (sv_world s))) !! id = None →
  Local.create_workspace base_dir id (w_fs (sv_world s)) = (m', Ret tt) →
  (_active_connections (sv_registry s) < _max_connections (sv_registry s))%Z →
  let handle := handle_request base_dir hmac errors str_dict secret in
  ∃ s1 answer, handle (PostJob None body) s = (s1, Created answer) ∧
    rs_id answer = id ∧ rs_status answer = CREATED ∧ rs_prompt answer = prompt ∧
    sv_tasks s1 = [id] ∧ w_fs (sv_world s1) = m' ∧
    (∃ job, job_added id job (w_db (sv_world s)) (w_db (sv_world s1)) ∧
       job_status job = CREATED ∧ prompt = Database.prompt job) ∧
    ∃ s2, handle (GetStream id (Some (stream_token answer)) None) s1 = (s2, EventStream id 0) ∧
      _active_connections (sv_registry s2) = (_active_connections (sv_registry s) + 1)%Z.
Proof.
  intros Hready Hh Hts Hb Hd Hu Hid Hws Hcap handle.
  pose proof (get_storage_run base_dir (Server (sv_world s) (sv_registry s) []) Hready) as Hst.
  destruct (create_route_run base_dir hmac ts prompt
    (Server (sv_world s) (sv_registry s) []) id us m' Hd Hu Hid Hws) as (d' & now & Hrun & Hadd).
  eexists _, _. unfold handle, handle_request. cbn [route].
  rewrite (ebind_ret_run _ _ _ _ _ Hst). unfold with_tokens, with_prompt.
  rewrite Hts, Hb. run. rewrite Hrun. split; [done|]. simpl.
  split_and!; try done; [by eexists|].
  destruct Hadd as (Hd' & (t & Hc) & _).
  destruct (stream_route_run hmac ts id
    (Server (World m' d' us (w_ext (sv_world s))) (sv_registry s) [])
    (Registry (_max_connections (sv_registry s)) (_active_connections (sv_registry s) + 1)))
    as (s2 & Hs & Hr); [done|done| | |].
  - simpl. rewrite Hc. unfold has_job. simpl. by rewrite lookup_insert_eq.
  - simpl. unfold try_acquire. by rewrite (proj2 (Z.leb_gt _ _)) by lia.
  - run. rewrite Hs. exists s2. split; [done|]. by rewrite Hr.
Qed.

(** ** A server with one finished job *)
Module Demo.
Definition server0 : server unit := Server JobFacts.Demo.w (Registry 20 0) [].
Definition secret : pystr := py "secret".
Definition no_errors (_ : json) : list (list pystr * pystr) := [].
Definition no_str (_ : list (pystr * json)) : pystr := [].
Definition handle (r : request) : server unit * response :=
  handle_request JobFacts.Demo.base Tokens.Demo.hmac no_errors no_str secret r server0.

Lemma wf : fs_wf StorageProps.Demo2.m0.
Proof. apply (tidy_wf _ _ StorageProps.Demo2.demo2_tidy). Qed.

Lemma ready : workspace_ready JobFacts.Demo.base StorageProps.Demo2.m0.
Proof.
  apply (existing_workspace_ready JobFacts.Demo.base StorageProps.Demo.base_normal _ []
           (default [] (last JobFacts.Demo.base))); [reflexivity|exact wf| |reflexivity].
  intros q Hq. apply prefix_snoc_inv with (p := []) in Hq as [->|Hq]; [right; reflexivity|].
  apply prefix_nil_inv in Hq as ->. right. reflexivity.
Qed.

Example traversal_refused :
  (handle (GetArtifactFile JobFacts.Demo.job (py "../../etc/passwd"))).2
  = Error 404 (_error_detail NOT_FOUND (artifact_not_found (py "../../etc/passwd") JobFacts.Demo.job)).
Proof. vm_compute. reflexivity. Qed.

Example wrong_token :
  status_code_of (handle (GetStream JobFacts.Demo.job (Some (py "v1.x")) None)).2 = 403%Z.
Proof. vm_compute. reflexivity. Qed.
End Demo.

Lemma downloads_confined_witness :
  served_file JobFacts.Demo.base StorageProps.Demo2.m0 ARTIFACTS JobFacts.Demo.job
    (JobFacts.Demo.base ++ [ARTIFACTS; uuid_str JobFacts.Demo.job; py "model.scad"]).
Proof.
  assert (Demo.handle (GetArtifactFile JobFacts.Demo.job (py "model.scad"))
    = ((Demo.handle (GetArtifactFile JobFacts.Demo.job (py "model.scad"))).1,
       FileResponse (JobFacts.Demo.base ++ [ARTIFACTS; uuid_str JobFacts.Demo.job; py "model.scad"])
         (py "model.scad") OCTET_STREAM)) as H.
  { rewrite (surjective_pairing (Demo.handle _)) at 1. f_equal. }
  exact (proj1 (proj2 (proj2 (downloads_confined JobFacts.Demo.base Tokens.Demo.hmac Demo.no_errors
    Demo.no_str Demo.secret (GetArtifactFile JobFacts.Demo.job (py "model.scad")) Demo.server0
    _ _ _ _ StorageProps.Demo.base_normal Demo.wf Demo.ready H)))).
Defined.

Lemma stream_access_witness :
  sv_tasks (Demo.handle (GetStream JobFacts.Demo.job (Some (py "v1.x")) None)).1 = [].
Proof.
  refine (proj1 (proj2 (stream_access JobFacts.Demo.base Tokens.Demo.hmac Demo.no_errors Demo.no_str
    Demo.secret Tokens.Demo.service JobFacts.Demo.job (Some (py "v1.x")) None Demo.server0 _ _
    Tokens.Demo.hmac_sized _ _ _ (surjective_pairing
      (Demo.handle (GetStream JobFacts.Demo.job (Some (py "v1.x")) None)))))).
  - vm_compute. reflexivity.
  - split; [constructor|]. split; constructor.
  - reflexivity.
Defined.

Lemma posted_job_streams_witness :
  ∃ s1 answer, Demo.handle (PostJob None (JObj [(PROMPT, JStr (py "a small cube"))])) = (s1, Created answer) ∧
    rs_id answer = 7%N.
Proof.
  destruct (posted_job_streams JobFacts.Demo.base Tokens.Demo.hmac Demo.no_errors Demo.no_str
    Demo.secret Tokens.Demo.service (JObj [(PROMPT, JStr (py "a small cube"))]) (py "a small cube")
    Demo.server0 7 [8%N]
    (Local.create_workspace JobFacts.Demo.base 7 StorageProps.Demo2.m0).1
    Demo.ready Tokens.Demo.hmac_sized) as (s1 & answer & H & Hid & _).
  - vm_compute. reflexivity.
  - vm_compute. reflexivity.
  - exact JobFacts.Demo.db_healthy.
  - reflexivity.
  - vm_compute. reflexivity.
  - rewrite (surjective_pairing (Local.create_workspace _ _ _)). f_equal.
  - reflexivity.
  - exists s1, answer. exact (conj H Hid).
Defined.
