(* ===== verification/Config.v ===== *)
(** * The LLM configuration (orchestrator/config.py)

    [OrchestratorConfig.from_environment] with the part of
    [urllib.parse.urlparse] it relies on: the scheme, the authority with its
    user information and host, and the fragment, including the checks of
    bracketed hosts ([ipaddress]).  Unicode's NFKC normalization, which the
    parser consults for hosts that are not ASCII, is a parameter. *)
From Stdlib Require Import ZifyBool.
From S2P Require Import Prelude PyStr Exceptions.
Local Open Scope N_scope.

(** ** [str.partition] and [str.rpartition] on a character *)
Fixpoint partition (sep : N) (s : pystr) : pystr * bool * pystr :=
  match s with
  | [] => ([], false, [])
  | c :: s' =>
      if c =? sep then ([], true, s')
      else let '(a, found, b) := partition sep s' in (c :: a, found, b)
  end.

Definition rpartition (sep : N) (s : pystr) : pystr * bool * pystr :=
  let '(a, found, b) := partition sep (rev s) in
  if found then (rev b, true, rev a) else ([], false, s).

(** ** [ipaddress.ip_address], as a test *)
Definition all_digits (s : pystr) : bool := forallb is_digit_ascii s.
Definition is_hex (c : N) : bool :=
  is_digit_ascii c || ((65 <=? c) && (c <=? 70)) || ((97 <=? c) && (c <=? 102)).

Definition octet_ok (s : pystr) : bool :=
  match s with
  | [] => false
  | c :: r =>
      all_digits s && (length s <=? 3)%nat && implb (c =? 48) (bool_decide (r = []))
      && (foldl (λ acc d, acc * 10 + (d - 48)) 0 s <=? 255)
  end.

Definition ipv4_ok (s : pystr) : bool :=
  let octets := split_on 46 s in (length octets =? 4)%nat && forallb octet_ok octets.

Definition hextet_ok (s : pystr) : bool :=
  negb (bool_decide (s = [])) && forallb is_hex s && (length s <=? 4)%nat.

(** The places of empty parts, the ends left out *)
Definition inner_empty (parts : list pystr) : list nat :=
  filter (λ i, parts !! i = Some []) (seq 1 (length parts - 2)).

Definition is_empty (s : pystr) : bool := bool_decide (s = []).

Definition ipv6_parts_ok (parts : list pystr) : bool :=
  let n := length parts in
  let first_empty := is_empty (default [] (head parts)) in
  let last_empty := is_empty (default [] (last parts)) in
  (n <=? 9)%nat &&
  match inner_empty parts with
  | [] => (n =? 8)%nat && negb first_empty && negb last_empty && forallb hextet_ok parts
  | [skip] =>
      let parts_hi := (if first_empty then skip - 1 else skip)%nat in
      let parts_lo := (if last_empty then n - skip - 2 else n - skip - 1)%nat in
      negb (first_empty && negb (parts_hi =? 0)%nat) && negb (last_empty && negb (parts_lo =? 0)%nat)
      && (parts_hi + parts_lo <? 8)%nat
      && forallb hextet_ok (take parts_hi parts) && forallb hextet_ok (drop (n - parts_lo) parts)
  | _ => false
  end.

(** An IPv4 suffix stands for two hextets. *)
Definition ipv6_ok (s : pystr) : bool :=
  let '(addr, sep, scope) := partition 37 s in
  if sep && (is_empty scope || contains [37] scope) then false
  else
    let parts := split_on 58 addr in
    if (length parts <? 3)%nat then false
    else
      let suffix := default [] (last parts) in
      if contains [46] suffix then
        ipv4_ok suffix && ipv6_parts_ok (removelast parts ++ [[48]; [48]])
      else ipv6_parts_ok parts.

(** ** [urllib.parse.urlsplit] *)
Record SplitResult := { scheme : pystr; netloc : pystr; fragment : pystr }.

Definition COLON : N := 58.
Definition AT : N := 64.
Definition HASH : N := 35.
Definition QUESTION : N := 63.
Definition SLASH : N := 47.
Definition OPEN_BR : N := 91.
Definition CLOSE_BR : N := 93.

Definition is_letter (c : N) : bool := is_upper_ascii c || is_lower_ascii c.
Definition scheme_char (c : N) : bool :=
  is_letter c || is_digit_ascii c || (c =? 43) || (c =? 45) || (c =? 46).

(** Leading control characters and spaces, then tabs and line breaks *)
Definition clean_url (url : pystr) : pystr :=
  filter (λ c, ¬ (c = 9 ∨ c = 13 ∨ c = 10)) (lstrip_by (λ c, c <=? 32) url).

Section config.
Context `{UnicodeData} (nfkc : pystr → pystr).

Definition split_scheme (url : pystr) : pystr * pystr :=
  let '(before, found, after) := partition COLON url in
  match before with
  | c :: _ => if found && is_letter c && forallb scheme_char before then (lower before, after)
              else ([], url)
  | [] => ([], url)
  end.

(** [_splitnetloc]: up to the first of [/], [?] and [#] *)
Fixpoint split_netloc (url : pystr) : pystr * pystr :=
  match url with
  | [] => ([], [])
  | c :: url' =>
      if (c =? SLASH) || (c =? QUESTION) || (c =? HASH) then ([], url)
      else let '(n, rest) := split_netloc url' in (c :: n, rest)
  end.

(** [_hostinfo] without the port *)
Definition host_of (netloc : pystr) : pystr :=
  let hostinfo := (rpartition AT netloc).2 in
  let '(_, have_open_br, bracketed) := partition OPEN_BR hostinfo in
  if have_open_br then (partition CLOSE_BR bracketed).1.1 else (partition COLON hostinfo).1.1.

Definition is_ipvfuture (host : pystr) : bool :=
  match host with
  | 118 :: r =>
      let '(version, dot, rest) := partition 46 r in
      dot && negb (is_empty version) && forallb is_hex version && negb (is_empty rest)
      && negb (contains [10] rest)
  | _ => false
  end.

Definition bracketed_host_ok (host : pystr) : bool :=
  if startswith host [118] then is_ipvfuture host else negb (ipv4_ok host) && ipv6_ok host.

Definition bracketed_netloc_ok (netloc : pystr) : bool :=
  let hostname_and_port := (rpartition AT netloc).2 in
  let '(before_bracket, have_open_br, bracketed) := partition OPEN_BR hostname_and_port in
  if have_open_br then
    let '(hostname, _, port) := partition CLOSE_BR bracketed in
    is_empty before_bracket && (is_empty port || startswith port [COLON])
    && bracketed_host_ok hostname
  else bracketed_host_ok (partition COLON hostname_and_port).1.1.

Definition brackets_ok (netloc : pystr) : bool :=
  match contains [OPEN_BR] netloc, contains [CLOSE_BR] netloc with
  | true, true => bracketed_netloc_ok netloc
  | false, false => true
  | _, _ => false
  end.

(** [_checknetloc] *)
Definition checknetloc (netloc : pystr) : bool :=
  if forallb (λ c, c <? 128) netloc then true
  else
    let n := filter (λ c, ¬ (c = AT ∨ c = COLON ∨ c = HASH ∨ c = QUESTION)) netloc in
    let netloc2 := nfkc n in
    bool_decide (n = netloc2)
    || forallb (λ c, negb (contains [c] netloc2)) [SLASH; QUESTION; HASH; AT; COLON].

Definition invalid_url : exn := ValueError (py "Invalid URL").

(** [urlparse(url)] *)
Definition urlparse (url : pystr) : outcome exn SplitResult :=
  let '(scheme, url) := split_scheme (clean_url url) in
  let '(netloc, rest) :=
    match url with
    | 47 :: 47 :: url' => split_netloc url'
    | _ => ([], url)
    end in
  if negb (brackets_ok netloc) || negb (checknetloc netloc) then Exc invalid_url
  else Ret {| scheme := scheme; netloc := netloc; fragment := (partition HASH rest).2 |}.

(** [parsed.username or parsed.password] *)
Definition has_userinfo (netloc : pystr) : bool :=
  let '(userinfo, have_info, _) := rpartition AT netloc in
  let '(username, _, password) := partition COLON userinfo in
  have_info && (negb (is_empty username) || negb (is_empty password)).

(** [parsed.hostname]; empty for [None] *)
Definition hostname (netloc : pystr) : pystr :=
  let '(host, percent, zone) := partition 37 (host_of netloc) in
  lower host ++ (if percent then 37 :: zone else []).

(** ** [OrchestratorConfig] *)
Record OrchestratorConfig := {
  endpoint : pystr; api_key : pystr; model : pystr; environment : pystr
}.

Definition PRODUCTION : pystr := Eval vm_compute in py "production".
Definition HTTPS : pystr := Eval vm_compute in py "https".
Definition HTTP : pystr := Eval vm_compute in py "http".
Definition loopback_hosts : list pystr := Eval vm_compute in
  [py "localhost"; py "127.0.0.1"; py "::1"].

Definition _validate_endpoint (endpoint environment : pystr) : outcome exn unit :=
  match urlparse endpoint with
  | Exc e => Exc e
  | Ret parsed =>
      if has_userinfo (netloc parsed) || negb (is_empty (fragment parsed)) then
        Exc (OrchestratorConfigurationError (py "LLM endpoint contains forbidden URL parts."))
      else if bool_decide (scheme parsed = HTTPS) && negb (is_empty (hostname (netloc parsed))) then
        Ret tt
      else if negb (bool_decide (environment = PRODUCTION)) && bool_decide (scheme parsed = HTTP)
              && bool_decide (hostname (netloc parsed) ∈ loopback_hosts) then Ret tt
      else Exc (OrchestratorConfigurationError
             (py "LLM endpoint must use an approved HTTPS or loopback URL."))
  end.

(** The variables the method reads; [None] when unset *)
Record environ := {
  APP_ENV : option pystr;
  LLM_ENDPOINT : option pystr;
  LLM_API_KEY : option pystr;
  LLM_MODEL : option pystr
}.

Definition unset (v : option pystr) : bool := is_empty (default [] v).

Definition from_environment (env : environ) : outcome exn OrchestratorConfig :=
  let environment := lower (default (py "development") (APP_ENV env)) in
  let endpoint := default (py "http://localhost:11434/api/generate") (LLM_ENDPOINT env) in
  let api_key := default (py "development-only") (LLM_API_KEY env) in
  let model := default (py "local-model") (LLM_MODEL env) in
  if bool_decide (environment = PRODUCTION)
     && (unset (LLM_ENDPOINT env) || unset (LLM_API_KEY env) || unset (LLM_MODEL env)) then
    Exc (OrchestratorConfigurationError (py "Production LLM settings are incomplete."))
  else
    match _validate_endpoint endpoint environment with
    | Exc e => Exc e
    | Ret _ => Ret {| endpoint := endpoint; api_key := api_key; model := model;
                      environment := environment |}
    end.

(** ** The shape of a parsed URL *)
Definition is_delimiter (c : N) : bool := (c =? SLASH) || (c =? QUESTION) || (c =? HASH).

Definition scheme_ok (s : pystr) : Prop :=
  (∃ c s', s = c :: s' ∧ is_letter c = true) ∧ forallb scheme_char s = true.

(** Empty, or from the first delimiter on *)
Definition tail_ok (rest : pystr) : Prop :=
  rest = [] ∨ ∃ c r, rest = c :: r ∧ is_delimiter c = true.

Definition SEP : pystr := [COLON; SLASH; SLASH].

Definition url_parts (url s authority rest : pystr) : Prop :=
  clean_url url = s ++ SEP ++ authority ++ rest
  ∧ scheme_ok s
  ∧ forallb (λ c, negb (is_delimiter c)) authority = true
  ∧ tail_ok rest.

Lemma partition_found sep s a b :
  partition sep s = (a, true, b) ↔ s = a ++ sep :: b ∧ sep ∉ a.
Proof.
  revert a b. induction s as [|c s IH]; intros a b; cbn [partition].
  { split; [done|]. intros [E _]. by destruct a. }
  destruct (N.eqb_spec c sep) as [->|Hne].
  - split; [intros [= <- <-]; split; [done|apply not_elem_of_nil]|].
    intros [E Hn]. destruct a as [|d a]; [by injection E as ->|].
    injection E as -> _. destruct Hn. apply elem_of_cons. by left.
  - destruct (partition sep s) as [[a' f] b'] eqn:E. split.
    + intros [= <- -> <-]. destruct (proj1 (IH a' b') eq_refl) as [-> Hn]. split; [done|].
      rewrite not_elem_of_cons. auto.
    + intros [Es Hn]. destruct a as [|d a]; [by injection Es as -> _|].
      injection Es as -> Es. rewrite not_elem_of_cons in Hn. destruct Hn as [_ Hn].
      assert (IH' := proj2 (IH a b) (conj Es Hn)). by injection IH' as -> -> ->.
Qed.

Lemma partition_not_found sep s : sep ∉ s → partition sep s = (s, false, []).
Proof.
  induction s as [|c s IH]; [done|]. intros [Hne Hn]%not_elem_of_cons. cbn [partition].
  rewrite (proj2 (N.eqb_neq c sep)) by done. by rewrite IH.
Qed.

Lemma partition_missing sep s a b : partition sep s = (a, false, b) → a = s ∧ b = [] ∧ sep ∉ s.
Proof.
  intros E. destruct (decide (sep ∈ s)) as [Hin|Hn].
  - exfalso. destruct (list_elem_of_split_l s sep Hin) as (l1 & l2 & -> & Hn).
    by rewrite (proj2 (partition_found sep _ l1 l2) (conj eq_refl Hn)) in E.
  - rewrite partition_not_found in E by done. by injection E as <- <-.
Qed.

Lemma split_netloc_spec url n rest :
  split_netloc url = (n, rest)
  ↔ url = n ++ rest ∧ forallb (λ c, negb (is_delimiter c)) n = true ∧ tail_ok rest.
Proof.
  revert n rest. induction url as [|c url IH]; intros n rest; cbn [split_netloc].
  { split; [intros [= <- <-]; repeat split; by left|].
    intros (E & _ & _). symmetry in E. by apply app_nil in E as [-> ->]. }
  fold (is_delimiter c). destruct (is_delimiter c) eqn:D.
  - split; [intros [= <- <-]; repeat split; right; eauto|].
    intros (E & Hn & _). destruct n as [|d n]; [by rewrite E|].
    injection E as -> _. cbn in Hn. by rewrite D in Hn.
  - destruct (split_netloc url) as [n' r'] eqn:E. split.
    + intros [= <- <-]. destruct (proj1 (IH n' r') eq_refl) as (-> & Hn & Ht).
      repeat split; [|done]. cbn. by rewrite D, Hn.
    + intros (Eu & Hn & Ht). destruct n as [|d n].
      { destruct Ht as [->|(e & r & -> & De)]; [done|]. injection Eu as -> _. congruence. }
      injection Eu as -> Eu. cbn in Hn. apply andb_true_iff in Hn as [_ Hn].
      assert (IH' := proj2 (IH n rest) (conj Eu (conj Hn Ht))). by injection IH' as -> ->.
Qed.

Lemma scheme_no_colon s : forallb scheme_char s = true → COLON ∉ s.
Proof.
  rewrite forallb_forall. intros Hs Hin%list_elem_of_In. by apply Hs in Hin.
Qed.

Lemma split_scheme_found s after :
  scheme_ok s → split_scheme (s ++ COLON :: after) = (lower s, after).
Proof.
  intros [(c & s' & -> & Hc) Hs]. unfold split_scheme.
  rewrite (proj2 (partition_found COLON _ (c :: s') after)).
  - by rewrite Hc, Hs.
  - split; [done|]. by apply scheme_no_colon.
Qed.

Lemma split_scheme_inv url sc after :
  split_scheme url = (sc, after) → sc ≠ [] →
  ∃ s, url = s ++ COLON :: after ∧ scheme_ok s ∧ sc = lower s.
Proof.
  unfold split_scheme. destruct (partition COLON url) as [[s found] b] eqn:E.
  destruct s as [|c s]; [by intros [= <- <-]|].
  destruct (found && is_letter c && forallb scheme_char (c :: s)) eqn:C; [|by intros [= <- <-]].
  apply andb_true_iff in C as [[-> Hc]%andb_true_iff Hs]. intros [= <- <-] _.
  apply partition_found in E as [-> _]. exists (c :: s). split; [done|]. split; [|done].
  split; eauto.
Qed.

Definition authority_ok (authority : pystr) : Prop :=
  brackets_ok authority = true ∧ checknetloc authority = true.

Lemma urlparse_parts url s authority rest :
  url_parts url s authority rest → authority_ok authority →
  urlparse url = Ret {| scheme := lower s; netloc := authority;
                        fragment := (partition HASH rest).2 |}.
Proof.
  intros (E & Hs & Ha & Ht) [Hb Hc]. unfold urlparse. rewrite E. unfold SEP.
  cbn [app]. rewrite split_scheme_found by done. cbv beta iota zeta.
  change SLASH with 47. cbv beta iota.
  rewrite (proj2 (split_netloc_spec (authority ++ rest) authority rest)) by done.
  by rewrite Hb, Hc.
Qed.

Lemma urlparse_inv url r :
  urlparse url = Ret r → scheme r ≠ [] → netloc r ≠ [] →
  ∃ s rest, url_parts url s (netloc r) rest ∧ authority_ok (netloc r)
    ∧ scheme r = lower s ∧ fragment r = (partition HASH rest).2.
Proof.
  unfold urlparse. destruct (split_scheme (clean_url url)) as [sc after] eqn:Es.
  destruct (match after with 47 :: 47 :: url' => split_netloc url' | _ => ([], after) end)
    as [n rest] eqn:En.
  destruct (negb (brackets_ok n) || negb (checknetloc n)) eqn:C; [done|].
  apply orb_false_iff in C as [Hb%negb_false_iff Hc%negb_false_iff].
  intros [= <-]. cbn. intros Hsc Hn.
  destruct (split_scheme_inv _ _ _ Es Hsc) as (s & Ec & Hs & ->).
  assert (∃ u, after = 47 :: 47 :: u ∧ split_netloc u = (n, rest)) as (u & -> & Eu).
  { repeat match goal with
    | H : (match ?x with _ => _ end) = _ |- _ => destruct x; try (by injection H as <- _)
    end. eauto. }
  apply split_netloc_spec in Eu as (-> & Hd & Ht). exists s, rest.
  split; [|done]. split; [|done]. by rewrite Ec.
Qed.

(** What the authority names: its host, and no user information. *)
Definition approved (environment s authority : pystr) : Prop :=
  hostname authority ≠ [] ∧
  (lower s = HTTPS
   ∨ environment ≠ PRODUCTION ∧ lower s = HTTP ∧ hostname authority ∈ loopback_hosts).

Lemma accepted_shape environment sc host (refused : exn) :
  (if bool_decide (sc = HTTPS) && negb (is_empty host) then Ret tt
   else if negb (bool_decide (environment = PRODUCTION)) && bool_decide (sc = HTTP)
           && bool_decide (host ∈ loopback_hosts) then Ret tt
   else Exc refused) = Ret tt
  ↔ host ≠ [] ∧ (sc = HTTPS ∨ environment ≠ PRODUCTION ∧ sc = HTTP ∧ host ∈ loopback_hosts).
Proof.
  unfold is_empty.
  destruct (decide (host = [])) as [->|Hh].
  - assert (E : bool_decide ([] ∈ loopback_hosts) = false) by reflexivity.
    rewrite E, (bool_decide_eq_true_2 ([] = [])) by done. cbn [negb].
    rewrite !andb_false_r. (cbn; intuition congruence).
  - rewrite (bool_decide_eq_false_2 (host = [])) by done. cbn [negb]. rewrite andb_true_r.
    destruct (bool_decide_reflect (sc = HTTPS)); [(cbn; intuition congruence)|].
    destruct (bool_decide_reflect (environment = PRODUCTION)); [(cbn; intuition congruence)|].
    destruct (bool_decide_reflect (sc = HTTP)); [|(cbn; intuition congruence)].
    destruct (bool_decide_reflect (host ∈ loopback_hosts)); (cbn; intuition congruence).
Qed.

Lemma validate_endpoint_exact url environment :
  _validate_endpoint url environment = Ret tt
  ↔ ∃ s authority rest, url_parts url s authority rest ∧ authority_ok authority
      ∧ has_userinfo authority = false ∧ (partition HASH rest).2 = []
      ∧ approved environment s authority.
Proof.
  split.
  - unfold _validate_endpoint. destruct (urlparse url) as [r|e] eqn:E; [|done].
    destruct (has_userinfo (netloc r) || negb (is_empty (fragment r))) eqn:F; [done|].
    apply orb_false_iff in F as [Hu Hf%negb_false_iff%bool_decide_eq_true].
    intros Hacc.
    assert (hostname (netloc r) ≠ [] ∧ (scheme r = HTTPS ∨ environment ≠ PRODUCTION
      ∧ scheme r = HTTP ∧ hostname (netloc r) ∈ loopback_hosts)) as [Hh Hs].
    { exact (proj1 (accepted_shape _ _ _ _) Hacc). }
    destruct (urlparse_inv url r E) as (s & rest & Hp & Ha & Es & Ef).
    + intros Z. rewrite Z in Hs. by destruct Hs as [Hs|(_ & Hs & _)].
    + intros Z. rewrite Z in Hh. by apply Hh.
    + exists s, (netloc r), rest. rewrite <- Ef. split_and!; try done.
      split; [done|]. by rewrite <- Es.
  - intros (s & a & rest & Hp & Ha & Hu & Hf & Hh & Hs). unfold _validate_endpoint.
    rewrite (urlparse_parts url s a rest) by done. cbn [netloc fragment scheme].
    rewrite Hu, Hf. cbn [negb is_empty orb]. apply accepted_shape. done.
Qed.

Lemma url_parts_unique url s a r s2 a2 r2 :
  url_parts url s a r → url_parts url s2 a2 r2 → s = s2 ∧ a = a2.
Proof.
  intros (E & [_ Hs] & Ha & Ht) (E2 & [_ Hs2] & Ha2 & Ht2). rewrite E in E2.
  assert (P1 := proj2 (partition_found COLON (s ++ SEP ++ a ++ r) s (SLASH :: SLASH :: a ++ r))
                  (conj eq_refl (scheme_no_colon s Hs))).
  assert (P2 := proj2 (partition_found COLON _ s2 (SLASH :: SLASH :: a2 ++ r2))
                  (conj E2 (scheme_no_colon s2 Hs2))).
  rewrite P1 in P2. injection P2 as -> Er. split; [done|].
  assert (N1 := proj2 (split_netloc_spec (a ++ r) a r) (conj eq_refl (conj Ha Ht))).
  assert (N2 := proj2 (split_netloc_spec (a ++ r) a2 r2) (conj Er (conj Ha2 Ht2))).
  rewrite N1 in N2. by injection N2.
Qed.

(** ** Authorities that are a host and perhaps a port *)
Definition host_char (c : N) : bool :=
  (33 <=? c) && (c <? 128)
  && forallb (λ d, negb (c =? d)) [SLASH; QUESTION; HASH; AT; OPEN_BR; CLOSE_BR; 37; COLON].

Definition port_ok (port : pystr) : Prop :=
  port = [] ∨ ∃ p, port = COLON :: p ∧ forallb host_char p = true.

Lemma host_char_not d s :
  forallb host_char s = true → host_char d = false → d ∉ s.
Proof. rewrite forallb_forall. intros Hs Hd Hin%list_elem_of_In. apply Hs in Hin. congruence. Qed.

Lemma port_char_not d port : port_ok port → host_char d = false → d ≠ COLON → d ∉ port.
Proof.
  intros [->|(p & -> & Hp)] Hd Hne; [apply not_elem_of_nil|]. rewrite not_elem_of_cons.
  split; [done|]. by apply host_char_not.
Qed.

Lemma rpartition_not_found sep s : sep ∉ s → rpartition sep s = ([], false, s).
Proof.
  intros Hn. unfold rpartition. rewrite partition_not_found; [done|].
  by rewrite list_elem_of_In, <- in_rev, <- list_elem_of_In.
Qed.

Lemma host_char_range c : host_char c = true → 33 <= c < 128.
Proof. unfold host_char. intros [H1 _]%andb_true_iff. lia. Qed.

Lemma delimiter_not_host c : is_delimiter c = true → host_char c = false.
Proof. unfold is_delimiter. intros [[->%N.eqb_eq| ->%N.eqb_eq]%orb_true_iff| ->%N.eqb_eq]%orb_true_iff; done. Qed.

Lemma lower_nonempty host :
  host ≠ [] → forallb host_char host = true → lower host ≠ [].
Proof.
  destruct host as [|c host]; [done|]. intros _ [Hc _]%andb_true_iff.
  apply host_char_range in Hc. unfold lower. cbn. unfold lower_char.
  destruct (is_upper_ascii c); [done|]. by destruct (N.ltb_spec c 128); [|lia].
Qed.

(** No user name and no password *)
Definition bare_authority (authority : pystr) : Prop :=
  AT ∉ authority
  ∨ ∃ host, AT ∉ host ∧ (authority = AT :: host ∨ authority = COLON :: AT :: host).

Lemma rpartition_found sep s a b :
  rpartition sep s = (a, true, b) → s = a ++ sep :: b ∧ sep ∉ b.
Proof.
  unfold rpartition. destruct (partition sep (rev s)) as [[x found] y] eqn:E.
  destruct found; [|done]. intros [= <- <-]. apply partition_found in E as [E Hn]. split.
  - rewrite <- (rev_involutive s), E, rev_app_distr. cbn. by rewrite <- app_assoc.
  - by rewrite list_elem_of_In, <- in_rev, <- list_elem_of_In.
Qed.

Lemma no_userinfo_bare authority : has_userinfo authority = false → bare_authority authority.
Proof.
  unfold has_userinfo. destruct (decide (AT ∈ authority)) as [Hin|]; [|by left].
  destruct (rpartition AT authority) as [[u found] h] eqn:E. destruct found.
  - destruct (partition COLON u) as [[name colon] password] eqn:P. cbn. intros Hu.
    apply rpartition_found in E as [-> Hn]. right. exists h. split; [done|].
    apply orb_false_iff in Hu as [->%negb_false_iff%bool_decide_eq_true
                                  ->%negb_false_iff%bool_decide_eq_true].
    destruct colon; [apply partition_found in P as [-> _]|apply partition_missing in P as (<- & _ & _)];
      auto.
  - intros _. unfold rpartition in E.
    destruct (partition AT (rev authority)) as [[x f] y] eqn:P. destruct f; [done|].
    apply partition_missing in P as (_ & _ & P). destruct P.
    by rewrite list_elem_of_In, <- in_rev, <- list_elem_of_In.
Qed.

Section plain.
Context (host port : pystr).
Hypothesis Hhost : forallb host_char host = true.
Hypothesis Hport : port_ok port.

Lemma plain_not d : host_char d = false → d ≠ COLON → d ∉ host ++ port.
Proof.
  intros Hd Hne. rewrite elem_of_app. intros [Hin|Hin]; revert Hin.
  - by apply host_char_not.
  - by apply port_char_not.
Qed.

Lemma plain_chars d : d ∈ host ++ port → host_char d = true ∨ d = COLON.
Proof.
  intros Hin. destruct (decide (d = COLON)) as [->|Hne]; [by right|].
  destruct (host_char d) eqn:E; [by left|]. by apply plain_not in Hin.
Qed.

Lemma plain_hostname : hostname (host ++ port) = lower host.
Proof.
  unfold hostname, host_of. rewrite rpartition_not_found by by apply plain_not.
  cbn [snd]. rewrite (partition_not_found OPEN_BR) by by apply plain_not.
  assert (E : (partition COLON (host ++ port)).1.1 = host).
  { destruct Hport as [->|(p & -> & _)].
    - rewrite app_nil_r, partition_not_found; [done|]. by apply host_char_not.
    - by rewrite (proj2 (partition_found COLON _ host p)) by (split; [done|by apply host_char_not]). }
  rewrite E, partition_not_found by by apply host_char_not. apply app_nil_r.
Qed.

Lemma plain_no_userinfo : has_userinfo (host ++ port) = false.
Proof. unfold has_userinfo. by rewrite rpartition_not_found by by apply plain_not. Qed.

Lemma plain_authority_ok : authority_ok (host ++ port).
Proof.
  split.
  - unfold brackets_ok.
    rewrite (proj1 (not_true_iff_false (contains [OPEN_BR] _)))
      by by (rewrite contains_char_spec; apply plain_not).
    by rewrite (proj1 (not_true_iff_false (contains [CLOSE_BR] _)))
      by by (rewrite contains_char_spec; apply plain_not).
  - unfold checknetloc.
    assert (forallb (λ c, c <? 128) (host ++ port) = true) as ->; [|done].
    apply forallb_forall. intros c [Hc| ->]%list_elem_of_In%plain_chars; [|done].
    apply host_char_range in Hc. lia.
Qed.

Lemma plain_no_delimiter : forallb (λ c, negb (is_delimiter c)) (host ++ port) = true.
Proof.
  apply forallb_forall. intros c [Hc| ->]%list_elem_of_In%plain_chars; [|done].
  destruct (is_delimiter c) eqn:D; [|done]. apply delimiter_not_host in D. congruence.
Qed.

Lemma plain_clean : Forall (λ c, ¬ (c = 9 ∨ c = 13 ∨ c = 10)) (host ++ port).
Proof.
  apply Forall_forall. intros c [Hc| ->]%plain_chars; [|by intros [|[|]]].
  apply host_char_range in Hc. lia.
Qed.
End plain.

Lemma scheme_clean s : forallb scheme_char s = true → Forall (λ c, 32 < c) s.
Proof.
  rewrite forallb_forall, Forall_forall. intros Hs c Hc%list_elem_of_In%Hs.
  unfold scheme_char, is_letter, is_upper_ascii, is_lower_ascii, is_digit_ascii in Hc. lia.
Qed.

Lemma filter_all (P : N → Prop) `{∀ c, Decision (P c)} s : Forall P s → filter P s = s.
Proof. induction 1 as [|c s Hc _ IH]; [done|]. by rewrite filter_cons_True, IH. Qed.

Lemma tail_ok_filter (P : N → Prop) `{∀ c, Decision (P c)} rest :
  (∀ c, is_delimiter c = true → P c) → tail_ok rest → tail_ok (filter P rest).
Proof.
  intros HP [->|(c & r & -> & Hc)]; [by left|]. right. exists c, (filter P r).
  by rewrite filter_cons_True by by apply HP.
Qed.

Lemma plain_parts s host port rest :
  scheme_ok s → forallb host_char host = true → port_ok port → tail_ok rest → HASH ∉ rest →
  ∃ rest', url_parts (s ++ SEP ++ host ++ port ++ rest) s (host ++ port) rest' ∧ HASH ∉ rest'.
Proof.
  intros Hs Hh Hp Ht Hn. set (P := λ c : N, ¬ (c = 9 ∨ c = 13 ∨ c = 10)).
  exists (filter P rest). split; [|by intros [_ Hin]%list_elem_of_filter].
  destruct Hs as [(c & s' & Es & Hc) Hs].
  assert (Hall : Forall (λ c, 32 < c) s) by by apply scheme_clean.
  split_and!.
  - unfold clean_url. rewrite Es at 1. cbn [app lstrip_by].
    assert ((c <=? 32) = false) as ->
      by by (unfold is_letter, is_upper_ascii, is_lower_ascii in Hc; lia).
    change (c :: s' ++ ?t) with ((c :: s') ++ t). rewrite <- Es.
    rewrite !filter_app. rewrite (filter_all _ s) by (eapply Forall_impl; [done|cbn; lia]).
    change (filter _ SEP) with SEP.
    rewrite (app_assoc (filter _ host)), <- filter_app, (filter_all _ (host ++ port))
      by by apply plain_clean. done.
  - split; [|done]. eauto.
  - by apply plain_no_delimiter.
  - apply tail_ok_filter; [|done]. unfold is_delimiter, P, SLASH, QUESTION, HASH. lia.
Qed.

(** An endpoint that is a scheme, a host with an optional port and a path without a
    fragment is accepted exactly when the scheme, in any case, is https, or
    when the environment is not production, the scheme is http and the host
    is a loopback name. *)
Theorem plain_endpoint s host port rest environment :
  scheme_ok s → host ≠ [] → forallb host_char host = true → port_ok port →
  tail_ok rest → HASH ∉ rest →
  _validate_endpoint (s ++ SEP ++ host ++ port ++ rest) environment = Ret tt
  ↔ lower s = HTTPS
    ∨ environment ≠ PRODUCTION ∧ lower s = HTTP ∧ lower host ∈ loopback_hosts.
Proof.
  intros Hs Hne Hh Hp Ht Hn.
  destruct (plain_parts s host port rest) as (rest' & Hparts & Hn'); try done.
  rewrite validate_endpoint_exact. unfold approved. split.
  - intros (s2 & a & r & Hparts2 & _ & _ & _ & _ & Hok).
    destruct (url_parts_unique _ _ _ _ _ _ _ Hparts Hparts2) as [<- <-].
    by rewrite plain_hostname in Hok.
  - intros Hok. exists s, (host ++ port), rest'.
    rewrite plain_hostname, partition_not_found by done.
    split_and!; try done; [by apply plain_authority_ok|by apply plain_no_userinfo|].
    by apply lower_nonempty.
Qed.

Lemma setting_given (v : option pystr) (d : pystr) :
  unset v = false → v = Some (default d v) ∧ default d v ≠ [].
Proof. destruct v as [v|]; [|done]. unfold unset, is_empty. cbn. intros Hv%bool_decide_eq_false. done. Qed.

(** C25: A configuration that is loaded names an endpoint to which the API key may go: the URL
    is a scheme, an authority without user name or password and a rest without
    a fragment; the scheme is https with a host, or, outside production only,
    http with a loopback host.  In production none of the endpoint, the key
    and the model is a default or empty. *)
Theorem accepted_configuration env cfg :
  from_environment env = Ret cfg →
  environment cfg = lower (default (py "development") (APP_ENV env))
  ∧ (environment cfg = PRODUCTION →
     (LLM_ENDPOINT env = Some (endpoint cfg) ∧ endpoint cfg ≠ [])
     ∧ (LLM_API_KEY env = Some (api_key cfg) ∧ api_key cfg ≠ [])
     ∧ (LLM_MODEL env = Some (model cfg) ∧ model cfg ≠ []))
  ∧ ∃ s authority rest, url_parts (endpoint cfg) s authority rest
     ∧ bare_authority authority ∧ (partition HASH rest).2 = []
     ∧ approved (environment cfg) s authority.
Proof.
  unfold from_environment. set (e := lower _).
  destruct (bool_decide (e = PRODUCTION) && _) eqn:C; [done|].
  destruct (_validate_endpoint _ e) as [[]|] eqn:V; [|done]. intros [= <-]. cbn.
  split; [done|]. split.
  - intros ->. rewrite bool_decide_eq_true_2 in C by done. cbn in C.
    apply orb_false_iff in C as [[C1 C2]%orb_false_iff C3].
    by split_and!; apply setting_given.
  - apply validate_endpoint_exact in V as (s & a & r & Hp & _ & Hu & Hf & Hok).
    exists s, a, r. split_and!; try done. by apply no_userinfo_bare.
Qed.
End config.

Module Demo.
#[local] Existing Instance plain_unicode.
Definition check (url environment : string) : bool :=
  match _validate_endpoint (λ s, s) (py url) (py environment) with Ret _ => true | Exc _ => false end.

Example decisions :
  map (λ u, (check u "production", check u "development"))
    ["https://api.example.com/v1"; "HTTPS://api.example.com"; "http://localhost:11434/api/generate";
     "http://[::1]:8080/x"; "http://api.example.com/"; "https://user:pw@api.example.com/";
     "https://api.example.com/#f"; "https:///x"; "ftp://localhost/"; "http://localhost@evil.org/";
     "https://[::1"; "//localhost"]
  = [(true, true); (true, true); (false, true); (false, true); (false, false); (false, false);
     (false, false); (false, false); (false, false); (false, false); (false, false);
     (false, false)].
Proof. vm_compute. reflexivity. Qed.

(** A malformed authority escapes as the parser's own [ValueError]. *)
Example malformed_escapes :
  _validate_endpoint (λ s, s) (py "https://[::1") (py "production") = Exc invalid_url.
Proof. vm_compute. reflexivity. Qed.
End Demo.

Lemma plain_endpoint_witness :
  @_validate_endpoint plain_unicode (λ s, s) (py "http://localhost:11434/api/generate")
    (py "development") = Ret tt.
Proof.
  apply (@plain_endpoint plain_unicode (λ s, s) (py "http") (py "localhost") (py ":11434")
           (py "/api/generate") (py "development")).
  - split; [|by vm_compute]. by eexists _, _.
  - by vm_compute.
  - by vm_compute.
  - right. by exists (py "11434").
  - right. by eexists _, _.
  - apply (bool_decide_unpack (HASH ∉ py "/api/generate")). by vm_compute.
  - right. split_and!; [by vm_compute|by vm_compute|].
    apply (bool_decide_unpack (@lower plain_unicode (py "localhost") ∈ loopback_hosts)).
    by vm_compute.
Defined.

Lemma accepted_configuration_witness :
  let env := {| APP_ENV := Some (py "Production"); LLM_ENDPOINT := Some (py "https://llm.example.com/v1");
                LLM_API_KEY := Some (py "key"); LLM_MODEL := Some (py "m") |} in
  let cfg := {| endpoint := py "https://llm.example.com/v1"; api_key := py "key"; model := py "m";
                environment := PRODUCTION |} in
  from_environment (H := plain_unicode) (λ s, s) env = Ret cfg
  ∧ api_key cfg ≠ []
  ∧ ∃ s authority rest, url_parts (endpoint cfg) s authority rest ∧ bare_authority authority.
Proof.
  intros env cfg.
  assert (E : from_environment (H := plain_unicode) (λ s, s) env = Ret cfg)
    by (vm_compute; reflexivity).
  destruct (@accepted_configuration plain_unicode (λ s, s) env cfg E)
    as (_ & Hset & s & a & r & Hp & Hb & _).
  split; [exact E|]. split; [by apply Hset|]. by exists s, a, r.
Defined.
