(* ===== verification/App.v ===== *)
(** * Startup (main.py)

    [lifespan] up to its [yield]: the tables are created when they are missing
    ([create_all], SQLAlchemy's), the workspace directory is made, the
    configuration is read, the jobs an earlier process left are failed and the
    services are put together.  The HTTP client and the shutdown only open and
    close connections. *)
From S2P Require Import Prelude PyStr Exceptions FileSystem FsFacts Realpath FsOps Storage StorageProps.
From S2P Require Import Schemas Database DatabaseFacts Repository World JobFacts Gate Api ApiFacts Config.
Local Open Scope eff_scope.

Definition WORKSPACES : pystr := Eval vm_compute in py ".workspaces".

(** [LocalStorageService(base_dir)]; [project_root] is
    [Path(__file__).parent.parent.resolve()]. *)
Definition new_storage (project_root : apath) (base_dir : option apath) : eff exn fs apath :=
  m <- gets id ;;
  base <- match base_dir with
          | None => ret (join_path project_root WORKSPACES)
          | Some p => of_outcome (resolve m p)
          end ;;
  mkdir_p base ;;;
  ret base.

(** [CLIExecutionRunner(base_dir)], with [os.getenv("OPENSCAD_BIN_PATH")] *)
Record runner_settings := RunnerSettings { _openscad_bin : pystr; runner_base_dir : apath }.

Definition new_runner (bin_path : option pystr) (project_root : apath) (base_dir : option apath)
    : eff exn fs runner_settings :=
  m <- gets id ;;
  base <- match base_dir with
          | None => ret (join_path project_root WORKSPACES)
          | Some p => of_outcome (resolve m p)
          end ;;
  ret (RunnerSettings (default (py "openscad") bin_path) base).

(** What the application keeps for its requests *)
Record app_state := AppState {
  storage_base : apath;
  orchestrator_config : OrchestratorConfig;
  cli_settings : runner_settings;
  orchestrator_gate : gate
}.

Section startup.
Context `{Hu : UnicodeData} (nfkc : pystr → pystr) {X : Type}.
Context (create_all : eff exn database unit) (project_root : apath).

Definition lifespan (env : environ) (bin_path : option pystr) (utcnow : Z)
    : eff exn (world X) app_state :=
  in_db create_all ;;;
  base <- in_fs (new_storage project_root None) ;;
  config <- of_outcome (from_environment nfkc env) ;;
  in_db (recover None utcnow) ;;;
  runner <- in_fs (new_runner bin_path project_root None) ;;
  ret (AppState base config runner (new_gate MAX_CONCURRENT_JOBS)).

Lemma with_dirs_ready base (Hbase : normal base) m m' :
  fs_wf m' → with_dirs base m m' → workspace_ready base m'.
Proof.
  intros Hwf Hd. destruct base as [|name p _] using rev_ind; [done|].
  apply (existing_workspace_ready _ Hbase m' p name); [done|done| |].
  - intros q Hq. right. rewrite (Hd q). by rewrite decide_True.
  - rewrite (Hd _). by rewrite decide_True.
Qed.

Lemma new_storage_run m :
  fs_wf m → normal (join_path project_root WORKSPACES) →
  clear m (join_path project_root WORKSPACES) →
  ∃ m', new_storage project_root None m = (m', Ret (join_path project_root WORKSPACES))
    ∧ with_dirs (join_path project_root WORKSPACES) m m'
    ∧ workspace_ready (join_path project_root WORKSPACES) m'.
Proof.
  intros Hwf Hn Hc. destruct (mkdir_p_ok m _ Hwf Hn Hc) as (m' & Hm & Hd).
  exists m'. split; [|split; [done|]].
  2: { apply (with_dirs_ready _ Hn m m'); [|done].
       pose proof (mkdir_p_wf (join_path project_root WORKSPACES) m Hwf) as Hwf'.
       by rewrite Hm in Hwf'. }
  unfold new_storage.
  rewrite (ebind_ret_run _ _ m m m) by done.
  rewrite (ebind_ret_run _ _ m m (join_path project_root WORKSPACES)) by done.
  by rewrite (ebind_ret_run _ _ m m' tt).
Qed.

Lemma in_db_run {A} (m : eff exn database A) (w : world X) d' o :
  m (w_db w) = (d', o) → in_db m w = (set_db d' w, o).
Proof. intros Hm. unfold in_db, zoom. by rewrite Hm. Qed.

Lemma in_fs_run {A} (m : eff exn fs A) (w : world X) f' o :
  m (w_fs w) = (f', o) → in_fs m w = (set_fs f' w, o).
Proof. intros Hm. unfold in_fs, zoom. by rewrite Hm. Qed.

Lemma failed_not_stale cutoff now j : is_stale cutoff (failed_at now j) = false.
Proof. reflexivity. Qed.

Lemma recovered_none_stale cutoff ids d d' :
  (∀ id, id ∈ ids ↔ ∃ j, jobs (committed d) !! id = Some j ∧ is_stale cutoff j = true) →
  recovered ids d d' →
  ∀ id j, jobs (committed d') !! id = Some j → is_stale cutoff j = false.
Proof.
  intros Hids (_ & _ & _ & Hother & Hfailed & _) id j Hj.
  destruct (decide (id ∈ ids)) as [Hin|Hout].
  - destruct (Hfailed id Hin) as (j0 & now & _ & _ & Hj'). rewrite Hj in Hj'.
    injection Hj' as ->. apply failed_not_stale.
  - destruct (is_stale cutoff j) eqn:Hs; [|done]. rewrite Hother in Hj by done.
    destruct Hout. apply Hids. eauto.
Qed.

(** The steps of the startup that can fail, and what it returns otherwise *)
Lemma lifespan_outcome env bin_path utcnow (w : world X) :
  match lifespan env bin_path utcnow w with
  | (_, Ret st) =>
      ∃ cfg, from_environment nfkc env = Ret cfg ∧
        st = AppState (join_path project_root WORKSPACES) cfg
          (RunnerSettings (default (py "openscad") bin_path) (join_path project_root WORKSPACES))
          (new_gate MAX_CONCURRENT_JOBS)
  | (_, Exc e) =>
      (∃ d', create_all (w_db w) = (d', Exc e)) ∨
      (∃ m', new_storage project_root None (w_fs w) = (m', Exc e)) ∨
      from_environment nfkc env = Exc e ∨
      (∃ d d', create_all (w_db w) = (d, Ret tt) ∧ recover None utcnow d = (d', Exc e))
  end.
Proof.
  unfold lifespan, ebind at 1, in_db at 1, zoom at 1.
  destruct (create_all (w_db w)) as [d1 [[]|e]] eqn:Hc; [|left; by eexists].
  unfold ebind at 1, in_fs at 1, zoom at 1. change (w_fs (set_db d1 w)) with (w_fs w).
  destruct (new_storage project_root None (w_fs w)) as [m1 [base|e]] eqn:Hst; [|right; left; by eexists].
  assert (base = join_path project_root WORKSPACES) as ->.
  { unfold new_storage, ebind, gets, ret in Hst. simpl in Hst.
    destruct (mkdir_p _ _) as [m2 [[]|e]]; by injection Hst. }
  destruct (from_environment nfkc env) as [cfg|e]; [|right; right; by left].
  unfold ebind at 1, of_outcome, ebind at 1, in_db, zoom. set (w1 := set_fs m1 _).
  destruct (recover None utcnow (w_db w1)) as [d2 [n|e]] eqn:Hr; [|do 3 right; by exists d1, d2].
  by exists cfg.
Qed.

(** C24: Startup.  Whatever the database and the disk do, startup fails only when the
    tables cannot be created, the workspace directory cannot be made, the configuration is refused
    or the recovery of stale jobs fails, with that error; when it returns, it has the workspace
    directory, the configuration it read, a runner that works in that same directory and an empty
    gate.  When nothing is in the way of the workspace directory, the database answers, nobody else
    writes to it and creating the tables keeps what is stored, then it either refuses a bad
    configuration and leaves the jobs alone, or it serves: the workspace directory is in place
    (requests find it ready), and no job is left RUNNING that has not been touched for fifteen
    minutes: those were failed with one event each and nothing else changed. *)
Theorem startup env bin_path utcnow (w : world X) :
  let base := join_path project_root WORKSPACES in
  let cutoff := (utcnow - STALE_JOB_MINUTES * 60)%Z in
  let started cfg := AppState base cfg (RunnerSettings (default (py "openscad") bin_path) base)
    (new_gate MAX_CONCURRENT_JOBS) in
  match (lifespan env bin_path utcnow w).2 with
  | Ret st => ∃ cfg, from_environment nfkc env = Ret cfg ∧ st = started cfg
  | Exc e =>
      (∃ d', create_all (w_db w) = (d', Exc e)) ∨
      (∃ m', new_storage project_root None (w_fs w) = (m', Exc e)) ∨
      from_environment nfkc env = Exc e ∨
      (∃ d d', create_all (w_db w) = (d, Ret tt) ∧ recover None utcnow d = (d', Exc e))
  end ∧
  ((∀ d, healthy d → ∃ d', create_all d = (d', Ret tt) ∧ same_contents d d') →
   fs_wf (w_fs w) → normal base → clear (w_fs w) base → healthy (w_db w) →
   ∃ w', with_dirs base (w_fs w) (w_fs w') ∧ workspace_ready base (w_fs w') ∧
    match from_environment nfkc env with
    | Exc e => lifespan env bin_path utcnow w = (w', Exc e) ∧ same_contents (w_db w) (w_db w')
    | Ret cfg =>
        lifespan env bin_path utcnow w = (w', Ret (started cfg))
        ∧ (∃ d ids, same_contents (w_db w) d ∧ recovered ids d (w_db w') ∧
             ∀ id, id ∈ ids ↔
               ∃ j, jobs (committed (w_db w)) !! id = Some j ∧ is_stale cutoff j = true)
        ∧ (∀ id j, jobs (committed (w_db w')) !! id = Some j → is_stale cutoff j = false)
    end).
Proof.
  intros base cutoff started. split.
  { pose proof (lifespan_outcome env bin_path utcnow w) as Ho.
    by destruct (lifespan env bin_path utcnow w) as [w' []]. }
  intros create_all_keeps Hwf Hn Hc Hh.
  destruct (create_all_keeps (w_db w) Hh) as (d1 & H1 & Hs1).
  destruct (new_storage_run (w_fs w) Hwf Hn Hc) as (m1 & H2 & Hd & Hr).
  assert (Hh1 : healthy d1) by by apply Hs1.
  destruct (recover_stale_run cutoff d1 Hh1) as (ids & d2 & _ & Hids & Hrun & Hrec).
  unfold lifespan.
  rewrite (ebind_ret_run _ _ _ _ _ (in_db_run _ _ _ _ H1)).
  rewrite (ebind_ret_run _ _ _ _ _ (in_fs_run _ (set_db d1 w) _ _ H2)).
  destruct (from_environment nfkc env) as [cfg|e].
  - exists (set_db d2 (set_fs m1 (set_db d1 w))). split; [done|]. split; [done|].
    rewrite (ebind_ret_run _ _ _ (set_fs m1 (set_db d1 w)) cfg) by done.
    rewrite (ebind_ret_run _ _ _ _ _ (in_db_run _ (set_fs m1 (set_db d1 w)) _ _ Hrun)).
    rewrite (ebind_ret_run _ _ _ (set_db d2 (set_fs m1 (set_db d1 w)))
      (RunnerSettings (default (py "openscad") bin_path) base)) by (by destruct w).
    split_and!; [done| |by eapply recovered_none_stale].
    exists d1, ids. destruct Hs1 as (Hcom & Hrest). rewrite <- Hcom. done.
  - by exists (set_fs m1 (set_db d1 w)).
Qed.
End startup.

Module Demo.
#[local] Existing Instance plain_unicode.
Definition env : environ :=
  {| APP_ENV := None; LLM_ENDPOINT := None; LLM_API_KEY := None; LLM_MODEL := None |}.
Definition w : world unit := World StorageProps.Demo2.m0 Repository.Demo.quiet [] tt.
Definition root : apath := StorageProps.Demo2.base.

Lemma no_missing_tables d :
  healthy d → ∃ d', ret tt d = (d', Ret tt : outcome exn unit) ∧ same_contents d d'.
Proof.
  intros Hh. exists d. split; [done|]. split_and!; [done..|lia|by apply healthy_isolated|done].
Qed.

Lemma workspaces_clear : clear (w_fs w) (join_path root WORKSPACES).
Proof.
  intros q Hq. apply prefix_snoc_inv with (p := root) in Hq as [->|Hq]; [left; reflexivity|].
  apply prefix_snoc_inv with (p := []) in Hq as [->|Hq]; [right; reflexivity|].
  apply prefix_nil_inv in Hq as ->. right. reflexivity.
Qed.

Example one_job_recovered :
  (lifespan (λ s, s) (ret tt) root env None 5000 w).2
  = Ret (AppState (root ++ [WORKSPACES])
      {| endpoint := py "http://localhost:11434/api/generate"; api_key := py "development-only";
         model := py "local-model"; environment := py "development" |}
      (RunnerSettings (py "openscad") (root ++ [WORKSPACES])) (new_gate 2)).
Proof. vm_compute. reflexivity. Qed.
End Demo.

Lemma startup_witness :
  ∃ w', lifespan (Hu := plain_unicode) (λ s, s) (ret tt) Demo.root Demo.env None 5000 Demo.w
        = (w', (lifespan (Hu := plain_unicode) (λ s, s) (ret tt) Demo.root Demo.env None 5000 Demo.w).2)
    ∧ ∀ id j, jobs (committed (w_db w')) !! id = Some j → is_stale 4100 j = false.
Proof.
  assert (Hcreate : ∀ d, healthy d → ∃ d', ret tt d = (d', Ret tt : outcome exn unit) ∧ same_contents d d')
    by exact Demo.no_missing_tables.
  assert (Hcfg : ∃ cfg, from_environment (H := plain_unicode) (λ s, s) Demo.env = Ret cfg)
    by (eexists; vm_compute; reflexivity).
  destruct (@startup plain_unicode (λ s, s) unit (ret tt) Demo.root Demo.env None 5000 Demo.w)
    as [_ Hgood]. destruct Hgood as (w' & _ & _ & H).
  - exact Hcreate.
  - apply StorageProps.Demo2.demo2_tidy.
  - apply (bool_decide_unpack (normal (join_path Demo.root WORKSPACES))). vm_compute. exact I.
  - exact Demo.workspaces_clear.
  - repeat constructor.
  - destruct Hcfg as (cfg & Hcfg). rewrite Hcfg in H. destruct H as (Hrun & _ & Hst).
    exists w'. split; [|exact Hst]. by rewrite Hrun.
Defined.
