(* ===== verification/System.v ===== *)
(** * The services put together (main.py, orchestrator/service.py)

    [lifespan] builds the orchestrator from the HTTP client, the plan parser,
    the CLI runner, the storage and the gate; FastAPI runs it for a posted job
    after the answer has been sent, and the client follows the job on its
    event stream.  This file composes the models of those parts and shows
    what a client sees from the request to the last event. *)
From S2P Require Import Prelude PyStr Exceptions FileSystem FsFacts Realpath FsOps Storage StorageProps.
From S2P Require Import Schemas Database DatabaseFacts Repository Retry World JobService JobFacts Executor.
From S2P Require Import Orchestrator OrchestratorFacts Streams Runner Json Client Parser Sse SseFacts Tokens Api ApiFacts.
Local Open Scope eff_scope.
Import Local.

#[local] Opaque uuid_str create_token.

Section system.
Context {X : Type} `{UnicodeData} {Hlim : RecursionLimit} (base_dir : apath) (guess_type : pystr → option pystr).
(** The HTTP service, [config.endpoint], [config.model], and pydantic's errors *)
Context (_endpoint _model : pystr) (post : json → eff exn (world X) http_reply).
Context (detail_msg : list (pystr * json) → pystr).
(** The operating system the tool runs on *)
Context (_openscad_bin : pystr) (str_oserror : exn → pystr).
Context (os : list pystr → world X → execution).
Context (sleep : Z → eff exn (world X) unit) (describe : exn → pystr).
(** The two ends of [self._gate.slot()] *)
Context (acquire release : eff exn (world X) unit).

Definition llm_client : LLMRequest → eff exn (world X) pystr :=
  generate_plan MAX_LLM_RESPONSE_BYTES _endpoint _model post.

Definition cli_runner : uuid → pystr → list pystr → eff exn (world X * session) Z :=
  Runner.run_tool base_dir _openscad_bin str_oserror os.

(** [app.state.orchestrator_service.run] *)
Definition orchestrator_service (job_id : uuid) : eff exn (world X) bool :=
  Orchestrator.run base_dir guess_type llm_client (parse_action_plan detail_msg) cli_runner
    sleep describe acquire release job_id.

(** The background tasks of a request, after its answer was sent *)
Definition run_tasks (s : server X) : server X :=
  let '(w, _) := for_each (sv_tasks s) (λ job_id, _b <- orchestrator_service job_id ;; ret tt)
                   (sv_world s) in
  Server w (sv_registry s) [].

(** ** The runner and the client leave the statuses of jobs alone *)
Lemma calm_persist j lines st : steps calm_conn (persist j lines st).
Proof using.
  unfold persist. apply steps_ebind; [apply _| |intros _; apply steps_ret, _].
  case_decide; [apply steps_ret, _|].
  apply steps_ebind; [apply _| |intros _; apply calm_commit].
  apply calm_add_all. apply Forall_fmap, Forall_true. by intros.
Qed.

Lemma calm_drain_read j chunk st : steps calm_conn (drain_read j chunk st).
Proof using.
  unfold drain_read. case_decide; [|apply calm_persist].
  apply steps_ebind; [apply _| |intros ?; apply steps_ret, _].
  case_decide; [apply steps_ret, _|apply calm_persist].
Qed.

Lemma calm_collect_streams j rds : steps calm_conn (_collect_streams j rds).
Proof using.
  unfold _collect_streams. apply steps_ebind; [apply _| |intros drains; case_match; apply steps_ret, _].
  generalize (λ _ : pipe, new_drain). induction rds as [|[p chunk] rds IH]; intros drains; simpl;
    [apply steps_ret, _|].
  destruct (at_eof _); [apply IH|].
  apply steps_ebind; [apply _|apply calm_drain_read|intros st; apply IH].
Qed.

Lemma calm_marker j ty msg : steps calm_conn (_write_system_marker j ty msg).
Proof using. unfold _write_system_marker. calm_parts. Qed.

Lemma calm_files {A} (m : eff exn fs A) : steps calm_ws (files (X := X) m).
Proof using. apply calm_on_world, calm_in_fs. Qed.

Lemma calm_run_in j ws x args :
  steps calm_ws (run_in (X := X) _openscad_bin str_oserror j ws x args).
Proof using.
  assert (steps calm_ws (timed_out (X := X) j)) as Hto.
  { apply steps_ebind; [apply _|apply calm_on_session, calm_marker|intros _; apply steps_raise, _]. }
  unfold run_in. cbv zeta.
  repeat first [ apply calm_files | apply Hto | apply calm_on_session, calm_collect_streams
    | apply steps_gets; apply _ | apply steps_ret; apply _ | apply steps_raise; apply _
    | apply steps_of_outcome; apply _ | apply steps_ebind; [apply _| |intros ?] | case_match ].
Qed.

Lemma calm_runner j tool args : steps calm_ws (cli_runner j tool args).
Proof using.
  unfold cli_runner, Runner.run_tool, _execute_with_timeout.
  apply steps_ebind; [apply _|apply steps_of_outcome, _|intros _].
  apply steps_ebind; [apply _|apply calm_files|intros ws].
  apply steps_ebind; [apply _|apply steps_gets, _|intros w].
  apply steps_ebind; [apply _|apply calm_files|intros _].
  apply steps_finally; [apply _|apply calm_run_in|apply calm_files].
Qed.

(** ** Nothing wakes a database that is still *)
Definition still_ws (ws ws' : world X * session) : Prop := still (w_db ws.1) (w_db ws'.1).

#[local] Instance still_ws_preorder : PreOrder still_ws.
Proof using. split; [by intros ws Hs|]. intros a b c. unfold still_ws. by etrans. Qed.

Lemma still_on_session {A} (m : eff exn conn A) :
  steps still_conn m → steps still_ws (on_session m).
Proof using.
  intros Hm [w s]. specialize (Hm (w_db w, s)). unfold on_session, zoom, still_ws. simpl in *.
  destruct (m (w_db w, s)) as [[d' s'] o]. exact Hm.
Qed.

Lemma still_query {A} (f : tables → A) : steps still_conn (query f).
Proof using. apply still_statement. intros c. simpl. reflexivity. Qed.

Lemma still_add r : steps still_conn (add r).
Proof using. intros c Hs. exact Hs. Qed.

Lemma still_create_job prompt parent : steps still_ws (create_job base_dir prompt parent).
Proof using.
  assert (∀ id, steps still_ws (refresh_job (X := X) id)) as Hr.
  { intros id. apply steps_ebind; [apply _|apply still_on_session, still_query|].
    intros [j|]; [apply steps_ret, _|apply steps_raise, _]. }
  unfold create_job. apply steps_ebind; [apply _| |intros id].
  { intros [[m d us x] ss] Hs. unfold on_world, zoom, fresh_uuid. by destruct us. }
  repeat first [ apply Hr | apply still_on_session, still_add | apply still_on_session, still_commit
    | apply steps_ret; apply _ | apply steps_ebind; [apply _| |intros ?] ].
  intros [[m d us x] ss] Hs. unfold on_world, in_fs, zoom. simpl. by destruct (create_workspace _ _ _).
Qed.

Lemma still_create_route hmac ts prompt (s : server X) :
  still (w_db (sv_world s)) (w_db (sv_world (create_job_route base_dir hmac ts prompt s).1)).
Proof using.
  unfold create_job_route, ebind. destruct (with_get_db _ s) as [s1 o] eqn:E.
  apply with_get_db_inv in E as (ss & E & _).
  pose proof (still_create_job prompt None (sv_world s, fresh_session)) as Hs. rewrite E in Hs.
  by destruct o as [[id job]|e].
Qed.

(** ** The life of a job *)
Hypothesis (Hpost : ∀ payload, steps calm_w (post payload)).
Hypothesis (Hsleep : ∀ t, steps calm_w (sleep t)).
Hypothesis (Hacquire : steps calm_w acquire) (Hrelease : steps calm_w release).
Hypothesis (Hturn : ∀ w, (acquire w).2 = Ret tt ∨ (acquire w).2 = Exc OrchestrationQueueTimeoutError).
Hypothesis (Hfree : ∀ w, (release w).2 = Ret tt).

Lemma orchestrator_ends (w : world X) id :
  healthy (w_db w) → status_of w id = Some CREATED →
  ∃ w' b, orchestrator_service id w = (w', Ret b) ∧
    healthy (w_db w') ∧ status_of w' id = Some (if b : bool then COMPLETED else FAILED) ∧
    appends (w_db w) (w_db w').
Proof using All.
  apply run_end; try done; [|apply calm_runner].
  intros r. unfold llm_client, generate_plan.
  apply steps_ebind; [apply _|apply Hpost|intros reply; apply steps_of_outcome, _].
Qed.

Lemma tasks_run (s : server X) id :
  sv_tasks s = [id] → healthy (w_db (sv_world s)) → status_of (sv_world s) id = Some CREATED →
  ∃ w st, run_tasks s = Server w (sv_registry s) [] ∧ healthy (w_db w) ∧
    status_of w id = Some st ∧ terminal st = true ∧ appends (w_db (sv_world s)) (w_db w).
Proof using All.
  intros Ht Hh Hst. destruct (orchestrator_ends _ id Hh Hst) as (w & b & Hrun & Hh' & Hst' & Ha).
  exists w, (if b then COMPLETED else FAILED). split_and!; try done; [|by destruct b].
  unfold run_tasks. rewrite Ht. cbn [for_each].
  rewrite run_assoc, (ebind_ret_run _ _ _ _ _ Hrun). by run.
Qed.
End system.

(** Asking for the stream of a job that is there *)
Lemma stream_opens {X : Type} hmac ts id (s : server X) :
  sha256_sized hmac → healthy (w_db (sv_world s)) → script (w_db (sv_world s)) = [] →
  has_job (committed (w_db (sv_world s))) id = true →
  (_active_connections (sv_registry s) < _max_connections (sv_registry s))%Z →
  stream_job_events hmac ts id (Some (create_token hmac ts id)) None s =
    (Server (sv_world s)
       (Registry (_max_connections (sv_registry s)) (_active_connections (sv_registry s) + 1))
       (sv_tasks s), Ret (EventStream id 0)).
Proof.
  intros Hh Hd Hs Hj Hcap. unfold stream_job_events.
  rewrite (ebind_ret_run _ _ s s true).
  - cbn [negb]. rewrite (proj2 (verify_token_exact _ ts id _ Hh) eq_refl). run. cbn [negb].
    rewrite (ebind_ret_run _ _ s s 0%Z) by (by destruct s as [[] ? ?]).
    unfold ebind, acquire_slot, try_acquire. by rewrite (proj2 (Z.leb_gt _ _)) by lia.
  - unfold or_unavailable, try_catch, in_repository, on_server, in_db, zoom, sse_job_exists,
      with_session, query, statement, next_tick. simpl. rewrite Hs. simpl.
    unfold view. simpl. rewrite Hj. by destruct s as [[] ? ?].
Qed.

(** The log of a database that has grown is still numbered. *)
Lemma appends_ids_ok d d' :
  ids_ok (event_logs (committed d)) (next_event_id d) → appends d d' →
  ids_ok (event_logs (committed d')) (next_event_id d') ∧
  (next_event_id d ≤ next_event_id d')%Z ∧
  ∀ e, e ∈ event_logs (committed d) → e ∈ event_logs (committed d').
Proof.
  intros Hids (_ & new & E & Hn). rewrite E. split_and!.
  - rewrite <- (app_nil_r new). eapply ids_ok_extend; [by rewrite app_nil_r|done].
  - apply Hn.
  - intros e He. apply elem_of_app. by left.
Qed.

Lemma job_added_appends id job d d' :
  (script d = [] → script d' = []) → job_added id job d d' → appends d d'.
Proof.
  intros Hs (_ & (now & Hc) & Hn). split; [done|].
  exists [created_event (next_event_id d) id now]. rewrite Hc, apply_ops_logs, Hn.
  split; [done|]. by apply numbered_singleton.
Qed.

(** C5: From the request to the last event.  On a server whose database
    answers and that nobody else uses, whatever the language model answers,
    whatever the generated plan contains and whatever the tools do: a valid
    request is answered with the new job; when the background task is over
    the job is COMPLETED or FAILED; the token of the answer opens the job's
    stream; and the stream yields every event of the job's log in the order of
    the ids (the creation event among them), then STREAM_END with the final
    status, and gives its slot back. *)
Theorem posted_job_observed {X : Type} `{UnicodeData} {Hlim : RecursionLimit} base_dir guess_type
    _endpoint _model (post : json → eff exn (world X) http_reply) detail_msg
    _openscad_bin str_oserror (os : list pystr → world X → execution)
    (sleep : Z → eff exn (world X) unit) describe (acquire free : eff exn (world X) unit)
    hmac errors str_dict secret ts body prompt (s : server X) id us m' :
  (∀ payload, steps calm_w (post payload)) → (∀ t, steps calm_w (sleep t)) →
  steps calm_w acquire → steps calm_w free →
  (∀ w, (acquire w).2 = Ret tt ∨ (acquire w).2 = Exc OrchestrationQueueTimeoutError) →
  (∀ w, (free w).2 = Ret tt) →
  workspace_ready base_dir (w_fs (sv_world s)) →
  sha256_sized hmac → new_token_service secret = Ret ts →
  JobCreateRequest_validate body = Some prompt →
  script (w_db (sv_world s)) = [] →
  ids_ok (event_logs (committed (w_db (sv_world s)))) (next_event_id (w_db (sv_world s))) →
  (0 < next_event_id (w_db (sv_world s)))%Z →
  w_uuids (sv_world s) = id :: us → jobs (committed (w_db (sv_world s))) !! id = None →
  Local.create_workspace base_dir id (w_fs (sv_world s)) = (m', Ret tt) →
  (0 ≤ _active_connections (sv_registry s) < _max_connections (sv_registry s))%Z →
  let handle := handle_request base_dir hmac errors str_dict secret in
  let background := run_tasks base_dir guess_type _endpoint _model post detail_msg _openscad_bin
    str_oserror os sleep describe acquire free in
  ∃ s1 answer, handle (PostJob None body) s = (s1, Created answer) ∧ rs_id answer = id ∧
  ∃ s2 job, handle (GetStream id (Some (stream_token answer)) None) (background s1)
      = (s2, EventStream id 0) ∧
    let d := w_db (sv_world s2) in
    jobs (committed d) !! id = Some job ∧ terminal (job_status job) = true ∧
    (∃ now, created_event (next_event_id (w_db (sv_world s))) id now ∈ event_logs (committed d)) ∧
    let log := events_after id 0 (committed d) in
    ∀ fuel time, (length log < fuel)%nat →
      stream POLL_INTERVAL_SECONDS EVENT_BATCH_SIZE MAX_STREAM_DURATION_SECONDS
        Sse.RETRY_DELAYS_SECONDS id fuel 0 (Stream d time (sv_registry s2) [] None)
      = (Stream d time (sv_registry s) (map ItemEvent log ++ [STREAM_END (job_status job)]) None,
         Ret (Some tt)).
Proof.
  intros Hpost Hsleep Hacq Hfree Hturn Hret Hready Hh Hts Hb Hs Hids Hn Hu Hid Hws Hcap handle background.
  assert (healthy (w_db (sv_world s))) as Hd by (unfold healthy; by rewrite Hs).
  pose proof (get_storage_run base_dir (Server (sv_world s) (sv_registry s) []) Hready) as Hst.
  set (s0 := Server (sv_world s) (sv_registry s) []).
  destruct (create_route_run base_dir hmac ts prompt s0 id us m' Hd Hu Hid Hws)
    as (d1 & now & Hrun & Hadd).
  pose proof (still_create_route base_dir hmac ts prompt s0) as Hstill.
  rewrite Hrun in Hstill. simpl in Hstill.
  set (s1 := Server (World m' d1 us (w_ext (sv_world s0))) (sv_registry s0) (sv_tasks s0 ++ [id])).
  pose proof (job_added_appends _ _ _ _ Hstill Hadd) as Ha1.
  pose proof Hadd as (Hd1 & (t & Hc1) & Hn1).
  assert (status_of (sv_world s1) id = Some CREATED) as Hcr.
  { rewrite status_of_job. simpl. rewrite Hc1. simpl. by rewrite lookup_insert_eq. }
  destruct (tasks_run base_dir guess_type _endpoint _model post detail_msg _openscad_bin str_oserror
    os sleep describe acquire free Hpost Hsleep Hacq Hfree Hturn Hret s1 id eq_refl Hd1 Hcr)
    as (w2 & st & Htasks & Hd2 & Hst2 & Hterm & Ha2).
  rewrite status_of_job in Hst2.
  destruct (jobs (committed (w_db w2)) !! id) as [job|] eqn:Hjob; [|done]. injection Hst2 as <-.
  assert (script (w_db w2) = []) as Hs2 by (by apply Ha2, Ha1).
  destruct (appends_ids_ok _ _ Hids Ha1) as (Hids1 & Hle1 & _).
  destruct (appends_ids_ok _ _ Hids1 Ha2) as (Hids2 & Hle2 & Hsub2).
  simpl in Hle2, Hsub2, Hids2.
  exists s1, (_job_response hmac ts id (new_job prompt None now)). split_and!; [|done|].
  { unfold handle, handle_request. cbn [route].
    rewrite (ebind_ret_run _ _ _ _ _ Hst). unfold with_tokens, with_prompt.
    rewrite Hts, Hb. run. fold s0. by rewrite Hrun. }
  eexists _, job. split.
  { unfold handle, handle_request, background. rewrite Htasks. cbn [route].
    unfold with_tokens. rewrite Hts. run. rewrite (stream_opens hmac ts id _ Hh);
      [reflexivity|done|done| |apply Hcap]. simpl. unfold has_job. by rewrite Hjob. }
  cbv zeta. cbn [sv_world sv_registry]. split_and!; [done..| |].
  { exists t. apply Hsub2. rewrite Hc1, apply_ops_logs. apply elem_of_app. right. by left. }
  intros fuel time Hfuel.
  rewrite (finished_job_replayed _ _ _ _ _ _ _ _ job); [|done|done| |done|done|..].
  - f_equal. f_equal. unfold Sse.release. simpl. rewrite (proj2 (Z.ltb_lt _ _)) by lia.
    destruct (sv_registry s) as [mx a]. simpl. f_equal. lia.
  - split_and!; simpl; [|lia|done]. split; [|done]. unfold script_ok. by rewrite Hs2.
  - unfold EVENT_BATCH_SIZE. lia.
  - unfold MAX_STREAM_DURATION_SECONDS. lia.
  - done.
Qed.

(** ** A whole run *)
Module Demo.
#[export] Instance unicode : UnicodeData := plain_unicode.
#[export] Instance limit : RecursionLimit := limit_100.

(** The model plans one directory. *)
Definition reply_body : bytes :=
  concat (map (λ c, if (c =? 39)%N then [34] else if (c =? 94)%N then [92; 34] else [c])%N
    (ascii_codes "{'content': '[{^action^: ^CREATE_DIRECTORY^, ^path^: ^a^}]'}")).

Definition post (_ : json) : eff exn (world unit) http_reply :=
  ret (Response {| status_code := 200; content_length := None; chunks := [reply_body];
                   cut_off := None |}).

(** The tool is not needed. *)
Definition os (_ : list pystr) (_ : world unit) : execution := {|
  mkdtemp := [py "t"]; spawn := λ _, None; effect := id; reads := []; returncode := None;
  mtime_before := λ _, 0%Z; mtime_after := λ _, 0%Z |}.

Definition no_op : eff exn (world unit) unit := ret tt.
Definition server0 : server unit := ApiFacts.Demo.server0.
Definition body : json := JObj [(PROMPT, JStr (py "a small cube"))].

Definition background (acquire : eff exn (world unit) unit) : server unit → server unit :=
  run_tasks JobFacts.Demo.base JobFacts.Demo.guess (py "http://llm") (py "m") post
    (λ _, []) (py "openscad") (λ _, []) os (λ _, no_op) (λ _, []) acquire no_op.

Definition after_run (acquire : eff exn (world unit) unit) : tables :=
  committed (w_db (sv_world (background acquire (ApiFacts.Demo.handle (PostJob None body)).1))).

(** The plan is carried out; a job whose turn never comes fails. *)
Example whole_run :
  (job_status <$> jobs (after_run no_op) !! 7%N, map message (events_after 7 0 (after_run no_op))) =
  (Some COMPLETED,
   [ py "Job created and workspace initialized.";
     py "[ORCHESTRATION_STARTED] Orchestration started.";
     py "[LLM_ATTEMPT] LLM plan request attempt 1.";
     py "[PLAN_EXECUTED] Final action plan validated, executed, and persisted.";
     py "[ORCHESTRATION_COMPLETED] Orchestration completed." ]).
Proof. vm_compute. reflexivity. Qed.

Example no_turn :
  job_status <$> jobs (after_run (raise OrchestrationQueueTimeoutError)) !! 7%N = Some FAILED.
Proof. vm_compute. reflexivity. Qed.
End Demo.

Lemma posted_job_observed_witness :
  ∃ s1 answer, ApiFacts.Demo.handle (PostJob None Demo.body) = (s1, Created answer) ∧
  ∃ s2 job, handle_request JobFacts.Demo.base Tokens.Demo.hmac ApiFacts.Demo.no_errors
      ApiFacts.Demo.no_str ApiFacts.Demo.secret (GetStream 7 (Some (stream_token answer)) None)
      (Demo.background Demo.no_op s1) = (s2, EventStream 7 0) ∧
    jobs (committed (w_db (sv_world s2))) !! 7%N = Some job ∧ terminal (job_status job) = true.
Proof.
  destruct (posted_job_observed (H := Demo.unicode) (Hlim := Demo.limit) JobFacts.Demo.base JobFacts.Demo.guess
    (py "http://llm") (py "m") Demo.post (λ _, []) (py "openscad") (λ _, []) Demo.os
    (λ _, Demo.no_op) (λ _, []) Demo.no_op Demo.no_op Tokens.Demo.hmac ApiFacts.Demo.no_errors
    ApiFacts.Demo.no_str ApiFacts.Demo.secret Tokens.Demo.service Demo.body (py "a small cube")
    Demo.server0 7 [8%N] (Local.create_workspace JobFacts.Demo.base 7 StorageProps.Demo2.m0).1)
    as (s1 & answer & H1 & _ & s2 & job & H2 & H3 & H4 & _).
  - intros payload. apply steps_ret. apply _.
  - intros t. apply steps_ret. apply _.
  - apply steps_ret. apply _.
  - apply steps_ret. apply _.
  - intros w. left. reflexivity.
  - intros w. reflexivity.
  - exact ApiFacts.Demo.ready.
  - exact Tokens.Demo.hmac_sized.
  - vm_compute. reflexivity.
  - vm_compute. reflexivity.
  - reflexivity.
  - split; constructor.
  - reflexivity.
  - reflexivity.
  - vm_compute. reflexivity.
  - rewrite (surjective_pairing (Local.create_workspace _ _ _)). f_equal.
  - split; reflexivity || discriminate.
  - exists s1, answer. split; [exact H1|]. exists s2, job. split; [exact H2|]. split; assumption.
Defined.
